(* ===== verification/_CoqProject ===== *)
-Q . S2P
Prelude.v
Error.v
Utf8.v
Message.v
Codec.v
Command.v
Framer.v
Greeting.v
Mechanism.v
Plain.v
Options.v
Curve.v
Noise.v
Security.v
Io.v
Handler.v
Handshake.v
HandshakeSafety.v
HandshakeLive.v
HandshakeV2.v
DataPhase.v
Trie.v
Patterns.v
Queue.v
Endpoints.v
Tasks.v
Runtime.v
Session.v
SessionSafety.v
Link.v
Pair.v
Uring.v
UringSafety.v
UringReads.v
Worker.v
WorkerLogic.v
WorkerFlow.v
WorkerBuffers.v
WorkerReplies.v
WorkerHandlers.v
Transport.v
SocketCore.v
CoreSafety.v
CoreTables.v
CoreService.v
Req.v
Rep.v
Coordinator.v
Listener.v
Connecter.v
Router.v
Dealer.v
Envelope.v
PushPull.v
PubSub.v
