(* ===== verification/Prelude.v ===== *)
(** * rzmq: a ZeroMQ (ZMTP 2.0/3.x) library in Rust -- verification development

    This file documents the development and then gives its prelude: notations,
    machine integers, lemmas on octet strings, lists and options, tactics and the
    hint databases.

    ** The program

    rzmq is an asynchronous implementation of ZeroMQ.  A socket of the application
    ([core/src/socket/*_socket.rs]) owns a core ([core/src/socket/core/]), which keeps
    the endpoints it is bound or connected to.  Listeners accept connections and
    connecters make them ([core/src/transport/]); they report to the core over the
    event bus of the context ([core/src/context.rs], [core/src/runtime/]), which also
    counts the actors and waits for them.  Each connection has a session
    ([core/src/sessionx/]): an actor around a protocol handler, which performs the
    ZMTP handshake ([core/src/protocol/zmtp/], [core/src/security/]) and then carries
    frames.  Frames that arrive are handed to the socket type, which reassembles
    and queues messages; what the application sends goes from the socket type,
    through the interface of a connection, to the session.  With the io_uring backend
    ([core/src/io_uring_backend/], [core/src/uring/]) one worker thread carries all
    connections, each by a handler, in place of the sessions.  The building blocks of
    the socket types are in [core/src/socket/patterns/].

    ** What models what

    Octets to frames.
    - [Error]: [error.rs]; [result], the error monad with panics.
    - [Utf8]: what the standard library does with text.
    - [Message]: frames, [message/{msg,flags,blob}.rs].
    - [Codec]: both frame decoders and the encoder,
      [protocol/zmtp/{codec,manual_parser}.rs].
    - [Command]: READY, PING, PONG and ERROR, [protocol/zmtp/command.rs].
    - [Greeting]: the 3.x and 2.0 greetings, [protocol/zmtp/greeting.rs].
    - [Framer]: plain and encrypted framing, [security/{cipher,framer}.rs].

    Security.
    - [Mechanism]: the trait and NULL, [security/{mechanism,null}.rs].
    - [Plain], [Curve], [Noise]: the mechanisms, [security/plain.rs],
      [security/curve/*.rs], [security/noise_xx.rs].
    - [Security]: negotiation, [security/mod.rs].
    - [Options]: socket options and the engine configuration, [socket/options.rs].

    Connections.
    - [Io]: reads, writes, timeouts and cancellation as a monad over a script of
      network events.
    - [Handler]: the protocol handler, [sessionx/{types,cork}.rs],
      [sessionx/protocol_handler/{mod,heartbeat,data_io}.rs].
    - [Handshake]: [sessionx/protocol_handler/{handshake,v2_path}.rs].
    - [HandshakeSafety], [HandshakeLive], [HandshakeV2], [DataPhase]: theorems.
    - [Session]: the session actor, [sessionx/{actor,iface,pipe_manager,regulator}.rs],
      with the commands and events of [runtime/command.rs] and [socket/events.rs].
    - [SessionSafety], [Link], [Pair]: theorems on one session, on the network between
      two, and on two sessions with their cores.
    - [Uring]: the connection handler of the io_uring backend,
      [io_uring_backend/{zmtp_handler,connection_handler}.rs] and the multishot reader
      of its worker; [UringSafety], [UringReads]: theorems on it.
    - [Worker]: the worker of the io_uring backend, [io_uring_backend/worker/*.rs],
      [io_uring_backend/{ops,send_buffer_pool}.rs], [uring/global_state.rs];
      [WorkerLogic]: Hoare rules; [WorkerFlow], [WorkerBuffers], [WorkerReplies]:
      theorems for any class of handlers; [WorkerHandlers]: the worker with ZMTP
      handlers, and runs of it.

    Actors.
    - [Runtime]: events, wait group, latch, drop guard and the context,
      [runtime/*.rs], [context.rs].
    - [Transport]: endpoint strings and final errors, [transport/endpoint.rs].
    - [Listener], [Connecter]: [transport/{tcp,ipc}.rs].
    - [SocketCore]: the core, [socket/core/*.rs], with inproc, [transport/inproc.rs].
    - [CoreSafety], [CoreTables], [CoreService]: theorems on it.

    Sockets.
    - [Trie], [Patterns], [Queue], [Coordinator]: [socket/patterns/*.rs]; the
      distributor is in [PubSub].
    - [Endpoints]: what a socket type sees of its core.
    - [Tasks]: tasks over a shared state, reachability and invariants.
    - [Req], [Rep], [Router], [Dealer]: the socket types as concurrent programs.
    - [Envelope]: theorems on what they say to each other.
    - [PushPull], [PubSub]: the one-way socket types.

    ** How code becomes definitions

    A Rust function is a definition with its name in a module with the name of its
    type; a struct is a record with its fields, an enum an inductive type.  Errors
    are values of [result]; an operation that would unwind yields [Panic].
    Integers are [Z] with wrap-around written out where it can happen.  A hash map
    is a [gmap]; where its iteration order can be observed the order is an argument.

    Asynchronous code appears in four forms.  The protocol handler is sequential:
    its procedures run in the monad of [Io], where a network event may cut a read
    anywhere, a write may fail, time out or stall, and a procedure that waits is
    dropped with the state it has reached.  REQ, REP, ROUTER and DEALER are step
    functions: a step goes from one await or release of a lock to the next, and
    [Tasks.system] interleaves one call of the application, any number of
    handlers, cancellation, and arbitrary changes of the core and the connections.
    The calls of the other sockets and of the patterns are one step each, or the
    steps between their locks where the locks are given up.  Actors with a [select!]
    loop (session, core, listeners, connecters) and the worker are functions from a state and what
    one arm or turn of the loop yields to the next state; what they do to other tasks is a
    trace of effects, and what they ask of the clock, of mailboxes and of tasks is
    an argument.

    Crates are classes: operations, and their documented behaviour as laws ([Dryoc],
    [Snow], [Fibre], [Notify], [Semaphore]).  Each class whose laws a theorem uses
    has an instance, with which the examples compute.

    ** What is proved

    - The octet stream of a connection is a faithful, ordered sequence of frames:
      encoder and decoders are inverse for every cut of the stream, both decoders
      agree, sizes are bounded ([Codec]); the encrypted framing is a reliable
      channel over any synchronised cipher pair ([Framer]); two protocol handlers
      are a reliable channel ([DataPhase.session_channel]), and so are two sessions
      with their cores, heartbeats, timers and failures ([Pair.session_end_to_end]).
    - Commands, greetings, options and envelopes read back as written.
    - Security: what negotiation can yield, agreement of two peers, each handshake
      of honest peers, authentication against arbitrary peers, freshness of nonces;
      and for the whole handshake under an arbitrary network that completion
      implies the configured security ([HandshakeSafety]), also when the session is
      interrupted ([SessionSafety.session_authenticates]), and in the io_uring handler
      under arbitrary completions ([UringSafety.uring_secures]), and so for all
      connections in a run of the worker ([WorkerHandlers.worker_connections]).
    - Lifecycles: a session announces its peer once and ends after its first error
      ([SessionSafety]); so does an io_uring handler ([UringSafety.uring_reports]), whose
      calls all return ([UringReads]); the worker replies to each request at most once
      ([WorkerReplies]) and does not touch a buffer the kernel sends from
      ([WorkerBuffers]); the tables of a core stay well formed ([CoreTables]) and its
      shutdown ends ([CoreSafety]); requests are answered once, lost targets are
      retried with a growing delay ([CoreService]); connecters report once and keep
      trying ([Connecter]), listeners keep to their limit ([Listener]); the context
      does not end before its actors ([Runtime]).
    - Liveness: two peers always complete the handshake from every reachable state
      ([HandshakeLive]); the load balancer starves nobody ([Patterns]); nobody waits
      for a removed pipe ([Coordinator]).
    - Refinement of abstract models: the trie by a bag of prefixes, the tables of
      ROUTER by one map, REQ and REP by their automata, the receive queue by the
      sequence of completed messages, DEALER by conservation of messages, the work
      map of the worker by a queue per descriptor ([WorkerFlow]).
    - Errors: lemmas and theorems that exhibit what the code does where it departs
      from its documentation.

    ** Bounds and fuel

    Loops over a buffer take the length of the buffer as fuel; [Command] shows that
    parsing is total, [Codec] and [Framer] that the fuel is never used up.
    [Io.read_until] recurses on the script of events.  The loop of the security
    handshake ([Handshake.security_loop]) has a fuel that exceeds the number of
    messages of every mechanism.  [Push.select_peer] has a fuel above the number of
    peers ([select_peer_ends]).  [Tasks.run_call] runs a call for a given number of
    steps in examples; the theorems about sockets are on the step relation and have
    no bound.  The loops of [Uring.process_buffered_reads] take a fuel;
    [UringReads.uring_returns] shows that some fuel is enough for every state and
    that more does not change the result; the theorems on the worker hold for every
    fuel.  [Worker.acknowledge_shutdowns] has one round per operation in flight.

    ** Not modelled

    - [message/metadata.rs]: no other file reads or writes the map.
    - ZAP hooks: they return constants.
    - What the operating system does: binding, accepting, connecting, resolving and
      the options of its sockets yield inputs of the models.
    - The tasks that forward the messages of inproc pipes, and in [pipe_manager.rs] of
      the core the functions nothing calls.
    - The socket types are verified against a core that changes arbitrarily, and the
      core against any socket type: handlers start at any time with any frame, the
      tables change at any time, connections answer with any result.
    - Of the io_uring backend the start and end of its thread, ring and tasks, the
      memory it shares with the kernel ([buffer_manager.rs]), the event descriptor
      that wakes it ([signaling_op_sender.rs]), socket addresses of C, and the builder
      of [sqe_builder.rs], which nothing calls; the branches of its feature elsewhere.
    - [throttle/]: a heuristic in floating point.
    - [profiler.rs] and the command-line tool. *)

From Stdlib Require Export ZArith Lia.
From Stdlib Require Strings.Byte.
From Stdlib Require Import Strings.Ascii.
From stdpp Require Export base tactics list gmap strings pretty relations.
#[global] Open Scope Z_scope.

(** ** Notations and hint databases *)

Declare Scope rust_scope.
Delimit Scope rust_scope with rust.
#[global] Open Scope rust_scope.

Create HintDb rzmq.
Create Rewrite HintDb rzmq_len.
Create Rewrite HintDb rzmq_bytes.

Abbreviation byte := Byte.byte.
Abbreviation bytes := (list Byte.byte).

(** ** Bytes and machine integers

    A [u8] is a [byte]; wider integers are [Z] with their wrap-around written
    out.  [u8 z] is the Rust cast [z as u8], [byteZ b] the cast back. *)

Definition byteZ (b : byte) : Z := Z.of_N (Byte.to_N b).

Definition u8 (z : Z) : byte :=
  match Byte.of_N (Z.to_N (z mod 256)) with
  | Some b => b
  | None => Byte.x00
  end.

(** [z as uW] for an unsigned width. *)
Definition wrapU (w z : Z) : Z := z mod 2 ^ w.

(** [z as iW]: two's complement. *)
Definition wrapS (w z : Z) : Z :=
  (z + 2 ^ (w - 1)) mod 2 ^ w - 2 ^ (w - 1).

(** [.len()] as a number. *)
Definition zlen {A} (l : list A) : Z := Z.of_nat (length l).

(** Big-endian bytes of an [n]-byte unsigned integer ([to_be_bytes],
    [put_u16], [put_u32], [put_u64]) and their value ([get_u16], ...). *)
Fixpoint be_bytes (n : nat) (z : Z) : bytes :=
  match n with
  | O => []
  | S n' => u8 (z / 256 ^ Z.of_nat n') :: be_bytes n' z
  end.

(** Little-endian: [to_ne_bytes] and [from_ne_bytes] on the supported targets. *)
Definition le_bytes (n : nat) (z : Z) : bytes := rev (be_bytes n z).

Fixpoint be_value (l : bytes) : Z :=
  match l with
  | [] => 0
  | b :: l' => byteZ b * 256 ^ zlen l' + be_value l'
  end.

Definition le_value (l : bytes) : Z := be_value (rev l).

(** Byte string literals. *)
Definition bs (s : string) : bytes := String.list_byte_of_string s.
Arguments bs s%_string_scope.

#[export] Instance byte_eq_decision : EqDecision byte := Byte.byte_eq_dec.

#[export] Instance byte_inhabited : Inhabited byte := populate Byte.x00.

#[export] Instance byte_countable : Countable byte :=
  inj_countable Byte.to_N Byte.of_N Byte.of_to_N.

(** [starts_with] on slices. *)
Fixpoint starts_with (p l : bytes) : bool :=
  match p, l with
  | [], _ => true
  | _, [] => false
  | a :: p', b :: l' => Byte.eqb a b && starts_with p' l'
  end.

(** ** [format!] with decimal arguments: each "{}" takes the next argument. *)

Fixpoint format (t : string) (args : list string) : string :=
  match t with
  | EmptyString => EmptyString
  | String "{" (String "}" t') =>
      match args with
      | a :: args' => String.append a (format t' args')
      | [] => String "{" (String "}" (format t' []))
      end
  | String c t' => String c (format t' args)
  end%char.

(** ** Record update: [r <| field := v |>]

    A record type declares its eta expansion; the update of a field is derived
    from it by abstracting the projection. *)

Class Eta (R : Type) := eta_expand : R -> R.

Class Update {R F : Type} (proj : R -> F) := update : (F -> F) -> R -> R.
Arguments update {R F} proj {_} g r.

Ltac derive_update :=
  match goal with
  | |- @Update ?R _ ?proj =>
      let i := constr:(_ : Eta R) in
      let body := eval hnf in i in
      match eval pattern proj in body with
      | ?k _ => exact (fun g => k (fun r => g (proj r)))
      end
  end.

#[export] Hint Extern 1 (Update _) => derive_update : typeclass_instances.

Notation "r <| f := v |>" := (update f (fun _ => v) r)
  (at level 1, left associativity, f at next level, format "r  <| f  :=  v |>") : rust_scope.

(** ** Tactics *)

(** Case split on the boolean integer tests of the goal. *)
Ltac zbool :=
  repeat match goal with
  | |- context [Z.ltb ?a ?b] => destruct (Z.ltb_spec a b)
  | |- context [Z.leb ?a ?b] => destruct (Z.leb_spec a b)
  | |- context [Z.eqb ?a ?b] => destruct (Z.eqb_spec a b)
  end.

(** The same for the tests of a hypothesis. *)
Ltac zbool_in H :=
  repeat match type of H with
  | context [Z.ltb ?a ?b] => destruct (Z.ltb_spec a b)
  | context [Z.leb ?a ?b] => destruct (Z.leb_spec a b)
  | context [Z.eqb ?a ?b] => destruct (Z.eqb_spec a b)
  end.

(** Lengths in [Z] down to linear arithmetic on [nat] lengths. *)
Ltac zlen_norm :=
  unfold zlen in *;
  repeat (rewrite ?length_app, ?length_drop, ?length_take, ?length_fmap,
            ?length_rev, ?length_replicate in *; simpl length in * ).
Ltac zlen_lia := zlen_norm; lia.

(** Appends to the right. *)
Ltac app_norm := repeat (cbn [app]; rewrite <- ?app_assoc).

(** ** Generic lemmas *)

Lemma byteZ_range b : 0 <= byteZ b < 256.
Proof.
  unfold byteZ. pose proof (Byte.to_N_bounded b). lia.
Qed.

Lemma byteZ_u8 z : byteZ (u8 z) = z mod 256.
Proof.
  unfold byteZ, u8.
  pose proof (Z.mod_pos_bound z 256 ltac:(lia)) as Hr.
  destruct (Byte.of_N (Z.to_N (z mod 256))) as [b|] eqn:E.
  - apply Byte.to_of_N in E. rewrite E, Z2N.id; lia.
  - apply Byte.of_N_None_iff in E. lia.
Qed.

Lemma byteZ_inj a b : byteZ a = byteZ b -> a = b.
Proof.
  unfold byteZ. intros H. apply N2Z.inj in H.
  pose proof (Byte.of_to_N a) as Ha. rewrite H, Byte.of_to_N in Ha.
  by inv Ha.
Qed.

Lemma u8_byteZ b : u8 (byteZ b) = b.
Proof.
  apply byteZ_inj. rewrite byteZ_u8. apply Z.mod_small, byteZ_range.
Qed.

Lemma byteZ_u8_small z : 0 <= z < 256 -> byteZ (u8 z) = z.
Proof. intros. rewrite byteZ_u8. by apply Z.mod_small. Qed.

Lemma zlen_nonneg {A} (l : list A) : 0 <= zlen l.
Proof. zlen_lia. Qed.

Lemma zlen_nil {A} : zlen (@nil A) = 0.
Proof. done. Qed.

Lemma zlen_cons {A} (a : A) l : zlen (a :: l) = 1 + zlen l.
Proof. zlen_lia. Qed.

Lemma zlen_app {A} (l k : list A) : zlen (l ++ k) = zlen l + zlen k.
Proof. zlen_lia. Qed.

Lemma zlen_0 {A} (l : list A) : zlen l = 0 <-> l = [].
Proof. destruct l; [done|]. rewrite zlen_cons. pose proof (zlen_nonneg l). split; [lia|done]. Qed.

Lemma length_be_bytes n z : length (be_bytes n z) = n.
Proof. revert z. induction n; intros; simpl; auto. Qed.

Lemma zlen_be_bytes n z : zlen (be_bytes n z) = Z.of_nat n.
Proof. unfold zlen. by rewrite length_be_bytes. Qed.

#[export] Hint Rewrite @zlen_nil @zlen_cons @zlen_app zlen_be_bytes : rzmq_len.
#[export] Hint Resolve zlen_nonneg byteZ_range : rzmq.

Lemma be_value_bytes n z : be_value (be_bytes n z) = z mod 256 ^ Z.of_nat n.
Proof.
  induction n as [|n IH]; cbn [be_bytes be_value].
  - by rewrite Z.mod_1_r.
  - rewrite IH, byteZ_u8, zlen_be_bytes.
    replace (Z.of_nat (S n)) with (Z.of_nat n + 1) by lia.
    rewrite Z.pow_add_r, Z.pow_1_r by lia.
    rewrite Z.rem_mul_r by lia. lia.
Qed.

Lemma be_value_bytes_small n z :
  0 <= z < 256 ^ Z.of_nat n -> be_value (be_bytes n z) = z.
Proof. intros. rewrite be_value_bytes. by apply Z.mod_small. Qed.

Lemma be_value_range l : 0 <= be_value l < 256 ^ zlen l.
Proof.
  induction l as [|b l IH]; cbn [be_value].
  - by vm_compute.
  - rewrite zlen_cons, Z.pow_add_r by (pose proof (zlen_nonneg l); lia).
    pose proof (byteZ_range b). pose proof (zlen_nonneg l). nia.
Qed.

Lemma be_value_app l k :
  be_value (l ++ k) = be_value l * 256 ^ zlen k + be_value k.
Proof.
  induction l as [|b l IH]; cbn [be_value app]; [lia|].
  rewrite IH, zlen_app, Z.pow_add_r by eauto using zlen_nonneg. lia.
Qed.

Lemma be_bytes_mod n z : be_bytes n (z mod 256 ^ Z.of_nat n) = be_bytes n z.
Proof.
  induction n as [|n IH] using nat_ind; [done|].
  assert (Hgen : forall k, (k <= S n)%nat ->
            be_bytes k (z mod 256 ^ Z.of_nat (S n)) = be_bytes k z); [|by apply Hgen].
  clear IH. induction k as [|k IHk]; intros Hk; [done|].
  cbn [be_bytes]. rewrite IHk by lia. f_equal. apply byteZ_inj. rewrite !byteZ_u8.
  replace (Z.of_nat (S n)) with (Z.of_nat k + (1 + Z.of_nat (n - k))) by lia.
  rewrite Z.pow_add_r by lia.
  rewrite Z.rem_mul_r by lia.
  rewrite (Z.mul_comm (256 ^ Z.of_nat k)), Z.div_add by lia.
  rewrite (Z.div_small (z mod _)) by (apply Z.mod_pos_bound; lia).
  rewrite Z.add_0_l, Z.pow_add_r, Z.pow_1_r by lia.
  rewrite Z.rem_mul_r by lia.
  rewrite Z.mul_comm, Z.mod_add, Z.mod_mod by lia. done.
Qed.

Lemma be_bytes_value l : be_bytes (length l) (be_value l) = l.
Proof.
  induction l as [|b l IH]; [done|]. cbn [length be_bytes be_value].
  pose proof (be_value_range l) as Hr.
  f_equal.
  - apply byteZ_inj. rewrite byteZ_u8. unfold zlen in *.
    rewrite Z.add_comm, Z.div_add, Z.div_small by lia.
    apply Z.mod_small, byteZ_range.
  - rewrite <- be_bytes_mod. unfold zlen in *.
    rewrite Z.add_comm, Z.mod_add, Z.mod_small by lia. done.
Qed.

Lemma wrapS_range w z : 0 < w -> - 2 ^ (w - 1) <= wrapS w z < 2 ^ (w - 1).
Proof.
  intros. unfold wrapS. pose proof (Z.mod_pos_bound (z + 2 ^ (w - 1)) (2 ^ w) ltac:(lia)).
  assert (2 ^ w = 2 * 2 ^ (w - 1)) by (rewrite <- Z.pow_succ_r by lia; f_equal; lia). lia.
Qed.

Lemma wrapS_id w z : 0 < w -> - 2 ^ (w - 1) <= z < 2 ^ (w - 1) -> wrapS w z = z.
Proof.
  intros. unfold wrapS.
  assert (2 ^ w = 2 * 2 ^ (w - 1)) by (rewrite <- Z.pow_succ_r by lia; f_equal; lia).
  rewrite Z.mod_small by lia. lia.
Qed.

Lemma wrapS_mod w z : 0 < w -> wrapS w (z mod 2 ^ w) = wrapS w z.
Proof. intros. unfold wrapS. by rewrite Zplus_mod_idemp_l. Qed.

Lemma le_value_bytes n z : le_value (le_bytes n z) = z mod 256 ^ Z.of_nat n.
Proof. unfold le_value, le_bytes. rewrite rev_involutive. apply be_value_bytes. Qed.

Lemma length_le_bytes n z : length (le_bytes n z) = n.
Proof. unfold le_bytes. by rewrite length_rev, length_be_bytes. Qed.

#[export] Hint Rewrite be_value_bytes_small be_bytes_value byteZ_u8_small
  u8_byteZ using lia : rzmq_bytes.

(** Rule induction on reachable states. *)
Lemma rtc_invariant {A} (R : relation A) (P : A -> Prop) x y :
  rtc R x y -> P x -> (forall a b, P a -> R a b -> P b) -> P y.
Proof. intros Hr Hx Hstep. induction Hr; eauto. Qed.

Lemma starts_with_spec p l : starts_with p l = true <-> p `prefix_of` l.
Proof.
  revert l. induction p as [|a p IH]; intros [|b l]; cbn.
  - split; [by exists []|done].
  - split; [by exists (b :: l)|done].
  - split; [done|]. by intros [? ?].
  - rewrite andb_true_iff, IH. split.
    + intros [->%Byte.byte_dec_bl [k ->]]. by exists k.
    + intros [k [= -> ->]]. split; [by apply Byte.byte_dec_lb|by exists k].
Qed.

Lemma starts_with_app p l : starts_with p (p ++ l) = true.
Proof. apply starts_with_spec. by exists l. Qed.

Lemma take_app_le' {A} (l k : list A) n :
  (n <= length l)%nat -> take n (l ++ k) = take n l.
Proof. intros. by rewrite take_app_le. Qed.
