(* ===== verification/Error.v ===== *)
(** Errors and fallible code: [core/src/error.rs].

    [ZmqError] has the constructors of the source enum.  [result] is the Rust
    [Result<T, ZmqError>] with one more value, [Panic], for an operation that
    would unwind (an index out of range, [unwrap] on [None] or [Err]), so that
    the absence of panics is a statement about the definitions. *)

From S2P Require Import Prelude.

(** The [std::io::ErrorKind]s the source distinguishes; any other kind is
    given by its [Display] text. *)
Inductive ErrorKind :=
| KAddrInUse | KAddrNotAvailable | KConnectionRefused | KPermissionDenied
| KTimedOut | KConnectionReset | KBrokenPipe | KUnexpectedEof | KOther (text : string).

Inductive ZmqError :=
| IoError (kind : ErrorKind) (message : string)
| InvalidArgument (s : string)
| Timeout
| AddrInUse (s : string)
| AddrNotAvailable (s : string)
| ConnectionRefused (s : string)
| HostUnreachable (s : string)
| NetworkUnreachable (s : string)
| ConnectionClosed
| PermissionDenied (s : string)
| InvalidEndpoint (s : string)
| EndpointResolutionFailed (s : string)
| DnsResolutionFailed (s : string)
| InvalidOption (id : Z)
| InvalidOptionValue (id : Z)
| InvalidSocketType (s : string)
| InvalidState (s : string)
| ProtocolViolation (s : string)
| InvalidMessage (s : string)
| SecurityError (s : string)
| InvalidCurveKey
| AuthenticationFailure (s : string)
| EncryptionError (s : string)
| ResourceLimitReached
| UnsupportedTransport (s : string)
| UnsupportedOption (id : Z)
| UnsupportedFeature (s : string)
| Internal (s : string).

#[export] Instance ErrorKind_eq_dec : EqDecision ErrorKind.
Proof. solve_decision. Defined.
#[export] Instance ZmqError_eq_dec : EqDecision ZmqError.
Proof. solve_decision. Defined.

Inductive result (A : Type) :=
| Ok (a : A)
| Err (e : ZmqError)
| Panic.
Arguments Ok {A} a.
Arguments Err {A} e.
Arguments Panic {A}.

#[export] Instance result_eq_dec `{EqDecision A} : EqDecision (result A).
Proof. solve_decision. Defined.

#[export] Instance result_ret : MRet result := fun A a => Ok a.
#[export] Instance result_bind : MBind result := fun A B f m =>
  match m with
  | Ok a => f a
  | Err e => Err e
  | Panic => Panic
  end.
#[export] Instance result_fmap : FMap result := fun A B f m =>
  match m with
  | Ok a => Ok (f a)
  | Err e => Err e
  | Panic => Panic
  end.

(** [.ok()] of a [Result]. *)
Definition ok {A} (r : result A) : option A :=
  match r with Ok a => Some a | _ => None end.

(** [opt.ok_or(e)?] and [opt.unwrap()]. *)
Definition ok_or {A} (o : option A) (e : ZmqError) : result A :=
  match o with Some a => Ok a | None => Err e end.
Definition unwrap {A} (o : option A) : result A :=
  match o with Some a => Ok a | None => Panic end.

(** [r.map_err(f)]. *)
Definition map_err {A} (r : result A) (f : ZmqError -> ZmqError) : result A :=
  match r with Err e => Err (f e) | _ => r end.

Definition no_panic {A} (r : result A) : Prop := r <> Panic.

(** Slice expressions [l[n..]], [l[..n]], [l[a..b]], [l[i]] and [split_to]:
    out of range they panic. *)
Definition slice_from {A} (l : list A) (n : Z) : result (list A) :=
  if (0 <=? n) && (n <=? zlen l) then Ok (drop (Z.to_nat n) l) else Panic.
Definition slice_to {A} (l : list A) (n : Z) : result (list A) :=
  if (0 <=? n) && (n <=? zlen l) then Ok (take (Z.to_nat n) l) else Panic.
Definition slice {A} (l : list A) (a b : Z) : result (list A) :=
  if (0 <=? a) && (a <=? b) && (b <=? zlen l)
  then Ok (take (Z.to_nat (b - a)) (drop (Z.to_nat a) l)) else Panic.
Definition index {A} (l : list A) (i : Z) : result A :=
  if 0 <=? i then unwrap (l !! Z.to_nat i) else Panic.
Definition split_to {A} (l : list A) (n : Z) : result (list A * list A) :=
  if (0 <=? n) && (n <=? zlen l)
  then Ok (take (Z.to_nat n) l, drop (Z.to_nat n) l) else Panic.

(** [bytes::Buf] reads; they panic when too few bytes remain. *)
Definition get_uint (n : nat) (l : bytes) : result (Z * bytes) :=
  '(a, r) ← split_to l (Z.of_nat n); Ok (be_value a, r).
Definition get_u8 (l : bytes) : result (byte * bytes) :=
  match l with b :: r => Ok (b, r) | [] => Panic end.

(** Modelled: [impl From<io::Error> for ZmqError]. *)
Definition from_io (kind : ErrorKind) (message : string) : ZmqError :=
  IoError kind message.

(** [ZmqError::from_io_endpoint]. *)
Definition from_io_endpoint (kind : ErrorKind) (message endpoint : string) : ZmqError :=
  match kind with
  | KAddrInUse => AddrInUse endpoint
  | KAddrNotAvailable => AddrNotAvailable endpoint
  | KConnectionRefused => ConnectionRefused endpoint
  | KPermissionDenied => PermissionDenied endpoint
  | KTimedOut => Timeout
  | KConnectionReset | KBrokenPipe => ConnectionClosed
  | _ => from_io kind message
  end.

(** [Display] of [ErrorKind] and, from the [#[error]] attributes, of [ZmqError]. *)
Definition kind_text (k : ErrorKind) : string :=
  match k with
  | KAddrInUse => "address in use"
  | KAddrNotAvailable => "address not available"
  | KConnectionRefused => "connection refused"
  | KPermissionDenied => "permission denied"
  | KTimedOut => "timed out"
  | KConnectionReset => "connection reset"
  | KBrokenPipe => "broken pipe"
  | KUnexpectedEof => "unexpected end of file"
  | KOther text => text
  end.

Definition display (e : ZmqError) : string :=
  match e with
  | IoError kind message => format "I/O error: {} - {}" [kind_text kind; message]
  | InvalidArgument s => format "Invalid argument provided: {}" [s]
  | Timeout => "Operation timed out"
  | AddrInUse s => format "Address already in use: {}" [s]
  | AddrNotAvailable s => format "Address not available: {}" [s]
  | ConnectionRefused s => format "Connection refused by peer: {}" [s]
  | HostUnreachable s => format "Host is unreachable: {}" [s]
  | NetworkUnreachable s => format "Network is unreachable: {}" [s]
  | ConnectionClosed => "Connection closed by peer or transport"
  | PermissionDenied s => format "Permission denied for endpoint: {}" [s]
  | InvalidEndpoint s => format "Invalid endpoint format: {}" [s]
  | EndpointResolutionFailed s => format "Endpoint resolution failed: {}" [s]
  | DnsResolutionFailed s => format "DNS resolution failed: {}" [s]
  | InvalidOption id => format "Invalid socket option ID: {}" [pretty id]
  | InvalidOptionValue id => format "Invalid value provided for option ID {}" [pretty id]
  | InvalidSocketType s => format "Operation is invalid for the socket type ({})" [s]
  | InvalidState s => format "Operation is invalid for the current socket state: {}" [s]
  | ProtocolViolation s => format "ZMTP protocol violation: {}" [s]
  | InvalidMessage s => format "Invalid message format for operation: {}" [s]
  | SecurityError s => format "Security error: {}" [s]
  | InvalidCurveKey => "Invalid Curve25519 key provided"
  | AuthenticationFailure s => format "Authentication failed: {}" [s]
  | EncryptionError s => format "Encryption/Decryption error: {}" [s]
  | ResourceLimitReached => "Resource limit reached (e.g., HWM)"
  | UnsupportedTransport s => format "Transport scheme not supported or enabled: {}" [s]
  | UnsupportedOption id => format "Socket option not supported: {}" [pretty id]
  | UnsupportedFeature s => format "Feature not supported or enabled: {}" [s]
  | Internal s => format "Internal library error: {}" [s]
  end.

(** ** Lemmas *)

Lemma bind_Ok {A B} (m : result A) (f : A -> result B) b :
  (m ≫= f) = Ok b <-> exists a, m = Ok a /\ f a = Ok b.
Proof.
  destruct m; cbn; split; first [by eauto | by intros (? & [= <-] & ?) | by intros (? & ? & ?) | done].
Qed.

Lemma bind_no_panic {A B} (m : result A) (f : A -> result B) :
  no_panic m -> (forall a, m = Ok a -> no_panic (f a)) -> no_panic (m ≫= f).
Proof. unfold no_panic. destruct m; cbn; auto. Qed.

Lemma Ok_inj {A} (a b : A) : Ok a = Ok b -> a = b.
Proof. by intros [= ->]. Qed.

Lemma ok_or_no_panic {A} (o : option A) e : no_panic (ok_or o e).
Proof. by destruct o. Qed.

Lemma map_err_no_panic {A} (r : result A) f : no_panic r -> no_panic (map_err r f).
Proof. by destruct r. Qed.

Lemma split_to_app {A} (l k : list A) n :
  zlen l = n -> split_to (l ++ k) n = Ok (l, k).
Proof.
  intros <-. unfold split_to.
  replace ((0 <=? zlen l) && (zlen l <=? zlen (l ++ k))) with true.
  - unfold zlen. by rewrite Nat2Z.id, take_app_length, drop_app_length.
  - symmetry. apply andb_true_intro. rewrite !Z.leb_le, zlen_app. zlen_lia.
Qed.

Lemma split_to_Ok {A} (l a b : list A) n :
  split_to l n = Ok (a, b) <-> 0 <= n /\ l = a ++ b /\ zlen a = n.
Proof.
  split.
  - unfold split_to. destruct ((0 <=? n) && (n <=? zlen l)) eqn:E; [|done].
    apply andb_prop in E as [E1 E2]. rewrite Z.leb_le in E1, E2.
    intros [= <- <-]. rewrite take_drop. repeat split; [lia|zlen_lia].
  - intros (? & -> & ?). by apply split_to_app.
Qed.

Lemma split_to_no_panic {A} (l : list A) n :
  0 <= n <= zlen l -> exists a b, split_to l n = Ok (a, b) /\ l = a ++ b /\ zlen a = n.
Proof.
  intros Hn. exists (take (Z.to_nat n) l), (drop (Z.to_nat n) l).
  rewrite split_to_Ok, take_drop. repeat split; [lia|zlen_lia..].
Qed.

Lemma slice_from_app {A} (l k : list A) n : zlen l = n -> slice_from (l ++ k) n = Ok k.
Proof.
  intros Hn. pose proof (split_to_app l k n Hn) as H. unfold split_to in H. unfold slice_from.
  destruct (_ && _); congruence.
Qed.

Lemma slice_from_Ok {A} (l : list A) n :
  0 <= n <= zlen l -> slice_from l n = Ok (drop (Z.to_nat n) l).
Proof. intros Hn. unfold slice_from. by replace (_ && _) with true by lia. Qed.

Lemma get_uint_app n z k :
  0 <= z < 256 ^ Z.of_nat n -> get_uint n (be_bytes n z ++ k) = Ok (z, k).
Proof.
  intros. unfold get_uint. rewrite split_to_app by apply zlen_be_bytes. cbn.
  by rewrite be_value_bytes_small.
Qed.

Lemma get_uint_no_panic n (l : bytes) :
  Z.of_nat n <= zlen l ->
  exists a b, get_uint n l = Ok (be_value a, b) /\ l = a ++ b /\ zlen a = Z.of_nat n.
Proof.
  intros H. destruct (split_to_no_panic l (Z.of_nat n)) as (a & b & E & ? & ?); [lia|].
  exists a, b. unfold get_uint. by rewrite E.
Qed.

Lemma index_app {A} (l r : list A) a n : zlen l = n -> index (l ++ a :: r) n = Ok a.
Proof.
  intros <-. unfold index. rewrite (proj2 (Z.leb_le _ _)) by apply zlen_nonneg.
  unfold zlen. rewrite Nat2Z.id, lookup_app_r, Nat.sub_diag by lia. done.
Qed.

Lemma index_lookup {A} (l : list A) n a :
  l !! Z.to_nat n = Some a -> 0 <= n -> index l n = Ok a.
Proof. intros Hl Hn%Z.leb_le. unfold index. by rewrite Hn, Hl. Qed.

Lemma slice_app {A} (l m r : list A) a b :
  zlen l = a -> a + zlen m = b -> slice (l ++ m ++ r) a b = Ok m.
Proof.
  intros <- <-. unfold slice. pose proof (zlen_nonneg l). pose proof (zlen_nonneg m).
  replace (_ && _ && _) with true.
  - unfold zlen. rewrite Z.add_comm, Z.add_simpl_r, !Nat2Z.id.
    by rewrite drop_app_length, take_app_length.
  - symmetry. rewrite !andb_true_iff, !Z.leb_le, !zlen_app. pose proof (zlen_nonneg r). lia.
Qed.

Lemma index_at {A} (l r : list A) a data n :
  data = l ++ a :: r -> zlen l = n -> index data n = Ok a.
Proof. intros ->. apply index_app. Qed.

Lemma slice_at {A} (l m r : list A) data a b :
  data = l ++ m ++ r -> zlen l = a -> a + zlen m = b -> slice data a b = Ok m.
Proof. intros ->. apply slice_app. Qed.

Lemma split_at {A} (l : list A) n :
  0 <= n <= zlen l -> exists a b, l = a ++ b /\ zlen a = n /\ zlen b = zlen l - n.
Proof.
  intros H. exists (take (Z.to_nat n) l), (drop (Z.to_nat n) l).
  rewrite take_drop. split_and!; [done|zlen_lia..].
Qed.

Lemma uncons {A} (l : list A) : 1 <= zlen l -> exists a r, l = a :: r /\ zlen r = zlen l - 1.
Proof. destruct l as [|a r]; [done|]. exists a, r. rewrite zlen_cons. split; [done|lia]. Qed.

#[export] Hint Resolve ok_or_no_panic map_err_no_panic : rzmq.

(** Case analysis on the result of a bind in a hypothesis. *)
Ltac bind_inv H :=
  repeat match type of H with
  | (_ ≫= _) = Ok _ => apply bind_Ok in H; destruct H as (? & ? & H); cbn beta in H
  | (let '(_, _) := ?p in _) = _ => destruct p
  end.
