(* ===== verification/Utf8.v ===== *)
(** Text of the standard library: UTF-8 validation as [core::str::from_utf8]
    accepts it, and the hexadecimal formatting of an octet. *)

From S2P Require Import Prelude.
From Stdlib Require Import Strings.Ascii.

Definition in_range (lo hi : Z) (b : byte) : bool := (lo <=? byteZ b) && (byteZ b <=? hi).
Definition is_cont (b : byte) : bool := in_range 128 191 b.

(** The admissible second octets after the first octet [a] of a sequence of
    three or four. *)
Definition second3 (a b : byte) : bool :=
  if byteZ a =? 224 then in_range 160 191 b
  else if byteZ a =? 237 then in_range 128 159 b
  else is_cont b.
Definition second4 (a b : byte) : bool :=
  if byteZ a =? 240 then in_range 144 191 b
  else if byteZ a =? 244 then in_range 128 143 b
  else is_cont b.

Fixpoint utf8_valid (l : bytes) : bool :=
  match l with
  | [] => true
  | a :: l1 =>
      if byteZ a <? 128 then utf8_valid l1
      else if in_range 194 223 a then
        match l1 with
        | b :: l2 => is_cont b && utf8_valid l2
        | _ => false
        end
      else if in_range 224 239 a then
        match l1 with
        | b :: c :: l3 => second3 a b && is_cont c && utf8_valid l3
        | _ => false
        end
      else if in_range 240 244 a then
        match l1 with
        | b :: c :: d :: l4 => second4 a b && is_cont c && is_cont d && utf8_valid l4
        | _ => false
        end
      else false
  end.

(** [String::from_utf8_lossy]: each maximal invalid piece becomes U+FFFD. *)
Definition replacement : bytes := [Byte.xef; Byte.xbf; Byte.xbd].

Fixpoint utf8_lossy (l : bytes) : bytes :=
  match l with
  | [] => []
  | a :: l1 =>
      if byteZ a <? 128 then a :: utf8_lossy l1
      else if in_range 194 223 a then
        match l1 with
        | b :: l2 => if is_cont b then a :: b :: utf8_lossy l2 else replacement ++ utf8_lossy l1
        | [] => replacement
        end
      else if in_range 224 239 a then
        match l1 with
        | b :: l2 =>
            if second3 a b then
              match l2 with
              | c :: l3 => if is_cont c then a :: b :: c :: utf8_lossy l3
                           else replacement ++ utf8_lossy l2
              | [] => replacement
              end
            else replacement ++ utf8_lossy l1
        | [] => replacement
        end
      else if in_range 240 244 a then
        match l1 with
        | b :: l2 =>
            if second4 a b then
              match l2 with
              | c :: l3 =>
                  if is_cont c then
                    match l3 with
                    | d :: l4 => if is_cont d then a :: b :: c :: d :: utf8_lossy l4
                                 else replacement ++ utf8_lossy l3
                    | [] => replacement
                    end
                  else replacement ++ utf8_lossy l2
              | [] => replacement
              end
            else replacement ++ utf8_lossy l1
        | [] => replacement
        end
      else replacement ++ utf8_lossy l1
  end.

(** The text of valid octets, for messages. *)
Definition text (l : bytes) : string := String.string_of_list_byte l.
Definition text_lossy (l : bytes) : string := text (utf8_lossy l).

(** [trim_end_matches('\0')]. *)
Fixpoint trim_end_nul (l : bytes) : bytes :=
  match l with
  | [] => []
  | b :: l' =>
      match trim_end_nul l' with
      | [] => if Byte.eqb b Byte.x00 then [] else [b]
      | t => b :: t
      end
  end.

(** [{:#04x}] of a u8. *)
Definition hex_digit (z : Z) : ascii :=
  ascii_of_N (Z.to_N (if z <? 10 then 48 + z else 87 + z)).

Definition hex04 (b : byte) : string :=
  String.append "0x" (String (hex_digit (byteZ b / 16)) (String (hex_digit (byteZ b mod 16)) EmptyString)).

(** [{:?}] of a string without characters to escape. *)
Definition debug_str (s : string) : string :=
  let quote := ascii_of_N 34 in
  String quote (String.append s (String quote EmptyString)).

(** ASCII octets are valid UTF-8. *)
Lemma utf8_ascii l : Forall (fun b => byteZ b < 128) l -> utf8_valid l = true.
Proof.
  induction 1 as [|b l Hb%Z.ltb_lt _ IH]; [done|]. cbn [utf8_valid]. by rewrite Hb.
Qed.

(** Lossy decoding keeps valid text as it is. *)
Lemma utf8_lossy_valid l : utf8_valid l = true -> utf8_lossy l = l.
Proof.
  induction l as [l IH] using (induction_ltof1 _ (@length _)); unfold ltof in IH.
  destruct l as [|a l1]; [done|]. cbn [utf8_valid utf8_lossy].
  destruct (byteZ a <? 128).
  { intros H. by rewrite IH by (done || (simpl; lia)). }
  destruct (in_range 194 223 a).
  { destruct l1 as [|b l2]; [done|]. intros [-> H]%andb_prop.
    by rewrite IH by (done || (simpl; lia)). }
  destruct (in_range 224 239 a).
  { destruct l1 as [|b [|c l3]]; [done..|]. intros [[-> ->]%andb_prop H]%andb_prop.
    by rewrite IH by (done || (simpl; lia)). }
  destruct (in_range 240 244 a); [|done].
  destruct l1 as [|b [|c [|d l4]]]; [done..|].
  intros [[[-> ->]%andb_prop ->]%andb_prop H]%andb_prop.
  by rewrite IH by (done || (simpl; lia)).
Qed.
