(* ===== verification/Message.v ===== *)
(** Messages: [core/src/message/{msg,flags,blob}.rs].

    A [Msg] is a frame: an optional payload and a flag set.  The source's
    third field, a shared type map ([metadata]), has no reader or writer
    outside [metadata.rs] and is left out.  [MsgFlags] is the [bitflags] u8. *)

From S2P Require Import Prelude Error.

Module MsgFlags.

Abbreviation MORE := (1)%Z.
Abbreviation COMMAND := (2)%Z.
Definition empty : Z := 0.

(** [bitflags]: [self & other == other]. *)
Definition contains (self other : Z) : bool := Z.land self other =? other.

(** [self |= other]. *)
Definition insert (self other : Z) : Z := Z.lor self other.

End MsgFlags.

Record Msg := mkMsg { m_data : option bytes; m_flags : Z }.

#[export] Instance Msg_eq_dec : EqDecision Msg.
Proof. solve_decision. Defined.
#[export] Instance Msg_inhabited : Inhabited Msg := populate (mkMsg None 0).

Module Msg.

(** [Msg::new] ([Default]). *)
Definition new : Msg := mkMsg None MsgFlags.empty.

(** [Msg::from_vec], [Msg::from_bytes]. *)
Definition from_vec (data : bytes) : Msg := mkMsg (Some data) MsgFlags.empty.
Definition from_bytes (data : bytes) : Msg := mkMsg (Some data) MsgFlags.empty.

Definition data (m : Msg) : option bytes := m_data m.

Definition size (m : Msg) : Z :=
  match m_data m with Some d => zlen d | None => 0 end.

Definition flags (m : Msg) : Z := m_flags m.

Definition set_flags (f : Z) (m : Msg) : Msg := mkMsg (m_data m) f.

Definition is_more (m : Msg) : bool := MsgFlags.contains (m_flags m) MsgFlags.MORE.

Definition is_command (m : Msg) : bool := MsgFlags.contains (m_flags m) MsgFlags.COMMAND.

(** [msg.data().unwrap_or(&[])]. *)
Definition payload (m : Msg) : bytes := default [] (m_data m).

End Msg.

(** [Blob]: an immutable byte sequence. *)
Abbreviation Blob := bytes (only parsing).

Module Blob.
Definition size (b : Blob) : Z := zlen b.
Definition is_empty (b : Blob) : bool := match b with [] => true | _ => false end.
End Blob.

(** The two flag bits a frame can carry, and the [MsgFlags] they make. *)
Definition mk_flags (more command : bool) : Z :=
  (if more then 1 else 0) + (if command then 2 else 0).

(** Every flag value reachable through the bitflags API has only the two
    declared bits. *)
Definition flags_wf (f : Z) : Prop := 0 <= f < 4.

Definition msg_wf (m : Msg) : Prop := flags_wf (m_flags m) /\ is_Some (m_data m).

(** ** Lemmas *)

Lemma contains_more more command :
  MsgFlags.contains (mk_flags more command) MsgFlags.MORE = more.
Proof. by destruct more, command. Qed.

Lemma contains_command more command :
  MsgFlags.contains (mk_flags more command) MsgFlags.COMMAND = command.
Proof. by destruct more, command. Qed.

Lemma mk_flags_wf more command : flags_wf (mk_flags more command).
Proof. destruct more, command; unfold flags_wf, mk_flags; lia. Qed.

Lemma flags_wf_mk f :
  flags_wf f ->
  f = mk_flags (MsgFlags.contains f MsgFlags.MORE) (MsgFlags.contains f MsgFlags.COMMAND).
Proof.
  unfold flags_wf. intros.
  assert (f = 0 \/ f = 1 \/ f = 2 \/ f = 3) as [-> | [-> | [-> | ->]]] by lia; done.
Qed.

Lemma size_payload m : Msg.size m = zlen (Msg.payload m).
Proof. unfold Msg.size, Msg.payload. by destruct (m_data m). Qed.
