(* ===== verification/Codec.v ===== *)
(** ZMTP framing: [core/src/protocol/zmtp/{command,codec,manual_parser}.rs].

    Both decoders of the source (the [tokio_util] codec with its hard cap and
    the session's manual parser with ZMQ_MAXMSGSIZE) are translated as they
    are written, each as a state machine over a receive buffer.  The class
    [FrameDecoder] states what they promise against one grammar of the wire
    ([frame_spec]); the stream theorems are proved from the class. *)

From S2P Require Import Prelude Error Message.

(** ** Frame flags *)

Abbreviation ZMTP_FLAG_LONG := (2)%Z.
Abbreviation ZMTP_FLAG_MORE := (1)%Z.
Abbreviation ZMTP_FLAG_COMMAND := (4)%Z.

(** [(flags & bit) != 0]. *)
Definition flag_set (flags : byte) (bit : Z) : bool := negb (Z.land (byteZ flags) bit =? 0).

(** The [MsgFlags] both decoders build from a flags octet. *)
Definition msg_flags_of (flags : byte) : Z :=
  let f := MsgFlags.empty in
  let f := if flag_set flags ZMTP_FLAG_MORE then MsgFlags.insert f MsgFlags.MORE else f in
  if flag_set flags ZMTP_FLAG_COMMAND then MsgFlags.insert f MsgFlags.COMMAND else f.

(** ** The codec *)

Abbreviation CODEC_MAX_FRAME_SIZE := (64 * 1024 * 1024)%Z.

Record FrameHeader := mkHeader { h_flags : byte; h_size : Z }.

Inductive DecodingState :=
| ReadHeader
| ReadBody (h : FrameHeader).

Record ZmtpCodec := mkCodec {
  decoding_state : DecodingState;
  prefix_bytes : option bytes;
}.

Module ZmtpCodec.

Definition new : ZmtpCodec := mkCodec ReadHeader None.

Definition take_prefix_bytes (c : ZmtpCodec) : ZmtpCodec * option bytes :=
  (mkCodec (decoding_state c) None, prefix_bytes c).

Definition set_prefix_bytes (p : option bytes) (c : ZmtpCodec) : ZmtpCodec :=
  mkCodec (decoding_state c) p.

Definition prime_with_prefix (prefix : bytes) (c : ZmtpCodec) : ZmtpCodec :=
  match prefix with
  | [] => c
  | _ => mkCodec (decoding_state c) (Some prefix)
  end.

(** The flags octet both encoders start from. *)
Definition zmtp_flags_of (msg_flags : Z) : Z :=
  let f := 0 in
  let f := if MsgFlags.contains msg_flags MsgFlags.MORE then Z.lor f ZMTP_FLAG_MORE else f in
  if MsgFlags.contains msg_flags MsgFlags.COMMAND then Z.lor f ZMTP_FLAG_COMMAND else f.

(** [encode_header_only]: flags and length of the frame, without the payload. *)
Definition encode_header_only (item : Msg) (dst : bytes) : bytes * result unit :=
  let data_size := Msg.size item in
  let flags := zmtp_flags_of (Msg.flags item) in
  if data_size <=? 255
  then (dst ++ [u8 flags; u8 data_size], Ok tt)
  else let flags := Z.lor flags ZMTP_FLAG_LONG in
       (dst ++ u8 flags :: be_bytes 8 data_size, Ok tt).

(** [Encoder::encode]. *)
Definition encode (item : Msg) (dst : bytes) : bytes * result unit :=
  let data := default [] (Msg.data item) in
  let size := zlen data in
  let zmtp_flags := zmtp_flags_of (Msg.flags item) in
  let dst :=
    if size <=? 255
    then dst ++ [u8 zmtp_flags] ++ [u8 size]
    else let zmtp_flags := Z.lor zmtp_flags ZMTP_FLAG_LONG in
         dst ++ [u8 zmtp_flags] ++ be_bytes 8 size in
  (dst ++ data, Ok tt).

(** The [ReadBody] arm of the decode loop; it always returns. *)
Definition decode_body (c : ZmtpCodec) (header : FrameHeader) (src : bytes)
  : ZmtpCodec * bytes * result (option Msg) :=
  if zlen src <? h_size header then (c, src, Ok None)
  else match split_to src (h_size header) with
       | Ok (body_bytes, src) =>
           let c := mkCodec ReadHeader (prefix_bytes c) in
           let msg := Msg.from_bytes body_bytes in
           (c, src, Ok (Some (Msg.set_flags (msg_flags_of (h_flags header)) msg)))
       | Err e => (c, src, Err e)
       | Panic => (c, src, Panic)
       end.

(** The [ReadHeader] arm; when the header is complete the loop goes round
    once more, into [decode_body]. *)
Definition decode_header (c : ZmtpCodec) (src : bytes)
  : ZmtpCodec * bytes * result (option Msg) :=
  match src with
  | [] => (c, src, Ok None)
  | flags :: _ =>
      let is_long := flag_set flags ZMTP_FLAG_LONG in
      let header_len := if is_long then 1 + 8 else 1 + 1 in
      if zlen src <? header_len then (c, src, Ok None)
      else match split_to src header_len with
           | Ok (header_bytes, src) =>
               let read :=
                 flags ← index header_bytes 0;
                 raw_size ← (if is_long
                             then len_bytes ← slice_from header_bytes 1;
                                  '(v, _) ← get_uint 8 len_bytes; Ok v
                             else b ← index header_bytes 1; Ok (byteZ b));
                 Ok (flags, raw_size) in
               match read with
               | Ok (flags, raw_size) =>
                   if CODEC_MAX_FRAME_SIZE <? raw_size
                   then (c, src, Err (ProtocolViolation
                     (format "codec: frame size {} exceeds hard cap of {} bytes"
                        [pretty raw_size; pretty CODEC_MAX_FRAME_SIZE])))
                   else
                     let header := mkHeader flags raw_size in
                     decode_body (mkCodec (ReadBody header) (prefix_bytes c)) header src
               | Err e => (c, src, Err e)
               | Panic => (c, src, Panic)
               end
           | Err e => (c, src, Err e)
           | Panic => (c, src, Panic)
           end
  end.

(** [Decoder::decode]: stored prefix bytes go in front of the buffer first. *)
Definition decode (c : ZmtpCodec) (src : bytes)
  : ZmtpCodec * bytes * result (option Msg) :=
  let '(c, p) := take_prefix_bytes c in
  let src := match p with Some prefix => prefix ++ src | None => src end in
  match decoding_state c with
  | ReadHeader => decode_header c src
  | ReadBody header => decode_body c header src
  end.

End ZmtpCodec.

(** ** The manual parser *)

Record ZmtpManualParser := mkParser {
  mp_state : DecodingState;
  max_msg_size : Z;
}.

Module ZmtpManualParser.

Definition new (max : Z) : ZmtpManualParser := mkParser ReadHeader max.

Definition decode_body (p : ZmtpManualParser) (flags : byte) (size : Z) (src : bytes)
  : ZmtpManualParser * bytes * result (option Msg) :=
  if zlen src <? size then (p, src, Ok None)
  else match split_to src size with
       | Ok (body_bytes, src) =>
           let p := mkParser ReadHeader (max_msg_size p) in
           let msg := Msg.from_bytes body_bytes in
           (p, src, Ok (Some (Msg.set_flags (msg_flags_of flags) msg)))
       | Err e => (p, src, Err e)
       | Panic => (p, src, Panic)
       end.

(** [decode_from_buffer]. *)
Definition decode_from_buffer (p : ZmtpManualParser) (src : bytes)
  : ZmtpManualParser * bytes * result (option Msg) :=
  match mp_state p with
  | ReadHeader =>
      match src with
      | [] => (p, src, Ok None)
      | frame_flags_byte :: _ =>
          let is_long := flag_set frame_flags_byte ZMTP_FLAG_LONG in
          let header_len := if is_long then 1 + 8 else 1 + 1 in
          if zlen src <? header_len then (p, src, Ok None)
          else
            let read :=
              '(flags, src) ← get_u8 src;
              '(raw_size, src) ← (if is_long then get_uint 8 src
                                  else '(b, src) ← get_u8 src; Ok (byteZ b, src));
              Ok (flags, raw_size, src) in
            match read with
            | Ok (flags, raw_size, src) =>
                if (0 <=? max_msg_size p) && (wrapU 64 (max_msg_size p) <? raw_size)
                then (p, src, Err (ProtocolViolation
                  (format "frame size {} exceeds ZMQ_MAXMSGSIZE {}"
                     [pretty raw_size; pretty (max_msg_size p)])))
                else decode_body (mkParser (ReadBody (mkHeader flags raw_size)) (max_msg_size p))
                       flags raw_size src
            | Err e => (p, src, Err e)
            | Panic => (p, src, Panic)
            end
      end
  | ReadBody h => decode_body p (h_flags h) (h_size h) src
  end.

End ZmtpManualParser.

(** ** The grammar of the wire

    [frame_spec lim s]: what the octet stream [s] starts with.  [lim] says
    which sizes the receiver refuses, and with which error. *)

Inductive frame_parse :=
| NeedMore
| TooBig (e : ZmqError) (rest : bytes)
| Frame (m : Msg) (rest : bytes).

Definition len_octets (flags : byte) : nat :=
  if flag_set flags ZMTP_FLAG_LONG then 8 else 1.

Definition frame_msg (flags : byte) (body : bytes) : Msg :=
  mkMsg (Some body) (msg_flags_of flags).

Definition frame_spec (lim : Z -> option ZmqError) (s : bytes) : frame_parse :=
  match s with
  | [] => NeedMore
  | flags :: t =>
      let n := len_octets flags in
      if zlen t <? Z.of_nat n then NeedMore
      else
        let size := be_value (take n t) in
        let body := drop n t in
        match lim size with
        | Some e => TooBig e body
        | None =>
            if zlen body <? size then NeedMore
            else Frame (frame_msg flags (take (Z.to_nat size) body))
                   (drop (Z.to_nat size) body)
        end
  end.

(** All the frames of a stream, up to the first refused one: the messages,
    and the octets left over or the error.  A frame takes at least two octets,
    so the length of the stream is enough fuel ([frames_fuel] below). *)
Fixpoint frames_upto (fuel : nat) (lim : Z -> option ZmqError) (s : bytes)
  : list Msg * (bytes + ZmqError) :=
  match fuel with
  | O => ([], inl s)
  | S fuel =>
      match frame_spec lim s with
      | NeedMore => ([], inl s)
      | TooBig e _ => ([], inr e)
      | Frame m rest =>
          let '(ms, r) := frames_upto fuel lim rest in (m :: ms, r)
      end
  end.

Definition frames (lim : Z -> option ZmqError) (s : bytes) :=
  frames_upto (length s) lim s.

(** The refusals of the two decoders. *)
Definition codec_limit (size : Z) : option ZmqError :=
  if CODEC_MAX_FRAME_SIZE <? size
  then Some (ProtocolViolation (format "codec: frame size {} exceeds hard cap of {} bytes"
                                  [pretty size; pretty CODEC_MAX_FRAME_SIZE]))
  else None.

Definition parser_limit (max size : Z) : option ZmqError :=
  if (0 <=? max) && (wrapU 64 max <? size)
  then Some (ProtocolViolation (format "frame size {} exceeds ZMQ_MAXMSGSIZE {}"
                                  [pretty size; pretty max]))
  else None.

(** ** What a frame decoder promises

    On the stream [s] (the octets of the frame in progress and the buffer) it
    returns what the grammar says, and keeps the octets it has not used. *)

Definition decode_post (lim : Z -> option ZmqError) (s : bytes)
  (pending' src' : bytes) (r : result (option Msg)) : Prop :=
  match frame_spec lim s with
  | NeedMore => r = Ok None /\ pending' ++ src' = s
  | TooBig e rest => r = Err e /\ pending' = [] /\ src' = rest
  | Frame m rest => r = Ok (Some m) /\ pending' = [] /\ src' = rest
  end.

Class FrameDecoder (D : Type) := {
  fd_decode : D -> bytes -> D * bytes * result (option Msg);
  (** octets taken off the buffer that belong to the frame in progress *)
  fd_pending : D -> bytes;
  fd_limit : D -> Z -> option ZmqError;
  fd_wf : D -> Prop;
  fd_decode_spec : forall d src, fd_wf d ->
    exists d' src' r, fd_decode d src = (d', src', r) /\
      fd_wf d' /\ fd_limit d' = fd_limit d /\
      decode_post (fd_limit d) (fd_pending d ++ src) (fd_pending d') src' r
}.

(** The receive loop around a decoder: decode until it wants more octets or
    fails ([drain]); do so after each chunk of the network ([feed]). *)
Section Receive.
Context `{FrameDecoder D}.

Fixpoint drain (fuel : nat) (d : D) (buf : bytes) : list Msg * (D * bytes + ZmqError) :=
  match fuel with
  | O => ([], inl (d, buf))
  | S fuel =>
      match fd_decode d buf with
      | (d, buf, Ok (Some m)) =>
          let '(ms, r) := drain fuel d buf in (m :: ms, r)
      | (d, buf, Ok None) => ([], inl (d, buf))
      | (d, buf, Err e) => ([], inr e)
      | (d, buf, Panic) => ([], inr (Internal "panic"))
      end
  end.

Fixpoint feed (d : D) (buf : bytes) (chunks : list bytes)
  : list Msg * (D * bytes + ZmqError) :=
  match chunks with
  | [] => ([], inl (d, buf))
  | c :: chunks =>
      let buf := buf ++ c in
      match drain (S (length (fd_pending d ++ buf))) d buf with
      | (ms, inl (d, buf)) => let '(ms', r) := feed d buf chunks in (ms ++ ms', r)
      | (ms, inr e) => (ms, inr e)
      end
  end.

End Receive.

(** ** Lemmas on the grammar *)

Lemma len_octets_pos f : (1 <= len_octets f)%nat.
Proof. unfold len_octets. case_match; lia. Qed.

Lemma frame_spec_rest lim s m rest :
  frame_spec lim s = Frame m rest -> (length rest + 2 <= length s)%nat.
Proof.
  unfold frame_spec. destruct s as [|f t]; [done|].
  pose proof (len_octets_pos f). repeat case_match; try done.
  intros [= <- <-]. zlen_norm. lia.
Qed.

Lemma frames_fuel lim n s :
  (length s <= n)%nat -> frames_upto n lim s = frames lim s.
Proof.
  unfold frames. revert s.
  assert (Hgen : forall k n s, (length s <= k)%nat -> (length s <= n)%nat ->
            frames_upto n lim s = frames_upto k lim s); [|by intros; apply Hgen].
  clear n. induction k as [|k IH]; intros [|n] s Hk Hn.
  - done.
  - by destruct s; [|simpl in *; lia].
  - by destruct s; [|simpl in *; lia].
  - cbn [frames_upto]. destruct (frame_spec lim s) as [| |m rest] eqn:E; [done..|].
    apply frame_spec_rest in E. by rewrite (IH n rest) by lia.
Qed.

Lemma frames_unfold lim s :
  frames lim s =
  match frame_spec lim s with
  | NeedMore => ([], inl s)
  | TooBig e _ => ([], inr e)
  | Frame m rest => let '(ms, r) := frames lim rest in (m :: ms, r)
  end.
Proof.
  rewrite <- (frames_fuel lim (S (length s)) s) by lia. cbn [frames_upto].
  destruct (frame_spec lim s) as [| |m rest] eqn:E; [done..|].
  apply frame_spec_rest in E. by rewrite frames_fuel by lia.
Qed.

(** Octets that arrive later do not change what has been recognised. *)
Lemma frame_spec_app lim s k :
  match frame_spec lim s with
  | NeedMore => True
  | TooBig e rest => frame_spec lim (s ++ k) = TooBig e (rest ++ k)
  | Frame m rest => frame_spec lim (s ++ k) = Frame m (rest ++ k)
  end.
Proof.
  destruct s as [|f t]; cbn [frame_spec app]; [done|].
  set (n := len_octets f). destruct (Z.ltb_spec (zlen t) (Z.of_nat n)) as [|Hn]; [done|].
  assert (n <= length t)%nat by (unfold zlen in Hn; lia).
  rewrite take_app_le, drop_app_le by done.
  replace (zlen (t ++ k) <? Z.of_nat n) with false by (symmetry; apply Z.ltb_ge; zlen_lia).
  destruct (lim _); [done|].
  set (size := be_value _).
  destruct (Z.ltb_spec (zlen (drop n t)) size) as [|Hs]; [done|].
  assert (0 <= size) by apply be_value_range.
  assert (Z.to_nat size <= length (drop n t))%nat by (unfold zlen in Hs; lia).
  rewrite take_app_le, drop_app_le by done.
  replace (zlen (drop n t ++ k) <? size) with false; [done|].
  symmetry. apply Z.ltb_ge. rewrite zlen_app. pose proof (zlen_nonneg k). lia.
Qed.

(** A stream is parsed in two pieces as in one. *)
Lemma frames_app lim s k :
  frames lim (s ++ k) =
  match frames lim s with
  | (ms, inl rest) => let '(ms', r) := frames lim (rest ++ k) in (ms ++ ms', r)
  | (ms, inr e) => (ms, inr e)
  end.
Proof.
  induction s as [s IH] using (induction_ltof1 _ (@length _)); unfold ltof in IH.
  rewrite (frames_unfold lim s).
  pose proof (frame_spec_app lim s k) as Happ.
  destruct (frame_spec lim s) as [|e rest|m rest] eqn:E.
  - cbn. by destruct (frames lim (s ++ k)).
  - rewrite frames_unfold, Happ. done.
  - rewrite frames_unfold, Happ. apply frame_spec_rest in E.
    rewrite IH by lia. destruct (frames lim rest) as [ms [rest'|e]]; [|done].
    by destruct (frames lim (rest' ++ k)).
Qed.

(** ** The receive loop against the grammar *)

Section ReceiveSpec.
Context `{FrameDecoder D}.

Lemma drain_spec fuel (d : D) buf :
  fd_wf d -> (length (fd_pending d ++ buf) < fuel)%nat ->
  match frames (fd_limit d) (fd_pending d ++ buf) with
  | (ms, inl rest) => exists d' buf', drain fuel d buf = (ms, inl (d', buf')) /\
      fd_wf d' /\ fd_limit d' = fd_limit d /\ fd_pending d' ++ buf' = rest
  | (ms, inr e) => drain fuel d buf = (ms, inr e)
  end.
Proof.
  revert d buf. induction fuel as [|fuel IH]; intros d buf Hwf Hf; [lia|].
  cbn [drain].
  destruct (fd_decode_spec d buf Hwf) as (d' & src' & r & -> & Hwf' & Hlim & Hspec).
  unfold decode_post in Hspec. rewrite frames_unfold.
  destruct (frame_spec _ _) as [|e rest|m rest] eqn:E.
  - destruct Hspec as [-> Hp]. by exists d', src'.
  - by destruct Hspec as (-> & _ & _).
  - destruct Hspec as (-> & Hp & ->). apply frame_spec_rest in E.
    specialize (IH d' rest Hwf'). rewrite Hp, Hlim in IH. cbn [app] in IH.
    specialize (IH ltac:(lia)).
    destruct (frames _ rest) as [ms [rest'|e]].
    + destruct IH as (d'' & buf'' & -> & ? & ? & ?). by exists d'', buf''.
    + by rewrite IH.
Qed.

Lemma feed_spec chunks (d : D) buf :
  fd_wf d -> frames (fd_limit d) (fd_pending d ++ buf) = ([], inl (fd_pending d ++ buf)) ->
  match frames (fd_limit d) (fd_pending d ++ buf ++ concat chunks) with
  | (ms, inl rest) => exists d' buf', feed d buf chunks = (ms, inl (d', buf')) /\
      fd_pending d' ++ buf' = rest
  | (ms, inr e) => feed d buf chunks = (ms, inr e)
  end.
Proof.
  revert d buf. induction chunks as [|c chunks IH]; intros d buf Hwf Hstable.
  - cbn. rewrite app_nil_r, Hstable. by exists d, buf.
  - cbn [feed concat]. rewrite !app_assoc, <- (app_assoc _ buf c).
    rewrite frames_app.
    pose proof (drain_spec (S (length (fd_pending d ++ buf ++ c))) d (buf ++ c) Hwf
                  ltac:(lia)) as Hd.
    destruct (frames (fd_limit d) (fd_pending d ++ buf ++ c)) as [ms [rest|e]] eqn:E.
    + destruct Hd as (d' & buf' & -> & Hwf' & Hlim & <-).
      assert (Hst : frames (fd_limit d') (fd_pending d' ++ buf') =
                ([], inl (fd_pending d' ++ buf'))).
      { rewrite Hlim. pose proof (frames_app (fd_limit d) (fd_pending d ++ buf ++ c) []) as Ha.
        rewrite E, !app_nil_r, E in Ha.
        destruct (frames (fd_limit d) (fd_pending d' ++ buf')) as [ms' r].
        injection Ha as Hms <-. f_equal. apply (app_inv_head ms). by rewrite app_nil_r. }
      specialize (IH d' buf' Hwf' Hst). rewrite Hlim, app_assoc in IH.
      destruct (frames _ ((_ ++ buf') ++ _)) as [ms' [rest'|e]].
      * destruct IH as (d'' & buf'' & -> & ?). by exists d'', buf''.
      * by rewrite IH.
    + by rewrite Hd.
Qed.

End ReceiveSpec.

(** ** Both decoders keep the promise *)

(** The header octets a decoder in [ReadBody] has consumed. *)
Definition header_octets (h : FrameHeader) : bytes :=
  h_flags h :: be_bytes (len_octets (h_flags h)) (h_size h).

Definition state_pending (st : DecodingState) : bytes :=
  match st with ReadHeader => [] | ReadBody h => header_octets h end.

Definition state_wf (lim : Z -> option ZmqError) (st : DecodingState) : Prop :=
  match st with
  | ReadHeader => True
  | ReadBody h => 0 <= h_size h < 256 ^ Z.of_nat (len_octets (h_flags h)) /\ lim (h_size h) = None
  end.

Lemma be_value_1 b : be_value [b] = byteZ b.
Proof. cbn [be_value]. change (zlen (@nil byte)) with 0. lia. Qed.

Lemma header_octets_spec flags (l : bytes) :
  zlen l = Z.of_nat (len_octets flags) ->
  header_octets (mkHeader flags (be_value l)) = flags :: l.
Proof.
  intros Hl. unfold header_octets. cbn [h_flags h_size].
  replace (len_octets flags) with (length l) by (unfold zlen in Hl; lia).
  by rewrite be_bytes_value.
Qed.

Lemma frame_spec_header lim h src :
  state_wf lim (ReadBody h) ->
  frame_spec lim (header_octets h ++ src) =
  if zlen src <? h_size h then NeedMore
  else Frame (frame_msg (h_flags h) (take (Z.to_nat (h_size h)) src))
         (drop (Z.to_nat (h_size h)) src).
Proof.
  intros [Hs Hlim]. cbn [frame_spec header_octets app].
  set (n := len_octets (h_flags h)) in *.
  rewrite take_app_length', drop_app_length' by (by rewrite length_be_bytes).
  rewrite be_value_bytes_small by done. rewrite Hlim.
  replace (zlen _ <? Z.of_nat n) with false; [done|].
  symmetry. apply Z.ltb_ge. rewrite zlen_app, zlen_be_bytes. pose proof (zlen_nonneg src). lia.
Qed.

Lemma split_to_ge {A} (l : list A) n :
  0 <= n -> (zlen l <? n) = false ->
  split_to l n = Ok (take (Z.to_nat n) l, drop (Z.to_nat n) l).
Proof.
  intros Hn Hl%Z.ltb_ge. apply split_to_Ok. rewrite take_drop. repeat split; [lia|zlen_lia].
Qed.

(** A complete header as the grammar sees it. *)
Lemma frame_spec_cons lim flags t (l rest : bytes) :
  t = l ++ rest -> zlen l = Z.of_nat (len_octets flags) ->
  frame_spec lim (flags :: t) =
  match lim (be_value l) with
  | Some e => TooBig e rest
  | None => frame_spec lim (header_octets (mkHeader flags (be_value l)) ++ rest)
  end.
Proof.
  intros -> Hl. rewrite header_octets_spec by done. cbn [frame_spec app].
  assert (length l = len_octets flags) as Hl' by (unfold zlen in Hl; lia).
  rewrite <- Hl', take_app_length, drop_app_length.
  replace (zlen (l ++ rest) <? Z.of_nat (length l)) with false.
  - by destruct (lim (be_value l)).
  - symmetry. apply Z.ltb_ge. zlen_lia.
Qed.

Lemma header_state_wf lim flags l :
  zlen l = Z.of_nat (len_octets flags) -> lim (be_value l) = None ->
  state_wf lim (ReadBody (mkHeader flags (be_value l))).
Proof. intros Hl Hlim. split; [|done]. cbn. rewrite <- Hl. apply be_value_range. Qed.

Lemma split_header flags t (l rest : bytes) n :
  t = l ++ rest -> zlen l = n -> split_to (flags :: t) (1 + n) = Ok (flags :: l, rest).
Proof.
  intros -> <-. apply (split_to_app (flags :: l)). by rewrite zlen_cons.
Qed.

Lemma split_to_all {A} (l : list A) n : zlen l = n -> split_to l n = Ok (l, []).
Proof. intros. rewrite <- (app_nil_r l) at 1. by apply split_to_app. Qed.

Lemma index_0 {A} (a : A) l : index (a :: l) 0 = Ok a.
Proof. done. Qed.

Lemma index_1 {A} (a b : A) l : index (a :: b :: l) 1 = Ok b.
Proof. done. Qed.

(** Header octets: enough of them split off, or not there yet. *)
Lemma header_cases flags (t : bytes) :
  (zlen t < Z.of_nat (len_octets flags)) \/
  exists l rest, t = l ++ rest /\ zlen l = Z.of_nat (len_octets flags).
Proof.
  destruct (Z.ltb_spec (zlen t) (Z.of_nat (len_octets flags))) as [|Hge]; [by left|right].
  exists (take (len_octets flags) t), (drop (len_octets flags) t).
  rewrite take_drop. split; [done|zlen_lia].
Qed.

Lemma header_len_octets flags :
  (if flag_set flags ZMTP_FLAG_LONG then 1 + 8 else 1 + 1) = 1 + Z.of_nat (len_octets flags).
Proof. unfold len_octets. by destruct (flag_set _ _). Qed.

Lemma frame_spec_short lim flags (t : bytes) :
  zlen t < Z.of_nat (len_octets flags) -> frame_spec lim (flags :: t) = NeedMore.
Proof. intros Hlt%Z.ltb_lt. cbn [frame_spec]. by rewrite Hlt. Qed.

Lemma singleton_len {A} (l : list A) : zlen l = 1 -> exists a, l = [a].
Proof.
  destruct l as [|a [|b l]]; [done|by exists a|]. rewrite !zlen_cons. pose proof (zlen_nonneg l). lia.
Qed.

(** The size a header carries, as the codec and the parser read it. *)
Lemma codec_read_header flags l :
  zlen l = Z.of_nat (len_octets flags) ->
  (f ← index (flags :: l) 0;
   raw_size ← (if flag_set flags ZMTP_FLAG_LONG
               then len_bytes ← slice_from (flags :: l) 1;
                    '(v, _) ← get_uint 8 len_bytes; Ok v
               else b ← index (flags :: l) 1; Ok (byteZ b));
   Ok (f, raw_size)) = Ok (flags, be_value l).
Proof.
  unfold len_octets. intros Hl. destruct (flag_set flags ZMTP_FLAG_LONG); cbn -[slice_from get_uint be_value].
  - rewrite (slice_from_app [flags] l) by done. cbn -[get_uint be_value].
    unfold get_uint. by rewrite (split_to_all l) by done.
  - apply singleton_len in Hl as [b ->]. by rewrite be_value_1.
Qed.

Lemma parser_read_header flags l rest :
  zlen l = Z.of_nat (len_octets flags) ->
  ('(f, src) ← get_u8 (flags :: l ++ rest);
   '(raw_size, src) ← (if flag_set flags ZMTP_FLAG_LONG then get_uint 8 src
                       else '(b, src) ← get_u8 src; Ok (byteZ b, src));
   Ok (f, raw_size, src)) = Ok (flags, be_value l, rest).
Proof.
  unfold len_octets. intros Hl. destruct (flag_set flags ZMTP_FLAG_LONG); cbn -[get_uint be_value].
  - unfold get_uint. by rewrite split_to_app by done.
  - apply singleton_len in Hl as [b ->]. by rewrite be_value_1.
Qed.

Lemma zltb_false (a b : Z) : b <= a -> (a <? b) = false.
Proof. apply Z.ltb_ge. Qed.

(** A decoder in [ReadBody] meets the promise with the [decode_body] equation. *)
Lemma body_post lim h src :
  state_wf lim (ReadBody h) ->
  let '(st', src', r) :=
    if zlen src <? h_size h then (ReadBody h, src, Ok None)
    else (ReadHeader, drop (Z.to_nat (h_size h)) src,
          Ok (Some (frame_msg (h_flags h) (take (Z.to_nat (h_size h)) src)))) in
  state_wf lim st' /\ decode_post lim (header_octets h ++ src) (state_pending st') src' r.
Proof.
  intros Hwf. unfold decode_post. rewrite frame_spec_header by done.
  by destruct (zlen src <? h_size h).
Qed.

Lemma codec_body_eq c h src :
  0 <= h_size h ->
  ZmtpCodec.decode_body c h src =
  if zlen src <? h_size h then (c, src, Ok None)
  else (mkCodec ReadHeader (prefix_bytes c), drop (Z.to_nat (h_size h)) src,
        Ok (Some (frame_msg (h_flags h) (take (Z.to_nat (h_size h)) src)))).
Proof.
  intros. unfold ZmtpCodec.decode_body. destruct (_ <? _) eqn:E; [done|].
  by rewrite split_to_ge.
Qed.

Lemma parser_body_eq p f size src :
  0 <= size ->
  ZmtpManualParser.decode_body p f size src =
  if zlen src <? size then (p, src, Ok None)
  else (mkParser ReadHeader (max_msg_size p), drop (Z.to_nat size) src,
        Ok (Some (frame_msg f (take (Z.to_nat size) src)))).
Proof.
  intros. unfold ZmtpManualParser.decode_body. destruct (_ <? _) eqn:E; [done|].
  by rewrite split_to_ge.
Qed.

Definition codec_post (src : bytes) (x : ZmtpCodec * bytes * result (option Msg)) : Prop :=
  let '(c', src', r) := x in
  prefix_bytes c' = None /\ state_wf codec_limit (decoding_state c') /\
  decode_post codec_limit src (state_pending (decoding_state c')) src' r.

Lemma codec_body_post h src :
  state_wf codec_limit (ReadBody h) ->
  codec_post (header_octets h ++ src) (ZmtpCodec.decode_body (mkCodec (ReadBody h) None) h src).
Proof.
  intros Hwf. pose proof (body_post _ h src Hwf) as Hp.
  rewrite codec_body_eq by apply Hwf. by destruct (zlen src <? h_size h).
Qed.

Lemma codec_header_post src :
  codec_post src (ZmtpCodec.decode_header (mkCodec ReadHeader None) src).
Proof.
  destruct src as [|f t]; [done|].
  unfold ZmtpCodec.decode_header. rewrite header_len_octets, zlen_cons.
  destruct (header_cases f t) as [Hlt|(l & rest & -> & Hl)].
  - replace (1 + _ <? _) with true by lia.
    cbn. unfold decode_post. by rewrite frame_spec_short.
  - rewrite zlen_app, Hl, zltb_false by (pose proof (zlen_nonneg rest); lia).
    rewrite split_header with (l := l) (rest := rest) by done.
    rewrite codec_read_header by done.
    destruct (CODEC_MAX_FRAME_SIZE <? be_value l) eqn:Hsz;
      assert (Hlim := eq_refl (codec_limit (be_value l)));
      unfold codec_limit in Hlim at 2; rewrite Hsz in Hlim.
    + cbn -[frame_spec]. unfold decode_post.
      by rewrite (frame_spec_cons _ _ _ l rest), Hlim by done.
    + pose proof (codec_body_post _ rest (header_state_wf _ f l Hl Hlim)) as Hp.
      rewrite header_octets_spec in Hp by done. apply Hp.
Qed.

Definition codec_pending (c : ZmtpCodec) : bytes :=
  state_pending (decoding_state c) ++ default [] (prefix_bytes c).

#[export] Program Instance codec_decoder : FrameDecoder ZmtpCodec := {|
  fd_decode := ZmtpCodec.decode;
  fd_pending := codec_pending;
  fd_limit _ := codec_limit;
  fd_wf c := state_wf codec_limit (decoding_state c);
|}.
Next Obligation.
  intros [st p] src Hwf. cbn in Hwf |- *. unfold ZmtpCodec.decode, codec_pending; cbn.
  replace (match p with Some prefix => prefix ++ src | None => src end)
    with (default [] p ++ src) by (by destruct p).
  rewrite <- app_assoc. set (src0 := default [] p ++ src).
  assert (Hp : codec_post (state_pending st ++ src0)
    match st with
    | ReadHeader => ZmtpCodec.decode_header (mkCodec st None) src0
    | ReadBody h => ZmtpCodec.decode_body (mkCodec st None) h src0
    end).
  { destruct st; [apply codec_header_post|by apply codec_body_post]. }
  destruct (match st with ReadHeader => _ | _ => _ end) as [[c' src'] r].
  destruct Hp as (Hpre & Hwf' & Hpost). exists c', src', r.
  split; [done|]. by rewrite Hpre, app_nil_r.
Qed.

Definition parser_post (max : Z) (src : bytes)
  (x : ZmtpManualParser * bytes * result (option Msg)) : Prop :=
  let '(p', src', r) := x in
  max_msg_size p' = max /\ state_wf (parser_limit max) (mp_state p') /\
  decode_post (parser_limit max) src (state_pending (mp_state p')) src' r.

Lemma parser_body_post max h src :
  state_wf (parser_limit max) (ReadBody h) ->
  parser_post max (header_octets h ++ src)
    (ZmtpManualParser.decode_body (mkParser (ReadBody h) max) (h_flags h) (h_size h) src).
Proof.
  intros Hwf. pose proof (body_post _ h src Hwf) as Hp.
  rewrite parser_body_eq by apply Hwf. by destruct (zlen src <? h_size h).
Qed.

Lemma parser_header_post max src :
  parser_post max src (ZmtpManualParser.decode_from_buffer (mkParser ReadHeader max) src).
Proof.
  destruct src as [|f t]; [done|].
  unfold ZmtpManualParser.decode_from_buffer. cbn [mp_state]. rewrite header_len_octets, zlen_cons.
  destruct (header_cases f t) as [Hlt|(l & rest & -> & Hl)].
  - replace (1 + _ <? _) with true by lia.
    cbn. unfold decode_post. by rewrite frame_spec_short.
  - rewrite zlen_app, Hl, zltb_false by (pose proof (zlen_nonneg rest); lia).
    rewrite parser_read_header by done. cbn [max_msg_size].
    destruct ((0 <=? max) && (wrapU 64 max <? be_value l)) eqn:Hsz;
      assert (Hlim := eq_refl (parser_limit max (be_value l)));
      unfold parser_limit in Hlim at 2; rewrite Hsz in Hlim.
    + cbn -[frame_spec]. unfold decode_post.
      by rewrite (frame_spec_cons _ _ _ l rest), Hlim by done.
    + pose proof (parser_body_post max _ rest (header_state_wf _ f l Hl Hlim)) as Hp.
      rewrite header_octets_spec in Hp by done. apply Hp.
Qed.

Lemma parser_decode_post p src :
  state_wf (parser_limit (max_msg_size p)) (mp_state p) ->
  parser_post (max_msg_size p) (state_pending (mp_state p) ++ src)
    (ZmtpManualParser.decode_from_buffer p src).
Proof.
  destruct p as [[|h] max]; intros Hwf; [apply parser_header_post|by apply parser_body_post].
Qed.

#[export] Program Instance parser_decoder : FrameDecoder ZmtpManualParser := {|
  fd_decode := ZmtpManualParser.decode_from_buffer;
  fd_pending p := state_pending (mp_state p);
  fd_limit p := parser_limit (max_msg_size p);
  fd_wf p := state_wf (parser_limit (max_msg_size p)) (mp_state p);
|}.
Next Obligation.
  intros p src Hwf. pose proof (parser_decode_post p src Hwf) as Hp.
  destruct (ZmtpManualParser.decode_from_buffer p src) as [[p' src'] r].
  destruct Hp as (Hmax & Hwf' & Hpost). exists p', src', r. rewrite Hmax. done.
Qed.

(** ** Encoding *)

(** What a receiver gets for a sent frame: a missing payload arrives empty and
    only the two declared flag bits travel. *)
Definition norm_msg (m : Msg) : Msg :=
  mkMsg (Some (Msg.payload m)) (mk_flags (Msg.is_more m) (Msg.is_command m)).

(** A sender's buffer after encoding several frames. *)
Definition encode_all (ms : list Msg) (dst : bytes) : bytes :=
  foldl (fun dst m => fst (ZmtpCodec.encode m dst)) dst ms.

Definition wire_flags (m : Msg) : Z :=
  let f := ZmtpCodec.zmtp_flags_of (m_flags m) in
  if Msg.size m <=? 255 then f else Z.lor f ZMTP_FLAG_LONG.

Definition wire (m : Msg) : bytes :=
  header_octets (mkHeader (u8 (wire_flags m)) (Msg.size m)) ++ Msg.payload m.

Lemma wire_flags_cases m :
  msg_flags_of (u8 (wire_flags m)) = mk_flags (Msg.is_more m) (Msg.is_command m) /\
  len_octets (u8 (wire_flags m)) = if Msg.size m <=? 255 then 1%nat else 8%nat.
Proof.
  unfold wire_flags, ZmtpCodec.zmtp_flags_of, Msg.is_more, Msg.is_command.
  by destruct (MsgFlags.contains _ MsgFlags.MORE), (MsgFlags.contains _ MsgFlags.COMMAND),
    (Msg.size m <=? 255).
Qed.

Lemma be_bytes_1 z : be_bytes 1 z = [u8 z].
Proof. cbn [be_bytes]. by rewrite Z.pow_0_r, Z.div_1_r. Qed.

Lemma encode_wire m dst : ZmtpCodec.encode m dst = (dst ++ wire m, Ok tt).
Proof.
  unfold ZmtpCodec.encode, wire, header_octets. cbn [h_flags h_size].
  rewrite (proj2 (wire_flags_cases m)). unfold wire_flags.
  change (default [] (Msg.data m)) with (Msg.payload m). rewrite <- size_payload.
  destruct (Msg.size m <=? 255); rewrite ?be_bytes_1, <- !app_assoc; done.
Qed.

Lemma encode_all_wire ms dst : encode_all ms dst = dst ++ concat (wire <$> ms).
Proof.
  unfold encode_all. revert dst. induction ms as [|m ms IH]; intros dst; cbn [foldl fmap list_fmap concat].
  - by rewrite app_nil_r.
  - by rewrite IH, encode_wire, app_assoc.
Qed.

Lemma frame_spec_wire lim m rest :
  Msg.size m < 2 ^ 64 -> lim (Msg.size m) = None ->
  frame_spec lim (wire m ++ rest) = Frame (norm_msg m) rest.
Proof.
  intros Hsz Hlim. unfold wire. rewrite <- app_assoc.
  destruct (wire_flags_cases m) as [Hf Hl].
  pose proof (zlen_nonneg (Msg.payload m)) as H0. rewrite <- size_payload in H0.
  rewrite frame_spec_header; cbn [h_flags h_size].
  - rewrite size_payload, zltb_false by (rewrite zlen_app; pose proof (zlen_nonneg rest); lia).
    unfold zlen. rewrite Nat2Z.id, take_app_length, drop_app_length.
    unfold frame_msg, norm_msg. by rewrite Hf.
  - split; [|done]. cbn [h_flags h_size]. rewrite Hl.
    destruct (Z.leb_spec (Msg.size m) 255); cbn; lia.
Qed.

Lemma frames_wire lim ms :
  Forall (fun m => Msg.size m < 2 ^ 64 /\ lim (Msg.size m) = None) ms ->
  frames lim (concat (wire <$> ms)) = (norm_msg <$> ms, inl []).
Proof.
  induction 1 as [|m ms [? ?] _ IH]; [done|].
  cbn [fmap list_fmap concat]. rewrite frames_unfold, frame_spec_wire by done.
  by rewrite IH.
Qed.

(** The observable result of a receive loop: the messages, and the unused
    octets or the error. *)
Definition outcome `{FrameDecoder D} (x : list Msg * (D * bytes + ZmqError))
  : list Msg * (bytes + ZmqError) :=
  match x with
  | (ms, inl (d, buf)) => (ms, inl (fd_pending d ++ buf))
  | (ms, inr e) => (ms, inr e)
  end.

Lemma feed_outcome `{FrameDecoder D} (d : D) chunks :
  fd_wf d -> fd_pending d = [] ->
  outcome (feed d [] chunks) = frames (fd_limit d) (concat chunks).
Proof.
  intros Hwf Hp. pose proof (feed_spec chunks d [] Hwf) as Hs.
  rewrite Hp in Hs. specialize (Hs eq_refl). cbn [app] in Hs.
  destruct (frames _ _) as [ms [rest|e]].
  - destruct Hs as (d' & buf' & -> & <-). done.
  - by rewrite Hs.
Qed.

Lemma codec_limit_None size : size <= CODEC_MAX_FRAME_SIZE <-> codec_limit size = None.
Proof.
  unfold codec_limit. destruct (Z.ltb_spec CODEC_MAX_FRAME_SIZE size); split; (lia || done).
Qed.

Lemma parser_limit_None max size :
  0 <= max < 2 ^ 63 -> size <= max <-> parser_limit max size = None.
Proof.
  intros. unfold parser_limit, wrapU. rewrite Z.mod_small by lia.
  replace (0 <=? max) with true by lia. cbn [andb].
  destruct (Z.ltb_spec max size); split; (lia || done).
Qed.

Lemma parser_limit_unlimited max size : max < 0 -> parser_limit max size = None.
Proof. intros. unfold parser_limit. by replace (0 <=? max) with false by lia. Qed.

(** Two refusal rules that refuse the same sizes recognise the same frames. *)
Lemma frames_limit_ext lim1 lim2 s :
  (forall z, lim1 z = None <-> lim2 z = None) ->
  fst (frames lim1 s) = fst (frames lim2 s) /\
  match snd (frames lim1 s), snd (frames lim2 s) with
  | inl r1, inl r2 => r1 = r2
  | inr _, inr _ => True
  | _, _ => False
  end.
Proof.
  intros Hext. induction s as [s IH] using (induction_ltof1 _ (@length _)); unfold ltof in IH.
  rewrite (frames_unfold lim1 s), (frames_unfold lim2 s).
  assert (Hsp : match frame_spec lim1 s, frame_spec lim2 s with
                | NeedMore, NeedMore => True
                | TooBig _ r1, TooBig _ r2 => r1 = r2
                | Frame m1 r1, Frame m2 r2 => m1 = m2 /\ r1 = r2
                | _, _ => False
                end).
  { destruct s as [|f t]; [done|]. cbn [frame_spec].
    destruct (zlen t <? _); [done|]. set (z := be_value _). specialize (Hext z).
    destruct (lim1 z), (lim2 z); [done| | |by destruct (_ <? z)];
      destruct Hext as [H1 H2]; [by specialize (H2 eq_refl)|by specialize (H1 eq_refl)]. }
  destruct (frame_spec lim1 s) as [|e1 r1|m1 r1] eqn:E1,
    (frame_spec lim2 s) as [|e2 r2|m2 r2]; try done.
  destruct Hsp as [<- <-]. apply frame_spec_rest in E1.
  specialize (IH r1 ltac:(lia)).
  destruct (frames lim1 r1) as [ms1 o1], (frames lim2 r1) as [ms2 o2]; cbn in *.
  by destruct IH as [-> ?].
Qed.

Lemma frames_sizes lim s :
  Forall (fun m => lim (Msg.size m) = None /\ msg_wf m) (fst (frames lim s)).
Proof.
  induction s as [s IH] using (induction_ltof1 _ (@length _)); unfold ltof in IH.
  rewrite frames_unfold. destruct (frame_spec lim s) as [| |m rest] eqn:E; [constructor..|].
  pose proof E as Hr. apply frame_spec_rest in Hr. specialize (IH rest ltac:(lia)).
  destruct (frames lim rest) as [ms o]. constructor; [|exact IH].
  destruct s as [|f t]; [done|]. cbn [frame_spec] in E.
  destruct (_ <? _); [done|]. destruct (lim _) eqn:El; [done|].
  destruct (Z.ltb_spec (zlen (drop (len_octets f) t)) (be_value (take (len_octets f) t)));
    [done|].
  injection E as <- <-. pose proof (be_value_range (take (len_octets f) t)).
  split.
  - unfold Msg.size. cbn [m_data frame_msg].
    replace (zlen (take _ _)) with (be_value (take (len_octets f) t)); [done|].
    unfold zlen in *. rewrite (length_take_le (drop _ _)) by lia. lia.
  - split; [|by eexists]. cbn. unfold msg_flags_of.
    by destruct (flag_set f ZMTP_FLAG_MORE), (flag_set f ZMTP_FLAG_COMMAND).
Qed.

(** ** Properties *)

(** C2: frames encoded one after another by the codec and delivered by the
    network in any pieces come out of the codec's decoder one by one, in
    order, payloads and the MORE and COMMAND flags unchanged, with nothing left
    over: for frames up to the 64 MiB cap. *)
Theorem codec_stream_roundtrip (ms : list Msg) (chunks : list bytes)
  (Hsize : Forall (fun m => Msg.size m <= CODEC_MAX_FRAME_SIZE) ms)
  (Hnet : concat chunks = encode_all ms []) :
  outcome (feed ZmtpCodec.new [] chunks) = (norm_msg <$> ms, inl []).
Proof.
  rewrite feed_outcome by done. rewrite Hnet, encode_all_wire. apply frames_wire.
  eapply Forall_impl; [exact Hsize|]. intros m Hm. split; [|by apply codec_limit_None].
  cbv beta in Hm. lia.
Qed.

Lemma codec_stream_roundtrip_witness :
  let ms := [mkMsg (Some (bs "hello")) 1; mkMsg None 2; mkMsg (Some (replicate 300 Byte.x07)) 0] in
  outcome (feed ZmtpCodec.new [] ((fun b => [b]) <$> encode_all ms [])) = (norm_msg <$> ms, inl []).
Proof.
  cbn zeta. apply codec_stream_roundtrip.
  - repeat constructor; by vm_compute.
  - by vm_compute.
Defined.

(** C35: the session's manual parser, fed the octets of a connection in any
    pieces, delivers exactly the frames of the ZMTP grammar and stops exactly
    where the grammar refuses a size: the way the network cuts the stream
    cannot be observed, whatever the peer sends. *)
Theorem parser_chunking (max : Z) (chunks : list bytes) :
  outcome (feed (ZmtpManualParser.new max) [] chunks) =
  frames (parser_limit max) (concat chunks).
Proof. exact (feed_outcome (ZmtpManualParser.new max) chunks I eq_refl). Qed.

(** C38: the codec and the manual parser configured with the codec's cap are
    interchangeable: on every stream, cut in any two ways, they deliver the
    same messages, keep the same octets and refuse at the same frame. *)
Theorem codec_parser_equivalence (chunks1 chunks2 : list bytes)
  (Hnet : concat chunks1 = concat chunks2) :
  let c := outcome (feed ZmtpCodec.new [] chunks1) in
  let p := outcome (feed (ZmtpManualParser.new CODEC_MAX_FRAME_SIZE) [] chunks2) in
  fst c = fst p /\
  match snd c, snd p with
  | inl r1, inl r2 => r1 = r2
  | inr _, inr _ => True
  | _, _ => False
  end.
Proof.
  cbn zeta. rewrite !feed_outcome, Hnet by done. apply frames_limit_ext. intros z.
  change (codec_limit z = None <-> parser_limit CODEC_MAX_FRAME_SIZE z = None).
  rewrite <- codec_limit_None, parser_limit_None; [done|]. by vm_compute.
Qed.

Lemma codec_parser_equivalence_witness :
  let s := encode_all [mkMsg (Some (bs "a")) 0] [] ++ [Byte.x02; Byte.xff] in
  fst (outcome (feed ZmtpCodec.new [] [s])) =
  fst (outcome (feed (ZmtpManualParser.new CODEC_MAX_FRAME_SIZE) [] ((fun b => [b]) <$> s))).
Proof.
  cbn zeta. apply codec_parser_equivalence. by vm_compute.
Defined.

(** With ZMQ_MAXMSGSIZE = max >= 0 no message larger than max is ever
    delivered, and a frame announcing more is refused from its header alone,
    before any octet of its body has been received; nothing the peer sends
    makes the parser panic. *)
Theorem parser_size_limit (max : Z) (Hmax : 0 <= max < 2 ^ 63) (chunks : list bytes)
  (flags : byte) (size : Z) (Hsize : max < size < 256 ^ Z.of_nat (len_octets flags)) :
  Forall (fun m => Msg.size m <= max /\ msg_wf m)
    (fst (feed (ZmtpManualParser.new max) [] chunks)) /\
  (exists p e, ZmtpManualParser.decode_from_buffer (ZmtpManualParser.new max)
                 (header_octets (mkHeader flags size)) = (p, [], Err e)) /\
  (forall p src, fd_wf p -> no_panic (snd (ZmtpManualParser.decode_from_buffer p src))).
Proof.
  split_and!.
  - pose proof (frames_sizes (parser_limit max) (concat chunks)) as Hf.
    pose proof (feed_outcome (ZmtpManualParser.new max) chunks I eq_refl) as Ho.
    change (fd_limit (ZmtpManualParser.new max)) with (parser_limit max) in Ho.
    rewrite <- Ho in Hf. destruct (feed _ _ _) as [ms [[d buf]|e]]; cbn in Hf |- *;
      (eapply Forall_impl; [exact Hf|]); cbn; intros m [Hm ?];
      (split; [by apply (parser_limit_None max)|done]).
  - pose proof (parser_header_post max (header_octets (mkHeader flags size) ++ [])) as Hp.
    rewrite app_nil_r in Hp. unfold ZmtpManualParser.new.
    destruct (ZmtpManualParser.decode_from_buffer _ _) as [[p src'] r].
    destruct Hp as (_ & _ & Hp). unfold decode_post, header_octets in Hp. cbn [h_flags h_size] in Hp.
    rewrite (frame_spec_cons _ _ _ (be_bytes (len_octets flags) size) []) in Hp.
    2:{ by rewrite app_nil_r. }
    2:{ apply zlen_be_bytes. }
    rewrite be_value_bytes_small in Hp by lia.
    destruct (parser_limit max size) eqn:E; [by destruct Hp as (-> & _ & ->); eauto|].
    apply parser_limit_None in E; lia.
  - intros p src Hwf. destruct (fd_decode_spec p src Hwf) as (p' & src' & r & E & _ & _ & Hp).
    change (ZmtpManualParser.decode_from_buffer p src) with (fd_decode p src). rewrite E.
    unfold decode_post in Hp. cbn. by destruct (frame_spec _ _), Hp as [-> _].
Qed.

Lemma parser_size_limit_witness :
  Forall (fun m => Msg.size m <= 64 /\ msg_wf m)
    (fst (feed (ZmtpManualParser.new 64) [] [encode_all [mkMsg (Some (bs "ok")) 0] []])).
Proof.
  apply (parser_size_limit 64 ltac:(lia) _ Byte.x02 (2 ^ 64 - 1)). split; by vm_compute.
Defined.

(** [encode_header_only] followed by the payload is exactly what [encode]
    writes, for every message, so the vectored and zero-copy send paths put the
    same octets on the wire as the plain one. *)
Theorem encode_header_only_payload (m : Msg) (dst : bytes) :
  ZmtpCodec.encode m dst =
  ((ZmtpCodec.encode_header_only m dst).1 ++ Msg.payload m, (ZmtpCodec.encode_header_only m dst).2).
Proof.
  unfold ZmtpCodec.encode, ZmtpCodec.encode_header_only.
  change (default [] (Msg.data m)) with (Msg.payload m). rewrite <- size_payload.
  by destruct (Msg.size m <=? 255).
Qed.
