(* ===== verification/Command.v ===== *)
(** ZMTP commands: [core/src/protocol/zmtp/command.rs].

    READY metadata is a [HashMap<String, Vec<u8>>]: a [gmap] from the octets of
    the name.  Iterating over a [HashMap] follows an order the language does
    not fix, so the encoder takes the order as an argument and its theorems hold
    for every enumeration of the map. *)

From S2P Require Import Prelude Error Utf8 Message.

(** ** Commands *)

Abbreviation ZMTP_CMD_READY_NAME := (bs "READY").
Abbreviation ZMTP_CMD_ERROR_NAME := (bs "ERROR").
Abbreviation ZMTP_CMD_PING_NAME := (bs "PING").
Abbreviation ZMTP_CMD_PONG_NAME := (bs "PONG").

(** The length-prefixed names as they stand in a command body. *)
Abbreviation PING_PREFIX := (Byte.x04 :: bs "PING").
Abbreviation PONG_PREFIX := (Byte.x04 :: bs "PONG").
Abbreviation READY_PREFIX := (Byte.x05 :: bs "READY").
Abbreviation ERROR_PREFIX := (Byte.x05 :: bs "ERROR").

Record ZmtpReady := mkReady { properties : gmap bytes bytes }.

Inductive ZmtpCommand :=
| Ping (context : bytes)
| Pong (context : bytes)
| Ready (ready : ZmtpReady)
| CmdError
| Unknown (body : bytes).

Module ZmtpReady.

(** One round of the [while] loop: a name and a value off the cursor. *)
Definition parse_property (cursor : bytes) : result (bytes * bytes * bytes) :=
  '(b, cursor) ← get_u8 cursor;
  let name_len := byteZ b in
  if zlen cursor <? name_len
  then Err (ProtocolViolation "Invalid metadata name length")
  else
    '(name_bytes, cursor) ← split_to cursor name_len;
    if negb (utf8_valid name_bytes)
    then Err (ProtocolViolation "Metadata name not valid UTF-8")
    else if zlen cursor <? 4
    then Err (ProtocolViolation "Invalid metadata value length")
    else
      '(value_len, cursor) ← get_uint 4 cursor;
      if zlen cursor <? value_len
      then Err (ProtocolViolation "Invalid metadata value length")
      else
        '(value_bytes, cursor) ← split_to cursor value_len;
        Ok (name_bytes, value_bytes, cursor).

(** The loop; the fuel is the number of octets, of which a round takes at
    least one. *)
Fixpoint parse_loop (fuel : nat) (props : gmap bytes bytes) (cursor : bytes)
  : result ZmtpReady :=
  match cursor with
  | [] => Ok (mkReady props)
  | _ =>
      match fuel with
      | O => Panic
      | S fuel =>
          '(name, value, cursor) ← parse_property cursor;
          parse_loop fuel (<[name := value]> props) cursor
      end
  end.

Definition parse_properties (body : bytes) : result ZmtpReady :=
  parse_loop (length body) ∅ body.

Definition encode_property (dst : bytes) (kv : bytes * bytes) : bytes :=
  let '(name_bytes, value) := kv in
  if 255 <? zlen name_bytes then dst
  else dst ++ [u8 (zlen name_bytes)] ++ name_bytes ++ be_bytes 4 (zlen value) ++ value.

(** [encode_properties]; [iter] is the order in which the map is walked. *)
Definition encode_properties (iter : list (bytes * bytes)) (dst : bytes) : bytes :=
  foldl encode_property dst iter.

Definition create_msg (iter : list (bytes * bytes)) : Msg :=
  let name := ZMTP_CMD_READY_NAME in
  let body := [u8 (zlen name)] ++ name in
  let body := encode_properties iter body in
  Msg.set_flags MsgFlags.COMMAND (Msg.from_bytes body).

End ZmtpReady.

Module ZmtpCommand.

(** [ZmtpCommand::parse]; [Panic] is a slice out of range. *)
Definition parse (msg : Msg) : result (option ZmtpCommand) :=
  if negb (Msg.is_command msg) || Msg.is_more msg then Ok None
  else
    match Msg.data msg with
    | None => Ok None
    | Some body =>
        if starts_with PING_PREFIX body && (7 <=? zlen body) then
          context ← slice_from body (5 + 2); Ok (Some (Ping context))
        else if starts_with PONG_PREFIX body && (5 <=? zlen body) then
          context ← slice_from body 5; Ok (Some (Pong context))
        else if starts_with READY_PREFIX body && (6 <=? zlen body) then
          props ← slice_from body 6;
          match ZmtpReady.parse_properties props with
          | Ok ready_cmd => Ok (Some (Ready ready_cmd))
          | Err _ => Ok None
          | Panic => Panic
          end
        else if starts_with ERROR_PREFIX body then Ok (Some CmdError)
        else Ok (Some (Unknown body))
    end.

Definition create_ping (ttl : Z) (context : bytes) : Msg :=
  let body := PING_PREFIX ++ be_bytes 2 ttl ++ context in
  Msg.set_flags MsgFlags.COMMAND (Msg.from_vec body).

Definition create_pong (context : bytes) : Msg :=
  let body := PONG_PREFIX ++ context in
  Msg.set_flags MsgFlags.COMMAND (Msg.from_vec body).

End ZmtpCommand.

(** ** Lemmas *)

Lemma parse_property_spec cursor :
  cursor <> [] ->
  match ZmtpReady.parse_property cursor with
  | Ok (name, value, rest) =>
      utf8_valid name = true /\ zlen name <= 255 /\ zlen value < 2 ^ 32 /\
      cursor = [u8 (zlen name)] ++ name ++ be_bytes 4 (zlen value) ++ value ++ rest
  | Err e => exists s, e = ProtocolViolation s
  | Panic => False
  end.
Proof.
  destruct cursor as [|b t]; [done|intros _]. unfold ZmtpReady.parse_property. cbn [get_u8 mbind result_bind].
  pose proof (byteZ_range b) as Hb.
  destruct (Z.ltb_spec (zlen t) (byteZ b)); [by eexists|].
  destruct (split_to_no_panic t (byteZ b)) as (name & t1 & -> & -> & Hn); [lia|].
  cbn [mbind result_bind].
  destruct (utf8_valid name) eqn:Hutf; cbn [negb]; [|by eexists].
  destruct (Z.ltb_spec (zlen t1) 4); [by eexists|].
  destruct (get_uint_no_panic 4 t1) as (lb & t2 & -> & -> & Hlb); [lia|].
  cbn [mbind result_bind].
  pose proof (be_value_range lb) as Hv. rewrite Hlb in Hv.
  destruct (Z.ltb_spec (zlen t2) (be_value lb)); [by eexists|].
  destruct (split_to_no_panic t2 (be_value lb)) as (value & t3 & -> & -> & Hval); [lia|].
  cbn [mbind result_bind]. rewrite Hn, Hval, u8_byteZ.
  split_and!; [done|lia|lia|].
  replace 4%nat with (length lb) by (unfold zlen in Hlb; lia).
  by rewrite be_bytes_value.
Qed.

Lemma parse_loop_no_panic fuel props cursor :
  (length cursor <= fuel)%nat -> no_panic (ZmtpReady.parse_loop fuel props cursor).
Proof.
  revert props cursor. induction fuel as [|fuel IH]; intros props [|b t] Hf; try done.
  { simpl in Hf. lia. }
  cbn [ZmtpReady.parse_loop].
  pose proof (parse_property_spec (b :: t) ltac:(done)) as Hp.
  destruct (ZmtpReady.parse_property (b :: t)) as [[[n v] r]|e|]; [|done|done].
  apply IH. destruct Hp as (_ & _ & _ & Heq). apply (f_equal length) in Heq.
  rewrite !length_app in Heq. cbn in Heq, Hf. lia.
Qed.

Lemma parse_property_encode name value rest :
  utf8_valid name = true -> zlen name <= 255 -> zlen value < 2 ^ 32 ->
  ZmtpReady.parse_property ([u8 (zlen name)] ++ name ++ be_bytes 4 (zlen value) ++ value ++ rest)
  = Ok (name, value, rest).
Proof.
  intros Hutf Hn Hv. unfold ZmtpReady.parse_property. cbn [get_u8 app mbind result_bind].
  pose proof (zlen_nonneg name). pose proof (zlen_nonneg value). pose proof (zlen_nonneg rest).
  rewrite byteZ_u8_small by lia.
  rewrite split_to_app by done. rewrite !zlen_app, !zlen_be_bytes.
  rewrite (proj2 (Z.ltb_ge _ _)) by lia. cbn [mbind result_bind]. rewrite Hutf. cbn [negb].
  rewrite !zlen_app, zlen_be_bytes, (proj2 (Z.ltb_ge _ _)) by lia.
  rewrite get_uint_app by (change (256 ^ Z.of_nat 4) with (2 ^ 32); lia). cbn [mbind result_bind].
  rewrite zlen_app, (proj2 (Z.ltb_ge _ _)) by lia. by rewrite split_to_app by done.
Qed.

(** A property the encoder can transmit. *)
Definition property_ok (kv : bytes * bytes) : Prop :=
  utf8_valid (kv.1) = true /\ zlen (kv.2) < 2 ^ 32.

Definition name_short (kv : bytes * bytes) : Prop := zlen (kv.1) <= 255.

#[export] Instance property_ok_dec kv : Decision (property_ok kv).
Proof. unfold property_ok. apply _. Defined.

#[export] Instance name_short_dec kv : Decision (name_short kv).
Proof. unfold name_short. apply _. Defined.

Lemma encode_property_app dst kv :
  ZmtpReady.encode_property dst kv = dst ++ ZmtpReady.encode_property [] kv.
Proof.
  destruct kv as [n v]. unfold ZmtpReady.encode_property.
  by destruct (255 <? zlen n); [rewrite app_nil_r|].
Qed.

Lemma encode_properties_app iter dst :
  ZmtpReady.encode_properties iter dst = dst ++ ZmtpReady.encode_properties iter [].
Proof.
  unfold ZmtpReady.encode_properties. revert dst.
  induction iter as [|kv iter IH]; intros dst; cbn [foldl]; [by rewrite app_nil_r|].
  rewrite IH, (IH (ZmtpReady.encode_property [] kv)), encode_property_app. by rewrite <- app_assoc.
Qed.

Lemma parse_loop_encode iter fuel props :
  Forall property_ok iter ->
  (length (ZmtpReady.encode_properties iter []) <= fuel)%nat ->
  ZmtpReady.parse_loop fuel props (ZmtpReady.encode_properties iter []) =
  Ok (mkReady (foldl (fun m kv => <[kv.1 := kv.2]> m) props (filter name_short iter))).
Proof.
  intros Hok. revert fuel props.
  induction Hok as [|[n v] iter [Hutf Hv] _ IH]; intros fuel props Hf; [by destruct fuel|].
  cbn [fst snd] in Hutf, Hv.
  change (ZmtpReady.encode_properties ((n, v) :: iter) []) with
    (ZmtpReady.encode_properties iter (ZmtpReady.encode_property [] (n, v))) in *.
  rewrite encode_properties_app in Hf |- *. rewrite filter_cons. unfold ZmtpReady.encode_property in *.
  destruct (Z.ltb_spec 255 (zlen n)) as [Hlong|Hshort].
  - rewrite decide_False by (unfold name_short; cbn; lia). by apply IH.
  - rewrite decide_True by done. cbn [app] in Hf |- *. rewrite <- !app_assoc in Hf |- *.
    destruct fuel as [|fuel]; [cbn [length] in Hf; lia|]. cbn [ZmtpReady.parse_loop].
    pose proof (parse_property_encode n v (ZmtpReady.encode_properties iter []) Hutf Hshort Hv) as Hp.
    cbn [app] in Hp. rewrite Hp. cbn [mbind result_bind foldl fst snd]. apply IH.
    cbn [length] in Hf. rewrite !length_app in Hf. lia.
Qed.

Lemma foldl_insert_lookup (iter : list (bytes * bytes)) (m : gmap bytes bytes) :
  NoDup iter.*1 ->
  foldl (fun m kv => <[kv.1 := kv.2]> m) m iter = list_to_map iter ∪ m.
Proof.
  revert m. induction iter as [|[k v] iter IH]; intros m Hnd; cbn [foldl].
  - by rewrite list_to_map_nil, (left_id_L ∅ (∪)).
  - cbn in Hnd. apply NoDup_cons in Hnd as [Hni Hnd]. rewrite IH by done. rewrite list_to_map_cons. cbn [fst snd].
    rewrite <- insert_union_l, insert_union_r; [done|]. by apply not_elem_of_list_to_map.
Qed.

Lemma NoDup_fst_filter {K V} (P : K * V -> Prop) `{!forall x, Decision (P x)} (l : list (K * V)) :
  NoDup l.*1 -> NoDup (filter P l).*1.
Proof.
  induction l as [|[k v] l IH]; [done|]. rewrite fmap_cons. intros [Hk Hnd]%NoDup_cons.
  rewrite filter_cons. destruct (decide _); [|by apply IH].
  rewrite fmap_cons. apply NoDup_cons. split; [|by apply IH].
  intros (kv' & Heq & [_ Hin]%list_elem_of_filter)%list_elem_of_fmap.
  apply Hk, list_elem_of_fmap. by exists kv'.
Qed.

Lemma parse_properties_encode (props : gmap bytes bytes) iter :
  iter ≡ₚ map_to_list props -> map_Forall (fun k v => property_ok (k, v)) props ->
  ZmtpReady.parse_properties (ZmtpReady.encode_properties iter []) =
  Ok (mkReady (filter name_short props)).
Proof.
  intros Hp Hok. unfold ZmtpReady.parse_properties. rewrite parse_loop_encode; [|..|done].
  2:{ rewrite Hp. apply map_Forall_to_list in Hok. eapply Forall_impl; [exact Hok|].
      by intros [k v]. }
  do 2 f_equal.
  assert (Hnd : NoDup (filter name_short iter).*1)
    by (apply NoDup_fst_filter; rewrite Hp; apply NoDup_fst_map_to_list).
  rewrite foldl_insert_lookup, (right_id_L ∅ (∪)), map_filter_alt by done.
  apply list_to_map_proper; [done|by rewrite Hp].
Qed.

Lemma create_msg_eq iter :
  ZmtpReady.create_msg iter =
  mkMsg (Some (READY_PREFIX ++ ZmtpReady.encode_properties iter [])) MsgFlags.COMMAND.
Proof.
  unfold ZmtpReady.create_msg, Msg.set_flags, Msg.from_bytes. cbn [m_data].
  by rewrite encode_properties_app.
Qed.

(** Parsing a READY body, whatever follows the name. *)
Lemma parse_ready_body props :
  ZmtpCommand.parse (mkMsg (Some (READY_PREFIX ++ props)) MsgFlags.COMMAND) =
  match ZmtpReady.parse_properties props with
  | Ok r => Ok (Some (Ready r))
  | Err _ => Ok None
  | Panic => Panic
  end.
Proof.
  unfold ZmtpCommand.parse. cbn [Msg.data m_data]. change (negb _ || _) with false. cbn match.
  change (starts_with PING_PREFIX _) with false. change (starts_with PONG_PREFIX _) with false.
  cbn [andb]. rewrite starts_with_app, slice_from_app by done. cbn [mbind result_bind].
  by rewrite (proj2 (Z.leb_le _ _)) by (rewrite zlen_app; change (zlen READY_PREFIX) with 6; pose proof (zlen_nonneg props); lia).
Qed.

(** ** Properties *)

(** A READY command carries its metadata to the peer: whatever order the
    hash map is walked in, parsing the message [create_msg] builds gives back
    the properties, except those with a name longer than 255 octets, which the
    encoder drops.  Names are valid UTF-8 (they are Rust strings) and values
    shorter than 4 GiB. *)
Theorem ready_roundtrip (props : gmap bytes bytes) (iter : list (bytes * bytes))
  (Horder : iter ≡ₚ map_to_list props)
  (Hok : map_Forall (fun k v => property_ok (k, v)) props) :
  ZmtpCommand.parse (ZmtpReady.create_msg iter) =
  Ok (Some (Ready (mkReady (filter name_short props)))).
Proof.
  by rewrite create_msg_eq, parse_ready_body, (parse_properties_encode props).
Qed.

Lemma ready_roundtrip_witness :
  let props : gmap bytes bytes := {[ bs "Socket-Type" := bs "DEALER"; bs "Identity" := bs "id" ]} in
  ZmtpCommand.parse (ZmtpReady.create_msg (map_to_list props)) =
  Ok (Some (Ready (mkReady (filter name_short props)))).
Proof.
  cbn zeta. apply ready_roundtrip; [done|].
  refine (bool_decide_unpack _ _). by vm_compute.
Defined.

Lemma parse_properties_no_panic body : no_panic (ZmtpReady.parse_properties body).
Proof. by apply parse_loop_no_panic. Qed.

(** C39: parsing a command never panics, whatever frame the peer sends; it
    answers None exactly for a frame that is not a single command frame or a
    READY whose metadata is malformed. *)
Theorem command_parse_total (m : Msg) :
  no_panic (ZmtpCommand.parse m) /\
  (ZmtpCommand.parse m = Ok None <->
   Msg.is_command m = false \/ Msg.is_more m = true \/ m_data m = None \/
   exists props e, m_data m = Some (READY_PREFIX ++ props) /\
     ZmtpReady.parse_properties props = Err e).
Proof.
  unfold ZmtpCommand.parse, Msg.data.
  destruct (Msg.is_command m), (Msg.is_more m); cbn [negb orb];
    [split; [done|by intuition eauto]| |split; [done|by intuition eauto]..].
  destruct (m_data m) as [body|]; [|split; [done|by intuition eauto]].
  destruct (starts_with PING_PREFIX body && (7 <=? zlen body)) eqn:Ep.
  { apply andb_prop in Ep as [[k ->]%starts_with_spec Hl%Z.leb_le].
    rewrite slice_from_Ok by lia.
    split; [done|]. split; [done|]. by intros [|[|[|(? & ? & [=] & _)]]]. }
  destruct (starts_with PONG_PREFIX body && (5 <=? zlen body)) eqn:Eq.
  { apply andb_prop in Eq as [[k ->]%starts_with_spec Hl%Z.leb_le].
    rewrite slice_from_Ok by lia.
    split; [done|]. split; [done|]. by intros [|[|[|(? & ? & [=] & _)]]]. }
  destruct (starts_with READY_PREFIX body && (6 <=? zlen body)) eqn:Er.
  { apply andb_prop in Er as [[k ->]%starts_with_spec Hl%Z.leb_le].
    rewrite slice_from_app by done. cbn [mbind result_bind].
    pose proof (parse_properties_no_panic k).
    destruct (ZmtpReady.parse_properties k) eqn:Ek; [| |done].
    2:{ split; [done|]. split; [|done]. intros _. do 3 right. by eauto. }
    split; [done|]. split; [done|]. intros [|[|[|(? & ? & [= <-] & ?)]]]; congruence. }
  assert (Hnr : forall props, body <> READY_PREFIX ++ props).
  { intros props ->. rewrite starts_with_app in Er. apply Z.leb_gt in Er.
    rewrite zlen_app in Er. change (zlen READY_PREFIX) with 6 in Er.
    pose proof (zlen_nonneg props). lia. }
  destruct (starts_with ERROR_PREFIX body); (split; [done|]; split; [done|]);
    intros [|[|[|(? & ? & [= ->] & _)]]]; try done; by destruct (Hnr x).
Qed.

(** Heartbeat commands: a PING built with any TTL and context is parsed as a
    PING with that context, and the PONG built for it carries the same
    context back; both are recognised only as single COMMAND frames. *)
Theorem ping_pong_roundtrip (ttl : Z) (context : bytes) :
  ZmtpCommand.parse (ZmtpCommand.create_ping ttl context) = Ok (Some (Ping context)) /\
  ZmtpCommand.parse (ZmtpCommand.create_pong context) = Ok (Some (Pong context)).
Proof.
  unfold ZmtpCommand.parse. split.
  - cbn [Msg.data m_data Msg.set_flags ZmtpCommand.create_ping Msg.from_vec].
    change (negb _ || _) with false. cbn match.
    rewrite starts_with_app, app_assoc, slice_from_app by done.
    rewrite (proj2 (Z.leb_le _ _)); [done|].
    rewrite zlen_app. change (zlen _) with 7 at 1. pose proof (zlen_nonneg context). lia.
  - cbn [Msg.data m_data Msg.set_flags ZmtpCommand.create_pong Msg.from_vec].
    change (negb _ || _) with false. cbn match.
    change (starts_with PING_PREFIX _) with false. cbn [andb].
    rewrite starts_with_app, slice_from_app by done.
    rewrite (proj2 (Z.leb_le _ _)); [done|].
    rewrite zlen_app. change (zlen _) with 5 at 1. pose proof (zlen_nonneg context). lia.
Qed.
