(* ===== verification/Framer.v ===== *)
(** Data-phase framing: [core/src/security/{cipher,framer}.rs].

    [IDataCipher] and [ISecureFramer] are the source's traits as classes.  The
    two framers are translated over any cipher.  [CipherPair] states what the
    channel needs of a cipher -- what the sender encrypted the receiver decrypts,
    in order -- and the channel theorem is proved from it for every way the
    network cuts the stream. *)

From S2P Require Import Prelude Error Message Codec.

(** ** Ciphers *)

Class IDataCipher (C : Type) := {
  encrypt : C -> bytes -> C * result bytes;
  decrypt : C -> bytes -> C * result bytes;
}.

(** [PassThroughDataCipher]. *)
Inductive PassThroughDataCipher := PassThrough.

#[export] Instance passthrough_cipher : IDataCipher PassThroughDataCipher := {
  encrypt c plaintext := (c, Ok plaintext);
  decrypt c ciphertext := (c, Ok ciphertext);
}.

(** ** Framers *)

Class ISecureFramer (F : Type) := {
  try_read_msg : F -> bytes -> F * bytes * result (option Msg);
  write_msg_multipart : F -> list Msg -> F * result bytes;
}.

(** [for msg in msgs { codec.encode(msg, &mut buffer)?; }] *)
Fixpoint encode_msgs (msgs : list Msg) (buffer : bytes) : result bytes :=
  match msgs with
  | [] => Ok buffer
  | msg :: msgs =>
      let '(buffer, r) := ZmtpCodec.encode msg buffer in
      _ ← r; encode_msgs msgs buffer
  end.

Record NullFramer := mkNullFramer { nf_parser : ZmtpManualParser }.

Module NullFramer.

Definition new (max_msg_size : Z) : NullFramer := mkNullFramer (ZmtpManualParser.new max_msg_size).

Definition try_read_msg (f : NullFramer) (network_buffer : bytes)
  : NullFramer * bytes * result (option Msg) :=
  let '(p, buf, r) := ZmtpManualParser.decode_from_buffer (nf_parser f) network_buffer in
  (mkNullFramer p, buf, r).

Definition write_msg_multipart (f : NullFramer) (msgs : list Msg) : NullFramer * result bytes :=
  (f, encode_msgs msgs []).

End NullFramer.

#[export] Instance null_framer : ISecureFramer NullFramer := {
  try_read_msg := NullFramer.try_read_msg;
  write_msg_multipart := NullFramer.write_msg_multipart;
}.

Record LengthPrefixedFramer (C : Type) := mkLPFramer {
  lp_cipher : C;
  lp_parser : ZmtpManualParser;
  lp_decrypted : bytes;
}.
Arguments mkLPFramer {C}.
Arguments lp_cipher {C}.
Arguments lp_parser {C}.
Arguments lp_decrypted {C}.

Module LengthPrefixedFramer.
Section Framer.
Context {C : Type} {cipher : IDataCipher C}.

Definition new (c : C) (max_msg_size : Z) : LengthPrefixedFramer C :=
  mkLPFramer c (ZmtpManualParser.new max_msg_size) [].

(** The [loop] of [try_read_msg]: parse what is decrypted, otherwise decrypt one
    more secure frame and go round.  Every round but the last takes at least
    two octets off the network buffer. *)
Fixpoint try_read_loop (fuel : nat) (f : LengthPrefixedFramer C) (net : bytes)
  : LengthPrefixedFramer C * bytes * result (option Msg) :=
  let '(p, dec, r) := ZmtpManualParser.decode_from_buffer (lp_parser f) (lp_decrypted f) in
  let f := mkLPFramer (lp_cipher f) p dec in
  match r with
  | Err e => (f, net, Err e)
  | Panic => (f, net, Panic)
  | Ok (Some msg) => (f, net, Ok (Some msg))
  | Ok None =>
      if zlen net <? 2 then (f, net, Ok None)
      else match get_uint 2 net with
           | Ok (len, _) =>
               if zlen net <? 2 + len then (f, net, Ok None)
               else match slice_from net 2 ≫= (fun n => split_to n len) with
                    | Ok (encrypted_frame, net) =>
                        match decrypt (lp_cipher f) encrypted_frame with
                        | (c, Ok plaintext) =>
                            let f := mkLPFramer c p (dec ++ plaintext) in
                            match fuel with
                            | O => (f, net, Panic)
                            | S fuel => try_read_loop fuel f net
                            end
                        | (c, Err e) => (mkLPFramer c p dec, net, Err e)
                        | (c, Panic) => (mkLPFramer c p dec, net, Panic)
                        end
                    | Err e => (f, net, Err e)
                    | Panic => (f, net, Panic)
                    end
           | Err e => (f, net, Err e)
           | Panic => (f, net, Panic)
           end
  end.

Definition try_read_msg (f : LengthPrefixedFramer C) (network_buffer : bytes)
  : LengthPrefixedFramer C * bytes * result (option Msg) :=
  try_read_loop (length network_buffer) f network_buffer.

Definition write_msg_multipart (f : LengthPrefixedFramer C) (msgs : list Msg)
  : LengthPrefixedFramer C * result bytes :=
  match encode_msgs msgs [] with
  | Ok plaintext_buffer =>
      let '(c, r) := encrypt (lp_cipher f) plaintext_buffer in
      let f := mkLPFramer c (lp_parser f) (lp_decrypted f) in
      (f, ciphertext ← r;
          Ok (be_bytes 2 (wrapU 16 (zlen ciphertext)) ++ ciphertext))
  | Err e => (f, Err e)
  | Panic => (f, Panic)
  end.

End Framer.
End LengthPrefixedFramer.

#[export] Instance lp_framer `{IDataCipher C} : ISecureFramer (LengthPrefixedFramer C) := {
  try_read_msg := LengthPrefixedFramer.try_read_msg;
  write_msg_multipart := LengthPrefixedFramer.write_msg_multipart;
}.

(** ** The channel

    The session's use of a framer: read messages until it wants more octets
    ([reads]), after every chunk of the network ([receives]); [limit] bounds what
    the network buffer ever holds. *)

Section Channel.
Context `{ISecureFramer F}.

Inductive reads : F -> bytes -> list Msg -> F -> bytes -> Prop :=
| reads_stop f net f' net' :
    try_read_msg f net = (f', net', Ok None) -> reads f net [] f' net'
| reads_msg f net m f1 net1 ms f' net' :
    try_read_msg f net = (f1, net1, Ok (Some m)) -> reads f1 net1 ms f' net' ->
    reads f net (m :: ms) f' net'.

Inductive receives (limit : Z) : F -> bytes -> list bytes -> list Msg -> F -> bytes -> Prop :=
| receives_nil f net : receives limit f net [] [] f net
| receives_chunk f net c chunks ms1 f1 net1 ms2 f2 net2 :
    zlen (net ++ c) <= limit ->
    reads f (net ++ c) ms1 f1 net1 -> receives limit f1 net1 chunks ms2 f2 net2 ->
    receives limit f net (c :: chunks) (ms1 ++ ms2) f2 net2.

(** A sender writes logical messages one after another. *)
Fixpoint write_all (f : F) (batches : list (list Msg)) : F * list (result bytes) :=
  match batches with
  | [] => (f, [])
  | ms :: batches =>
      let '(f, r) := write_msg_multipart f ms in
      let '(f, rs) := write_all f batches in
      (f, r :: rs)
  end.

End Channel.

(** What two ends of a cipher promise: [cp_sync s r] relates a sender and a
    receiver that have processed the same frames. *)
Class CipherPair (C : Type) `{IDataCipher C} := {
  cp_sync : C -> C -> Prop;
  cp_decrypt : forall s r pt s' ct, cp_sync s r -> encrypt s pt = (s', Ok ct) ->
    exists r', decrypt r ct = (r', Ok pt) /\ cp_sync s' r';
}.

#[export] Program Instance passthrough_pair : CipherPair PassThroughDataCipher :=
  {| cp_sync _ _ := True |}.
Next Obligation. intros s r pt s' ct _ E. inv E. by exists r. Qed.

(** ** Lemmas *)

Lemma encode_msgs_wire msgs buffer : encode_msgs msgs buffer = Ok (buffer ++ concat (wire <$> msgs)).
Proof.
  revert buffer. induction msgs as [|m ms IH]; intros buffer; cbn [encode_msgs fmap list_fmap concat].
  - by rewrite app_nil_r.
  - rewrite encode_wire. cbn [mbind result_bind]. by rewrite IH, app_assoc.
Qed.

(** Reading never makes the network buffer longer. *)
Lemma split_to_shrinks {A} (l a b : list A) n : split_to l n = Ok (a, b) -> zlen b <= zlen l.
Proof.
  unfold split_to. destruct (_ && _); [|done]. intros [= <- <-].
  unfold zlen. rewrite length_drop. lia.
Qed.

Lemma slice_from_shrinks {A} (l r : list A) n : slice_from l n = Ok r -> zlen r <= zlen l.
Proof.
  unfold slice_from. destruct (_ && _); [|done]. intros [= <-]. unfold zlen. rewrite length_drop. lia.
Qed.

Lemma get_u8_shrinks (l r : bytes) b : get_u8 l = Ok (b, r) -> zlen r <= zlen l.
Proof. destruct l as [|c l]; [done|]. intros [= <- <-]. rewrite zlen_cons. lia. Qed.

Lemma get_uint_shrinks n (l r : bytes) z : get_uint n l = Ok (z, r) -> zlen r <= zlen l.
Proof.
  unfold get_uint. intros (p & Hs & Hr)%bind_Ok. destruct p as [a b]. apply Ok_inj in Hr.
  simplify_eq. by eapply split_to_shrinks.
Qed.

Lemma parser_body_shrinks p f n s :
  zlen (ZmtpManualParser.decode_body p f n s).1.2 <= zlen s.
Proof.
  unfold ZmtpManualParser.decode_body. destruct (_ <? _); [done|].
  destruct (split_to s n) as [[a b]|e|] eqn:E; [by eapply split_to_shrinks|done..].
Qed.

Lemma parser_shrinks p src : zlen (ZmtpManualParser.decode_from_buffer p src).1.2 <= zlen src.
Proof.
  unfold ZmtpManualParser.decode_from_buffer.
  destruct (mp_state p) as [|h]; [|apply parser_body_shrinks].
  destruct src as [|b t]; [done|]. destruct (_ <? _); [done|].
  match goal with |- context [match ?x with Ok _ => _ | _ => _ end] =>
    destruct x as [[[f n] s]|e|] eqn:E end; [|done..].
  assert (Hs : zlen s <= zlen (b :: t)).
  { apply bind_Ok in E as ([f' s1] & E1%get_u8_shrinks & E).
    apply bind_Ok in E as ([n' s2] & E2 & E). apply Ok_inj in E. simplify_eq.
    destruct (flag_set b ZMTP_FLAG_LONG); [apply get_uint_shrinks in E2; lia|].
    apply bind_Ok in E2 as ([b' s3] & E2%get_u8_shrinks & E3). apply Ok_inj in E3. simplify_eq. lia. }
  destruct (_ && _); [done|]. etrans; [apply parser_body_shrinks|done].
Qed.

Lemma lp_shrinks `{IDataCipher C} (f : LengthPrefixedFramer C) net :
  zlen (try_read_msg f net).1.2 <= zlen net.
Proof.
  cbn [try_read_msg lp_framer]. unfold LengthPrefixedFramer.try_read_msg.
  generalize (length net). intros fuel. revert f net.
  induction fuel as [|fuel IH]; intros f net; cbn [LengthPrefixedFramer.try_read_loop];
    destruct (ZmtpManualParser.decode_from_buffer _ _) as [[p dec] [[m|]|e|]]; try done;
    destruct (_ <? _); try done; destruct (get_uint 2 net) as [[len ?]|e|]; try done;
    destruct (_ <? _); try done;
    destruct (slice_from net 2 ≫= _) as [[ef net']|e|] eqn:E; try done;
    (assert (zlen net' <= zlen net);
     [apply bind_Ok in E as (n1 & E1%slice_from_shrinks & E2%split_to_shrinks); lia|]);
    destruct (decrypt _ ef) as [c [pt|e|]]; try done.
  etrans; [apply IH|done].
Qed.

(** A complete secure frame on the wire. *)
Definition secure_frame (ct : bytes) : bytes := be_bytes 2 (zlen ct) ++ ct.

(** A strict prefix of a secure frame. *)
Definition partial_of (p : bytes) (ct : bytes) : Prop :=
  exists q, secure_frame ct = p ++ q /\ q <> [].

Lemma reads_first `{ISecureFramer F} (f f1 : F) net net1 ms f' net' :
  try_read_msg f net = try_read_msg f1 net1 ->
  reads f1 net1 ms f' net' -> reads f net ms f' net'.
Proof.
  intros Heq Hr. inv Hr; [apply reads_stop|eapply reads_msg; [|done]]; by rewrite Heq.
Qed.

Lemma secure_frame_len ct : zlen (secure_frame ct) = 2 + zlen ct.
Proof. unfold secure_frame. by rewrite zlen_app, zlen_be_bytes. Qed.

(** Cutting a stream of secure frames anywhere leaves whole frames and a strict
    prefix of the next. *)
Lemma cut_stream cts x y :
  x ++ y = concat (secure_frame <$> cts) ->
  exists cts1 cts2 p, cts = cts1 ++ cts2 /\ x = concat (secure_frame <$> cts1) ++ p /\
    p ++ y = concat (secure_frame <$> cts2) /\
    (p = [] \/ exists ct cts3, cts2 = ct :: cts3 /\ partial_of p ct).
Proof.
  revert x. induction cts as [|ct cts IH]; intros x Hx.
  - cbn in Hx. apply app_nil in Hx as [-> ->]. exists [], [], []. by split_and!; [..|left].
  - cbn [fmap list_fmap concat] in Hx.
    assert (Hwhole : forall k, x = secure_frame ct ++ k ->
              k ++ y = concat (secure_frame <$> cts) ->
              exists cts1 cts2 p, ct :: cts = cts1 ++ cts2 /\
                x = concat (secure_frame <$> cts1) ++ p /\
                p ++ y = concat (secure_frame <$> cts2) /\
                (p = [] \/ exists ct cts3, cts2 = ct :: cts3 /\ partial_of p ct)).
    { intros k -> Hk. destruct (IH k Hk) as (c1 & c2 & p & -> & -> & Hp & Hpart).
      exists (ct :: c1), c2, p. cbn. by rewrite <- app_assoc. }
    apply app_eq_inv in Hx as [[k [-> Hk]]|[k [Hk ->]]]; [by apply (Hwhole k)|].
    destruct k as [|b k].
    + rewrite app_nil_r in Hk. apply (Hwhole []); [by rewrite app_nil_r|done].
    + exists [], (ct :: cts), x. cbn [fmap list_fmap concat app].
      rewrite Hk, <- app_assoc. split_and!; [done..|]. right. exists ct, cts.
      split; [done|]. by exists (b :: k).
Qed.

Section LPRead.
Context `{CipherPair C}.
Variable max : Z.

(** A receiver whose undelivered plaintext is [pt] (parser and decrypted
    buffer together). *)
Definition holds (f : LengthPrefixedFramer C) (pt : bytes) : Prop :=
  state_wf (parser_limit max) (mp_state (lp_parser f)) /\ max_msg_size (lp_parser f) = max /\
  state_pending (mp_state (lp_parser f)) ++ lp_decrypted f = pt.

Lemma parse_holds f pt :
  holds f pt ->
  exists p dec r,
    ZmtpManualParser.decode_from_buffer (lp_parser f) (lp_decrypted f) = (p, dec, r) /\
    match frame_spec (parser_limit max) pt with
    | NeedMore => r = Ok None /\ holds (mkLPFramer (lp_cipher f) p dec) pt
    | TooBig e rest => r = Err e
    | Frame m rest => r = Ok (Some m) /\ holds (mkLPFramer (lp_cipher f) p dec) rest
    end.
Proof.
  intros (Hwf & Hmax & <-). rewrite <- Hmax in Hwf.
  pose proof (parser_decode_post (lp_parser f) (lp_decrypted f) Hwf) as Hp. rewrite Hmax in Hp.
  destruct (ZmtpManualParser.decode_from_buffer _ _) as [[p dec] r].
  destruct Hp as (Hmax' & Hwf' & Hpost). exists p, dec, r. split; [done|].
  unfold decode_post in Hpost. destruct (frame_spec _ _).
  - destruct Hpost as [-> Hp]. by split_and!.
  - by destruct Hpost as [-> _].
  - destruct Hpost as (-> & Hp & ->). split; [done|]. unfold holds; cbn. by rewrite Hp.
Qed.

(** One round of the loop, by what the plaintext and the network buffer hold. *)
Lemma loop_msg fuel f m rest pt net :
  holds f pt -> frame_spec (parser_limit max) pt = Frame m rest ->
  exists f', LengthPrefixedFramer.try_read_loop fuel f net = (f', net, Ok (Some m)) /\
    holds f' rest /\ lp_cipher f' = lp_cipher f.
Proof.
  intros Hh Hs. destruct (parse_holds f pt Hh) as (p & dec & r & Hd & Hr). rewrite Hs in Hr.
  destruct Hr as [-> Hh']. exists (mkLPFramer (lp_cipher f) p dec).
  destruct fuel; cbn [LengthPrefixedFramer.try_read_loop]; by rewrite Hd.
Qed.

Lemma loop_wait fuel f net ct :
  holds f [] -> net = [] \/ partial_of net ct -> zlen ct < 2 ^ 16 ->
  exists f', LengthPrefixedFramer.try_read_loop fuel f net = (f', net, Ok None) /\
    holds f' [] /\ lp_cipher f' = lp_cipher f.
Proof.
  intros Hh Hnet Hct. destruct (parse_holds f [] Hh) as (p & dec & r & Hd & -> & Hh').
  exists (mkLPFramer (lp_cipher f) p dec). split; [|done].
  assert (Hbody : forall k,
    (if zlen net <? 2 then (mkLPFramer (lp_cipher f) p dec, net, Ok None)
     else match get_uint 2 net with
          | Ok (len, _) => if zlen net <? 2 + len
                           then (mkLPFramer (lp_cipher f) p dec, net, Ok None) else k len
          | Err e => (mkLPFramer (lp_cipher f) p dec, net, Err e)
          | Panic => (mkLPFramer (lp_cipher f) p dec, net, Panic)
          end) = (mkLPFramer (lp_cipher f) p dec, net, Ok (@None Msg))).
  { intros k. destruct (Z.ltb_spec (zlen net) 2) as [|Hge]; [done|].
    destruct Hnet as [->|(q & Heq & Hq)]; [done|].
    pose proof (zlen_nonneg ct). pose proof (secure_frame_len ct) as Hl. rewrite Heq, zlen_app in Hl.
    assert (Hpre : exists t, net = be_bytes 2 (zlen ct) ++ t).
    { unfold secure_frame in Heq. apply app_eq_inv in Heq as [[t [Ht _]]|[t [-> _]]]; [|by exists t].
      pose proof (f_equal zlen Ht) as Hz. rewrite zlen_be_bytes, zlen_app in Hz.
      assert (t = []) as -> by (apply zlen_0; pose proof (zlen_nonneg t); lia).
      exists []. by rewrite Ht, !app_nil_r. }
    destruct Hpre as [t ->]. rewrite get_uint_app by (change (256 ^ Z.of_nat 2) with (2 ^ 16); lia).
    rewrite (proj2 (Z.ltb_lt _ _)); [done|].
    destruct q; [done|]. rewrite zlen_cons in Hl. pose proof (zlen_nonneg q). lia. }
  destruct fuel; cbn [LengthPrefixedFramer.try_read_loop]; rewrite Hd; apply Hbody.
Qed.

(** A whole secure frame is decrypted and the loop goes round. *)
Lemma loop_frame fuel f ct rest pt c' :
  holds f [] -> zlen ct < 2 ^ 16 -> decrypt (lp_cipher f) ct = (c', Ok pt) ->
  exists f', LengthPrefixedFramer.try_read_loop (S fuel) f (secure_frame ct ++ rest) =
             LengthPrefixedFramer.try_read_loop fuel f' rest /\
    holds f' pt /\ lp_cipher f' = c'.
Proof.
  intros Hh Hct Hdec. destruct (parse_holds f [] Hh) as (p & dec & r & Hd & -> & Hh').
  exists (mkLPFramer c' p (dec ++ pt)). split.
  - cbn [LengthPrefixedFramer.try_read_loop]. rewrite Hd.
    unfold secure_frame. rewrite <- app_assoc.
    pose proof (zlen_nonneg ct). pose proof (zlen_nonneg rest).
    rewrite !zlen_app, zlen_be_bytes, zltb_false by lia.
    rewrite get_uint_app by (change (256 ^ Z.of_nat 2) with (2 ^ 16); lia).
    rewrite zltb_false by lia.
    rewrite slice_from_app by apply zlen_be_bytes. cbn [mbind result_bind].
    rewrite split_to_app by done. cbn [lp_cipher]. by rewrite Hdec.
  - destruct Hh' as (Hw & Hm & Hp). cbn in Hp. apply app_nil in Hp as [Hp ->].
    unfold holds. cbn in *. by rewrite Hp.
Qed.

(** Enough fuel: the number of secure frames in the buffer. *)
Lemma loop_fuel n1 n2 f net :
  (length net <= n1)%nat -> (length net <= n2)%nat ->
  LengthPrefixedFramer.try_read_loop n1 f net = LengthPrefixedFramer.try_read_loop n2 f net.
Proof.
  revert n2 f net. induction n1 as [|n1 IH]; intros [|n2] f net H1 H2.
  - done.
  - destruct net; [|simpl in H1; lia].
    cbn [LengthPrefixedFramer.try_read_loop]. by repeat case_match.
  - destruct net; [|simpl in H2; lia].
    cbn [LengthPrefixedFramer.try_read_loop]. by repeat case_match.
  - cbn [LengthPrefixedFramer.try_read_loop].
    destruct (ZmtpManualParser.decode_from_buffer _ _) as [[p dec] [[m|]|e|]]; try done.
    destruct (zlen net <? 2) eqn:E2; [done|]. destruct (get_uint 2 net) as [[len t]| |]; try done.
    destruct (zlen net <? 2 + len); [done|].
    destruct (slice_from net 2 ≫= _) as [[enc net']| |] eqn:Es; try done.
    destruct (decrypt _ _) as [c [pt| |]]; try done.
    apply bind_Ok in Es as (n & Hn & [_ [-> Hz]]%split_to_Ok).
    unfold slice_from in Hn. case_match; [|done]. injection Hn as Hn.
    apply (f_equal length) in Hn. rewrite length_drop, length_app in Hn.
    apply Z.ltb_ge in E2. unfold zlen in E2. apply IH; lia.
Qed.

(** Ciphertexts of a sequence of logical messages. *)
Inductive ships : C -> list (list Msg) -> list bytes -> C -> Prop :=
| ships_nil s : ships s [] [] s
| ships_cons s ms s1 ct batches cts s' :
    encrypt s (concat (wire <$> ms)) = (s1, Ok ct) -> ships s1 batches cts s' ->
    ships s (ms :: batches) (ct :: cts) s'.

Lemma ships_app s batches cts1 cts2 s' :
  ships s batches (cts1 ++ cts2) s' ->
  exists b1 b2 s1, batches = b1 ++ b2 /\ ships s b1 cts1 s1 /\ ships s1 b2 cts2 s'.
Proof.
  revert s batches. induction cts1 as [|ct cts1 IH]; intros s batches Hs.
  - exists [], batches, s. by repeat constructor.
  - cbn in Hs. inv Hs.
    match goal with Hs : ships _ _ (_ ++ _) _ |- _ =>
      destruct (IH _ _ Hs) as (b1 & b2 & s2 & -> & ? & ?) end.
    exists (ms :: b1), b2, s2. by repeat (done || econstructor).
Qed.

Definition deliverable (m : Msg) : Prop :=
  Msg.size m < 2 ^ 64 /\ parser_limit max (Msg.size m) = None.

(** A message at the front of the plaintext is delivered first. *)
Lemma reads_one f m ms0 net ms net' (Q : LengthPrefixedFramer C -> Prop) :
  holds f (concat (wire <$> m :: ms0)) -> deliverable m ->
  (forall f1, holds f1 (concat (wire <$> ms0)) -> lp_cipher f1 = lp_cipher f ->
     exists f', reads f1 net ms f' net' /\ Q f') ->
  exists f', reads f net (norm_msg m :: ms) f' net' /\ Q f'.
Proof.
  intros Hh [Hsz Hlim] Hk. cbn [fmap list_fmap concat] in Hh.
  destruct (loop_msg (length net) f _ _ _ net Hh
              (frame_spec_wire (parser_limit max) m (concat (wire <$> ms0)) Hsz Hlim))
    as (f1 & E & Hh1 & Hc1).
  destruct (Hk f1 Hh1 Hc1) as (f' & Hr & HQ). exists f'. split; [|done].
  by eapply reads_msg.
Qed.

Lemma reads_frames batches cts s s' f ms0 p ct :
  ships s batches cts s' -> cp_sync s (lp_cipher f) ->
  holds f (concat (wire <$> ms0)) -> Forall deliverable (ms0 ++ concat batches) ->
  Forall (fun c => zlen c < 2 ^ 16) cts ->
  p = [] \/ partial_of p ct -> zlen ct < 2 ^ 16 ->
  exists f', reads f (concat (secure_frame <$> cts) ++ p)
               (norm_msg <$> ms0 ++ concat batches) f' p /\
    holds f' [] /\ cp_sync s' (lp_cipher f').
Proof.
  intros Hs. revert f ms0. induction Hs as [s|s ms s1 c batches cts s' He Hs IHs];
    intros f ms0 Hsync Hh Hd Hlen Hp Hct; revert f Hsync Hh;
    (induction ms0 as [|m ms0 IHm]; intros f Hsync Hh).
  1: { destruct (loop_wait (length p) f p ct Hh Hp Hct) as (f' & E & Hh' & Hc).
    exists f'. rewrite Hc. split; [|done]. by apply reads_stop. }
  2: { cbn [fmap list_fmap concat app] in *.
    apply Forall_cons in Hlen as [Hc Hlen].
    destruct (cp_decrypt _ _ _ _ _ Hsync He) as (r' & Hdec & Hsync').
    set (rest := concat (secure_frame <$> cts) ++ p) in *.
    destruct (loop_frame (length (secure_frame c ++ rest)) f c rest _ r' Hh Hc Hdec)
      as (f1 & E & Hh1 & Hc1).
    destruct (IHs f1 ms) as (f' & Hr & Hh' & Hs'); [by rewrite Hc1|done..|].
    exists f'. split; [|done]. rewrite <- app_assoc. fold rest.
    eapply reads_first; [|exact Hr].
    cbn [try_read_msg lp_framer]. unfold LengthPrefixedFramer.try_read_msg.
    rewrite (loop_fuel _ (S (length (secure_frame c ++ rest)))) by lia. rewrite E.
    apply loop_fuel; [|done]. rewrite length_app. lia. }
  all: apply (reads_one f m ms0 _ _ _ _ Hh); [by apply Forall_cons in Hd as [? _]|].
  all: intros f1 Hh1 Hc1; apply IHm; [by apply Forall_cons in Hd as [_ ?]|by rewrite Hc1|done].
Qed.

Lemma partial_len p ct : partial_of p ct -> zlen p <= 1 + zlen ct.
Proof.
  intros (q & E & Hq). apply (f_equal zlen) in E. rewrite secure_frame_len, zlen_app in E.
  destruct q; [done|]. rewrite zlen_cons in E. pose proof (zlen_nonneg q). lia.
Qed.

Lemma receives_stream K chunks s batches cts s' f p :
  Forall (fun c => zlen c <= K) chunks ->
  ships s batches cts s' -> cp_sync s (lp_cipher f) -> holds f [] ->
  Forall deliverable (concat batches) -> Forall (fun c => zlen c < 2 ^ 16) cts ->
  p ++ concat chunks = concat (secure_frame <$> cts) ->
  p = [] \/ (exists ct cts3, cts = ct :: cts3 /\ partial_of p ct) ->
  exists f', receives (2 ^ 16 + K) f p chunks (norm_msg <$> concat batches) f' [] /\ holds f' [] /\
    cp_sync s' (lp_cipher f').
Proof.
  revert s batches cts f p.
  induction chunks as [|c chunks IH]; intros s batches cts f p HK Hs Hsync Hh Hd Hlen Heq Hp.
  - cbn in Heq. rewrite app_nil_r in Heq.
    assert (p = [] /\ cts = []) as [-> ->].
    { destruct Hp as [->|(ct & cts3 & -> & q & Hq & Hne)].
      - split; [done|]. destruct cts as [|ct cts]; [done|].
        apply (f_equal zlen) in Heq. cbn [fmap list_fmap concat] in Heq.
        rewrite zlen_app, secure_frame_len in Heq. change (zlen (@nil byte)) with 0 in Heq.
        pose proof (zlen_nonneg ct). pose proof (zlen_nonneg (concat (secure_frame <$> cts))). lia.
      - exfalso. cbn [fmap list_fmap concat] in Heq. rewrite Hq in Heq.
        apply (f_equal zlen) in Heq. rewrite !zlen_app in Heq.
        pose proof (zlen_nonneg (concat (secure_frame <$> cts3))).
        destruct q; [done|]. rewrite zlen_cons in Heq. pose proof (zlen_nonneg q). lia. }
    inv Hs. exists f. split; [constructor|done].
  - apply Forall_cons in HK as [HKc HK].
    assert (Hpl : zlen (p ++ c) <= 2 ^ 16 + K).
    { rewrite zlen_app. destruct Hp as [->|(ct & cts3 & -> & Hpart%partial_len)]; [rewrite zlen_nil; lia|].
      apply Forall_cons in Hlen as [? _]. lia. }
    cbn [concat] in Heq. rewrite app_assoc in Heq.
    destruct (cut_stream cts (p ++ c) (concat chunks) Heq) as (cts1 & cts2 & p' & -> & Hx & Hy & Hp').
    apply ships_app in Hs as (b1 & b2 & s1 & -> & Hs1 & Hs2).
    rewrite concat_app in Hd |- *. apply Forall_app in Hd as [Hd1 Hd2].
    apply Forall_app in Hlen as [Hl1 Hl2].
    assert (exists ct, (p' = [] \/ partial_of p' ct) /\ zlen ct < 2 ^ 16) as (ct & Hpc & Hct).
    { destruct Hp' as [->|(ct & cts3 & -> & Hpart)]; [exists []; split; [by left|done]|].
      exists ct. split; [by right|]. by apply Forall_cons in Hl2 as [? _]. }
    destruct (reads_frames b1 cts1 s s1 f [] p' ct) as (f1 & Hr & Hh1 & Hsync1); [done..|].
    destruct (IH s1 b2 cts2 f1 p') as (f2 & Hr2 & Hh2 & Hsync2); [done..|].
    exists f2. rewrite fmap_app. split; [|done]. econstructor; [done| |exact Hr2]. by rewrite Hx.
Qed.

End LPRead.

Lemma lp_write_eq `{IDataCipher C} (f : LengthPrefixedFramer C) ms :
  write_msg_multipart f ms =
  (mkLPFramer (encrypt (lp_cipher f) (concat (wire <$> ms))).1 (lp_parser f) (lp_decrypted f),
   ct ← (encrypt (lp_cipher f) (concat (wire <$> ms))).2;
   Ok (be_bytes 2 (wrapU 16 (zlen ct)) ++ ct)).
Proof.
  cbn [write_msg_multipart lp_framer]. unfold LengthPrefixedFramer.write_msg_multipart.
  rewrite encode_msgs_wire. cbn [app]. by destruct (encrypt _ _).
Qed.

Lemma write_all_ships `{CipherPair C} batches (f : LengthPrefixedFramer C) wires :
  (write_all f batches).2 = Ok <$> wires -> Forall (fun w => zlen w < 2 ^ 16 + 2) wires ->
  exists cts s', ships (lp_cipher f) batches cts s' /\ wires = secure_frame <$> cts /\
    Forall (fun c => zlen c < 2 ^ 16) cts.
Proof.
  revert f wires. induction batches as [|ms batches IH]; intros f wires Hw Hl.
  - destruct wires; [|done]. exists [], (lp_cipher f). by repeat constructor.
  - cbn [write_all] in Hw. rewrite lp_write_eq in Hw.
    destruct (encrypt (lp_cipher f) (concat (wire <$> ms))) as [s1 r] eqn:E. cbn [fst snd] in Hw.
    specialize (IH (mkLPFramer s1 (lp_parser f) (lp_decrypted f))).
    destruct (write_all (mkLPFramer s1 (lp_parser f) (lp_decrypted f)) batches) as [f' rs].
    destruct wires as [|w wires]; [done|]. cbn in Hw. injection Hw as Hr Hrs.
    apply Forall_cons in Hl as [Hlw Hl].
    destruct (IH wires Hrs Hl) as (cts & s' & Hs & -> & Hc). cbn [lp_cipher] in Hs.
    destruct r as [ct|e|]; [|done|done]. cbn in Hr. injection Hr as <-.
    change (u8 _ :: u8 _ :: ct) with (be_bytes 2 (wrapU 16 (zlen ct)) ++ ct) in *.
    rewrite zlen_app, zlen_be_bytes in Hlw. pose proof (zlen_nonneg ct).
    assert (wrapU 16 (zlen ct) = zlen ct) as Hwr by (apply Z.mod_small; lia).
    exists (ct :: cts), s'. split_and!.
    + by econstructor.
    + cbn [fmap list_fmap]. unfold secure_frame at 1. by rewrite Hwr.
    + constructor; [lia|done].
Qed.

(** ** Properties *)

(** C3: the encrypted data phase is a reliable channel.  Take any cipher whose
    receiver decrypts what a synchronised sender encrypted.  Whatever logical
    messages are written (frames within the receiver's size limit, each
    encrypted batch shorter than 64 KiB) and however the network cuts the octets,
    the receiver's framer delivers exactly the frames that were written, in
    order, never holds more than 64 KiB on top of what the network just delivered,
    and ends with nothing buffered. *)
Theorem secure_channel (C : Type) (HC : IDataCipher C) (HP : CipherPair C)
  (s r : C) (max1 max2 K : Z) (batches : list (list Msg)) (wires chunks : list bytes)
  (Hsync : cp_sync s r)
  (Hwrite : (write_all (LengthPrefixedFramer.new s max1) batches).2 = Ok <$> wires)
  (Hlen : Forall (fun w => zlen w < 2 ^ 16 + 2) wires)
  (Hmax : Forall (deliverable max2) (concat batches))
  (Hchunks : Forall (fun c => zlen c <= K) chunks)
  (Hnet : concat chunks = concat wires) :
  exists f', receives (2 ^ 16 + K) (LengthPrefixedFramer.new r max2) [] chunks
               (norm_msg <$> concat batches) f' [].
Proof.
  destruct (write_all_ships _ _ _ Hwrite Hlen) as (cts & s' & Hs & -> & Hc).
  destruct (receives_stream max2 K chunks s batches cts s' (LengthPrefixedFramer.new r max2) [])
    as (f' & Hr & _); [done..|by left|]. by exists f'.
Qed.

Lemma secure_channel_witness :
  let batches := [[mkMsg (Some (bs "ab")) 1; mkMsg (Some (bs "c")) 0]; [mkMsg None 0]] in
  exists f', receives (2 ^ 16 + 10) (LengthPrefixedFramer.new PassThrough (-1)) []
               [[Byte.x00]; [Byte.x07; Byte.x01; Byte.x02; Byte.x61]; [Byte.x62; Byte.x00; Byte.x01];
                [Byte.x63; Byte.x00; Byte.x02; Byte.x00; Byte.x00]]
               (norm_msg <$> concat batches) f' [].
Proof.
  cbn zeta. eapply (secure_channel _ _ _ PassThrough PassThrough 0 (-1) 10 _
    [[Byte.x00; Byte.x07; Byte.x01; Byte.x02; Byte.x61; Byte.x62; Byte.x00; Byte.x01; Byte.x63];
     [Byte.x00; Byte.x02; Byte.x00; Byte.x00]]).
  - done.
  - by vm_compute.
  - by repeat constructor.
  - by repeat constructor.
  - by repeat constructor.
  - done.
Defined.

(** C40: the 16-bit length prefix of a secure frame is not checked on the
    sending side: a batch whose ciphertext has 65536 octets or more is sent with
    its length modulo 65536, whatever the cipher.  The prefix then announces less
    than was written, so the receiver cuts the ciphertext short. *)
Theorem secure_frame_length_wraps (C : Type) (HC : IDataCipher C) (f : LengthPrefixedFramer C)
  (ms : list Msg) (c : C) (ct : bytes)
  (Henc : encrypt (lp_cipher f) (concat (wire <$> ms)) = (c, Ok ct))
  (Hbig : 2 ^ 16 <= zlen ct) :
  exists frame announced,
    (LengthPrefixedFramer.write_msg_multipart f ms).2 = Ok frame /\
    get_uint 2 frame = Ok (announced, ct) /\ announced = zlen ct mod 2 ^ 16 /\ announced < zlen ct.
Proof.
  change (LengthPrefixedFramer.write_msg_multipart f ms) with (write_msg_multipart f ms).
  rewrite lp_write_eq, Henc. cbn [fst snd mbind result_bind].
  pose proof (Z.mod_pos_bound (zlen ct) (2 ^ 16) ltac:(lia)).
  eexists _, (zlen ct mod 2 ^ 16). split_and!; [done| |done|lia].
  apply get_uint_app. unfold wrapU. change (256 ^ Z.of_nat 2) with (2 ^ 16). lia.
Qed.

Lemma secure_frame_length_wraps_witness :
  let m := mkMsg (Some (replicate (Z.to_nat 65536) Byte.x2a)) 0 in
  exists frame announced,
    (LengthPrefixedFramer.write_msg_multipart (LengthPrefixedFramer.new PassThrough (-1)) [m]).2 = Ok frame /\
    get_uint 2 frame = Ok (announced, concat (wire <$> [m])) /\
    announced = zlen (concat (wire <$> [m])) mod 2 ^ 16 /\ announced < zlen (concat (wire <$> [m])).
Proof.
  cbn zeta. eapply secure_frame_length_wraps; [done|].
  cbn [fmap list_fmap concat]. rewrite app_nil_r. unfold wire. rewrite zlen_app.
  unfold Msg.payload. cbn [m_data default from_option id].
  pose proof (zlen_nonneg (header_octets
    (mkHeader (u8 (wire_flags (mkMsg (Some (replicate (Z.to_nat 65536) Byte.x2a)) 0)))
       (Msg.size (mkMsg (Some (replicate (Z.to_nat 65536) Byte.x2a)) 0))))).
  unfold zlen at 2. rewrite length_replicate. lia.
Defined.
