(* ===== verification/Greeting.v ===== *)
(** The ZMTP greeting: [core/src/protocol/zmtp/greeting.rs].

    The 64-octet 3.x greeting, the 12-octet 2.0 greeting and the peek at the
    revision octet that decides between them.  Buffers are octet lists; the
    [debug_assert]s of the source (absent from release builds) are the length
    lemmas below. *)

From S2P Require Import Prelude Error Utf8.

Abbreviation GREETING_LENGTH := (64)%Z.
Abbreviation MECHANISM_LENGTH := (20)%Z.
Abbreviation GREETING_VERSION_MAJOR_BYTE := (Byte.x03).
Abbreviation GREETING_VERSION_MINOR_BYTE := (Byte.x00).
Abbreviation SIGNATURE_LENGTH := (10)%Z.
Abbreviation V2_GREETING_LENGTH := (SIGNATURE_LENGTH + 2)%Z.
Abbreviation VERSION_MAJOR_OFFSET := (10)%Z.
Abbreviation VERSION_MINOR_OFFSET := (11)%Z.
Abbreviation MECHANISM_OFFSET := (12)%Z.
Abbreviation AS_SERVER_OFFSET := (MECHANISM_OFFSET + MECHANISM_LENGTH)%Z.
Abbreviation PADDING_OFFSET := (AS_SERVER_OFFSET + 1)%Z.
Abbreviation PADDING_LENGTH := (GREETING_LENGTH - PADDING_OFFSET)%Z.

Inductive NegotiatedVersion :=
| V2
| V3 (minor : byte).

Definition is_v2 (v : NegotiatedVersion) : bool := match v with V2 => true | _ => false end.
Definition is_v3 (v : NegotiatedVersion) : bool := match v with V3 _ => true | _ => false end.

(** [peek_revision]. *)
Definition peek_revision (buf : bytes) : result byte :=
  if zlen buf <? SIGNATURE_LENGTH + 1
  then Err (ProtocolViolation (format "peek_revision: need {} bytes, got {}"
              [pretty (SIGNATURE_LENGTH + 1); pretty (zlen buf)]))
  else
    b0 ← index buf 0;
    if negb (Byte.eqb b0 Byte.xff)
    then Err (ProtocolViolation
      (format "greeting signature byte 0: expected 0xff, got {}" [hex04 b0]))
    else
      b9 ← index buf 9;
      if negb (Byte.eqb b9 Byte.x7f)
      then Err (ProtocolViolation
        (format "greeting signature byte 9: expected 0x7f, got {}" [hex04 b9]))
      else index buf VERSION_MAJOR_OFFSET.

(** ** ZMTP/2.0 *)

Record ZmtpV2Greeting := mkV2 { v2_revision : byte; v2_socket_type : byte }.

Module ZmtpV2Greeting.

Abbreviation REVISION := (Byte.x01).

Definition encode_tail (socket_type : byte) (buffer : bytes) : bytes :=
  buffer ++ [REVISION] ++ [socket_type].

Definition encode_full (socket_type : byte) (buffer : bytes) : bytes :=
  encode_tail socket_type (buffer ++ [Byte.xff] ++ replicate 8 Byte.x00 ++ [Byte.x7f]).

Definition decode_tail (tail0 tail1 : byte) : result ZmtpV2Greeting :=
  let revision := tail0 in
  if negb (Byte.eqb revision REVISION)
  then Err (ProtocolViolation
    (format "ZMTP/2.0 greeting: expected revision 0x01, got {}" [hex04 revision]))
  else Ok (mkV2 revision tail1).

End ZmtpV2Greeting.

Abbreviation V2_SOCKET_TYPE_PAIR := (Byte.x00).
Abbreviation V2_SOCKET_TYPE_PUB := (Byte.x01).
Abbreviation V2_SOCKET_TYPE_SUB := (Byte.x02).
Abbreviation V2_SOCKET_TYPE_REQ := (Byte.x03).
Abbreviation V2_SOCKET_TYPE_REP := (Byte.x04).
Abbreviation V2_SOCKET_TYPE_DEALER := (Byte.x05).
Abbreviation V2_SOCKET_TYPE_ROUTER := (Byte.x06).
Abbreviation V2_SOCKET_TYPE_PULL := (Byte.x07).
Abbreviation V2_SOCKET_TYPE_PUSH := (Byte.x08).

Definition socket_type_code (name : string) : option byte :=
  match name with
  | "PAIR" => Some V2_SOCKET_TYPE_PAIR
  | "PUB" => Some V2_SOCKET_TYPE_PUB
  | "SUB" => Some V2_SOCKET_TYPE_SUB
  | "REQ" => Some V2_SOCKET_TYPE_REQ
  | "REP" => Some V2_SOCKET_TYPE_REP
  | "DEALER" => Some V2_SOCKET_TYPE_DEALER
  | "ROUTER" => Some V2_SOCKET_TYPE_ROUTER
  | "PULL" => Some V2_SOCKET_TYPE_PULL
  | "PUSH" => Some V2_SOCKET_TYPE_PUSH
  | _ => None
  end%string.

Definition socket_type_name_from_code (code : byte) : option string :=
  match code with
  | Byte.x00 => Some "PAIR"
  | Byte.x01 => Some "PUB"
  | Byte.x02 => Some "SUB"
  | Byte.x03 => Some "REQ"
  | Byte.x04 => Some "REP"
  | Byte.x05 => Some "DEALER"
  | Byte.x06 => Some "ROUTER"
  | Byte.x07 => Some "PULL"
  | Byte.x08 => Some "PUSH"
  | _ => None
  end%string.

(** ** ZMTP/3.x *)

Definition encode_signature (buffer : bytes) : bytes :=
  buffer ++ [Byte.xff] ++ replicate 8 Byte.x00 ++ [Byte.x7f].

Definition encode_v3_tail_post_major (mechanism : bytes) (as_server : bool) (buffer : bytes) : bytes :=
  let target := GREETING_LENGTH - SIGNATURE_LENGTH - 1 in
  let start := zlen buffer in
  let buffer := buffer ++ [GREETING_VERSION_MINOR_BYTE] in
  let buffer := buffer ++ mechanism in
  let buffer := buffer ++ [if as_server then Byte.x01 else Byte.x00] in
  let written := zlen buffer - start in
  if written <? target
  then buffer ++ replicate (Z.to_nat (target - written)) Byte.x00
  else buffer.

Definition encode_v3_tail (mechanism : bytes) (as_server : bool) (buffer : bytes) : bytes :=
  encode_v3_tail_post_major mechanism as_server (buffer ++ [GREETING_VERSION_MAJOR_BYTE]).

Record ZmtpGreeting := mkGreeting {
  g_version : byte * byte;
  g_mechanism : bytes;
  g_as_server : bool;
}.

Module ZmtpGreeting.

Definition encode (mechanism : bytes) (as_server : bool) (buffer : bytes) : bytes :=
  encode_v3_tail mechanism as_server (encode_signature buffer).

Definition encode_tail (mechanism : bytes) (as_server : bool) (buffer : bytes) : bytes :=
  encode_v3_tail mechanism as_server buffer.

(** The [for] loop over the padding; [n] octets remain to be looked at. *)
Fixpoint check_padding (data : bytes) (idx : Z) (n : nat) : result unit :=
  match n with
  | O => Ok tt
  | S n =>
      b ← index data idx;
      if negb (Byte.eqb b Byte.x00)
      then Err (ProtocolViolation "Non-zero byte in greeting padding")
      else check_padding data (idx + 1) n
  end.

(** The checks on the 64 octets taken off the buffer. *)
Definition decode_data (data : bytes) : result ZmtpGreeting :=
  b0 ← index data 0;
  if negb (Byte.eqb b0 Byte.xff)
  then Err (ProtocolViolation "Greeting does not start with 0xFF")
  else
    _ ← check_padding data PADDING_OFFSET (Z.to_nat PADDING_LENGTH);
    major_version ← index data VERSION_MAJOR_OFFSET;
    minor_version ← index data VERSION_MINOR_OFFSET;
    if negb (Byte.eqb major_version GREETING_VERSION_MAJOR_BYTE)
    then Err (ProtocolViolation (format "Unsupported ZMTP major version {}.{}"
                [pretty (byteZ major_version); pretty (byteZ minor_version)]))
    else
      mechanism ← slice data MECHANISM_OFFSET (MECHANISM_OFFSET + MECHANISM_LENGTH);
      as_server_byte ← index data AS_SERVER_OFFSET;
      as_server ← match as_server_byte with
                  | Byte.x00 => Ok false
                  | Byte.x01 => Ok true
                  | _ => Err (ProtocolViolation "Invalid as-server flag")
                  end;
      Ok (mkGreeting (major_version, minor_version) mechanism as_server).

Definition decode (buffer : bytes) : bytes * result (option ZmtpGreeting) :=
  if zlen buffer <? GREETING_LENGTH then (buffer, Ok None)
  else match split_to buffer GREETING_LENGTH with
       | Ok (data, buffer) => (buffer, Some <$> decode_data data)
       | Err e => (buffer, Err e)
       | Panic => (buffer, Panic)
       end.

(** [position(|&b| b == 0)]. *)
Fixpoint first_null (l : bytes) : option Z :=
  match l with
  | [] => None
  | b :: l => if Byte.eqb b Byte.x00 then Some 0 else Z.succ <$> first_null l
  end.

Definition mechanism_name (g : ZmtpGreeting) : bytes :=
  let n := default MECHANISM_LENGTH (first_null (g_mechanism g)) in
  let name := take (Z.to_nat n) (g_mechanism g) in
  if utf8_valid name then name else bs "<invalid_utf8>".

End ZmtpGreeting.

(** ** Lemmas *)

(** The fields of a 64-octet greeting, by their offsets. *)
Record fields := mkFields {
  f_first : byte; f_sig : bytes; f_major : byte; f_minor : byte;
  f_mech : bytes; f_server : byte; f_pad : bytes;
}.

Definition octets (f : fields) : bytes :=
  (f_first f :: f_sig f) ++ f_major f :: f_minor f :: f_mech f ++ f_server f :: f_pad f.

Definition fields_wf (f : fields) : Prop :=
  zlen (f_sig f) = 9 /\ zlen (f_mech f) = 20 /\ zlen (f_pad f) = 31.

Lemma fields_exist data : zlen data = 64 -> exists f, fields_wf f /\ data = octets f.
Proof.
  intros H. destruct (uncons data) as (b0 & d1 & -> & H1); [lia|].
  destruct (split_at d1 9) as (s & d2 & -> & Hs & H2); [lia|].
  destruct (uncons d2) as (maj & d3 & -> & H3); [lia|].
  destruct (uncons d3) as (mnr & d4 & -> & H4); [lia|].
  destruct (split_at d4 20) as (mech & d5 & -> & Hm & H5); [lia|].
  destruct (uncons d5) as (srv & pad & -> & H6); [lia|].
  exists (mkFields b0 s maj mnr mech srv pad). split; [|done].
  unfold fields_wf. cbn [f_sig f_mech f_pad]. lia.
Qed.

Lemma check_padding_spec pre suf :
  ZmtpGreeting.check_padding (pre ++ suf) (zlen pre) (length suf) =
  if bool_decide (suf = replicate (length suf) Byte.x00) then Ok tt
  else Err (ProtocolViolation "Non-zero byte in greeting padding").
Proof.
  revert pre. induction suf as [|b suf IH]; intros pre; [done|].
  cbn [length ZmtpGreeting.check_padding]. rewrite index_app by done. cbn [mbind result_bind].
  destruct (Byte.eqb b Byte.x00) eqn:Eb; cbn [negb].
  - apply Byte.byte_dec_bl in Eb as ->.
    specialize (IH (pre ++ [Byte.x00])). rewrite <- app_assoc, zlen_app in IH. cbn [app] in IH.
    change (zlen [Byte.x00]) with 1 in IH. rewrite IH.
    rewrite (bool_decide_ext (suf = _) (Byte.x00 :: suf = replicate (S (length suf)) Byte.x00)); [done|].
    cbn [replicate]. split; congruence.
  - rewrite bool_decide_false; [done|]. intros [= ->]. done.
Qed.

Definition server_flag (b : byte) : option bool :=
  match b with Byte.x00 => Some false | Byte.x01 => Some true | _ => None end.

(** What the decoder answers, field by field. *)
Definition decode_fields (f : fields) : result ZmtpGreeting :=
  if negb (Byte.eqb (f_first f) Byte.xff)
  then Err (ProtocolViolation "Greeting does not start with 0xFF")
  else if negb (bool_decide (f_pad f = replicate 31 Byte.x00))
  then Err (ProtocolViolation "Non-zero byte in greeting padding")
  else if negb (Byte.eqb (f_major f) Byte.x03)
  then Err (ProtocolViolation (format "Unsupported ZMTP major version {}.{}"
              [pretty (byteZ (f_major f)); pretty (byteZ (f_minor f))]))
  else match server_flag (f_server f) with
       | Some s => Ok (mkGreeting (f_major f, f_minor f) (f_mech f) s)
       | None => Err (ProtocolViolation "Invalid as-server flag")
       end.

Lemma decode_data_fields f :
  fields_wf f -> ZmtpGreeting.decode_data (octets f) = decode_fields f.
Proof.
  destruct f as [b0 s maj mnr mech srv pad]. intros (Hs & Hm & Hp).
  cbn [f_sig f_mech f_pad] in *. unfold ZmtpGreeting.decode_data, decode_fields, octets.
  cbn [f_first f_sig f_major f_minor f_mech f_server f_pad app].
  set (data := b0 :: s ++ maj :: mnr :: mech ++ srv :: pad).
  assert (length pad = 31%nat) as Hp' by (unfold zlen in Hp; lia).
  assert (Hc := check_padding_spec (b0 :: s ++ maj :: mnr :: mech ++ [srv]) pad).
  replace ((b0 :: s ++ maj :: mnr :: mech ++ [srv]) ++ pad) with data in Hc
    by (unfold data; by app_norm).
  replace (zlen _) with PADDING_OFFSET in Hc
    by (by rewrite zlen_cons, zlen_app, !zlen_cons, zlen_app, Hs, Hm).
  rewrite Hp' in Hc.
  rewrite (index_at [] (s ++ maj :: mnr :: mech ++ srv :: pad) b0 data 0) by done.
  rewrite (index_at (b0 :: s) (mnr :: mech ++ srv :: pad) maj data VERSION_MAJOR_OFFSET)
    by (done || by rewrite zlen_cons, Hs).
  rewrite (index_at (b0 :: s ++ [maj]) (mech ++ srv :: pad) mnr data VERSION_MINOR_OFFSET)
    by (rewrite ?zlen_cons, ?zlen_app, ?Hs; unfold data; by app_norm).
  rewrite (slice_at (b0 :: s ++ [maj; mnr]) mech (srv :: pad) data)
    by (rewrite ?zlen_cons, ?zlen_app, ?Hs, ?Hm; unfold data; by app_norm).
  rewrite (index_at (b0 :: s ++ maj :: mnr :: mech) pad srv data AS_SERVER_OFFSET)
    by (rewrite ?zlen_cons, ?zlen_app, ?zlen_cons, ?Hs, ?Hm; unfold data; by app_norm).
  change (Z.to_nat PADDING_LENGTH) with 31%nat. rewrite Hc. cbn [mbind result_bind].
  destruct (Byte.eqb b0 Byte.xff); [cbn [negb]|done].
  case_bool_decide; [cbn [negb]|done].
  destruct (Byte.eqb maj Byte.x03); [cbn [negb]|done]. by destruct srv.
Qed.

Lemma v3_tail_post_major_eq mech srv buffer :
  zlen mech = MECHANISM_LENGTH ->
  encode_v3_tail_post_major mech srv buffer =
  buffer ++ Byte.x00 :: mech ++ (if srv then Byte.x01 else Byte.x00) :: replicate 31 Byte.x00.
Proof.
  intros Hm. unfold encode_v3_tail_post_major.
  replace (zlen _ - zlen buffer) with 22 by (rewrite !zlen_app, Hm; unfold zlen; cbn [length]; lia).
  change (22 <? GREETING_LENGTH - SIGNATURE_LENGTH - 1) with true. cbn match.
  change (Z.to_nat (GREETING_LENGTH - SIGNATURE_LENGTH - 1 - 22)) with 31%nat.
  by app_norm.
Qed.

Definition greeting_fields (mech : bytes) (srv : bool) : fields :=
  mkFields Byte.xff (replicate 8 Byte.x00 ++ [Byte.x7f]) Byte.x03 Byte.x00 mech
    (if srv then Byte.x01 else Byte.x00) (replicate 31 Byte.x00).

Lemma encode_octets mech srv buffer :
  zlen mech = MECHANISM_LENGTH ->
  ZmtpGreeting.encode mech srv buffer = buffer ++ octets (greeting_fields mech srv).
Proof.
  intros Hm. unfold ZmtpGreeting.encode, encode_v3_tail, encode_signature.
  rewrite v3_tail_post_major_eq by done. unfold octets, greeting_fields.
  cbn [f_first f_sig f_major f_minor f_mech f_server f_pad]. by app_norm.
Qed.

Lemma greeting_fields_wf mech srv :
  zlen mech = MECHANISM_LENGTH -> fields_wf (greeting_fields mech srv).
Proof. by intros. Qed.

Lemma octets_length f : fields_wf f -> zlen (octets f) = GREETING_LENGTH.
Proof.
  intros (Hs & Hm & Hp). unfold octets.
  rewrite zlen_app, !zlen_cons, zlen_app, zlen_cons, Hs, Hm, Hp. done.
Qed.

Lemma decode_octets f rest :
  fields_wf f -> ZmtpGreeting.decode (octets f ++ rest) = (rest, Some <$> decode_fields f).
Proof.
  intros Hwf. unfold ZmtpGreeting.decode. pose proof (octets_length f Hwf) as Hl.
  rewrite split_to_app by done. rewrite zlen_app, Hl, (proj2 (Z.ltb_ge _ _)).
  - by rewrite decode_data_fields.
  - pose proof (zlen_nonneg rest). lia.
Qed.

Lemma peek_revision_octets f rest :
  fields_wf f -> f_first f = Byte.xff -> f_sig f !! 8%nat = Some Byte.x7f ->
  peek_revision (octets f ++ rest) = Ok (f_major f).
Proof.
  destruct f as [b0 s maj mnr mech srv pad]. intros Hwf Hff H9. pose proof (octets_length _ Hwf) as Hl.
  destruct Hwf as (Hs & Hm & Hp). cbn in Hff, H9, Hs, Hm, Hp. subst b0.
  unfold peek_revision. rewrite zlen_app, Hl, (proj2 (Z.ltb_ge _ _))
    by (pose proof (zlen_nonneg rest); lia).
  unfold octets. cbn [f_first f_sig f_major f_minor f_mech f_server f_pad].
  app_norm. set (data := Byte.xff :: s ++ maj :: _).
  assert (data !! 9%nat = Some Byte.x7f).
  { change (data !! 9%nat) with ((s ++ maj :: mnr :: mech ++ srv :: pad ++ rest) !! 8%nat).
    by rewrite lookup_app_l by (unfold zlen in Hs; lia). }
  rewrite (index_lookup data 0 Byte.xff), (index_lookup data 9 Byte.x7f) by done.
  by rewrite (index_at (Byte.xff :: s) (mnr :: mech ++ srv :: pad ++ rest) maj data)
    by (done || by rewrite zlen_cons, Hs).
Qed.

Lemma socket_type_code_name name code :
  socket_type_code name = Some code -> socket_type_name_from_code code = Some name.
Proof. unfold socket_type_code. repeat (case_match; try done); by intros [= <-]. Qed.

(** ** Properties *)

(** The greeting a peer sends is the greeting the other side decodes: for a
    20-octet mechanism field and either role, the staged transmission (signature,
    major version, then the rest) is octet for octet the one-shot encoding, is
    64 octets long, shows revision 3 to the peek, and decodes to version 3.0
    with the same mechanism and role, leaving what follows untouched. *)
Theorem greeting_roundtrip (mech : bytes) (srv : bool) (rest : bytes)
  (Hm : zlen mech = MECHANISM_LENGTH) :
  let staged := encode_v3_tail_post_major mech srv
                  (encode_signature [] ++ [GREETING_VERSION_MAJOR_BYTE]) in
  staged = ZmtpGreeting.encode mech srv [] /\
  zlen staged = GREETING_LENGTH /\
  peek_revision (staged ++ rest) = Ok GREETING_VERSION_MAJOR_BYTE /\
  ZmtpGreeting.decode (staged ++ rest) =
    (rest, Ok (Some (mkGreeting (Byte.x03, Byte.x00) mech srv))).
Proof.
  cbn zeta.
  change (encode_v3_tail_post_major mech srv _) with (ZmtpGreeting.encode mech srv []).
  pose proof (greeting_fields_wf mech srv Hm) as Hwf. rewrite encode_octets by done. cbn [app].
  split_and!; [done|by apply octets_length|by apply peek_revision_octets|].
  rewrite decode_octets by done. by destruct srv.
Qed.

Lemma greeting_roundtrip_witness :
  let mech := bs "NULL" ++ replicate 16 Byte.x00 in
  ZmtpGreeting.decode (ZmtpGreeting.encode mech true [] ++ bs "xyz") =
    (bs "xyz", Ok (Some (mkGreeting (Byte.x03, Byte.x00) mech true))).
Proof.
  cbn zeta. apply (greeting_roundtrip (bs "NULL" ++ replicate 16 Byte.x00) true (bs "xyz")). done.
Defined.

(** The decoder accepts exactly the well-formed 3.x greetings.  It never
    panics and never accepts early: below 64 octets it waits with the buffer
    untouched; from 64 octets on it consumes exactly 64 and succeeds if and
    only if the first octet is 0xFF, the major version 3, the as-server octet 0
    or 1 and the 31 padding octets zero.  (Octets 1 to 9 of the signature are
    not looked at here.) *)
Theorem greeting_decode_exact (buffer : bytes) :
  (zlen buffer < GREETING_LENGTH -> ZmtpGreeting.decode buffer = (buffer, Ok None)) /\
  (GREETING_LENGTH <= zlen buffer ->
   exists f rest, fields_wf f /\ buffer = octets f ++ rest /\
     fst (ZmtpGreeting.decode buffer) = rest /\
     no_panic (snd (ZmtpGreeting.decode buffer)) /\
     forall g, snd (ZmtpGreeting.decode buffer) = Ok (Some g) <->
       f_first f = Byte.xff /\ f_major f = Byte.x03 /\ f_pad f = replicate 31 Byte.x00 /\
       server_flag (f_server f) = Some (g_as_server g) /\
       g_version g = (f_major f, f_minor f) /\ g_mechanism g = f_mech f).
Proof.
  split.
  { intros Hlt%Z.ltb_lt. unfold ZmtpGreeting.decode. by rewrite Hlt. }
  intros Hge. destruct (split_at buffer GREETING_LENGTH) as (data & rest & -> & Hd & _).
  { split; [done|lia]. }
  destruct (fields_exist data Hd) as (f & Hwf & ->). exists f, rest.
  rewrite decode_octets by done. cbn [fst snd]. split_and!; [done..| |].
  - unfold decode_fields. by repeat case_match.
  - intros [ver mech srv]. unfold decode_fields. cbn [g_as_server g_version g_mechanism].
    destruct (Byte.eqb (f_first f) Byte.xff) eqn:E1; cbn [negb].
    2:{ split; [done|]. intros (H & _). by rewrite H in E1. }
    apply Byte.byte_dec_bl in E1.
    case_bool_decide; cbn [negb]; [|split; [done|]; by intros (_ & _ & ? & _)].
    destruct (Byte.eqb (f_major f) Byte.x03) eqn:E2; cbn [negb].
    2:{ split; [done|]. intros (_ & H' & _). by rewrite H' in E2. }
    apply Byte.byte_dec_bl in E2.
    destruct (server_flag (f_server f)); cbn; [|split; [done|]; by intros (_ & _ & _ & [=] & _)].
    split; [intros [= <- <- <-]; done|]. intros (_ & _ & _ & [= ->] & -> & ->). done.
Qed.

(** The ZMTP/2.0 socket-type octets name the socket types one to one: code and
    name are inverse on all nine types, no other octet or name is accepted, and
    a 2.0 greeting tail decodes to the socket type it was encoded with. *)
Theorem v2_socket_type_bijection (name : string) (code t0 : byte) :
  (socket_type_code name = Some code <-> socket_type_name_from_code code = Some name) /\
  (is_Some (socket_type_name_from_code code) <-> byteZ code <= 8) /\
  ZmtpV2Greeting.encode_full code [] =
    ZmtpV2Greeting.encode_tail code (encode_signature []) /\
  ZmtpV2Greeting.decode_tail ZmtpV2Greeting.REVISION code =
    Ok (mkV2 ZmtpV2Greeting.REVISION code) /\
  (t0 <> ZmtpV2Greeting.REVISION -> exists e, ZmtpV2Greeting.decode_tail t0 code = Err e).
Proof.
  split_and!.
  - split.
    + apply socket_type_code_name.
    + destruct code; cbn; try done; by intros [= <-].
  - destruct code; (split; intros H;
      first [by vm_compute | by eexists | by destruct H | by destruct (H eq_refl)]).
  - done.
  - done.
  - intros Hne. unfold ZmtpV2Greeting.decode_tail.
    destruct (Byte.eqb t0 ZmtpV2Greeting.REVISION) eqn:E; [|by eexists].
    by apply Byte.byte_dec_bl in E.
Qed.

Lemma v2_socket_type_bijection_witness :
  exists e, ZmtpV2Greeting.decode_tail Byte.x03 V2_SOCKET_TYPE_REQ = Err e.
Proof.
  apply (v2_socket_type_bijection "REQ" V2_SOCKET_TYPE_REQ Byte.x03). done.
Defined.
