(* ===== verification/Mechanism.v ===== *)
(** Security mechanisms: [core/src/security/{mechanism,null}.rs].

    The trait [Mechanism] is a class; [Box<dyn ISecureFramer>] is the sum of the
    two framers.  ZAP hooks and message metadata return constants in every
    implementation and are left out. *)

From S2P Require Import Prelude Error Message Codec Framer.

Inductive MechanismStatus :=
| Initializing | Handshaking | Authenticating | StReady | StError.

Inductive ProcessTokenAction :=
| ContinueWaiting
| ProduceAndSend
| HandshakeComplete.

#[export] Instance MechanismStatus_eq_dec : EqDecision MechanismStatus.
Proof. solve_decision. Defined.
#[export] Instance ProcessTokenAction_eq_dec : EqDecision ProcessTokenAction.
Proof. solve_decision. Defined.

(** [Box<dyn ISecureFramer>]. *)
Inductive DynFramer (C : Type) :=
| DynNull (f : NullFramer)
| DynLengthPrefixed (f : LengthPrefixedFramer C).
Arguments DynNull {C}.
Arguments DynLengthPrefixed {C}.

#[export] Instance dyn_framer `{IDataCipher C} : ISecureFramer (DynFramer C) := {
  try_read_msg f net :=
    match f with
    | DynNull f => let '(f, net, r) := try_read_msg f net in (DynNull f, net, r)
    | DynLengthPrefixed f =>
        let '(f, net, r) := try_read_msg f net in (DynLengthPrefixed f, net, r)
    end;
  write_msg_multipart f msgs :=
    match f with
    | DynNull f => let '(f, r) := write_msg_multipart f msgs in (DynNull f, r)
    | DynLengthPrefixed f =>
        let '(f, r) := write_msg_multipart f msgs in (DynLengthPrefixed f, r)
    end;
}.

(** The trait; [C] is the type of the data-phase ciphers. *)
Class Mechanism (C M : Type) := {
  mech_name : M -> string;
  process_token : M -> bytes -> M * result ProcessTokenAction;
  produce_token : M -> M * result (option bytes);
  status : M -> MechanismStatus;
  mech_peer_identity : M -> option bytes;
  set_error : M -> string -> M;
  error_reason : M -> option string;
  into_framer : M -> Z -> result (DynFramer C * option bytes);
}.
Arguments mech_name C {M _}.
Arguments process_token C {M _}.
Arguments produce_token C {M _}.
Arguments status C {M _}.
Arguments mech_peer_identity C {M _}.
Arguments set_error C {M _}.
Arguments error_reason C {M _}.
Arguments into_framer C {M _}.

(** The provided methods of the trait. *)
Definition is_complete C `{Mechanism C M} (m : M) : bool := bool_decide (status C m = StReady).
Definition is_error C `{Mechanism C M} (m : M) : bool := bool_decide (status C m = StError).

(** ** NULL *)

Inductive NullMechanism := mkNullMechanism.

Module NullMechanism.
Abbreviation NAME := ("NULL"%string).
Abbreviation NAME_BYTES := (bs "NULL" ++ replicate 16 Byte.x00).
End NullMechanism.

#[export] Instance null_mechanism (C : Type) : Mechanism C NullMechanism := {
  mech_name _ := NullMechanism.NAME;
  process_token m _ := (m, Ok HandshakeComplete);
  produce_token m := (m, Ok None);
  status _ := StReady;
  mech_peer_identity _ := None;
  set_error m _ := m;
  error_reason _ := None;
  into_framer _ max_msg_size := Ok (DynNull (NullFramer.new max_msg_size), None);
}.
