(* ===== verification/Plain.v ===== *)
(** The PLAIN mechanism: [core/src/security/plain.rs]. *)

From S2P Require Import Prelude Error Utf8 Message Codec Framer Mechanism.

Inductive PlainState :=
| PInitializing
| ClientSendHello | ClientExpectWelcome
| ServerExpectHello | ServerSendWelcome
| PReady | PError.

#[export] Instance PlainState_eq_dec : EqDecision PlainState.
Proof. solve_decision. Defined.

(** [{:?}] of the state. *)
Definition PlainState_debug (s : PlainState) : string :=
  match s with
  | PInitializing => "Initializing"
  | ClientSendHello => "ClientSendHello"
  | ClientExpectWelcome => "ClientExpectWelcome"
  | ServerExpectHello => "ServerExpectHello"
  | ServerSendWelcome => "ServerSendWelcome"
  | PReady => "Ready"
  | PError => "Error"
  end.

Record PlainMechanism := mkPlain {
  is_server : bool;
  state : PlainState;
  username : option bytes;
  password : option bytes;
  expected_username : option bytes;
  expected_password : option bytes;
  plain_error_reason : option string;
}.

#[export] Instance PlainMechanism_eta : Eta PlainMechanism := fun m =>
  mkPlain (is_server m) (state m) (username m) (password m) (expected_username m)
    (expected_password m) (plain_error_reason m).

Module PlainMechanism.

Abbreviation NAME := ("PLAIN"%string).
Abbreviation NAME_BYTES := (bs "PLAIN" ++ replicate 15 Byte.x00).
Abbreviation CMD_HELLO := (bs "HELLO").
Abbreviation CMD_WELCOME := (bs "WELCOME").
Abbreviation CMD_ERROR := (bs "ERROR").

Definition new (is_server : bool) : PlainMechanism :=
  mkPlain is_server (if is_server then ServerExpectHello else ClientSendHello)
    None None None None None.

Definition set_client_credentials (u p : option bytes) (m : PlainMechanism) : PlainMechanism :=
  if negb (is_server m) then m <| username := u |> <| password := p |> else m.

Definition set_server_expected_credentials (u p : option bytes) (m : PlainMechanism)
  : PlainMechanism :=
  if is_server m then m <| expected_username := u |> <| expected_password := p |> else m.

Definition parse_hello_body (body : bytes) : result (bytes * bytes) :=
  let cursor := body in
  if zlen body <? 2 then Err (SecurityError "PLAIN HELLO body too short")
  else
    '(b, cursor) ← get_u8 cursor;
    let user_len := byteZ b in
    if zlen cursor <? user_len + 1
    then Err (SecurityError "Invalid PLAIN HELLO username length")
    else
      '(username, cursor) ← split_to cursor user_len;
      '(b, cursor) ← get_u8 cursor;
      let pass_len := byteZ b in
      if zlen cursor <? pass_len
      then Err (SecurityError "Invalid PLAIN HELLO password length")
      else
        '(password, _) ← split_to cursor pass_len;
        Ok (username, password).

Definition create_hello_body (username password : bytes) : bytes :=
  let user_len := u8 (Z.min (zlen username) 255) in
  let pass_len := u8 (Z.min (zlen password) 255) in
  [user_len] ++ take (Z.to_nat (byteZ user_len)) username ++
  [pass_len] ++ take (Z.to_nat (byteZ pass_len)) password.

Definition set_error_internal (reason : string) (m : PlainMechanism) : PlainMechanism :=
  m <| plain_error_reason := Some reason |> <| state := PError |>.

(** [opt.as_ref().map_or(false, |u| u == &x)]. *)
Definition is_exactly (o : option bytes) (x : bytes) : bool :=
  match o with Some u => bool_decide (u = x) | None => false end.

(** The server's arm of [process_token]. *)
Definition server_token (m : PlainMechanism) (command_name body : bytes)
  : PlainMechanism * result ProcessTokenAction :=
  match state m with
  | ServerExpectHello =>
      if bool_decide (command_name = CMD_HELLO) then
        match parse_hello_body body with
        | Ok (u, p) =>
            let is_valid := is_exactly (expected_username m) u && is_exactly (expected_password m) p in
            if is_valid
            then (m <| username := Some u |> <| password := Some p |> <| state := ServerSendWelcome |>,
                  Ok ProduceAndSend)
            else let msg := "Invalid username or password"%string in
                 (set_error_internal msg m, Err (AuthenticationFailure msg))
        | Err e => (set_error_internal (format "Failed to parse HELLO: {}" [display e]) m, Err e)
        | Panic => (m, Panic)
        end
      else (set_error_internal (format "Expected HELLO, got {}" [text_lossy command_name]) m,
            Err (SecurityError "Unexpected command"))
  | _ =>
      (set_error_internal (format "Unexpected command received by server in state {}: {}"
         [PlainState_debug (state m); text_lossy command_name]) m,
       Err (SecurityError "Unexpected command in server state"))
  end.

(** The client's arm. *)
Definition client_token (m : PlainMechanism) (command_name body : bytes)
  : PlainMechanism * result ProcessTokenAction :=
  match state m with
  | ClientExpectWelcome =>
      if bool_decide (command_name = CMD_WELCOME) then
        (m <| state := PReady |>, Ok HandshakeComplete)
      else if bool_decide (command_name = CMD_ERROR) then
        let reason := text_lossy body in
        (set_error_internal (format "Received ERROR from server: {}" [reason]) m,
         Err (AuthenticationFailure reason))
      else (set_error_internal (format "Expected WELCOME or ERROR, got {}" [text_lossy command_name]) m,
            Err (SecurityError "Unexpected command from server"))
  | _ =>
      (set_error_internal (format "Unexpected command received by client in state {}: {}"
         [PlainState_debug (state m); text_lossy command_name]) m,
       Err (SecurityError "Unexpected command in client state"))
  end.

Definition process_token (m : PlainMechanism) (token : bytes)
  : PlainMechanism * result ProcessTokenAction :=
  match token with
  | [] => (set_error_internal "Received empty security token" m, Err (SecurityError "Empty token"))
  | b :: _ =>
      let command_len := byteZ b in
      if zlen token <? 1 + command_len
      then (set_error_internal "Invalid command frame received" m,
            Err (SecurityError "Malformed command frame"))
      else
        match slice token 1 (1 + command_len), slice_from token (1 + command_len) with
        | Ok command_name, Ok body =>
            if is_server m then server_token m command_name body
            else client_token m command_name body
        | _, _ => (m, Panic)
        end
  end.

Definition produce_token (m : PlainMechanism) : PlainMechanism * result (option bytes) :=
  match state m with
  | ClientSendHello =>
      let username_bytes := default [] (username m) in
      let password_bytes := default [] (password m) in
      let body := create_hello_body username_bytes password_bytes in
      let frame := [u8 (zlen CMD_HELLO)] ++ CMD_HELLO ++ body in
      (m <| state := ClientExpectWelcome |>, Ok (Some frame))
  | ServerSendWelcome =>
      let frame := [u8 (zlen CMD_WELCOME)] ++ CMD_WELCOME in
      (m <| state := PReady |>, Ok (Some frame))
  | _ => (m, Ok None)
  end.

Definition status (m : PlainMechanism) : MechanismStatus :=
  match state m with
  | PInitializing | ClientSendHello | ClientExpectWelcome | ServerExpectHello
  | ServerSendWelcome => Handshaking
  | PReady => StReady
  | PError => StError
  end.

Definition into_framer {C} (m : PlainMechanism) (max_msg_size : Z)
  : result (DynFramer C * option bytes) :=
  if negb (bool_decide (status m = StReady))
  then Err (InvalidState "PLAIN handshake not complete.")
  else Ok (DynNull (NullFramer.new max_msg_size), username m).

End PlainMechanism.

#[export] Instance plain_mechanism (C : Type) : Mechanism C PlainMechanism := {
  mech_name _ := PlainMechanism.NAME;
  process_token := PlainMechanism.process_token;
  produce_token := PlainMechanism.produce_token;
  status := PlainMechanism.status;
  mech_peer_identity := username;
  set_error m reason := PlainMechanism.set_error_internal reason m;
  error_reason := plain_error_reason;
  into_framer := PlainMechanism.into_framer;
}.

(** ** Lemmas *)

Lemma zlen_take_min {A} (l : list A) n : 0 <= n -> zlen (take (Z.to_nat n) l) = Z.min n (zlen l).
Proof. intros. unfold zlen. rewrite length_take. lia. Qed.

(** The octets of a credential that travel: the first 255. *)
Definition clip (l : bytes) : bytes := take 255 l.

Lemma clip_len l : 0 <= zlen (clip l) <= 255.
Proof. unfold clip, zlen. rewrite length_take. lia. Qed.

Lemma create_hello_body_eq u p :
  PlainMechanism.create_hello_body u p =
  [u8 (zlen (clip u))] ++ clip u ++ [u8 (zlen (clip p))] ++ clip p.
Proof.
  assert (Hc : forall l : bytes, Z.min (zlen l) 255 = zlen (clip l)).
  { intros l. unfold clip, zlen. rewrite length_take. lia. }
  assert (Ht : forall l : bytes, take (Z.to_nat (zlen (clip l))) l = clip l).
  { intros l. unfold clip, zlen. rewrite length_take, Nat2Z.id.
    destruct (Nat.min_spec 255 (length l)) as [[? ->]|[? ->]]; [done|].
    by rewrite !take_ge by lia. }
  unfold PlainMechanism.create_hello_body. rewrite !Hc.
  rewrite !byteZ_u8_small by (pose proof (clip_len u); pose proof (clip_len p); lia).
  by rewrite !Ht.
Qed.

Lemma parse_create_hello u p :
  PlainMechanism.parse_hello_body (PlainMechanism.create_hello_body u p) = Ok (clip u, clip p).
Proof.
  rewrite create_hello_body_eq. pose proof (clip_len u). pose proof (clip_len p).
  unfold PlainMechanism.parse_hello_body. cbn [app].
  rewrite (proj2 (Z.ltb_ge _ _)) by (rewrite zlen_cons, zlen_app, zlen_cons; lia).
  cbn [get_u8 mbind result_bind]. rewrite byteZ_u8_small by lia.
  rewrite (proj2 (Z.ltb_ge _ _)) by (rewrite zlen_app, zlen_cons; lia).
  rewrite split_to_app by done. cbn [mbind result_bind get_u8]. rewrite byteZ_u8_small by lia.
  rewrite (proj2 (Z.ltb_ge _ _)) by lia.
  rewrite <- (app_nil_r (clip p)) at 1. by rewrite split_to_app by done.
Qed.

Lemma parse_hello_no_panic body : no_panic (PlainMechanism.parse_hello_body body).
Proof.
  unfold PlainMechanism.parse_hello_body. destruct (Z.ltb_spec (zlen body) 2); [done|].
  destruct body as [|b t]; [done|]. cbn [get_u8 mbind result_bind]. pose proof (byteZ_range b).
  destruct (Z.ltb_spec (zlen t) (byteZ b + 1)); [done|].
  destruct (split_to_no_panic t (byteZ b)) as (u & r & -> & -> & Hu); [lia|].
  cbn [mbind result_bind]. rewrite zlen_app in *.
  destruct r as [|b' r]; [change (zlen (@nil byte)) with 0 in *; lia|].
  cbn [get_u8 mbind result_bind]. pose proof (byteZ_range b').
  destruct (Z.ltb_spec (zlen r) (byteZ b')); [done|].
  by destruct (split_to_no_panic r (byteZ b')) as (? & ? & -> & _); [lia|].
Qed.

(** A length-prefixed command as [process_token] takes it apart. *)
Lemma process_token_command m name body :
  zlen name <= 255 ->
  PlainMechanism.process_token m ([u8 (zlen name)] ++ name ++ body) =
  if is_server m then PlainMechanism.server_token m name body
  else PlainMechanism.client_token m name body.
Proof.
  intros Hn. pose proof (zlen_nonneg name). pose proof (zlen_nonneg body).
  unfold PlainMechanism.process_token. cbn [app]. rewrite byteZ_u8_small by lia.
  rewrite (proj2 (Z.ltb_ge _ _)) by (rewrite zlen_cons, zlen_app; lia).
  assert (Hs : slice (u8 (zlen name) :: name ++ body) 1 (1 + zlen name) = Ok name).
  { unfold slice. rewrite zlen_cons, zlen_app. replace (_ && _ && _) with true by lia.
    replace (1 + zlen name - 1) with (zlen name) by lia. change (Z.to_nat 1) with 1%nat.
    change (drop 1 (_ :: name ++ body)) with (name ++ body). unfold zlen. by rewrite Nat2Z.id, take_app_length. }
  assert (Hf : slice_from (u8 (zlen name) :: name ++ body) (1 + zlen name) = Ok body).
  { apply (slice_from_app (u8 (zlen name) :: name)). by rewrite zlen_cons. }
  by rewrite Hs, Hf.
Qed.

Lemma process_token_no_panic m token : no_panic (PlainMechanism.process_token m token).2.
Proof.
  unfold PlainMechanism.process_token. destruct token as [|b t]; [done|].
  pose proof (byteZ_range b).
  destruct (Z.ltb_spec (zlen (b :: t)) (1 + byteZ b)); [done|].
  assert (exists name, slice (b :: t) 1 (1 + byteZ b) = Ok name) as [name ->].
  { unfold slice. replace (_ && _ && _) with true by lia. by eexists. }
  rewrite slice_from_Ok by lia.
  destruct (is_server m).
  - unfold PlainMechanism.server_token. destruct (state m); try done.
    case_bool_decide; [|done]. pose proof (parse_hello_no_panic (drop (Z.to_nat (1 + byteZ b)) (b :: t))).
    destruct (PlainMechanism.parse_hello_body _) as [[u p]| |]; [|done|done].
    by destruct (_ && _).
  - unfold PlainMechanism.client_token. destruct (state m); try done. by repeat case_bool_decide.
Qed.

(** What a peer can make a mechanism do: feed it a token or ask for one. *)
Inductive plain_step : PlainMechanism -> PlainMechanism -> Prop :=
| step_process m token : plain_step m (PlainMechanism.process_token m token).1
| step_produce m : plain_step m (PlainMechanism.produce_token m).1
| step_error m reason : plain_step m (PlainMechanism.set_error_internal reason m).

Definition plain_server (eu ep : option bytes) : PlainMechanism :=
  PlainMechanism.set_server_expected_credentials eu ep (PlainMechanism.new true).
Definition plain_client (u p : option bytes) : PlainMechanism :=
  PlainMechanism.set_client_credentials u p (PlainMechanism.new false).

(** The server has accepted exactly the expected credentials. *)
Definition accepted (eu ep : option bytes) (m : PlainMechanism) : Prop :=
  is_server m = true /\ expected_username m = eu /\ expected_password m = ep /\
  (state m = ServerExpectHello \/ state m = PError \/
   (state m = ServerSendWelcome \/ state m = PReady) /\
   is_Some (username m) /\ is_Some (password m) /\ username m = eu /\ password m = ep).

Lemma is_exactly_spec o x : PlainMechanism.is_exactly o x = true <-> o = Some x.
Proof.
  destruct o as [u|]; cbn; [|done]. rewrite bool_decide_eq_true. split; [by intros ->|by intros [=]].
Qed.

Lemma accepted_step eu ep m m' : accepted eu ep m -> plain_step m m' -> accepted eu ep m'.
Proof.
  intros (Hs & Hu & Hp & Hst) Hstep.
  assert (Herr : forall reason, accepted eu ep (PlainMechanism.set_error_internal reason m))
    by (intros; unfold accepted; cbn; by split_and!; auto).
  assert (Hsame : accepted eu ep m) by (by unfold accepted).
  inv Hstep; [..|done].
  - unfold PlainMechanism.process_token. destruct token as [|b t]; [apply Herr|].
    destruct (_ <? _); [apply Herr|]. destruct (slice (b :: t) _ _); [|done..]. destruct (slice_from (b :: t) _); [|done..].
    rewrite Hs. unfold PlainMechanism.server_token. destruct (state m) eqn:E; try apply Herr.
    case_bool_decide; [|apply Herr]. destruct (PlainMechanism.parse_hello_body _) as [[u p]| |];
      [|apply Herr|done].
    destruct (PlainMechanism.is_exactly _ u && _) eqn:Ev; [|apply Herr].
    apply andb_prop in Ev as [Eu%is_exactly_spec Ep%is_exactly_spec].
    unfold accepted. cbn. rewrite Eu, Ep. split_and!; try done.
    right; right. by split_and!; [left|..].
  - unfold PlainMechanism.produce_token. destruct (state m) eqn:E; try done.
    + by destruct Hst as [[=]|[[=]|[[[=]|[=]] _]]].
    + destruct Hst as [[=]|[[=]|[_ Hacc]]]. unfold accepted. cbn. split_and!; try done.
      right; right. by split; [right|].
Qed.

Lemma accepted_new eu ep : accepted eu ep (plain_server eu ep).
Proof. unfold accepted. cbn. by split_and!; auto. Qed.

Lemma accepted_ready eu ep m :
  accepted eu ep m -> PlainMechanism.status m = StReady \/ state m = ServerSendWelcome ->
  is_Some eu /\ is_Some ep /\ username m = eu /\ password m = ep.
Proof.
  intros (_ & _ & _ & Hst) Hready. unfold PlainMechanism.status in Hready.
  destruct Hst as [E|[E|(_ & ? & ? & <- & <-)]]; [rewrite E in Hready; by destruct Hready..|done].
Qed.

(** ** Properties *)

(** A PLAIN server authenticates: whatever tokens a peer sends, in whatever
    order, the server is ready (or about to welcome) only after it received a
    HELLO with exactly the configured username and password; a server without
    configured credentials never becomes ready. *)
Theorem plain_server_authenticates (eu ep : option bytes) (m : PlainMechanism)
  (Hreach : rtc plain_step (plain_server eu ep) m)
  (Hready : PlainMechanism.status m = StReady \/ state m = ServerSendWelcome) :
  is_Some eu /\ is_Some ep /\ username m = eu /\ password m = ep.
Proof.
  eapply accepted_ready; [|exact Hready].
  eapply rtc_invariant; [exact Hreach|apply accepted_new|by intros; eapply accepted_step].
Qed.

Lemma plain_server_authenticates_witness :
  let c := plain_client (Some (bs "u")) (Some (bs "p")) in
  let hello := default [] (default None (ok (PlainMechanism.produce_token c).2)) in
  let m := (PlainMechanism.process_token (plain_server (Some (bs "u")) (Some (bs "p"))) hello).1 in
  username m = Some (bs "u") /\ password m = Some (bs "p").
Proof.
  cbn zeta. eapply (plain_server_authenticates (Some (bs "u")) (Some (bs "p"))).
  - apply rtc_once, step_process.
  - right. by vm_compute.
Defined.

(** The PLAIN handshake between two rzmq peers ends in agreement: the
    client's HELLO makes the server answer WELCOME, and both sides are ready with
    the server knowing the client's name, exactly when the credentials (the
    first 255 octets of each) are the configured ones; otherwise the server
    answers with an authentication failure and is in error.  No token makes
    either side panic. *)
Theorem plain_handshake (u p : bytes) (eu ep : option bytes) :
  let c := plain_client (Some u) (Some p) in
  let s := plain_server eu ep in
  exists hello c1, PlainMechanism.produce_token c = (c1, Ok (Some hello)) /\
  (eu = Some (clip u) /\ ep = Some (clip p) ->
     exists s1 s2 welcome c2,
       PlainMechanism.process_token s hello = (s1, Ok ProduceAndSend) /\
       PlainMechanism.produce_token s1 = (s2, Ok (Some welcome)) /\
       PlainMechanism.process_token c1 welcome = (c2, Ok HandshakeComplete) /\
       PlainMechanism.status s2 = StReady /\ PlainMechanism.status c2 = StReady /\
       username s2 = eu) /\
  (~ (eu = Some (clip u) /\ ep = Some (clip p)) ->
     exists s1, PlainMechanism.process_token s hello =
       (s1, Err (AuthenticationFailure "Invalid username or password")) /\
       PlainMechanism.status s1 = StError) /\
  (forall m token, no_panic (PlainMechanism.process_token m token).2).
Proof.
  cbn zeta. eexists _, _. split; [done|].
  change (default [] (username (plain_client (Some u) (Some p)))) with u.
  change (default [] (password (plain_client (Some u) (Some p)))) with p.
  rewrite (process_token_command (plain_server eu ep) PlainMechanism.CMD_HELLO) by done.
  change (is_server (plain_server eu ep)) with true. cbn match.
  unfold PlainMechanism.server_token. change (state (plain_server eu ep)) with ServerExpectHello.
  cbn match. rewrite bool_decide_true by done. rewrite parse_create_hello.
  change (expected_username (plain_server eu ep)) with eu.
  change (expected_password (plain_server eu ep)) with ep.
  split_and!.
  - intros [-> ->]. cbn [PlainMechanism.is_exactly]. rewrite !bool_decide_true by done. cbn [andb].
    by eexists _, _, _, _.
  - intros Hne. destruct (PlainMechanism.is_exactly eu (clip u) && _) eqn:E; [|by eexists].
    apply andb_prop in E as [E1%is_exactly_spec E2%is_exactly_spec]. by destruct Hne.
  - apply process_token_no_panic.
Qed.

Lemma plain_handshake_witness :
  exists s1, PlainMechanism.process_token (plain_server (Some (bs "u")) (Some (bs "p")))
    ([u8 5] ++ bs "HELLO" ++ PlainMechanism.create_hello_body (bs "u") (bs "wrong")) =
      (s1, Err (AuthenticationFailure "Invalid username or password")) /\
    PlainMechanism.status s1 = StError.
Proof.
  destruct (plain_handshake (bs "u") (bs "wrong") (Some (bs "u")) (Some (bs "p")))
    as (hello & c1 & E & _ & Hbad & _).
  injection E as _ <-. apply Hbad. by intros [_ [=]].
Defined.
