(* ===== verification/Options.v ===== *)
(** Socket options: [core/src/socket/options.rs].

    The options record, the value parsers, [apply_core_option_value] and
    [retrieve_core_option_value] for a build with every feature, and the engine
    configuration derived from the options.  A [Duration] is a number of
    nanoseconds.  Text options are their UTF-8 octets. *)

From S2P Require Import Prelude Error Utf8.

Abbreviation Duration := Z (only parsing).
Definition from_millis (ms : Z) : Duration := ms * 1000000.
Definition from_secs (s : Z) : Duration := s * 1000000000.
Definition as_millis (d : Duration) : Z := d / 1000000.
Definition as_secs (d : Duration) : Z := d / 1000000000.

Definition I32_MAX : Z := 2147483647.

(** ** Option ids *)

Abbreviation SNDHWM := (23)%Z.
Abbreviation RCVHWM := (24)%Z.
Abbreviation LINGER := (17)%Z.
Abbreviation SUBSCRIBE := (6)%Z.
Abbreviation UNSUBSCRIBE := (7)%Z.
Abbreviation ROUTING_ID := (5)%Z.
Abbreviation RECONNECT_IVL := (18)%Z.
Abbreviation RECONNECT_IVL_MAX := (21)%Z.
Abbreviation RCVTIMEO := (27)%Z.
Abbreviation SNDTIMEO := (28)%Z.
Abbreviation LAST_ENDPOINT := (32)%Z.
Abbreviation TCP_KEEPALIVE := (34)%Z.
Abbreviation TCP_KEEPALIVE_IDLE := (35)%Z.
Abbreviation TCP_KEEPALIVE_CNT := (36)%Z.
Abbreviation TCP_KEEPALIVE_INTVL := (37)%Z.
Abbreviation HEARTBEAT_IVL := (38)%Z.
Abbreviation HEARTBEAT_TIMEOUT := (39)%Z.
Abbreviation HANDSHAKE_IVL := (41)%Z.
Abbreviation ROUTER_MANDATORY := (33)%Z.
Abbreviation AUTO_DELIMITER := (42)%Z.
Abbreviation ZMTP2_ALLOWED := (1180)%Z.
Abbreviation ZAP_DOMAIN := (55)%Z.
Abbreviation PLAIN_SERVER := (44)%Z.
Abbreviation PLAIN_USERNAME := (45)%Z.
Abbreviation PLAIN_PASSWORD := (46)%Z.
Abbreviation NOISE_XX_ENABLED := (1202)%Z.
Abbreviation NOISE_XX_STATIC_SECRET_KEY := (1200)%Z.
Abbreviation NOISE_XX_REMOTE_STATIC_PUBLIC_KEY := (1201)%Z.
Abbreviation CURVE_SERVER := (47)%Z.
Abbreviation CURVE_SECRET_KEY := (49)%Z.
Abbreviation CURVE_SERVER_KEY := (48)%Z.
Abbreviation MAXMSGSIZE := (22)%Z.
Abbreviation MAX_CONNECTIONS := (1000)%Z.
Abbreviation IO_URING_SNDZEROCOPY := (1170)%Z.
Abbreviation IO_URING_RCVMULTISHOT := (1171)%Z.
Abbreviation TCP_CORK := (1172)%Z.
Abbreviation IO_URING_SESSION_ENABLED := (1175)%Z.
Abbreviation ZMQ_TYPE := (16)%Z.
Abbreviation DEFAULT_RECONNECT_IVL_MS := (1000)%Z.

(** ** The options record *)

Record IOURingSocketOptions := mkIOURing {
  send_zerocopy : bool; recv_multishot : bool; session_enabled : bool }.

Record CurveMechanismSocketOptions := mkCurveOptions {
  curve_enabled : bool; curve_server_role : bool;
  secret_key : option bytes; server_public_key : option bytes }.

Record NoiseXxSocketOptions := mkNoiseOptions {
  noise_enabled : bool; static_secret_key_bytes : option bytes;
  remote_static_public_key_bytes : option bytes }.

Record PlainMechanismSocketOptions := mkPlainOptions {
  plain_enabled : bool; plain_server_role : option bool;
  plain_username : option bytes; plain_password : option bytes }.

Record SocketOptions := mkSocketOptions {
  rcvhwm : Z;
  sndhwm : Z;
  rcvtimeo : option Duration;
  sndtimeo : option Duration;
  linger : option Duration;
  reconnect_ivl : option Duration;
  reconnect_ivl_max : option Duration;
  backlog : option Z;
  routing_id : option bytes;
  socket_type_name : string;
  tcp_keepalive_enabled : Z;
  tcp_keepalive_idle : option Duration;
  tcp_keepalive_count : option Z;
  tcp_keepalive_interval : option Duration;
  tcp_nodelay : bool;
  max_connections : option Z;
  maxmsgsize : Z;
  allow_zmtp2 : bool;
  heartbeat_ivl : option Duration;
  heartbeat_timeout : option Duration;
  handshake_ivl : option Duration;
  router_mandatory : bool;
  tcp_cork : bool;
  io_uring : IOURingSocketOptions;
  zap_domain : option bytes;
  plain_options : PlainMechanismSocketOptions;
  curve_options : CurveMechanismSocketOptions;
  noise_xx_options : NoiseXxSocketOptions;
}.

#[export] Instance IOURing_eta : Eta IOURingSocketOptions := fun o =>
  mkIOURing (send_zerocopy o) (recv_multishot o) (session_enabled o).
#[export] Instance Curve_eta : Eta CurveMechanismSocketOptions := fun o =>
  mkCurveOptions (curve_enabled o) (curve_server_role o) (secret_key o) (server_public_key o).
#[export] Instance Noise_eta : Eta NoiseXxSocketOptions := fun o =>
  mkNoiseOptions (noise_enabled o) (static_secret_key_bytes o) (remote_static_public_key_bytes o).
#[export] Instance Plain_eta : Eta PlainMechanismSocketOptions := fun o =>
  mkPlainOptions (plain_enabled o) (plain_server_role o) (plain_username o) (plain_password o).
#[export] Instance SocketOptions_eta : Eta SocketOptions := fun o =>
    mkSocketOptions (rcvhwm o) (sndhwm o) (rcvtimeo o) (sndtimeo o) (linger o) (reconnect_ivl o)
    (reconnect_ivl_max o) (backlog o) (routing_id o) (socket_type_name o) (tcp_keepalive_enabled
    o) (tcp_keepalive_idle o) (tcp_keepalive_count o) (tcp_keepalive_interval o) (tcp_nodelay o)
    (max_connections o) (maxmsgsize o) (allow_zmtp2 o) (heartbeat_ivl o) (heartbeat_timeout o)
    (handshake_ivl o) (router_mandatory o) (tcp_cork o) (io_uring o) (zap_domain o)
    (plain_options o) (curve_options o) (noise_xx_options o).

(** [SocketOptions::default]. *)
Definition default_options : SocketOptions := {|
  rcvhwm := 256;
  sndhwm := 256;
  rcvtimeo := None;
  sndtimeo := None;
  linger := Some 0;
  reconnect_ivl := Some (from_millis DEFAULT_RECONNECT_IVL_MS);
  reconnect_ivl_max := Some 0;
  backlog := None;
  routing_id := None;
  socket_type_name := "UNKNOWN";
  tcp_keepalive_enabled := 0;
  tcp_keepalive_idle := None;
  tcp_keepalive_count := None;
  tcp_keepalive_interval := None;
  tcp_nodelay := true;
  max_connections := Some 1024;
  maxmsgsize := -1;
  allow_zmtp2 := true;
  heartbeat_ivl := None;
  heartbeat_timeout := None;
  handshake_ivl := None;
  router_mandatory := false;
  tcp_cork := false;
  io_uring := mkIOURing false false false;
  zap_domain := None;
  plain_options := mkPlainOptions false None None None;
  curve_options := mkCurveOptions false false None None;
  noise_xx_options := mkNoiseOptions false None None
|}.

(** ** The engine configuration *)

Record ZmtpEngineConfig := mkConfig {
  cfg_routing_id : option bytes;
  cfg_socket_type_name : string;
  cfg_security_enabled : bool;
  cfg_heartbeat_ivl : option Duration;
  cfg_heartbeat_timeout : option Duration;
  cfg_handshake_timeout : option Duration;
  cfg_rcvtimeo : option Duration;
  cfg_sndtimeo : option Duration;
  cfg_use_send_zerocopy : bool;
  cfg_use_recv_multishot : bool;
  cfg_use_cork : bool;
  cfg_use_noise_xx : bool;
  cfg_noise_xx_local_sk : option bytes;
  cfg_noise_xx_remote_pk : option bytes;
  cfg_use_curve : bool;
  cfg_curve_local_secret_key : option bytes;
  cfg_curve_remote_public_key : option bytes;
  cfg_use_plain : bool;
  cfg_plain_username_for_engine : option bytes;
  cfg_plain_password_for_engine : option bytes;
  cfg_max_msg_size : Z;
  cfg_allow_zmtp2 : bool;
}.

#[export] Instance config_eta : Eta ZmtpEngineConfig := fun c =>
    mkConfig (cfg_routing_id c) (cfg_socket_type_name c) (cfg_security_enabled c)
    (cfg_heartbeat_ivl c) (cfg_heartbeat_timeout c) (cfg_handshake_timeout c) (cfg_rcvtimeo c)
    (cfg_sndtimeo c) (cfg_use_send_zerocopy c) (cfg_use_recv_multishot c) (cfg_use_cork c)
    (cfg_use_noise_xx c) (cfg_noise_xx_local_sk c) (cfg_noise_xx_remote_pk c) (cfg_use_curve c)
    (cfg_curve_local_secret_key c) (cfg_curve_remote_public_key c) (cfg_use_plain c)
    (cfg_plain_username_for_engine c) (cfg_plain_password_for_engine c) (cfg_max_msg_size c)
    (cfg_allow_zmtp2 c).

(** [From<&SocketOptions> for ZmtpEngineConfig]. *)
Definition engine_config (o : SocketOptions) : ZmtpEngineConfig :=
  let security_enabled := plain_enabled (plain_options o)
                          || noise_enabled (noise_xx_options o)
                          || curve_enabled (curve_options o) in
  {|
    cfg_routing_id := routing_id o;
    cfg_socket_type_name := socket_type_name o;
    cfg_security_enabled := security_enabled;
    cfg_heartbeat_ivl := heartbeat_ivl o;
    cfg_heartbeat_timeout := heartbeat_timeout o;
    cfg_handshake_timeout := handshake_ivl o;
    cfg_rcvtimeo := rcvtimeo o;
    cfg_sndtimeo := sndtimeo o;
    cfg_use_send_zerocopy := send_zerocopy (io_uring o);
    cfg_use_recv_multishot := recv_multishot (io_uring o);
    cfg_use_cork := tcp_cork o;
    cfg_use_noise_xx := noise_enabled (noise_xx_options o);
    cfg_noise_xx_local_sk := static_secret_key_bytes (noise_xx_options o);
    cfg_noise_xx_remote_pk := remote_static_public_key_bytes (noise_xx_options o);
    cfg_use_curve := curve_enabled (curve_options o);
    cfg_curve_local_secret_key := secret_key (curve_options o);
    cfg_curve_remote_public_key := server_public_key (curve_options o);
    cfg_use_plain := plain_enabled (plain_options o);
    cfg_plain_username_for_engine := plain_username (plain_options o);
    cfg_plain_password_for_engine := plain_password (plain_options o);
    cfg_max_msg_size := maxmsgsize o;
    cfg_allow_zmtp2 := allow_zmtp2 o
  |}.

(** ** Value parsers *)

(** [value.try_into::<[u8; n]>()]. *)
Definition as_array (n : Z) (value : bytes) : option bytes :=
  if zlen value =? n then Some value else None.

Definition parse_i32_option (value : bytes) : result Z :=
  arr ← ok_or (as_array 4 value) (InvalidOptionValue 0);
  Ok (wrapS 32 (le_value arr)).

Definition parse_bool_option (value : bytes) : result bool :=
  v ← parse_i32_option value; Ok (v =? 1).

Definition parse_duration_ms_option (value : bytes) : result (option Duration) :=
  val ← parse_i32_option value;
  if val =? -1 then Ok None
  else if 0 <=? val then Ok (Some (from_millis val))
  else Err (InvalidOptionValue 0).

Definition parse_secs_duration_option (value : bytes) : result (option Duration) :=
  val ← parse_i32_option value;
  if (0 <=? val) && (val <=? I32_MAX) then Ok (Some (from_secs val))
  else Err (InvalidOptionValue 0).

Definition parse_timeout_option (value : bytes) (option_id : Z) : result (option Duration) :=
  val ← map_err (parse_i32_option value) (fun _ => InvalidOptionValue option_id);
  if val =? -1 then Ok None
  else if val =? 0 then Ok (Some 0)
  else if 1 <=? val then Ok (Some (from_millis val))
  else Err (InvalidOptionValue option_id).

Definition parse_linger_option (value : bytes) : result (option Duration) :=
  val ← parse_i32_option value;
  if val =? -1 then Ok None
  else if 0 <=? val then Ok (Some (from_millis val))
  else Err (InvalidOptionValue LINGER).

Definition parse_u32_option (value : bytes) : result (option Z) :=
  val ← parse_i32_option value;
  if (0 <=? val) && (val <=? I32_MAX) then Ok (Some val)
  else Err (InvalidOptionValue 0).

Definition parse_keepalive_mode_option (value : bytes) : result Z :=
  val ← parse_i32_option value;
  if (-1 <=? val) && (val <=? 1) then Ok val else Err (InvalidOptionValue TCP_KEEPALIVE).

Definition parse_blob_option (value : bytes) : result bytes :=
  if 255 <? zlen value then Err (InvalidOptionValue ROUTING_ID) else Ok value.

Definition parse_heartbeat_option (value : bytes) (option_id : Z) : result (option Duration) :=
  val ← map_err (parse_i32_option value) (fun _ => InvalidOptionValue option_id);
  if val =? 0 then Ok None
  else if 1 <=? val then Ok (Some (from_millis val))
  else Err (InvalidOptionValue option_id).

Definition parse_handshake_option (value : bytes) (option_id : Z) : result (option Duration) :=
  val ← map_err (parse_i32_option value) (fun _ => InvalidOptionValue option_id);
  if val =? 0 then Ok None
  else if 1 <=? val then Ok (Some (from_millis val))
  else Err (InvalidOptionValue option_id).

Definition parse_reconnect_ivl_option (value : bytes) : result (option Duration) :=
  val ← parse_i32_option value;
  if val =? -1 then Ok None
  else if val =? 0 then Ok None
  else if 1 <=? val then Ok (Some (from_millis val))
  else Err (InvalidOptionValue RECONNECT_IVL).

Definition parse_reconnect_ivl_max_option (value : bytes) : result (option Duration) :=
  val ← parse_i32_option value;
  if val =? 0 then Ok (Some 0)
  else if 1 <=? val then Ok (Some (from_millis val))
  else Err (InvalidOptionValue RECONNECT_IVL_MAX).

Definition parse_maxmsgsize_option (value : bytes) : result Z :=
  arr ← ok_or (as_array 8 value) (InvalidOptionValue MAXMSGSIZE);
  let v := wrapS 64 (le_value arr) in
  if v <? -1 then Err (InvalidOptionValue MAXMSGSIZE) else Ok v.

Definition parse_max_connections_option (value : bytes) (option_id : Z) : result (option Z) :=
  val ← map_err (parse_i32_option value) (fun _ => InvalidOptionValue option_id);
  if val =? -1 then Ok None
  else if val =? 0 then Err (InvalidOptionValue option_id)
  else if 1 <=? val then Ok (Some val)
  else Err (InvalidOptionValue option_id).

Definition parse_key_option (n : Z) (value : bytes) (option_id : Z) : result bytes :=
  ok_or (as_array n value) (InvalidOptionValue option_id).

Definition parse_string_option (value : bytes) (option_id : Z) : result bytes :=
  if utf8_valid value then Ok value else Err (InvalidOptionValue option_id).

(** ** Setting and getting *)

(** [apply_core_option_value]: every value is parsed before a field is assigned,
    so on an error the options keep their value; the result is the new record. *)
Definition apply_core_option_value (o : SocketOptions) (option_id : Z) (value : bytes)
  : result SocketOptions :=
  let opt := Z.eqb option_id in
  if opt SNDHWM then
    v ← parse_i32_option value;
    Ok (o <| sndhwm := Z.max v 0 |>)
  else if opt RCVHWM then
    v ← parse_i32_option value;
    Ok (o <| rcvhwm := Z.max v 0 |>)
  else if opt LINGER then
    v ← parse_linger_option value;
    Ok (o <| linger := v |>)
  else if opt ROUTING_ID then
    v ← parse_blob_option value;
    Ok (o <| routing_id := Some v |>)
  else if opt RECONNECT_IVL then
    v ← parse_reconnect_ivl_option value;
    Ok (o <| reconnect_ivl := v |>)
  else if opt RECONNECT_IVL_MAX then
    v ← parse_reconnect_ivl_max_option value;
    Ok (o <| reconnect_ivl_max := v |>)
  else if opt RCVTIMEO then
    v ← parse_timeout_option value option_id;
    Ok (o <| rcvtimeo := v |>)
  else if opt SNDTIMEO then
    v ← parse_timeout_option value option_id;
    Ok (o <| sndtimeo := v |>)
  else if opt TCP_KEEPALIVE then
    v ← parse_keepalive_mode_option value;
    Ok (o <| tcp_keepalive_enabled := v |>)
  else if opt TCP_KEEPALIVE_IDLE then
    v ← parse_secs_duration_option value;
    Ok (o <| tcp_keepalive_idle := v |>)
  else if opt TCP_KEEPALIVE_CNT then
    v ← parse_u32_option value;
    Ok (o <| tcp_keepalive_count := v |>)
  else if opt TCP_KEEPALIVE_INTVL then
    v ← parse_secs_duration_option value;
    Ok (o <| tcp_keepalive_interval := v |>)
  else if opt HEARTBEAT_IVL then
    v ← parse_heartbeat_option value option_id;
    Ok (o <| heartbeat_ivl := v |>)
  else if opt HEARTBEAT_TIMEOUT then
    v ← parse_heartbeat_option value option_id;
    Ok (o <| heartbeat_timeout := v |>)
  else if opt HANDSHAKE_IVL then
    v ← parse_handshake_option value option_id;
    Ok (o <| handshake_ivl := v |>)
  else if opt MAXMSGSIZE then
    v ← parse_maxmsgsize_option value;
    Ok (o <| maxmsgsize := v |>)
  else if opt MAX_CONNECTIONS then
    v ← parse_max_connections_option value option_id;
    Ok (o <| max_connections := v |>)
  else if opt TCP_CORK then
    v ← parse_bool_option value;
    Ok (o <| tcp_cork := v |>)
  else if opt ZMTP2_ALLOWED then
    v ← parse_bool_option value;
    Ok (o <| allow_zmtp2 := v |>)
  else if opt ZAP_DOMAIN then
    v ← parse_string_option value option_id;
    Ok (o <| zap_domain := Some v |>)
  else if opt PLAIN_SERVER then
    v ← parse_bool_option value;
    Ok (o <| plain_options := (plain_options o) <| plain_server_role := Some v |> 
          <| plain_enabled := true |> |>)
  else if opt PLAIN_USERNAME then
    v ← parse_string_option value option_id;
    Ok (o <| plain_options := (plain_options o) <| plain_username := Some v |> 
          <| plain_enabled := true |> |>)
  else if opt PLAIN_PASSWORD then
    v ← parse_string_option value option_id;
    Ok (o <| plain_options := (plain_options o) <| plain_password := Some v |> 
          <| plain_enabled := true |> |>)
  else if opt CURVE_SERVER then
    v ← parse_bool_option value;
    Ok (o <| curve_options := (curve_options o) <| curve_server_role := v |> 
          <| curve_enabled := true |> |>)
  else if opt CURVE_SECRET_KEY then
    v ← parse_key_option 32 value option_id;
    Ok (o <| curve_options := (curve_options o) <| secret_key := Some v |> 
          <| curve_enabled := true |> |>)
  else if opt CURVE_SERVER_KEY then
    v ← parse_key_option 32 value option_id;
    Ok (o <| curve_options := (curve_options o) <| server_public_key := Some v |> 
          <| curve_enabled := true |> |>)
  else if opt NOISE_XX_ENABLED then
    v ← parse_bool_option value;
    Ok (o <| noise_xx_options := (noise_xx_options o) <| noise_enabled := v |> |>)
  else if opt NOISE_XX_STATIC_SECRET_KEY then
    v ← parse_key_option 32 value option_id;
    Ok (o <| noise_xx_options := (noise_xx_options o) <| static_secret_key_bytes := Some v |> |>)
  else if opt NOISE_XX_REMOTE_STATIC_PUBLIC_KEY then
    v ← parse_key_option 32 value option_id;
    Ok (o <| noise_xx_options := (noise_xx_options o) <| remote_static_public_key_bytes := Some v |> |>)
  else if opt IO_URING_SESSION_ENABLED then
    v ← parse_bool_option value;
    Ok (o <| io_uring := (io_uring o) <| session_enabled := v |> |>)
  else if opt IO_URING_SNDZEROCOPY then
    v ← parse_bool_option value;
    Ok (o <| io_uring := (io_uring o) <| send_zerocopy := v |> |>)
  else if opt IO_URING_RCVMULTISHOT then
    v ← parse_bool_option value;
    Ok (o <| io_uring := (io_uring o) <| recv_multishot := v |> |>)
  else if opt SUBSCRIBE || opt UNSUBSCRIBE || opt LAST_ENDPOINT || opt ROUTER_MANDATORY
          || opt AUTO_DELIMITER || opt ZMQ_TYPE then Err (UnsupportedOption option_id)
  else Err (InvalidOption option_id).

(** [i32::to_ne_bytes], [as i32], [try_into().unwrap_or(i32::MAX)]. *)
Definition i32_bytes (z : Z) : bytes := le_bytes 4 (wrapS 32 z).
Definition bool_i32 (b : bool) : Z := if b then 1 else 0.
Definition sat_i32 (z : Z) : Z := if z <=? I32_MAX then z else I32_MAX.

(** [map_or]. *)
Definition map_or {A B} (d : B) (f : A -> B) (x : option A) : B :=
  match x with Some a => f a | None => d end.

(** [retrieve_core_option_value]; the last bound endpoint and the socket type (as
    its number) come from the core state. *)
Definition retrieve_core_option_value (o : SocketOptions) (last_bound_endpoint : option bytes)
  (socket_type : Z) (option_id : Z) : result bytes :=
  let opt := Z.eqb option_id in
  if opt SNDHWM then Ok (i32_bytes (sndhwm o))
  else if opt RCVHWM then Ok (i32_bytes (rcvhwm o))
  else if opt LINGER then Ok (i32_bytes (map_or (-1) (fun d => sat_i32 (as_millis d)) (linger o)))
  else if opt ROUTING_ID then ok_or (routing_id o) (Internal "Option ROUTING_ID not set")
  else if opt RECONNECT_IVL then Ok (i32_bytes (map_or 0 as_millis (reconnect_ivl o)))
  else if opt RECONNECT_IVL_MAX then Ok (i32_bytes (map_or 0 as_millis (reconnect_ivl_max o)))
  else if opt RCVTIMEO then Ok (i32_bytes (map_or (-1) (fun d => sat_i32 (as_millis d)) (rcvtimeo o)))
  else if opt SNDTIMEO then Ok (i32_bytes (map_or (-1) (fun d => sat_i32 (as_millis d)) (sndtimeo o)))
  else if opt LAST_ENDPOINT then Ok (default [] last_bound_endpoint)
  else if opt TCP_KEEPALIVE then Ok (i32_bytes (tcp_keepalive_enabled o))
  else if opt TCP_KEEPALIVE_IDLE then Ok (i32_bytes (map_or 0 as_secs (tcp_keepalive_idle o)))
  else if opt TCP_KEEPALIVE_CNT then Ok (i32_bytes (map_or 0 id (tcp_keepalive_count o)))
  else if opt TCP_KEEPALIVE_INTVL then Ok (i32_bytes (map_or 0 as_secs (tcp_keepalive_interval o)))
  else if opt HEARTBEAT_IVL then Ok (i32_bytes (map_or 0 as_millis (heartbeat_ivl o)))
  else if opt HEARTBEAT_TIMEOUT then Ok (i32_bytes (map_or 0 as_millis (heartbeat_timeout o)))
  else if opt HANDSHAKE_IVL then Ok (i32_bytes (map_or 0 as_millis (handshake_ivl o)))
  else if opt MAXMSGSIZE then Ok (le_bytes 8 (maxmsgsize o))
  else if opt MAX_CONNECTIONS then Ok (i32_bytes (map_or (-1) id (max_connections o)))
  else if opt TCP_CORK then Ok (i32_bytes (bool_i32 (tcp_cork o)))
  else if opt ZMTP2_ALLOWED then Ok (i32_bytes (bool_i32 (allow_zmtp2 o)))
  else if opt ZAP_DOMAIN then ok_or (zap_domain o) (Internal "Option ZAP_DOMAIN not set")
  else if opt PLAIN_SERVER then ok_or ((fun b => i32_bytes (bool_i32 b)) <$> plain_server_role (plain_options o))
         (Internal "Option PLAIN_SERVER not set")
  else if opt PLAIN_USERNAME then ok_or (plain_username (plain_options o)) (Internal "Option PLAIN_USERNAME not set")
  else if opt PLAIN_PASSWORD then Err (PermissionDenied "PLAIN_PASSWORD is write-only")
  else if opt NOISE_XX_ENABLED then Ok (i32_bytes (bool_i32 (noise_enabled (noise_xx_options o))))
  else if opt NOISE_XX_STATIC_SECRET_KEY then Err (PermissionDenied "NOISE_XX_STATIC_SECRET_KEY is write-only")
  else if opt NOISE_XX_REMOTE_STATIC_PUBLIC_KEY then ok_or (remote_static_public_key_bytes (noise_xx_options o))
         (Internal "Option NOISE_XX_REMOTE_STATIC_PUBLIC_KEY not set")
  else if opt IO_URING_SESSION_ENABLED then Ok (i32_bytes (bool_i32 (session_enabled (io_uring o))))
  else if opt IO_URING_SNDZEROCOPY then Ok (i32_bytes (bool_i32 (send_zerocopy (io_uring o))))
  else if opt IO_URING_RCVMULTISHOT then Ok (i32_bytes (bool_i32 (recv_multishot (io_uring o))))
  else if opt ZMQ_TYPE then Ok (i32_bytes socket_type)
  else if opt SUBSCRIBE || opt UNSUBSCRIBE || opt ROUTER_MANDATORY || opt AUTO_DELIMITER
  then Err (UnsupportedOption option_id)
  else Err (InvalidOption option_id).

(** ** Lemmas *)

Lemma be_bytes_congr n a b :
  a mod 256 ^ Z.of_nat n = b mod 256 ^ Z.of_nat n -> be_bytes n a = be_bytes n b.
Proof. intros H. by rewrite <- (be_bytes_mod n a), H, be_bytes_mod. Qed.

Lemma wrapS_congr w z : 0 < w -> wrapS w z mod 2 ^ w = z mod 2 ^ w.
Proof.
  intros. unfold wrapS. rewrite Zminus_mod_idemp_l. by rewrite Z.add_simpl_r.
Qed.

Lemma le_bytes_wrapS value n :
  zlen value = Z.of_nat n -> (0 < n)%nat ->
  le_bytes n (wrapS (8 * Z.of_nat n) (le_value value)) = value.
Proof.
  intros Hl Hn. unfold le_bytes, le_value.
  rewrite (be_bytes_congr n _ (be_value (rev value))).
  - replace n with (length (rev value)) by (unfold zlen in Hl; rewrite length_rev; lia).
    by rewrite be_bytes_value, rev_involutive.
  - change 256 with (2 ^ 8). rewrite <- Z.pow_mul_r by lia. apply wrapS_congr. lia.
Qed.

(** An accepted 32-bit value is the number its octets encode. *)
Lemma parse_i32_Ok value v :
  parse_i32_option value = Ok v -> i32_bytes v = value /\ - 2 ^ 31 <= v < 2 ^ 31.
Proof.
  unfold parse_i32_option, as_array. destruct (Z.eqb_spec (zlen value) 4) as [Hl|]; [|done].
  cbn [ok_or mbind result_bind]. intros [= <-]. pose proof (wrapS_range 32 (le_value value) ltac:(lia)).
  split; [|exact H]. unfold i32_bytes. rewrite wrapS_id by (exact H || lia). apply (le_bytes_wrapS value 4); [exact Hl|lia].
Qed.

Lemma map_err_Ok {A} (r : result A) f a : map_err r f = Ok a <-> r = Ok a.
Proof. by destruct r. Qed.

Lemma as_millis_from v : as_millis (from_millis v) = v.
Proof. unfold as_millis, from_millis. by apply Z.div_mul. Qed.

Lemma as_secs_from v : as_secs (from_secs v) = v.
Proof. unfold as_secs, from_secs. by apply Z.div_mul. Qed.

Lemma sat_i32_id v : v < 2 ^ 31 -> sat_i32 v = v.
Proof. unfold sat_i32, I32_MAX. zbool; lia. Qed.

(** Values that say exactly what is stored: high-water marks are not negative,
    RECONNECT_IVL is not -1 (which is stored like 0) and flags are 0 or 1. *)
Definition canonical (option_id : Z) (value : bytes) : bool :=
  let opt := Z.eqb option_id in
  match parse_i32_option value with
  | Ok v =>
      if opt SNDHWM || opt RCVHWM then 0 <=? v
      else if opt RECONNECT_IVL then negb (v =? -1)
      else if opt TCP_CORK || opt ZMTP2_ALLOWED || opt PLAIN_SERVER || opt NOISE_XX_ENABLED
              || opt IO_URING_SESSION_ENABLED || opt IO_URING_SNDZEROCOPY
              || opt IO_URING_RCVMULTISHOT then (v =? 0) || (v =? 1)
      else true
  | _ => true
  end.

(** Options that can be set but not read back. *)
Definition write_only (option_id : Z) : bool :=
  let opt := Z.eqb option_id in
  opt PLAIN_PASSWORD || opt NOISE_XX_STATIC_SECRET_KEY
  || opt CURVE_SERVER || opt CURVE_SECRET_KEY || opt CURVE_SERVER_KEY.

(** Case analysis on the option that was set. *)
Ltac each_option H id :=
  unfold apply_core_option_value in H; cbv zeta in H;
  repeat (match type of H with
          | (if Z.eqb id ?X then _ else _) = _ => destruct (Z.eqb_spec id X); [subst id|]
          end; [|]).

Ltac parse_inv :=
  repeat match goal with
  | H : (_ ≫= _) = Ok _ |- _ => apply bind_Ok in H; destruct H as (? & ? & ?)
  | H : map_err _ _ = Ok _ |- _ => apply map_err_Ok in H
  | H : Ok _ = Ok _ |- _ => injection H as <-
  | H : (if ?b then _ else _) = Ok _ |- _ => destruct b eqn:?; try discriminate H
  | H : ok_or _ _ = Ok _ |- _ => unfold ok_or in H
  | H : match ?b with Some _ => _ | None => _ end = Ok _ |- _ => destruct b eqn:?; try discriminate H
  end.

Ltac by_eqb :=
  repeat match goal with H : (_ =? _) = true |- _ => apply Z.eqb_eq in H as -> end; done.

(** What each parser accepted, read back. *)
Section Parsers.
Variables (value : bytes) (id : Z).

Lemma read_linger v :
  parse_linger_option value = Ok v ->
  i32_bytes (map_or (-1) (fun d => sat_i32 (as_millis d)) v) = value.
Proof.
  unfold parse_linger_option. intros H. parse_inv;
    match goal with H : parse_i32_option _ = Ok _ |- _ => apply parse_i32_Ok in H as [<- ?] end; cbn [map_or].
  - by_eqb.
  - rewrite as_millis_from, sat_i32_id by lia. done.
Qed.

Lemma read_timeout v :
  parse_timeout_option value id = Ok v ->
  i32_bytes (map_or (-1) (fun d => sat_i32 (as_millis d)) v) = value.
Proof.
  unfold parse_timeout_option. intros H. parse_inv;
    match goal with H : parse_i32_option _ = Ok _ |- _ => apply parse_i32_Ok in H as [<- ?] end; cbn [map_or].
  - by_eqb.
  - by_eqb.
  - rewrite as_millis_from, sat_i32_id by lia. done.
Qed.

Lemma read_reconnect v :
  parse_reconnect_ivl_option value = Ok v -> parse_i32_option value <> Ok (-1) ->
  i32_bytes (map_or 0 as_millis v) = value.
Proof.
  unfold parse_reconnect_ivl_option. intros H Hne. parse_inv;
    match goal with H : parse_i32_option _ = Ok ?x |- _ =>
      assert (x <> -1) by congruence; apply parse_i32_Ok in H as [<- ?] end; cbn [map_or].
  - lia.
  - by_eqb.
  - by rewrite as_millis_from.
Qed.

Lemma read_reconnect_max v :
  parse_reconnect_ivl_max_option value = Ok v -> i32_bytes (map_or 0 as_millis v) = value.
Proof.
  unfold parse_reconnect_ivl_max_option. intros H. parse_inv;
    match goal with H : parse_i32_option _ = Ok _ |- _ => apply parse_i32_Ok in H as [<- ?] end; cbn [map_or].
  - by_eqb.
  - by rewrite as_millis_from.
Qed.

Lemma read_keepalive v : parse_keepalive_mode_option value = Ok v -> i32_bytes v = value.
Proof.
  unfold parse_keepalive_mode_option. intros H. parse_inv. by apply parse_i32_Ok.
Qed.

Lemma read_secs v :
  parse_secs_duration_option value = Ok v -> i32_bytes (map_or 0 as_secs v) = value.
Proof.
  unfold parse_secs_duration_option. intros H. parse_inv. cbn [map_or]. rewrite as_secs_from.
  by apply parse_i32_Ok.
Qed.

Lemma read_u32 v : parse_u32_option value = Ok v -> i32_bytes (map_or 0 Datatypes.id v) = value.
Proof. unfold parse_u32_option. intros H. parse_inv. by apply parse_i32_Ok. Qed.

Lemma read_heartbeat v :
  parse_heartbeat_option value id = Ok v -> i32_bytes (map_or 0 as_millis v) = value.
Proof.
  unfold parse_heartbeat_option. intros H. parse_inv;
    match goal with H : parse_i32_option _ = Ok _ |- _ => apply parse_i32_Ok in H as [<- ?] end; cbn [map_or].
  - by_eqb.
  - by rewrite as_millis_from.
Qed.

Lemma read_max_connections v :
  parse_max_connections_option value id = Ok v -> i32_bytes (map_or (-1) Datatypes.id v) = value.
Proof.
  unfold parse_max_connections_option. intros H. parse_inv;
    match goal with H : parse_i32_option _ = Ok _ |- _ => apply parse_i32_Ok in H as [<- ?] end; cbn [map_or].
  - by_eqb.
  - done.
Qed.

Lemma read_maxmsgsize v : parse_maxmsgsize_option value = Ok v -> le_bytes 8 v = value.
Proof.
  unfold parse_maxmsgsize_option, as_array. destruct (Z.eqb_spec (zlen value) 8) as [Hl|]; [|done].
  cbn [ok_or mbind result_bind]. cbv zeta. destruct (_ <? _); [done|]. intros [= <-].
  apply (le_bytes_wrapS value 8); [exact Hl|lia].
Qed.

Lemma read_hwm v : parse_i32_option value = Ok v -> 0 <= v -> i32_bytes (Z.max v 0) = value.
Proof. intros H ?. rewrite Z.max_l by lia. by apply parse_i32_Ok. Qed.

Lemma read_bool v :
  parse_bool_option value = Ok v -> parse_i32_option value = Ok 0 \/ parse_i32_option value = Ok 1 ->
  i32_bytes (bool_i32 v) = value.
Proof.
  unfold parse_bool_option. intros H [Hi|Hi]; rewrite Hi in H; cbn in H; injection H as <-;
    by apply parse_i32_Ok in Hi as [? _].
Qed.

Lemma read_blob v : parse_blob_option value = Ok v -> v = value.
Proof. unfold parse_blob_option. intros H. parse_inv. done. Qed.

Lemma read_string v : parse_string_option value id = Ok v -> v = value.
Proof. unfold parse_string_option. intros H. parse_inv. done. Qed.

Lemma read_key n v : parse_key_option n value id = Ok v -> v = value.
Proof. unfold parse_key_option, as_array. destruct (_ =? _); [by intros [= <-]|done]. Qed.

End Parsers.

Lemma canonical_bool id value :
  canonical id value = true ->
  (id =? TCP_CORK) || (id =? ZMTP2_ALLOWED) || (id =? PLAIN_SERVER) || (id =? NOISE_XX_ENABLED)
  || (id =? IO_URING_SESSION_ENABLED) || (id =? IO_URING_SNDZEROCOPY)
  || (id =? IO_URING_RCVMULTISHOT) = true ->
  forall v, parse_bool_option value = Ok v -> i32_bytes (bool_i32 v) = value.
Proof.
  intros Hc Hid v Hv. apply read_bool; [done|]. unfold canonical in Hc. cbv zeta in Hc.
  assert ((id =? SNDHWM) || (id =? RCVHWM) = false /\ (id =? RECONNECT_IVL) = false) as [E1 E2].
  { lia. }
  rewrite E1, E2, Hid in Hc. unfold parse_bool_option in Hv.
  destruct (parse_i32_option value) as [x| |]; [|done|done].
  apply orb_true_iff in Hc as [Hc|Hc]; apply Z.eqb_eq in Hc as ->; auto.
Qed.

(** No value makes a parser panic. *)
Lemma parse_i32_cases value :
  (exists v, parse_i32_option value = Ok v) \/ parse_i32_option value = Err (InvalidOptionValue 0).
Proof. unfold parse_i32_option, as_array. destruct (_ =? _); cbn; eauto. Qed.

Ltac parser_no_panic :=
  intros;
  match goal with
  | |- context [parse_i32_option ?value] =>
      destruct (parse_i32_cases value) as [[? ->]| ->]; cbn [map_err mbind result_bind];
      repeat case_match; done
  end.

Lemma parse_i32_no_panic value : no_panic (parse_i32_option value).
Proof. parser_no_panic. Qed.
Lemma parse_bool_no_panic value : no_panic (parse_bool_option value).
Proof. unfold parse_bool_option. parser_no_panic. Qed.
Lemma parse_linger_no_panic value : no_panic (parse_linger_option value).
Proof. unfold parse_linger_option. parser_no_panic. Qed.
Lemma parse_secs_no_panic value : no_panic (parse_secs_duration_option value).
Proof. unfold parse_secs_duration_option. parser_no_panic. Qed.
Lemma parse_u32_no_panic value : no_panic (parse_u32_option value).
Proof. unfold parse_u32_option. parser_no_panic. Qed.
Lemma parse_keepalive_no_panic value : no_panic (parse_keepalive_mode_option value).
Proof. unfold parse_keepalive_mode_option. parser_no_panic. Qed.
Lemma parse_reconnect_no_panic value : no_panic (parse_reconnect_ivl_option value).
Proof. unfold parse_reconnect_ivl_option. parser_no_panic. Qed.
Lemma parse_reconnect_max_no_panic value : no_panic (parse_reconnect_ivl_max_option value).
Proof. unfold parse_reconnect_ivl_max_option. parser_no_panic. Qed.
Lemma parse_timeout_no_panic value id : no_panic (parse_timeout_option value id).
Proof. unfold parse_timeout_option. parser_no_panic. Qed.
Lemma parse_heartbeat_no_panic value id : no_panic (parse_heartbeat_option value id).
Proof. unfold parse_heartbeat_option. parser_no_panic. Qed.
Lemma parse_handshake_no_panic value id : no_panic (parse_handshake_option value id).
Proof. unfold parse_handshake_option. parser_no_panic. Qed.
Lemma parse_max_connections_no_panic value id : no_panic (parse_max_connections_option value id).
Proof. unfold parse_max_connections_option. parser_no_panic. Qed.
Lemma parse_maxmsgsize_no_panic value : no_panic (parse_maxmsgsize_option value).
Proof. unfold parse_maxmsgsize_option, as_array. by repeat (case_match; cbn). Qed.
Lemma parse_blob_no_panic value : no_panic (parse_blob_option value).
Proof. unfold parse_blob_option. by case_match. Qed.
Lemma parse_string_no_panic value id : no_panic (parse_string_option value id).
Proof. unfold parse_string_option. by case_match. Qed.
Lemma parse_key_no_panic n value id : no_panic (parse_key_option n value id).
Proof. apply ok_or_no_panic. Qed.

#[export] Hint Resolve parse_i32_no_panic parse_bool_no_panic parse_linger_no_panic
  parse_secs_no_panic parse_u32_no_panic parse_keepalive_no_panic parse_reconnect_no_panic
  parse_reconnect_max_no_panic parse_timeout_no_panic parse_heartbeat_no_panic
  parse_handshake_no_panic parse_max_connections_no_panic parse_maxmsgsize_no_panic
  parse_blob_no_panic parse_string_no_panic parse_key_no_panic : rzmq.

(** ** Properties *)

(** Reading an option back gives the octets that set it, for every option
    that can be set and read, whenever the value was accepted and says exactly
    what is stored. *)
Theorem option_roundtrip (o o' : SocketOptions) (ep : option bytes) (st id : Z) (value : bytes)
  (Hset : apply_core_option_value o id value = Ok o')
  (Hcan : canonical id value = true) (Hread : write_only id = false) :
  retrieve_core_option_value o' ep st id = Ok value.
Proof.
  pose proof (canonical_bool id value Hcan) as Hbool.
  each_option Hset id; try (by discriminate Hread); parse_inv;
    try (by destruct (id =? _)).
  all: try match goal with
  | H : parse_linger_option _ = Ok _ |- _ => exact (f_equal Ok (read_linger _ _ H))
  | H : parse_timeout_option _ _ = Ok _ |- _ => exact (f_equal Ok (read_timeout _ _ _ H))
  | H : parse_reconnect_ivl_max_option _ = Ok _ |- _ => exact (f_equal Ok (read_reconnect_max _ _ H))
  | H : parse_keepalive_mode_option _ = Ok _ |- _ => exact (f_equal Ok (read_keepalive _ _ H))
  | H : parse_secs_duration_option _ = Ok _ |- _ => exact (f_equal Ok (read_secs _ _ H))
  | H : parse_u32_option _ = Ok _ |- _ => exact (f_equal Ok (read_u32 _ _ H))
  | H : parse_heartbeat_option _ _ = Ok _ |- _ => exact (f_equal Ok (read_heartbeat _ _ _ H))
  | H : parse_handshake_option _ _ = Ok _ |- _ => exact (f_equal Ok (read_heartbeat _ _ _ H))
  | H : parse_maxmsgsize_option _ = Ok _ |- _ => exact (f_equal Ok (read_maxmsgsize _ _ H))
  | H : parse_max_connections_option _ _ = Ok _ |- _ => exact (f_equal Ok (read_max_connections _ _ _ H))
  | H : parse_blob_option _ = Ok _ |- _ => exact (f_equal Ok (read_blob _ _ H))
  | H : parse_string_option _ _ = Ok _ |- _ => exact (f_equal Ok (read_string _ _ _ H))
  | H : parse_key_option _ _ _ = Ok _ |- _ => exact (f_equal Ok (read_key _ _ _ _ H))
  | H : parse_bool_option _ = Ok _ |- _ => exact (f_equal Ok (Hbool eq_refl _ H))
  end.
  all: unfold canonical in Hcan; cbv zeta in Hcan.
  - rewrite H in Hcan. apply Z.leb_le in Hcan. exact (f_equal Ok (read_hwm _ _ H Hcan)).
  - rewrite H in Hcan. apply Z.leb_le in Hcan. exact (f_equal Ok (read_hwm _ _ H Hcan)).
  - apply (f_equal Ok), read_reconnect; [exact H|]. intros E. by rewrite E in Hcan.
Qed.

Lemma option_roundtrip_witness :
  retrieve_core_option_value
    (default_options <| heartbeat_ivl := Some (from_millis 250) |>) None 0 HEARTBEAT_IVL
  = Ok [Byte.xfa; Byte.x00; Byte.x00; Byte.x00].
Proof.
  apply (option_roundtrip default_options); by vm_compute.
Defined.

(** Options do not interfere: setting one option changes the value read for
    no other, whatever was set. *)
Theorem options_independent (o o' : SocketOptions) (ep : option bytes) (st id id' : Z)
  (value : bytes) (Hset : apply_core_option_value o id value = Ok o') (Hne : id' <> id) :
  retrieve_core_option_value o' ep st id' = retrieve_core_option_value o ep st id'.
Proof.
  apply Z.eqb_neq in Hne.
  each_option Hset id; parse_inv; try (by destruct (id =? _));
    unfold retrieve_core_option_value; rewrite ?Hne; reflexivity.
Qed.

Lemma options_independent_witness :
  retrieve_core_option_value (default_options <| sndhwm := 7 |>) None 0 RCVHWM =
  retrieve_core_option_value default_options None 0 RCVHWM.
Proof.
  apply (options_independent default_options _ None 0 SNDHWM RCVHWM
    [Byte.x07; Byte.x00; Byte.x00; Byte.x00]); by vm_compute.
Defined.

(** Configuring PLAIN or CURVE turns security on for the engine, and no later
    option turns it off again except NOISE_XX_ENABLED; an error never panics. *)
Theorem security_enabling (o : SocketOptions) (id : Z) (value : bytes) :
  no_panic (apply_core_option_value o id value) /\
  forall o', apply_core_option_value o id value = Ok o' ->
    (In id [PLAIN_SERVER; PLAIN_USERNAME; PLAIN_PASSWORD; CURVE_SERVER; CURVE_SECRET_KEY; CURVE_SERVER_KEY] ->
       cfg_security_enabled (engine_config o') = true) /\
    (id <> NOISE_XX_ENABLED -> cfg_security_enabled (engine_config o) = true ->
       cfg_security_enabled (engine_config o') = true).
Proof.
  split.
  - unfold apply_core_option_value. cbv zeta.
    repeat (destruct (id =? _); [apply bind_no_panic; [auto with rzmq|done]|]).
    by destruct (_ || _).
  - intros o' Hset. unfold engine_config. cbn [cfg_security_enabled]. split.
    + intros Hin. each_option Hset id; parse_inv; try (by destruct (id =? _)).
      all: try (exfalso; revert Hin; vm_compute; by intuition congruence).
      all: cbn; by rewrite ?orb_true_r.
    + intros Hne. each_option Hset id; parse_inv; try (by destruct (id =? _)); try done.
      all: cbn; intros; by rewrite ?orb_true_r.
Qed.

Lemma security_enabling_witness :
  cfg_security_enabled (engine_config (default_options <| plain_options :=
    mkPlainOptions true None (Some (bs "admin")) None |>)) = true.
Proof.
  refine (proj1 (proj2 (security_enabling default_options PLAIN_USERNAME (bs "admin")) _ _) _).
  - by vm_compute.
  - right; left; reflexivity.
Defined.
