(* ===== verification/Curve.v ===== *)
(** The CURVE mechanism: [core/src/security/curve/{handshake,mechanism,cipher}.rs].

    The cryptography is the [dryoc] crate, which is not part of the sources: its
    operations are the fields of the class [Dryoc], and what the code relies on
    (boxes open, Diffie-Hellman agrees, sizes) is the class [DryocLaws].  The
    ephemeral key pair the crate draws at random is an argument. *)

From S2P Require Import Prelude Error Utf8 Message Codec Framer Mechanism Options.

(** ** The crate *)

(** What a call into the crate can do; an error carries its text. *)
Inductive dryoc_result (A : Type) :=
| DOk (a : A)
| DErr (text : string)
| DPanic.
Arguments DOk {A}.
Arguments DErr {A}.
Arguments DPanic {A}.

Class Dryoc := {
  (** public key of a secret key *)
  kp_public : bytes -> bytes;
  crypto_box_beforenm : bytes -> bytes -> bytes;
  (** message, nonce, key: authentication tag and ciphertext *)
  crypto_box_detached_afternm : bytes -> bytes -> bytes -> bytes * bytes;
  (** length of the output buffer, tag, ciphertext, nonce, key *)
  crypto_box_open_detached_afternm : Z -> bytes -> bytes -> bytes -> bytes -> dryoc_result bytes;
  (** local public key, local secret key, remote public key: (rx, tx) *)
  crypto_kx_server_session_keys : bytes -> bytes -> bytes -> dryoc_result (bytes * bytes);
  crypto_kx_client_session_keys : bytes -> bytes -> bytes -> dryoc_result (bytes * bytes);
  (** the error text of [PublicKey::try_from] on a slice of the wrong size *)
  key_size_error : Z -> string;
}.

Class DryocLaws `{Dryoc} := {
  kp_public_len : forall sk, zlen sk = 32 -> zlen (kp_public sk) = 32;
  detached_len : forall m n k, zlen (crypto_box_detached_afternm m n k).1 = 16 /\
    zlen (crypto_box_detached_afternm m n k).2 = zlen m;
  open_detached : forall m n k,
    crypto_box_open_detached_afternm (zlen m) (crypto_box_detached_afternm m n k).1
      (crypto_box_detached_afternm m n k).2 n k = DOk m;
  beforenm_agree : forall ska skb,
    crypto_box_beforenm (kp_public ska) skb = crypto_box_beforenm (kp_public skb) ska;
  kx_agree : forall skc sks, exists k1 k2,
    crypto_kx_client_session_keys (kp_public skc) skc (kp_public sks) = DOk (k1, k2) /\
    crypto_kx_server_session_keys (kp_public sks) sks (kp_public skc) = DOk (k2, k1);
}.

(** [impl From<dryoc::Error> for ZmqError], at a [?]. *)
Definition from_dryoc {A} (r : dryoc_result A) : result A :=
  match r with
  | DOk a => Ok a
  | DErr text => Err (SecurityError text)
  | DPanic => Panic
  end.

(** [impl From<core::array::TryFromSliceError> for ZmqError]. *)
Definition from_try_from_slice : ZmqError :=
  ProtocolViolation (format "Failed to parse message component due to incorrect length: {}"
                       ["could not convert slice to array"]).

(** [Mac::try_from(slice)?] and [PublicKey::try_from(slice)?]. *)
Definition mac_try_from (slice : bytes) : result bytes :=
  if zlen slice =? 16 then Ok slice else Err from_try_from_slice.
Definition key_try_from `{Dryoc} (slice : bytes) : result bytes :=
  if zlen slice =? 32 then Ok slice else Err (SecurityError (key_size_error (zlen slice))).

(** ** The data-phase cipher *)

Record CurveDataCipher := mkCurveCipher {
  encode_key : bytes;
  decode_key : bytes;
  send_nonce_counter : Z;
  recv_nonce_counter : Z;
}.

#[export] Instance CurveDataCipher_eta : Eta CurveDataCipher := fun c =>
  mkCurveCipher (encode_key c) (decode_key c) (send_nonce_counter c) (recv_nonce_counter c).

Module CurveDataCipher.

Abbreviation NONCE_PREFIX := (bs "CurveZMQ-Encrypt").

Section Cipher.
Context `{Dryoc}.

Definition CRYPTO_BOX_MACBYTES : Z := 16.

Definition new (encode_key decode_key : bytes) : CurveDataCipher :=
  mkCurveCipher encode_key decode_key 1 1.

Definition construct_nonce (counter : Z) : bytes := NONCE_PREFIX ++ le_bytes 8 counter.

Definition encrypt (c : CurveDataCipher) (plaintext : bytes) : CurveDataCipher * result bytes :=
  let nonce := construct_nonce (send_nonce_counter c) in
  let '(mac, ciphertext) := crypto_box_detached_afternm plaintext nonce (encode_key c) in
  let c := c <| send_nonce_counter := wrapU 64 (send_nonce_counter c + 1) |> in
  (c, Ok (mac ++ ciphertext)).

Definition decrypt (c : CurveDataCipher) (ciphertext_with_mac : bytes)
  : CurveDataCipher * result bytes :=
  if zlen ciphertext_with_mac <? CRYPTO_BOX_MACBYTES
  then (c, Err (InvalidMessage "Ciphertext too short to contain a MAC"))
  else
    let nonce := construct_nonce (recv_nonce_counter c) in
    let opened :=
      mac_slice ← slice_to ciphertext_with_mac CRYPTO_BOX_MACBYTES;
      ciphertext_only_slice ← slice_from ciphertext_with_mac CRYPTO_BOX_MACBYTES;
      mac ← map_err (mac_try_from mac_slice)
              (fun _ => InvalidMessage "Invalid MAC length in frame");
      match crypto_box_open_detached_afternm (zlen ciphertext_only_slice) mac
              ciphertext_only_slice nonce (decode_key c) with
      | DOk decrypted => Ok decrypted
      | DErr text => Err (AuthenticationFailure text)
      | DPanic => Panic
      end in
    match opened with
    | Ok decrypted => (c <| recv_nonce_counter := wrapU 64 (recv_nonce_counter c + 1) |>, Ok decrypted)
    | Err e => (c, Err e)
    | Panic => (c, Panic)
    end.

End Cipher.
End CurveDataCipher.

#[export] Instance curve_cipher `{Dryoc} : IDataCipher CurveDataCipher := {
  encrypt := CurveDataCipher.encrypt;
  decrypt := CurveDataCipher.decrypt;
}.

(** ** Handshake metadata *)

Definition encode_entry (key value : bytes) : bytes :=
  [u8 (zlen key)] ++ key ++ be_bytes 4 (zlen value) ++ value.

Definition encode_metadata (metadata : gmap bytes bytes) : bytes :=
  concat ((fun '(key, value) => encode_entry key value) <$> map_to_list metadata).

(** One round of the [while] loop of [decode_metadata]: the entry at [current]
    and the position after it, or [None] where padding starts. *)
Definition decode_entry (data : bytes) (current : Z) : result (option (bytes * bytes * Z)) :=
  b ← index data current;
  if byteZ b =? 0 then Ok None
  else
    let key_len := byteZ b in
    let current := current + 1 in
    if zlen data <? current + key_len then Err (ProtocolViolation "Invalid metadata")
    else
      key ← slice data current (current + key_len);
      if negb (utf8_valid key) then Panic
      else
        let current := current + key_len in
        if zlen data <? current + 4 then Err (ProtocolViolation "Invalid metadata")
        else
          lb ← slice data current (current + 4);
          let value_len := be_value lb in
          let current := current + 4 in
          if zlen data <? current + value_len then Err (ProtocolViolation "Invalid metadata")
          else
            value ← slice data current (current + value_len);
            Ok (Some (key, value, current + value_len)).

(** The loop; an entry takes at least five octets, so the length is enough. *)
Fixpoint decode_loop (fuel : nat) (data : bytes) (current : Z) (metadata : gmap bytes bytes)
  : result (gmap bytes bytes) :=
  if current <? zlen data then
    match fuel with
    | O => Panic
    | S fuel =>
        entry ← decode_entry data current;
        match entry with
        | None => Ok metadata
        | Some (key, value, current) => decode_loop fuel data current (<[key := value]> metadata)
        end
    end
  else Ok metadata.

Definition decode_metadata (data : bytes) : result (gmap bytes bytes) :=
  decode_loop (length data) data 0 ∅.

(** [command.resize(n, 0)]. *)
Definition resize (n : nat) (l : bytes) : bytes := take n l ++ replicate (n - length l) Byte.x00.

(** ** The handshake *)

Inductive CurveHandshakePhase :=
| ClientStart | ClientSentHello | ClientReadyToProduceInitiate
| ServerStart | ServerReadyToProduceWelcome | ServerAwaitingInitiate
| CComplete | CError.

Record CurveHandshake := mkCurveHandshake {
  phase : CurveHandshakePhase;
  ch_is_server : bool;
  local_static_sk : bytes;
  local_static_pk : bytes;
  remote_static_public_key : option bytes;
  local_ephemeral_sk : bytes;
  local_ephemeral_pk : bytes;
  remote_ephemeral_public_key : option bytes;
  precomputed_key : option bytes;
  send_nonce : Z;
  recv_nonce : Z;
}.

#[export] Instance CurveHandshake_eta : Eta CurveHandshake := fun h =>
  mkCurveHandshake (phase h) (ch_is_server h) (local_static_sk h) (local_static_pk h)
    (remote_static_public_key h) (local_ephemeral_sk h) (local_ephemeral_pk h)
    (remote_ephemeral_public_key h) (precomputed_key h) (send_nonce h) (recv_nonce h).

Module CurveHandshake.

Abbreviation HELLO_PREFIX := (Byte.x05 :: bs "HELLO").
Abbreviation WELCOME_PREFIX := (Byte.x07 :: bs "WELCOME").
Abbreviation INITIATE_PREFIX := (Byte.x08 :: bs "INITIATE").
Abbreviation COOKIE_NONCE_PREFIX := (bs "COOKIE--").

Section Handshake.
Context `{Dryoc}.


(** [CurveHandshake::new]; [esk] is the secret key of the fresh ephemeral pair. *)
Definition new (is_server : bool) (config : ZmtpEngineConfig) (esk : bytes)
  : result CurveHandshake :=
  sk ← ok_or (cfg_curve_local_secret_key config) InvalidCurveKey;
  remote ← (if is_server then Ok None
            else Some <$> ok_or (cfg_curve_remote_public_key config) InvalidCurveKey);
  Ok (mkCurveHandshake (if is_server then ServerStart else ClientStart) is_server
        sk (kp_public sk) remote esk (kp_public esk) None None 1 1).

Definition into_session_keys (h : CurveHandshake) : result (bytes * bytes) :=
  match phase h with
  | CComplete =>
      remote_pk ← ok_or (remote_static_public_key h)
                    (InvalidState "Handshake complete but remote PK missing");
      if ch_is_server h
      then from_dryoc (crypto_kx_server_session_keys (local_static_pk h) (local_static_sk h) remote_pk)
      else from_dryoc (crypto_kx_client_session_keys (local_static_pk h) (local_static_sk h) remote_pk)
  | _ => Err (InvalidState "Handshake not complete")
  end.

Definition into_data_cipher (h : CurveHandshake) : result CurveDataCipher :=
  '(rx, tx) ← into_session_keys h; Ok (CurveDataCipher.new tx rx).

Definition cookie_nonce : bytes := COOKIE_NONCE_PREFIX ++ replicate 16 Byte.x00.

Definition counter_nonce (n : Z) : bytes := replicate 16 Byte.x00 ++ le_bytes 8 n.

Definition next_send_nonce (h : CurveHandshake) : CurveHandshake * bytes :=
  (h <| send_nonce := wrapU 64 (send_nonce h + 1) |>, counter_nonce (send_nonce h)).

Definition next_recv_nonce (h : CurveHandshake) : CurveHandshake * bytes :=
  (h <| recv_nonce := wrapU 64 (recv_nonce h + 1) |>, counter_nonce (recv_nonce h)).

Definition build_client_hello (h : CurveHandshake) : result bytes :=
  Ok (resize (192 + 6)
        (HELLO_PREFIX ++ encode_metadata {[bs "Public-Key-Client" := local_ephemeral_pk h]})).

Definition process_client_hello (h : CurveHandshake) (token : bytes)
  : CurveHandshake * result unit :=
  if negb (starts_with HELLO_PREFIX token)
  then (h, Err (ProtocolViolation "Expected HELLO command"))
  else
    let read :=
      data ← slice_from token (zlen HELLO_PREFIX);
      metadata ← decode_metadata data;
      pk ← ok_or (metadata !! bs "Public-Key-Client")
             (ProtocolViolation "HELLO missing Public-Key-Client");
      key_try_from pk in
    match read with
    | Ok pk => (h <| remote_ephemeral_public_key := Some pk |>, Ok tt)
    | Err e => (h, Err e)
    | Panic => (h, Panic)
    end.

Definition build_server_welcome (h : CurveHandshake) : result bytes :=
  client_eph_pk ← unwrap (remote_ephemeral_public_key h);
  let k := crypto_box_beforenm client_eph_pk (local_static_sk h) in
  let '(mac, ct) := crypto_box_detached_afternm (local_ephemeral_pk h) cookie_nonce k in
  let cookie_full := mac ++ ct in
  Ok (resize (128 + 8) (WELCOME_PREFIX ++ encode_metadata {[bs "Cookie" := cookie_full]})).

Definition process_server_welcome (h : CurveHandshake) (token : bytes)
  : CurveHandshake * result unit :=
  if negb (starts_with WELCOME_PREFIX token)
  then (h, Err (ProtocolViolation "Expected WELCOME command"))
  else
    let read :=
      data ← slice_from token (zlen WELCOME_PREFIX);
      metadata ← decode_metadata data;
      cookie ← ok_or (metadata !! bs "Cookie") (ProtocolViolation "WELCOME missing Cookie");
      server_static_pk ← unwrap (remote_static_public_key h);
      let k := crypto_box_beforenm server_static_pk (local_ephemeral_sk h) in
      mac_slice ← slice_to cookie 16;
      mac ← mac_try_from mac_slice;
      cookie_ciphertext ← slice_from cookie 16;
      server_ephemeral_pk ← from_dryoc
        (crypto_box_open_detached_afternm 32 mac cookie_ciphertext cookie_nonce k);
      key_try_from server_ephemeral_pk in
    match read with
    | Ok pk =>
        let final_k := crypto_box_beforenm pk (local_static_sk h) in
        (h <| remote_ephemeral_public_key := Some pk |> <| precomputed_key := Some final_k |>, Ok tt)
    | Err e => (h, Err e)
    | Panic => (h, Panic)
    end.

Definition build_client_initiate (h : CurveHandshake) : CurveHandshake * result bytes :=
  match remote_static_public_key h with
  | None => (h, Panic)
  | Some server_static_pk =>
      let initiate_key := crypto_box_beforenm server_static_pk (local_ephemeral_sk h) in
      let '(h, nonce) := next_send_nonce h in
      let metadata_bytes := encode_metadata {[bs "Public-Key-Client" := local_static_pk h]} in
      let '(mac, encrypted) := crypto_box_detached_afternm metadata_bytes nonce initiate_key in
      (h, Ok (resize (128 + 9)
                (INITIATE_PREFIX ++ encode_metadata {[bs "Ciphertext" := mac ++ encrypted]})))
  end.

Definition process_client_initiate (h : CurveHandshake) (token : bytes)
  : CurveHandshake * result unit :=
  if negb (starts_with INITIATE_PREFIX token)
  then (h, Err (ProtocolViolation "Expected INITIATE command"))
  else
    let read :=
      data ← slice_from token (zlen INITIATE_PREFIX);
      metadata ← decode_metadata data;
      ciphertext_with_mac ← ok_or (metadata !! bs "Ciphertext")
                              (ProtocolViolation "INITIATE missing Ciphertext");
      client_eph_pk ← unwrap (remote_ephemeral_public_key h);
      let initial_k := crypto_box_beforenm client_eph_pk (local_static_sk h) in
      mac_slice ← slice_to ciphertext_with_mac 16;
      mac ← mac_try_from mac_slice;
      ciphertext ← slice_from ciphertext_with_mac 16;
      Ok (initial_k, mac, ciphertext) in
    match read with
    | Ok (initial_k, mac, ciphertext) =>
        let '(h, nonce) := next_recv_nonce h in
        let opened :=
          plain ← from_dryoc
            (crypto_box_open_detached_afternm (zlen ciphertext) mac ciphertext nonce initial_k);
          metadata ← decode_metadata plain;
          pk ← ok_or (metadata !! bs "Public-Key-Client")
                 (ProtocolViolation "INITIATE missing Public-Key-Client");
          key_try_from pk in
        match opened with
        | Ok pk =>
            let final_k := crypto_box_beforenm pk (local_ephemeral_sk h) in
            (h <| remote_static_public_key := Some pk |> <| precomputed_key := Some final_k |>, Ok tt)
        | Err e => (h, Err e)
        | Panic => (h, Panic)
        end
    | Err e => (h, Err e)
    | Panic => (h, Panic)
    end.

End Handshake.
End CurveHandshake.

(** ** The mechanism *)

Record CurveMechanism := mkCurveMechanism {
  cm_handshake : CurveHandshake;
  cm_status : MechanismStatus;
  cm_error_reason : option string;
}.

#[export] Instance CurveMechanism_eta : Eta CurveMechanism := fun m =>
  mkCurveMechanism (cm_handshake m) (cm_status m) (cm_error_reason m).

Module CurveMechanism.

Abbreviation NAME := ("CURVE"%string).
Abbreviation NAME_BYTES := (bs "CURVE" ++ replicate 15 Byte.x00).

Section Mechanism.
Context `{Dryoc}.


(** The mechanism with its handshake moved to phase [p]. *)
Definition at_phase (h : CurveHandshake) (p : CurveHandshakePhase) (m : CurveMechanism)
  : CurveMechanism := m <| cm_handshake := h <| phase := p |> |>.

Definition produce_token (m : CurveMechanism) : CurveMechanism * result (option bytes) :=
  let h := cm_handshake m in
  match phase h with
  | ClientStart =>
      match CurveHandshake.build_client_hello h with
      | Ok body => (at_phase h ClientSentHello m, Ok (Some body))
      | Err e => (m, Err e)
      | Panic => (m, Panic)
      end
  | ServerReadyToProduceWelcome =>
      match CurveHandshake.build_server_welcome h with
      | Ok body => (at_phase h ServerAwaitingInitiate m, Ok (Some body))
      | Err e => (m, Err e)
      | Panic => (m, Panic)
      end
  | ClientReadyToProduceInitiate =>
      match CurveHandshake.build_client_initiate h with
      | (h, Ok body) => (at_phase h CComplete m <| cm_status := StReady |>, Ok (Some body))
      | (h, Err e) => (m <| cm_handshake := h |>, Err e)
      | (h, Panic) => (m <| cm_handshake := h |>, Panic)
      end
  | _ => (m, Ok None)
  end.

Definition process_token (m : CurveMechanism) (token : bytes)
  : CurveMechanism * result ProcessTokenAction :=
  let h := cm_handshake m in
  match phase h with
  | ServerStart =>
      match CurveHandshake.process_client_hello h token with
      | (h, Ok _) => (at_phase h ServerReadyToProduceWelcome m, Ok ProduceAndSend)
      | (h, Err e) => (m <| cm_handshake := h |>, Err e)
      | (h, Panic) => (m <| cm_handshake := h |>, Panic)
      end
  | ClientSentHello =>
      match CurveHandshake.process_server_welcome h token with
      | (h, Ok _) => (at_phase h ClientReadyToProduceInitiate m, Ok ProduceAndSend)
      | (h, Err e) => (m <| cm_handshake := h |>, Err e)
      | (h, Panic) => (m <| cm_handshake := h |>, Panic)
      end
  | ServerAwaitingInitiate =>
      match CurveHandshake.process_client_initiate h token with
      | (h, Ok _) => (at_phase h CComplete m <| cm_status := StReady |>, Ok HandshakeComplete)
      | (h, Err e) => (m <| cm_handshake := h |>, Err e)
      | (h, Panic) => (m <| cm_handshake := h |>, Panic)
      end
  | _ => (m, Err (InvalidState "Received handshake token at an unexpected time."))
  end.

Definition into_framer {C : Type} (embed : CurveDataCipher -> C) (m : CurveMechanism)
  (max_msg_size : Z) : result (DynFramer C * option bytes) :=
  if negb (bool_decide (cm_status m = StReady))
  then Err (InvalidState "Curve handshake is not complete.")
  else
    let peer_identity := remote_static_public_key (cm_handshake m) in
    cipher ← CurveHandshake.into_data_cipher (cm_handshake m);
    Ok (DynLengthPrefixed (LengthPrefixedFramer.new (embed cipher) max_msg_size), peer_identity).

Definition set_error (m : CurveMechanism) (reason : string) : CurveMechanism :=
  if bool_decide (cm_status m = StError) then m
  else at_phase (cm_handshake m) CError m <| cm_status := StError |>
         <| cm_error_reason := Some reason |>.

End Mechanism.
End CurveMechanism.

(** [initialize_curve]. *)
Definition initialize_curve `{Dryoc} (is_server : bool) (config : ZmtpEngineConfig) (esk : bytes)
  : result CurveMechanism :=
  handshake ← CurveHandshake.new is_server config esk;
  Ok (mkCurveMechanism handshake Handshaking None).

(** The mechanism of the trait; [embed] is the cast to [Box<dyn IDataCipher>]. *)
Definition curve_mechanism `{Dryoc} {C} (embed : CurveDataCipher -> C) : Mechanism C CurveMechanism := {|
  mech_name _ := CurveMechanism.NAME;
  process_token := CurveMechanism.process_token;
  produce_token := CurveMechanism.produce_token;
  status := cm_status;
  mech_peer_identity m := remote_static_public_key (cm_handshake m);
  set_error := CurveMechanism.set_error;
  error_reason := cm_error_reason;
  into_framer := CurveMechanism.into_framer embed;
|}.

(** ** Lemmas *)

Lemma encode_singleton k v : encode_metadata {[k := v]} = encode_entry k v.
Proof.
  unfold encode_metadata. rewrite map_to_list_singleton.
  cbn [fmap list_fmap concat]. apply app_nil_r.
Qed.

Lemma zlen_encode_entry k v : zlen (encode_entry k v) = 5 + zlen k + zlen v.
Proof. unfold encode_entry. autorewrite with rzmq_len. lia. Qed.

(** A well-formed entry is read back, and the cursor moves past it. *)
Lemma decode_entry_encode pre k v post :
  0 < zlen k < 256 -> utf8_valid k = true -> zlen v < 2 ^ 32 ->
  decode_entry (pre ++ encode_entry k v ++ post) (zlen pre) =
    Ok (Some (k, v, zlen pre + zlen (encode_entry k v))).
Proof.
  intros Hk Hu Hv. unfold decode_entry, encode_entry. app_norm.
  rewrite (index_app pre _ (u8 (zlen k))) by done. cbn [mbind result_bind].
  rewrite byteZ_u8_small by lia. rewrite (proj2 (Z.eqb_neq _ _)) by lia. cbn zeta.
  pose proof (zlen_nonneg post). pose proof (zlen_nonneg v).
  set (data := pre ++ _). assert (Hd : zlen data = zlen pre + 5 + zlen k + zlen v + zlen post).
  { unfold data. autorewrite with rzmq_len. lia. }
  rewrite (proj2 (Z.ltb_ge _ _)) by lia.
  rewrite (slice_at (pre ++ [u8 (zlen k)]) k (be_bytes 4 (zlen v) ++ v ++ post) data
             (zlen pre + 1) (zlen pre + 1 + zlen k));
    [|by unfold data; app_norm|autorewrite with rzmq_len; lia|lia].
  cbn [mbind result_bind]. rewrite Hu. cbn [negb]. rewrite (proj2 (Z.ltb_ge _ _)) by lia.
  rewrite (slice_at (pre ++ [u8 (zlen k)] ++ k) (be_bytes 4 (zlen v)) (v ++ post) data
             (zlen pre + 1 + zlen k));
    [|by unfold data; app_norm|autorewrite with rzmq_len; lia|autorewrite with rzmq_len; lia].
  cbn [mbind result_bind]. rewrite be_value_bytes_small by (change (256 ^ Z.of_nat 4) with (2 ^ 32); lia).
  rewrite (proj2 (Z.ltb_ge _ _)) by lia.
  rewrite (slice_at (pre ++ [u8 (zlen k)] ++ k ++ be_bytes 4 (zlen v)) v post data);
    [|by unfold data; app_norm|autorewrite with rzmq_len; lia|lia].
  cbn [mbind result_bind]. do 3 f_equal. autorewrite with rzmq_len. lia.
Qed.

Lemma decode_loop_padding fuel pre n m :
  decode_loop (S fuel) (pre ++ replicate n Byte.x00) (zlen pre) m = Ok m.
Proof.
  cbn [decode_loop]. case Z.ltb_spec; [|done]. intros Hlt.
  destruct n as [|n]; [rewrite app_nil_r in Hlt; lia|]. cbn [replicate].
  unfold decode_entry. by rewrite (index_app pre _ Byte.x00).
Qed.

(** One entry and the zero padding after it. *)
Lemma decode_singleton k v n :
  0 < zlen k < 256 -> utf8_valid k = true -> zlen v < 2 ^ 32 ->
  decode_metadata (encode_metadata {[k := v]} ++ replicate n Byte.x00) = Ok {[k := v]}.
Proof.
  intros Hk Hu Hv. rewrite encode_singleton. unfold decode_metadata.
  set (data := encode_entry k v ++ _).
  assert (exists f, length data = S (S f)) as [f ->].
  { pose proof (zlen_encode_entry k v). pose proof (zlen_nonneg v). exists (length data - 2)%nat.
    unfold data. rewrite length_app. unfold zlen in *. lia. }
  cbn [decode_loop]. unfold data. rewrite (proj2 (Z.ltb_lt _ _)).
  2: { rewrite zlen_app, zlen_encode_entry. pose proof (zlen_nonneg v).
       pose proof (zlen_nonneg (replicate n Byte.x00)). lia. }
  pose proof (decode_entry_encode [] k v (replicate n Byte.x00) Hk Hu Hv) as E.
  cbn [app] in E. change (zlen (@nil byte)) with 0 in E. rewrite E. cbn [mbind result_bind].
  rewrite Z.add_0_l. apply (decode_loop_padding f (encode_entry k v) n).
Qed.

(** A command: a prefix and one entry, padded to a fixed size. *)
Lemma resize_pad n l :
  (length l <= n)%nat -> resize n l = l ++ replicate (n - length l) Byte.x00.
Proof. intros H. unfold resize. by rewrite take_ge. Qed.

Lemma mac_try_from_len mac m : mac_try_from mac = Ok m -> zlen mac = 16.
Proof. unfold mac_try_from. by destruct (Z.eqb_spec (zlen mac) 16). Qed.

Section Honest.
Context `{HD : Dryoc} `{HL : !DryocLaws}.

(** A token that is a prefix, one entry and padding gives back the entry. *)
Lemma read_command pre n k v :
  0 < zlen k < 256 -> utf8_valid k = true -> zlen v < 2 ^ 32 ->
  zlen pre + (5 + zlen k + zlen v) <= Z.of_nat n ->
  let token := resize n (pre ++ encode_metadata {[k := v]}) in
  starts_with pre token = true /\
  exists data, slice_from token (zlen pre) = Ok data /\ decode_metadata data = Ok {[k := v]}.
Proof.
  intros Hk Hu Hv Hn token. unfold token. rewrite resize_pad.
  2: { rewrite <- zlen_encode_entry, <- zlen_app in Hn. rewrite encode_singleton.
       unfold zlen in Hn. lia. }
  rewrite <- app_assoc. split; [apply starts_with_app|].
  rewrite (slice_from_app pre) by done. eexists. split; [done|]. by apply decode_singleton.
Qed.

(** A detached box sent as tag and ciphertext opens to what went in. *)
Lemma open_box m n k :
  let '(mac, ct) := crypto_box_detached_afternm m n k in
  slice_to (mac ++ ct) 16 = Ok mac /\ slice_from (mac ++ ct) 16 = Ok ct /\
  mac_try_from mac = Ok mac /\ zlen ct = zlen m /\
  crypto_box_open_detached_afternm (zlen m) mac ct n k = DOk m.
Proof.
  pose proof (detached_len m n k) as [Hm Hc]. pose proof (open_detached m n k) as Ho.
  destruct (crypto_box_detached_afternm m n k) as [mac ct]. cbn [fst snd] in *.
  split_and!; [| | |done|done].
  - unfold slice_to. rewrite zlen_app, Hm, Hc. pose proof (zlen_nonneg m).
    rewrite (proj2 (Z.leb_le 16 _)) by lia. cbn [andb Z.leb].
    replace (Z.to_nat 16) with (length mac) by (unfold zlen in Hm; lia). by rewrite take_app_length.
  - by apply slice_from_app.
  - unfold mac_try_from. by rewrite Hm.
Qed.

Definition cipher_sync (s r : CurveDataCipher) : Prop :=
  encode_key s = decode_key r /\ send_nonce_counter s = recv_nonce_counter r.

Lemma cipher_decrypts s r pt s' ct :
  cipher_sync s r -> CurveDataCipher.encrypt s pt = (s', Ok ct) ->
  exists r', CurveDataCipher.decrypt r ct = (r', Ok pt) /\ cipher_sync s' r'.
Proof.
  intros [Hk Hn] E. unfold CurveDataCipher.encrypt in E. unfold CurveDataCipher.decrypt.
  pose proof (open_box pt (CurveDataCipher.construct_nonce (send_nonce_counter s)) (encode_key s)) as Hb.
  destruct (crypto_box_detached_afternm _ _ _) as [mac c].
  destruct Hb as (H1 & H2 & H3 & Hl & H4). inv E.
  rewrite (proj2 (Z.ltb_ge _ _)).
  2: { apply mac_try_from_len in H3. rewrite zlen_app. unfold CurveDataCipher.CRYPTO_BOX_MACBYTES. pose proof (zlen_nonneg c). lia. }
  unfold CurveDataCipher.CRYPTO_BOX_MACBYTES. rewrite H1, H2. cbn [mbind result_bind].
  rewrite H3. cbn [map_err mbind result_bind]. rewrite <- Hn, <- Hk, Hl, H4.
  eexists. split; [done|]. split; [done|]. by cbn; rewrite Hn.
Qed.

Lemma key_try_from_public sk : zlen sk = 32 -> key_try_from (kp_public sk) = Ok (kp_public sk).
Proof. intros H. unfold key_try_from. by rewrite kp_public_len. Qed.

(** The three commands, each against the peer that built it. *)
Lemma hello_read hc hs esk hello :
  zlen esk = 32 -> local_ephemeral_pk hc = kp_public esk ->
  CurveHandshake.build_client_hello hc = Ok hello ->
  CurveHandshake.process_client_hello hs hello =
    (hs <| remote_ephemeral_public_key := Some (kp_public esk) |>, Ok tt).
Proof.
  intros Hl Hp E. unfold CurveHandshake.build_client_hello in E. rewrite Hp in E.
  apply Ok_inj in E as <-. unfold CurveHandshake.process_client_hello.
  destruct (read_command CurveHandshake.HELLO_PREFIX (192 + 6) (bs "Public-Key-Client")
              (kp_public esk)) as (Hs & data & Hd & Hm);
    [done|done|by rewrite kp_public_len|by rewrite kp_public_len|].
  rewrite Hs. cbn [negb]. rewrite Hd. cbn [mbind result_bind]. rewrite Hm.
  cbn [mbind result_bind]. rewrite lookup_singleton_eq. cbn [ok_or mbind result_bind].
  by rewrite key_try_from_public.
Qed.

Lemma welcome_read hc hs ec es sks welcome :
  zlen ec = 32 -> zlen es = 32 -> local_ephemeral_sk hc = ec ->
  remote_static_public_key hc = Some (kp_public sks) ->
  local_static_sk hs = sks -> local_ephemeral_pk hs = kp_public es ->
  remote_ephemeral_public_key hs = Some (kp_public ec) ->
  CurveHandshake.build_server_welcome hs = Ok welcome ->
  exists k, CurveHandshake.process_server_welcome hc welcome =
    (hc <| remote_ephemeral_public_key := Some (kp_public es) |> <| precomputed_key := Some k |>, Ok tt).
Proof.
  intros Hec Hes Hc1 Hc2 Hs1 Hs2 Hs3 E. unfold CurveHandshake.build_server_welcome in E.
  rewrite Hs1, Hs2, Hs3 in E. cbn [unwrap mbind result_bind] in E.
  pose proof (open_box (kp_public es) CurveHandshake.cookie_nonce
    (crypto_box_beforenm (kp_public ec) sks)) as Hb.
  pose proof (kp_public_len es Hes) as Hpl.
  destruct (crypto_box_detached_afternm _ _ _) as [mac ct] eqn:Ebox.
  destruct Hb as (H1 & H2 & H3 & Hl & H4). apply Ok_inj in E as <-.
  assert (Hml : zlen (mac ++ ct) = 48).
  { apply mac_try_from_len in H3. rewrite zlen_app. lia. }
  unfold CurveHandshake.process_server_welcome.
  destruct (read_command CurveHandshake.WELCOME_PREFIX (128 + 8) (bs "Cookie") (mac ++ ct))
    as (Hs & data & Hdt & Hmt); [split; reflexivity|reflexivity|lia|rewrite Hml; discriminate|].
  rewrite Hs. cbn [negb]. rewrite Hdt. cbn [mbind result_bind]. rewrite Hmt.
  cbn [mbind result_bind]. rewrite lookup_singleton_eq, Hc2, Hc1. cbn [ok_or unwrap mbind result_bind].
  rewrite H1. cbn [mbind result_bind]. rewrite H3. cbn [mbind result_bind]. rewrite H2.
  cbn [mbind result_bind]. rewrite beforenm_agree. rewrite Hpl in H4. rewrite H4.
  cbn [from_dryoc mbind result_bind]. rewrite key_try_from_public by done. by eexists.
Qed.

Lemma initiate_read hc hs ec skc sks hc' initiate :
  zlen skc = 32 -> local_ephemeral_sk hc = ec -> local_static_pk hc = kp_public skc ->
  remote_static_public_key hc = Some (kp_public sks) ->
  local_static_sk hs = sks -> remote_ephemeral_public_key hs = Some (kp_public ec) ->
  send_nonce hc = recv_nonce hs ->
  CurveHandshake.build_client_initiate hc = (hc', Ok initiate) ->
  exists k n, CurveHandshake.process_client_initiate hs initiate =
    (hs <| recv_nonce := n |> <| remote_static_public_key := Some (kp_public skc) |>
        <| precomputed_key := Some k |>, Ok tt).
Proof.
  intros Hsk Hc1 Hc2 Hc3 Hs1 Hs2 Hn E. unfold CurveHandshake.build_client_initiate in E.
  rewrite Hc3, Hc1 in E. cbn [CurveHandshake.next_send_nonce] in E.
  change (local_static_pk (hc <| send_nonce := wrapU 64 (send_nonce hc + 1) |>))
    with (local_static_pk hc) in E. rewrite Hc2 in E.
  remember (encode_metadata _) as md eqn:Emd in E.
  pose proof (open_box md (CurveHandshake.counter_nonce (send_nonce hc))
    (crypto_box_beforenm (kp_public sks) ec)) as Hb.
  destruct (crypto_box_detached_afternm _ _ _) as [mac ct] eqn:Ebox.
  destruct Hb as (H1 & H2 & H3 & Hl & H4). apply pair_equal_spec in E as [_ <-%Ok_inj].
  assert (Hmd : zlen md = 54).
  { rewrite Emd, encode_singleton, zlen_encode_entry, kp_public_len by done. done. }
  assert (Hml : zlen (mac ++ ct) = 70).
  { apply mac_try_from_len in H3. rewrite zlen_app. lia. }
  unfold CurveHandshake.process_client_initiate.
  destruct (read_command CurveHandshake.INITIATE_PREFIX (128 + 9) (bs "Ciphertext") (mac ++ ct))
    as (Hs & data & Hdt & Hmt); [split; reflexivity|reflexivity|lia|rewrite Hml; discriminate|].
  rewrite Hs. cbn [negb]. rewrite Hdt. cbn [mbind result_bind]. rewrite Hmt.
  cbn [mbind result_bind]. rewrite lookup_singleton_eq, Hs2, Hs1. cbn [ok_or unwrap mbind result_bind].
  rewrite H1. cbn [mbind result_bind]. rewrite H3. cbn [mbind result_bind]. rewrite H2.
  cbn [mbind result_bind CurveHandshake.next_recv_nonce]. rewrite <- Hn, beforenm_agree, Hl, H4.
  cbn [from_dryoc mbind result_bind].
  pose proof (decode_singleton (bs "Public-Key-Client") (kp_public skc) 0) as Hd.
  cbn [replicate] in Hd. rewrite app_nil_r, <- Emd in Hd. clear Emd Hs Hdt Hmt.
  rewrite Hd by (rewrite ?kp_public_len; done). cbn [mbind result_bind].
  rewrite lookup_singleton_eq. cbn [ok_or mbind result_bind].
  rewrite key_try_from_public by done. by eexists _, _.
Qed.

End Honest.

#[export] Instance curve_pair `{DryocLaws} : CipherPair CurveDataCipher :=
  {| cp_sync := cipher_sync; cp_decrypt := cipher_decrypts |}.

(** ** Sessions *)

Section Session.
Context `{HD : Dryoc}.

(** One handshake command: [a] produces it and [b] processes it. *)
Definition deliver (a b : CurveMechanism) (action : ProcessTokenAction)
  : option (CurveMechanism * CurveMechanism) :=
  match CurveMechanism.produce_token a with
  | (a, Ok (Some token)) =>
      match CurveMechanism.process_token b token with
      | (b, Ok act) => if bool_decide (act = action) then Some (a, b) else None
      | _ => None
      end
  | _ => None
  end.

(** HELLO, WELCOME and INITIATE between a client and a server with the given
    configurations and ephemeral secret keys; the two mechanisms at the end. *)
Definition curve_session (client server : ZmtpEngineConfig) (ec es : bytes)
  : option (CurveMechanism * CurveMechanism) :=
  match initialize_curve false client ec, initialize_curve true server es with
  | Ok c, Ok s =>
      '(c, s) ← deliver c s ProduceAndSend;
      '(s, c) ← deliver s c ProduceAndSend;
      deliver c s HandshakeComplete
  | _, _ => None
  end.

(** The nonces a cipher uses for a sequence of messages. *)
Fixpoint nonces_used (c : CurveDataCipher) (msgs : list bytes) : list bytes :=
  match msgs with
  | [] => []
  | m :: msgs => CurveDataCipher.construct_nonce (send_nonce_counter c)
                   :: nonces_used (CurveDataCipher.encrypt c m).1 msgs
  end.

Lemma encrypt_state c m :
  (CurveDataCipher.encrypt c m).1 = c <| send_nonce_counter := wrapU 64 (send_nonce_counter c + 1) |>.
Proof. unfold CurveDataCipher.encrypt. by destruct (crypto_box_detached_afternm _ _ _). Qed.

Lemma construct_nonce_inj a b :
  0 <= a < 2 ^ 64 -> 0 <= b < 2 ^ 64 ->
  CurveDataCipher.construct_nonce a = CurveDataCipher.construct_nonce b -> a = b.
Proof.
  intros Ha Hb E%app_inv_head. apply (f_equal le_value) in E. rewrite !le_value_bytes in E.
  change (256 ^ Z.of_nat 8) with (2 ^ 64) in E. rewrite !Z.mod_small in E; lia.
Qed.

Lemma nonces_used_spec msgs c :
  0 <= send_nonce_counter c -> send_nonce_counter c + zlen msgs <= 2 ^ 64 ->
  nonces_used c msgs =
    (fun i => CurveDataCipher.construct_nonce (send_nonce_counter c + Z.of_nat i)) <$> seq 0 (length msgs).
Proof.
  revert c. induction msgs as [|m msgs IH]; intros c H0 Hn; [done|].
  rewrite zlen_cons in Hn. cbn [nonces_used length seq fmap list_fmap].
  pose proof (zlen_nonneg msgs). f_equal; [f_equal; lia|]. rewrite encrypt_state.
  destruct (decide (msgs = [])) as [->|Hne]; [done|].
  assert (0 < zlen msgs) by (destruct msgs; [done|rewrite zlen_cons; pose proof (zlen_nonneg msgs); lia]).
  assert (Hw : wrapU 64 (send_nonce_counter c + 1) = send_nonce_counter c + 1)
    by (apply Z.mod_small; lia).
  rewrite Hw, IH; change (send_nonce_counter (c <| send_nonce_counter := send_nonce_counter c + 1 |>))
    with (send_nonce_counter c + 1); [|lia|lia].
  change (seq 1 (length msgs)) with (seq (S 0) (length msgs)).
  rewrite <- fmap_S_seq, <- list_fmap_compose. apply list_fmap_ext. intros i x _.
  unfold compose. f_equal. lia.
Qed.

End Session.

Section Agreement.
Context `{HD : Dryoc} `{HL : !DryocLaws}.

(** The final states of an honest session: complete, ready, and knowing each
    other's static public key. *)
Definition session_end (m : CurveMechanism) (server : bool) (sk remote : bytes) : Prop :=
  cm_status m = StReady /\ phase (cm_handshake m) = CComplete /\
  ch_is_server (cm_handshake m) = server /\
  local_static_sk (cm_handshake m) = sk /\ local_static_pk (cm_handshake m) = kp_public sk /\
  remote_static_public_key (cm_handshake m) = Some remote.

(** What the two sides know between two commands. *)
Definition client_at (p : CurveHandshakePhase) (skc ec pks : bytes) (m : CurveMechanism) : Prop :=
  let h := cm_handshake m in
  phase h = p /\ ch_is_server h = false /\ local_static_sk h = skc /\
  local_static_pk h = kp_public skc /\ remote_static_public_key h = Some pks /\
  local_ephemeral_sk h = ec /\ local_ephemeral_pk h = kp_public ec /\ send_nonce h = 1.

Definition server_at (p : CurveHandshakePhase) (sks es : bytes) (eph : option bytes)
  (m : CurveMechanism) : Prop :=
  let h := cm_handshake m in
  phase h = p /\ ch_is_server h = true /\ local_static_sk h = sks /\
  local_static_pk h = kp_public sks /\ local_ephemeral_pk h = kp_public es /\
  remote_ephemeral_public_key h = eph /\ recv_nonce h = 1.

Lemma deliver_hello skc ec pks sks es c s :
  zlen ec = 32 -> client_at ClientStart skc ec pks c -> server_at ServerStart sks es None s ->
  exists c' s', deliver c s ProduceAndSend = Some (c', s') /\
    client_at ClientSentHello skc ec pks c' /\
    server_at ServerReadyToProduceWelcome sks es (Some (kp_public ec)) s'.
Proof.
  intros Hec (Hp & Hc) (Hq & Hs). destruct c as [hc st er], s as [hs st' er']. cbn in Hp, Hq, Hc, Hs.
  destruct_and!. unfold deliver, CurveMechanism.produce_token. cbn [cm_handshake]. rewrite Hp.
  destruct (CurveHandshake.build_client_hello hc) as [hello|e|] eqn:E; [|done..].
  unfold CurveMechanism.process_token. cbn [cm_handshake]. rewrite Hq, (hello_read hc hs ec hello) by done.
  eexists _, _. split; [done|]. by split; split_and!.
Qed.

Lemma deliver_welcome skc ec sks es c s :
  zlen ec = 32 -> zlen es = 32 -> client_at ClientSentHello skc ec (kp_public sks) c ->
  server_at ServerReadyToProduceWelcome sks es (Some (kp_public ec)) s ->
  exists c' s', deliver s c ProduceAndSend = Some (s', c') /\
    client_at ClientReadyToProduceInitiate skc ec (kp_public sks) c' /\
    server_at ServerAwaitingInitiate sks es (Some (kp_public ec)) s'.
Proof.
  intros Hec Hes (Hp & Hc) (Hq & Hs). destruct c as [hc st er], s as [hs st' er']. cbn in Hp, Hq, Hc, Hs.
  destruct_and!. unfold deliver, CurveMechanism.produce_token. cbn [cm_handshake]. rewrite Hq.
  destruct (CurveHandshake.build_server_welcome hs) as [welcome|e|] eqn:E.
  2,3: unfold CurveHandshake.build_server_welcome in E;
       replace (remote_ephemeral_public_key hs) with (Some (kp_public ec)) in E by done;
       cbn [unwrap mbind result_bind] in E; by destruct (crypto_box_detached_afternm _ _ _).
  unfold CurveMechanism.process_token. cbn [cm_handshake]. rewrite Hp.
  destruct (welcome_read hc hs ec es sks welcome) as [k ->]; [done..|].
  eexists _, _. split; [done|]. by split; split_and!.
Qed.

Lemma deliver_initiate skc ec sks es c s :
  zlen skc = 32 -> client_at ClientReadyToProduceInitiate skc ec (kp_public sks) c ->
  server_at ServerAwaitingInitiate sks es (Some (kp_public ec)) s ->
  exists c' s', deliver c s HandshakeComplete = Some (c', s') /\
    session_end c' false skc (kp_public sks) /\ session_end s' true sks (kp_public skc).
Proof.
  intros Hskc (Hp & Hc) (Hq & Hs). destruct c as [hc st er], s as [hs st' er']. cbn in Hp, Hq, Hc, Hs.
  destruct_and!. unfold deliver, CurveMechanism.produce_token. cbn [cm_handshake]. rewrite Hp.
  destruct (CurveHandshake.build_client_initiate hc) as [hc' r] eqn:E.
  assert (Hr : exists t, r = Ok t /\ exists n, hc' = hc <| send_nonce := n |>).
  { unfold CurveHandshake.build_client_initiate, CurveHandshake.next_send_nonce in E.
    replace (remote_static_public_key hc) with (Some (kp_public sks)) in E by done.
    destruct (crypto_box_detached_afternm _ _ _). simplify_eq. eauto. }
  destruct Hr as (initiate & -> & n & ->).
  unfold CurveMechanism.process_token. cbn [cm_handshake]. rewrite Hq.
  destruct (initiate_read hc hs ec skc sks (hc <| send_nonce := n |>) initiate) as (k & n' & ->); [done..|congruence|done|].
  eexists _, _. split; [done|]. by split; split_and!.
Qed.

Lemma session_runs client server skc sks ec es :
  zlen skc = 32 -> zlen ec = 32 -> zlen es = 32 ->
  cfg_curve_local_secret_key client = Some skc ->
  cfg_curve_remote_public_key client = Some (kp_public sks) ->
  cfg_curve_local_secret_key server = Some sks ->
  exists c s, curve_session client server ec es = Some (c, s) /\
    session_end c false skc (kp_public sks) /\ session_end s true sks (kp_public skc).
Proof.
  intros Hskc Hec Hes Hc1 Hc2 Hs1. unfold curve_session, initialize_curve, CurveHandshake.new.
  rewrite Hc1, Hc2, Hs1. cbn [ok_or mbind result_bind fmap result_fmap].
  edestruct (deliver_hello skc ec (kp_public sks) sks es) as (c1 & s1 & -> & Hc & Hs);
    [done|by split_and!..|]. cbn [mbind option_bind].
  destruct (deliver_welcome _ _ _ _ _ _ Hec Hes Hc Hs) as (c2 & s2 & -> & Hc' & Hs').
  cbn [mbind option_bind]. exact (deliver_initiate _ _ _ _ _ _ Hskc Hc' Hs').
Qed.

(** The data-phase keys of a complete handshake are those of the two static
    key pairs. *)
Lemma session_cipher m server sk remote :
  session_end m server sk remote ->
  CurveHandshake.into_data_cipher (cm_handshake m) =
    ('(rx, tx) ← from_dryoc ((if server then crypto_kx_server_session_keys
                              else crypto_kx_client_session_keys) (kp_public sk) sk remote);
     Ok (CurveDataCipher.new tx rx)).
Proof.
  intros (_ & Hp & Hs & Hk & Hpk & Hr). unfold CurveHandshake.into_data_cipher, CurveHandshake.into_session_keys.
  rewrite Hp, Hr, Hs, Hk, Hpk. cbn [ok_or mbind result_bind]. by destruct server.
Qed.

Lemma session_framer m server sk remote c max :
  session_end m server sk remote ->
  CurveHandshake.into_data_cipher (cm_handshake m) = Ok c ->
  CurveMechanism.into_framer id m max =
    Ok (DynLengthPrefixed (LengthPrefixedFramer.new c max), Some remote).
Proof.
  intros (Hst & _ & _ & _ & _ & Hr) E. unfold CurveMechanism.into_framer.
  rewrite Hst, bool_decide_true by done. cbn [negb]. rewrite E, Hr. done.
Qed.

End Agreement.

(** A crate that satisfies the laws: keys are their own public keys, boxes are
    not encrypted, session keys are the two public keys in order. *)
Definition toy_dryoc : Dryoc := {|
  kp_public sk := sk;
  crypto_box_beforenm _ _ := [];
  crypto_box_detached_afternm m _ _ := (replicate 16 Byte.x00, m);
  crypto_box_open_detached_afternm _ _ ct _ _ := DOk ct;
  crypto_kx_server_session_keys pk _ remote := DOk (remote ++ pk, pk ++ remote);
  crypto_kx_client_session_keys pk _ remote := DOk (remote ++ pk, pk ++ remote);
  key_size_error _ := EmptyString;
|}.

Lemma toy_laws : @DryocLaws toy_dryoc.
Proof. split; try done. intros skc sks. eexists _, _. by split. Qed.

Definition toy_key (b : byte) : bytes := replicate 32 b.
Definition toy_config (sk : bytes) (remote : option bytes) : ZmtpEngineConfig :=
  (engine_config default_options) <| cfg_curve_local_secret_key := Some sk |>
    <| cfg_curve_remote_public_key := remote |>.

(** ** Properties *)

(** C36: the CURVE handshake between a client that is configured with the
    server's public key and that server always completes in three commands.  Both
    mechanisms end ready, each knows the other's long-term public key, and the
    framers they hand over hold ciphers that decrypt what the other encrypts,
    in both directions. *)
Theorem curve_handshake (HD : Dryoc) (HL : DryocLaws) (client server : ZmtpEngineConfig)
  (skc sks ec es : bytes) (max : Z)
  (Hsizes : zlen skc = 32 /\ zlen ec = 32 /\ zlen es = 32)
  (Hclient : cfg_curve_local_secret_key client = Some skc)
  (Hremote : cfg_curve_remote_public_key client = Some (kp_public sks))
  (Hserver : cfg_curve_local_secret_key server = Some sks) :
  exists c s kc ks,
    curve_session client server ec es = Some (c, s) /\
    CurveMechanism.into_framer id c max =
      Ok (DynLengthPrefixed (LengthPrefixedFramer.new kc max), Some (kp_public sks)) /\
    CurveMechanism.into_framer id s max =
      Ok (DynLengthPrefixed (LengthPrefixedFramer.new ks max), Some (kp_public skc)) /\
    cp_sync kc ks /\ cp_sync ks kc.
Proof.
  destruct Hsizes as (Hskc & Hec & Hes).
  destruct (session_runs client server skc sks ec es) as (c & s & Hrun & Hc & Hs); [done..|].
  destruct (kx_agree skc sks) as (k1 & k2 & Ec & Es).
  eexists c, s, (CurveDataCipher.new k2 k1), (CurveDataCipher.new k1 k2).
  split_and!; [done|eapply session_framer; [done|]..|done|done].
  - by rewrite (session_cipher _ _ _ _ Hc), Ec.
  - by rewrite (session_cipher _ _ _ _ Hs), Es.
Qed.

Lemma curve_handshake_witness :
  let HD := toy_dryoc in
  exists c s kc ks,
    curve_session (toy_config (toy_key Byte.x01) (Some (toy_key Byte.x02)))
      (toy_config (toy_key Byte.x02) None) (toy_key Byte.x03) (toy_key Byte.x04) = Some (c, s) /\
    CurveMechanism.into_framer id c (-1) =
      Ok (DynLengthPrefixed (LengthPrefixedFramer.new kc (-1)), Some (toy_key Byte.x02)) /\
    CurveMechanism.into_framer id s (-1) =
      Ok (DynLengthPrefixed (LengthPrefixedFramer.new ks (-1)), Some (toy_key Byte.x01)) /\
    cipher_sync kc ks /\ cipher_sync ks kc.
Proof.
  intros HD. apply (curve_handshake toy_dryoc toy_laws
    (toy_config (toy_key Byte.x01) (Some (toy_key Byte.x02))) (toy_config (toy_key Byte.x02) None)
    (toy_key Byte.x01) (toy_key Byte.x02)); done.
Defined.

(** Within one CURVE session no nonce is used twice: the nonces of the
    first 2^64 - 1 messages a new data cipher encrypts are pairwise distinct. *)
Theorem curve_nonces_distinct (HD : Dryoc) (encode_key decode_key : bytes) (msgs : list bytes)
  (Hn : zlen msgs < 2 ^ 64) :
  NoDup (nonces_used (CurveDataCipher.new encode_key decode_key) msgs).
Proof.
  rewrite nonces_used_spec by (cbn [send_nonce_counter CurveDataCipher.new]; lia).
  cbn [send_nonce_counter CurveDataCipher.new].
  apply NoDup_fmap_2_strong; [|apply NoDup_seq].
  intros i j Hi%elem_of_seq Hj%elem_of_seq E.
  apply construct_nonce_inj in E; unfold zlen in Hn; lia.
Qed.

Lemma curve_nonces_distinct_witness :
  let HD := toy_dryoc in
  NoDup (nonces_used (CurveDataCipher.new (toy_key Byte.x01) (toy_key Byte.x02)) [bs "a"; bs "a"]).
Proof. intros HD. by apply (curve_nonces_distinct toy_dryoc). Defined.

(** Across CURVE sessions the nonces do repeat under the same keys.  The
    data-phase keys of a session depend on the long-term keys alone, so two
    sessions between the same peers, whatever their ephemeral keys, encrypt with
    the same ciphers: the n-th message of each session is encrypted with the same
    key and the same nonce. *)
Theorem curve_sessions_share_keys (HD : Dryoc) (HL : DryocLaws) (client server : ZmtpEngineConfig)
  (skc sks ec es ec' es' : bytes)
  (Hsizes : zlen skc = 32 /\ Forall (fun k => zlen k = 32) [ec; es; ec'; es'])
  (Hclient : cfg_curve_local_secret_key client = Some skc)
  (Hremote : cfg_curve_remote_public_key client = Some (kp_public sks))
  (Hserver : cfg_curve_local_secret_key server = Some sks) :
  exists c s c' s' kc,
    curve_session client server ec es = Some (c, s) /\
    curve_session client server ec' es' = Some (c', s') /\
    CurveHandshake.into_data_cipher (cm_handshake c) = Ok kc /\
    CurveHandshake.into_data_cipher (cm_handshake c') = Ok kc /\
    forall msgs msgs', length msgs = length msgs' -> zlen msgs < 2 ^ 64 ->
      nonces_used kc msgs = nonces_used kc msgs'.
Proof.
  destruct Hsizes as (Hskc & Hl). decompose_Forall.
  destruct (session_runs client server skc sks ec es) as (c & s & Hrun & Hc & Hs); [done..|].
  destruct (session_runs client server skc sks ec' es') as (c' & s' & Hrun' & Hc' & Hs'); [done..|].
  destruct (kx_agree skc sks) as (k1 & k2 & Ec & _).
  exists c, s, c', s', (CurveDataCipher.new k2 k1).
  split_and!; [done..| | |].
  - by rewrite (session_cipher _ _ _ _ Hc), Ec.
  - by rewrite (session_cipher _ _ _ _ Hc'), Ec.
  - intros msgs msgs' E Hlt. rewrite !nonces_used_spec; cbn [send_nonce_counter CurveDataCipher.new];
      unfold zlen in *; rewrite <- ?E; try lia. done.
Qed.

Lemma curve_sessions_share_keys_witness :
  let HD := toy_dryoc in
  let client := toy_config (toy_key Byte.x01) (Some (toy_key Byte.x02)) in
  let server := toy_config (toy_key Byte.x02) None in
  exists c s c' s' kc,
    curve_session client server (toy_key Byte.x03) (toy_key Byte.x04) = Some (c, s) /\
    curve_session client server (toy_key Byte.x05) (toy_key Byte.x06) = Some (c', s') /\
    CurveHandshake.into_data_cipher (cm_handshake c) = Ok kc /\
    CurveHandshake.into_data_cipher (cm_handshake c') = Ok kc /\
    forall msgs msgs', length msgs = length msgs' -> zlen msgs < 2 ^ 64 ->
      nonces_used kc msgs = nonces_used kc msgs'.
Proof.
  intros HD client server.
  apply (curve_sessions_share_keys toy_dryoc toy_laws client server (toy_key Byte.x01) (toy_key Byte.x02));
    [split; [done|by repeat constructor]|done..].
Defined.

(** A HELLO whose first metadata key is not UTF-8 makes the CURVE server
    panic instead of reporting a protocol violation, before anything is
    authenticated. *)
Theorem curve_hello_panics (HD : Dryoc) (m : CurveMechanism) (key value rest : bytes)
  (Hphase : phase (cm_handshake m) = ServerStart)
  (Hkey : 0 < zlen key < 256) (Hutf8 : utf8_valid key = false) :
  (CurveMechanism.process_token m
     (CurveHandshake.HELLO_PREFIX ++ encode_entry key value ++ rest)).2 = Panic.
Proof.
  unfold CurveMechanism.process_token, CurveHandshake.process_client_hello.
  rewrite Hphase, starts_with_app. cbn [negb]. rewrite slice_from_app by done. cbn [mbind result_bind].
  unfold decode_metadata. set (data := encode_entry key value ++ rest).
  assert (Hl : zlen data = 5 + zlen key + zlen value + zlen rest)
    by (unfold data; rewrite zlen_app, zlen_encode_entry; lia).
  pose proof (zlen_nonneg value). pose proof (zlen_nonneg rest).
  destruct (length data) as [|fuel] eqn:E; [unfold zlen in Hl at 1; lia|].
  cbn [decode_loop]. rewrite (proj2 (Z.ltb_lt _ _)) by lia.
  unfold decode_entry, data. cbn [encode_entry app index]. unfold encode_entry. app_norm.
  change (index (?a :: ?l) 0) with (@Ok byte a). cbn [mbind result_bind].
  rewrite byteZ_u8_small, (proj2 (Z.eqb_neq _ _)) by lia. cbn zeta.
  rewrite (proj2 (Z.ltb_ge _ _)).
  2: { rewrite zlen_cons, !zlen_app, zlen_be_bytes. lia. }
  rewrite (slice_at [u8 (zlen key)] key (be_bytes 4 (zlen value) ++ value ++ rest) _ 1 (1 + zlen key)) by done.
  cbn [mbind result_bind]. by rewrite Hutf8.
Qed.

Lemma curve_hello_panics_witness :
  let HD := toy_dryoc in
  exists m, initialize_curve true (toy_config (toy_key Byte.x02) None) (toy_key Byte.x04) = Ok m /\
    (CurveMechanism.process_token m
       (CurveHandshake.HELLO_PREFIX ++ encode_entry [Byte.xff] [] ++ [])).2 = Panic.
Proof.
  intros HD. eexists. split; [done|]. by apply (curve_hello_panics toy_dryoc).
Defined.
