(* ===== verification/Noise.v ===== *)
(** The NOISE_XX mechanism: [core/src/security/noise_xx.rs].

    The Noise protocol itself is the [snow] crate, which is not part of the
    sources: its two state types and their operations are the class [Snow].
    What an honest run of the XX pattern does (three messages, each read by the
    peer, both ends learning each other's static key and ending with matching
    transport states) is the class [SnowXX]. *)

From S2P Require Import Prelude Error Message Codec Framer Mechanism Options.

(** ** The crate *)

(** [snow::Error], by the variants the code tells apart; the rest carry text. *)
Inductive Prerequisite := PLocalPrivateKey | PRemotePublicKey.
Inductive StateProblem :=
| MissingKeyMaterial | HandshakeNotFinished | HandshakeAlreadyFinished | OtherProblem (debug : string).
Inductive SnowError :=
| SnowPattern (debug : string)
| SnowInit (debug : string)
| SnowPrereq (p : Prerequisite)
| SnowState (p : StateProblem)
| SnowInput | SnowDh | SnowDecrypt
| SnowOther (text : string).

Class Snow := {
  HandshakeState : Type;
  TransportState : Type;
  (** local secret key, remote public key *)
  build_initiator : bytes -> bytes -> SnowError + HandshakeState;
  build_responder : bytes -> SnowError + HandshakeState;
  is_handshake_finished : HandshakeState -> bool;
  is_my_turn : HandshakeState -> bool;
  get_remote_static : HandshakeState -> option bytes;
  (** payload or message, and the size of the output buffer *)
  write_message : HandshakeState -> bytes -> Z -> HandshakeState * (SnowError + bytes);
  read_message : HandshakeState -> bytes -> Z -> HandshakeState * (SnowError + bytes);
  into_transport_mode : HandshakeState -> SnowError + TransportState;
  transport_write : TransportState -> bytes -> Z -> TransportState * (SnowError + bytes);
  transport_read : TransportState -> bytes -> Z -> TransportState * (SnowError + bytes);
  (** [{:?}] of an error *)
  snow_debug : SnowError -> string;
}.

(** [impl From<SnowError> for ZmqError]. *)
Definition from_snow (e : SnowError) : ZmqError :=
  match e with
  | SnowPattern problem =>
      SecurityError (format "Noise pattern configuration error: {}" [problem])
  | SnowInit stage =>
      SecurityError (format "Noise initialization error at stage: {}" [stage])
  | SnowPrereq PLocalPrivateKey =>
      SecurityError "Noise prerequisite error: Local private key missing or invalid."
  | SnowPrereq PRemotePublicKey =>
      SecurityError "Noise prerequisite error: Remote public key missing or invalid for current operation."
  | SnowState MissingKeyMaterial =>
      SecurityError "Noise state error: Missing required key material for operation."
  | SnowState HandshakeNotFinished =>
      InvalidState "Noise state error: Handshake is not yet finished for requested operation."
  | SnowState HandshakeAlreadyFinished =>
      InvalidState "Noise state error: Handshake is already finished."
  | SnowState (OtherProblem problem) =>
      SecurityError (format "Noise state machine error: {}" [problem])
  | SnowInput =>
      SecurityError "Noise input error: Invalid message format or size for current state."
  | SnowDh => SecurityError "Noise Diffie-Hellman operation failed."
  | SnowDecrypt =>
      SecurityError "Noise decrypt/authentication failed (e.g., bad MAC or ciphertext)."
  | SnowOther text =>
      SecurityError (format "Unhandled or new Noise protocol error: {}" [text])
  end.

(** ** The data-phase cipher *)

Record NoiseDataCipher `{Snow} := mkNoiseCipher { nc_transport : TransportState }.

Module NoiseDataCipher.
Section Cipher.
Context `{Snow}.

Definition NOISE_TAG_LEN : Z := 16.

Definition encrypt (c : NoiseDataCipher) (plaintext : bytes) : NoiseDataCipher * result bytes :=
  if 65535 - NOISE_TAG_LEN <? zlen plaintext
  then (c, Err (InvalidMessage "Payload too large for Noise frame."))
  else
    match transport_write (nc_transport c) plaintext (zlen plaintext + NOISE_TAG_LEN) with
    | (ts, inr output) => (mkNoiseCipher _ ts, Ok output)
    | (ts, inl e) => (mkNoiseCipher _ ts, Err (from_snow e))
    end.

Definition decrypt (c : NoiseDataCipher) (ciphertext : bytes) : NoiseDataCipher * result bytes :=
  if zlen ciphertext <? NOISE_TAG_LEN
  then (c, Err (ProtocolViolation "Noise message too short for tag."))
  else
    match transport_read (nc_transport c) ciphertext (zlen ciphertext - NOISE_TAG_LEN) with
    | (ts, inr decrypted) => (mkNoiseCipher _ ts, Ok decrypted)
    | (ts, inl e) => (mkNoiseCipher _ ts, Err (from_snow e))
    end.

End Cipher.
End NoiseDataCipher.

#[export] Instance noise_cipher `{Snow} : IDataCipher NoiseDataCipher := {
  encrypt := NoiseDataCipher.encrypt;
  decrypt := NoiseDataCipher.decrypt;
}.

(** ** The mechanism *)

Record NoiseXxMechanism `{Snow} := mkNoise {
  is_server_role : bool;
  nx_state : option HandshakeState;
  transport_state : option TransportState;
  configured_remote_static_pk_bytes : option bytes;
  verified_peer_static_pk : option bytes;
  current_status : MechanismStatus;
  error_reason_str : option string;
  pending_outgoing_handshake_msg : option bytes;
}.

#[export] Instance NoiseXxMechanism_eta `{Snow} : Eta NoiseXxMechanism := fun m =>
  mkNoise _ (is_server_role m) (nx_state m) (transport_state m) (configured_remote_static_pk_bytes m)
    (verified_peer_static_pk m) (current_status m) (error_reason_str m)
    (pending_outgoing_handshake_msg m).

Module NoiseXxMechanism.

Abbreviation NAME := ("NOISE_XX"%string).
Abbreviation NAME_BYTES := (bs "NOISE_XX" ++ replicate 12 Byte.x00).

Section Mechanism.
Context `{Snow}.


Definition new (is_server : bool) (local_static_sk_bytes : bytes)
  (initial_remote_static_pk_bytes : option bytes) : result NoiseXxMechanism :=
  built ← (if is_server then Ok (build_responder local_static_sk_bytes)
           else match initial_remote_static_pk_bytes with
                | Some pk_bytes => Ok (build_initiator local_static_sk_bytes pk_bytes)
                | None => Err (SecurityError
                    "NOISE_XX Client: Server's static public key is required for configuration.")
                end);
  match built with
  | inl e => Err (from_snow e)
  | inr hs => Ok (mkNoise _ is_server (Some hs) None initial_remote_static_pk_bytes None
                    Initializing None None)
  end.

Definition fail (m : NoiseXxMechanism) (reason : string) : NoiseXxMechanism :=
  m <| current_status := StError |> <| error_reason_str := Some reason |>.

(** The role-specific verification, which the code does twice with two texts
    for a missing configuration; [None] is success. *)
Definition verify_peer (m : NoiseXxMechanism) (peer_pk : bytes) (missing : string)
  : NoiseXxMechanism * option SnowError :=
  if is_server_role m then (m, None)
  else match configured_remote_static_pk_bytes m with
       | Some expected =>
           if negb (bool_decide (peer_pk = expected))
           then (fail m "NOISE_XX: Server public key mismatch. Connection rejected.", Some SnowDecrypt)
           else (m, None)
       | None => (fail m missing, Some (SnowPrereq PRemotePublicKey))
       end.

Definition transition_to_final_state (m : NoiseXxMechanism)
  : NoiseXxMechanism * option SnowError :=
  match nx_state m with
  | None => (m, Some (SnowState HandshakeAlreadyFinished))
  | Some hs =>
      if negb (is_handshake_finished hs) then (m, Some (SnowState HandshakeNotFinished))
      else match get_remote_static hs with
           | None =>
               (fail m "NOISE_XX handshake purportedly finished but no remote static key material was obtained.",
                Some (SnowState MissingKeyMaterial))
           | Some peer_pk =>
               let m := m <| verified_peer_static_pk := Some peer_pk |> in
               match verify_peer m peer_pk
                 "NOISE_XX Client: Configuration error - missing expected remote server public key for verification." with
               | (m, Some e) => (m, Some e)
               | (m, None) =>
                   match verify_peer m peer_pk
                     "NOISE_XX Client: Configuration error - missing expected remote server public key for verification post-handshake." with
                   | (m, Some e) => (m, Some e)
                   | (m, None) =>
                       let m := m <| nx_state := None |> in
                       match into_transport_mode hs with
                       | inr ts => (m <| transport_state := Some ts |>
                                      <| current_status := StReady |>, None)
                       | inl e =>
                           (fail m (format "NOISE_XX: Failed to transition to transport mode after handshake: {}"
                                      [snow_debug e]), Some e)
                       end
                   end
               end
           end
  end.

Definition into_data_cipher (m : NoiseXxMechanism) : result (NoiseDataCipher * option bytes) :=
  if negb (bool_decide (current_status m = StReady))
  then Err (InvalidState "Noise handshake not complete, cannot create data cipher.")
  else
    ts ← ok_or (transport_state m)
           (Internal "NoiseXxMechanism is Ready but TransportState is missing.");
    Ok (mkNoiseCipher _ ts, verified_peer_static_pk m).

(** The second half of [produce_token]: no message is pending. *)
Definition produce_new (m : NoiseXxMechanism) : NoiseXxMechanism * result (option bytes) :=
  match nx_state m with
  | None => (m, Err (InvalidState "Noise HandshakeState missing when trying to produce new token."))
  | Some hs =>
      if is_my_turn hs then
        match write_message hs [] 1024 with
        | (hs, inl e) => (m <| nx_state := Some hs |>, Err (from_snow e))
        | (hs, inr msg_buf) =>
            let m := m <| nx_state := Some hs |> in
            if is_handshake_finished hs && is_server_role m then
              match transition_to_final_state m with
              | (m, Some e) => (m, Err (from_snow e))
              | (m, None) => (m, Ok (Some msg_buf))
              end
            else (m, Ok (Some msg_buf))
        end
      else (m, Ok None)
  end.

Definition produce_token (m : NoiseXxMechanism) : NoiseXxMechanism * result (option bytes) :=
  match pending_outgoing_handshake_msg m with
  | Some msg_to_send =>
      let m := m <| pending_outgoing_handshake_msg := None |> in
      let finished := match nx_state m with Some hs => is_handshake_finished hs | None => false end in
      if negb (is_server_role m) && finished then
        match transition_to_final_state m with
        | (m, Some e) => (m, Err (from_snow e))
        | (m, None) => (m, Ok (Some msg_to_send))
        end
      else (m, Ok (Some msg_to_send))
  | None =>
      match current_status m with
      | StReady | StError => (m, Ok None)
      | Initializing =>
          let m := m <| current_status := Handshaking |> in
          if is_server_role m then (m, Ok None) else produce_new m
      | _ => produce_new m
      end
  end.

(** [process_token] once the status has been checked. *)
Definition process_new (m : NoiseXxMechanism) (token : bytes)
  : NoiseXxMechanism * result ProcessTokenAction :=
  match nx_state m with
  | None => (m, Err (InvalidState "Noise HandshakeState missing before process_token"))
  | Some hs =>
      match read_message hs token 1024 with
      | (hs, inl e) => (m <| nx_state := Some hs |>, Err (from_snow e))
      | (hs, inr _) =>
          let m := m <| nx_state := Some hs |> in
          if is_handshake_finished hs then
            match transition_to_final_state m with
            | (m, Some e) => (m, Err (from_snow e))
            | (m, None) => (m, Ok HandshakeComplete)
            end
          else if is_my_turn hs then
            match write_message hs [] 1024 with
            | (hs, inl e) => (m <| nx_state := Some hs |>, Err (from_snow e))
            | (hs, inr msg_buf) =>
                (m <| nx_state := Some hs |> <| pending_outgoing_handshake_msg := Some msg_buf |>,
                 Ok ProduceAndSend)
            end
          else (m <| pending_outgoing_handshake_msg := None |>, Ok ContinueWaiting)
      end
  end.

Definition process_token (m : NoiseXxMechanism) (token : bytes)
  : NoiseXxMechanism * result ProcessTokenAction :=
  match current_status m with
  | StError | StReady => (m, Err (InvalidState "NOISE_XX: Processing token in Error/Ready state"))
  | Initializing => process_new (m <| current_status := Handshaking |>) token
  | _ => process_new m token
  end.

Definition set_error (m : NoiseXxMechanism) (reason : string) : NoiseXxMechanism :=
  m <| current_status := StError |> <| error_reason_str := Some reason |>
    <| nx_state := None |> <| transport_state := None |> <| pending_outgoing_handshake_msg := None |>.

Definition into_framer {C : Type} (embed : NoiseDataCipher -> C) (m : NoiseXxMechanism)
  (max_msg_size : Z) : result (DynFramer C * option bytes) :=
  if negb (bool_decide (current_status m = StReady))
  then Err (InvalidState "Noise handshake not complete, cannot create framer.")
  else
    '(cipher, peer_id) ← into_data_cipher m;
    Ok (DynLengthPrefixed (LengthPrefixedFramer.new (embed cipher) max_msg_size), peer_id).

End Mechanism.
End NoiseXxMechanism.

(** [initialize_noise_xx]. *)
Definition initialize_noise_xx `{Snow} (is_server : bool) (local_config : ZmtpEngineConfig)
  : result NoiseXxMechanism :=
  sk ← ok_or (cfg_noise_xx_local_sk local_config)
         (SecurityError "NOISE_XX: Local static secret key not configured.");
  NoiseXxMechanism.new is_server sk (cfg_noise_xx_remote_pk local_config).

(** The mechanism of the trait; [embed] is the cast to [Box<dyn IDataCipher>]. *)
Definition noise_mechanism `{Snow} {C} (embed : NoiseDataCipher -> C) : Mechanism C NoiseXxMechanism := {|
  mech_name _ := NoiseXxMechanism.NAME;
  process_token := NoiseXxMechanism.process_token;
  produce_token := NoiseXxMechanism.produce_token;
  status := current_status;
  mech_peer_identity := verified_peer_static_pk;
  set_error := NoiseXxMechanism.set_error;
  error_reason := error_reason_str;
  into_framer := NoiseXxMechanism.into_framer embed;
|}.

(** ** What the crate promises *)

(** [xx_stage n i r]: an initiator and a responder of one handshake that have
    exchanged [n] messages; [pki] and [pkr] are their static public keys. *)
Class SnowXX `{Snow} := {
  public_of : bytes -> bytes;
  xx_stage : nat -> bytes -> bytes -> HandshakeState -> HandshakeState -> Prop;
  transport_sync : TransportState -> TransportState -> Prop;
  xx_start : forall ski skr pk i r,
    build_initiator ski pk = inr i -> build_responder skr = inr r ->
    xx_stage 0 (public_of ski) (public_of skr) i r;
  xx_message : forall n pki pkr i r, xx_stage n pki pkr i r -> (n < 3)%nat ->
    let '(w, q) := if Nat.even n then (i, r) else (r, i) in
    is_my_turn w = true /\ is_handshake_finished w = false /\
    exists w' q' msg p,
      write_message w [] 1024 = (w', inr msg) /\ read_message q msg 1024 = (q', inr p) /\
      is_handshake_finished w' = bool_decide (n = 2%nat) /\
      (if Nat.even n then xx_stage (S n) pki pkr w' q' else xx_stage (S n) pki pkr q' w');
  xx_waiting : forall n pki pkr i r, xx_stage n pki pkr i r -> (n < 3)%nat ->
    is_handshake_finished i = false /\ is_handshake_finished r = false;
  xx_done : forall pki pkr i r, xx_stage 3 pki pkr i r ->
    is_handshake_finished i = true /\ is_handshake_finished r = true /\
    get_remote_static i = Some pkr /\ get_remote_static r = Some pki /\
    exists ti tr, into_transport_mode i = inr ti /\ into_transport_mode r = inr tr /\
      transport_sync ti tr /\ transport_sync tr ti;
  transport_delivers : forall s r pt, transport_sync s r -> zlen pt <= 65535 - 16 ->
    exists s' r' ct, transport_write s pt (zlen pt + 16) = (s', inr ct) /\ zlen ct = zlen pt + 16 /\
      transport_read r ct (zlen pt) = (r', inr pt) /\ transport_sync s' r';
}.

(** ** Lemmas *)

Section NoiseLemmas.
Context `{HS : Snow}.
Implicit Types m : NoiseXxMechanism.

(** What can happen to a mechanism. *)
Inductive noise_step : NoiseXxMechanism -> NoiseXxMechanism -> Prop :=
| ns_process m token : noise_step m (NoiseXxMechanism.process_token m token).1
| ns_produce m : noise_step m (NoiseXxMechanism.produce_token m).1
| ns_error m reason : noise_step m (NoiseXxMechanism.set_error m reason).

(** A ready client has checked the key it was configured with, and a ready
    mechanism holds a transport state. *)
Definition noise_inv (server : bool) (pk : option bytes) m : Prop :=
  is_server_role m = server /\ configured_remote_static_pk_bytes m = pk /\
  (current_status m = StReady ->
     is_Some (transport_state m) /\ is_Some (verified_peer_static_pk m) /\
     (server = false -> verified_peer_static_pk m = pk)).

Lemma verify_peer_cases m peer text :
  (NoiseXxMechanism.verify_peer m peer text = (m, None) /\
     (is_server_role m = false -> configured_remote_static_pk_bytes m = Some peer)) \/
  (exists reason e, NoiseXxMechanism.verify_peer m peer text = (NoiseXxMechanism.fail m reason, Some e)).
Proof.
  unfold NoiseXxMechanism.verify_peer.
  destruct (is_server_role m) eqn:Er; [by left|].
  destruct (configured_remote_static_pk_bytes m) as [ex|]; [|right; eauto].
  case_bool_decide as E; cbn [negb]; [subst; by left|right; eauto].
Qed.

Lemma transition_inv server pk m :
  noise_inv server pk m -> noise_inv server pk (NoiseXxMechanism.transition_to_final_state m).1.
Proof.
  intros Hi. unfold NoiseXxMechanism.transition_to_final_state.
  destruct (nx_state m) as [hs|]; [|done]. destruct (is_handshake_finished hs); [|done]. cbn [negb].
  destruct Hi as (Hs & Hp & _). destruct (get_remote_static hs) as [peer|]; [|by split_and!].
  set (m1 := m <| verified_peer_static_pk := Some peer |>).
  match goal with |- context [NoiseXxMechanism.verify_peer m1 peer ?t] =>
    destruct (verify_peer_cases m1 peer t) as [[-> Hv]|(? & ? & ->)] end; [|by split_and!].
  match goal with |- context [NoiseXxMechanism.verify_peer m1 peer ?t] =>
    destruct (verify_peer_cases m1 peer t) as [[-> _]|(? & ? & ->)] end; [|by split_and!].
  destruct (into_transport_mode hs); [by split_and!|]. split_and!; [done..|].
  intros _. split_and!; [by eexists|by eexists|]. intros ->. symmetry. rewrite <- Hp. apply Hv, Hs.
Qed.

(** Everything but the fields of the invariant may change. *)
Lemma inv_update server pk m m' :
  noise_inv server pk m -> is_server_role m' = is_server_role m ->
  configured_remote_static_pk_bytes m' = configured_remote_static_pk_bytes m ->
  (current_status m' = StReady -> current_status m = StReady /\
     transport_state m' = transport_state m /\ verified_peer_static_pk m' = verified_peer_static_pk m) ->
  noise_inv server pk m'.
Proof.
  intros (Hs & Hp & Hr) E1 E2 E3. split_and!; [congruence..|].
  intros H. destruct (E3 H) as (H' & -> & ->). auto.
Qed.

Ltac inv_fields Hi := eapply inv_update; [exact Hi|reflexivity|reflexivity|by cbn].
Ltac step_transition Hi :=
  match goal with |- context [NoiseXxMechanism.transition_to_final_state ?m] =>
    let Ht := fresh in pose proof (transition_inv _ _ m Hi) as Ht;
    destruct (NoiseXxMechanism.transition_to_final_state m) as [? []]; exact Ht end.

Lemma produce_new_inv server pk m :
  noise_inv server pk m -> noise_inv server pk (NoiseXxMechanism.produce_new m).1.
Proof.
  intros Hi. unfold NoiseXxMechanism.produce_new.
  destruct (nx_state m) as [hs|]; [|done]. destruct (is_my_turn hs); [|done].
  destruct (write_message hs [] 1024) as [hs' [e|msg]]; [inv_fields Hi|].
  assert (Hi' : noise_inv server pk (m <| nx_state := Some hs' |>)) by inv_fields Hi.
  case_match; [step_transition Hi'|done].
Qed.

Lemma process_new_inv server pk m token :
  noise_inv server pk m -> noise_inv server pk (NoiseXxMechanism.process_new m token).1.
Proof.
  intros Hi. unfold NoiseXxMechanism.process_new. destruct (nx_state m) as [hs|]; [|done].
  destruct (read_message hs token 1024) as [hs' [e|p]]; [inv_fields Hi|].
  assert (Hi' : noise_inv server pk (m <| nx_state := Some hs' |>)) by inv_fields Hi.
  destruct (is_handshake_finished hs'); [step_transition Hi'|].
  destruct (is_my_turn hs'); [|inv_fields Hi'].
  destruct (write_message hs' [] 1024) as [hs'' [e|msg]]; inv_fields Hi'.
Qed.

Lemma noise_step_inv server pk m m' :
  noise_step m m' -> noise_inv server pk m -> noise_inv server pk m'.
Proof.
  intros Hst Hi. destruct Hst as [m token|m|m reason].
  - unfold NoiseXxMechanism.process_token.
    destruct (current_status m); [|by apply process_new_inv..|done|done].
    apply process_new_inv. inv_fields Hi.
  - unfold NoiseXxMechanism.produce_token.
    destruct (pending_outgoing_handshake_msg m) as [msg|].
    + assert (Hi' : noise_inv server pk (m <| pending_outgoing_handshake_msg := None |>)) by inv_fields Hi.
      case_match; [step_transition Hi'|done].
    + destruct (current_status m) eqn:Es; [|by apply produce_new_inv..|done|done].
      assert (Hi' : noise_inv server pk (m <| current_status := Handshaking |>)) by inv_fields Hi.
      case_match; [done|by apply produce_new_inv].
  - destruct Hi as (Hs & Hp & _). by split_and!.
Qed.

Lemma noise_inv_new server sk pk m : NoiseXxMechanism.new server sk pk = Ok m -> noise_inv server pk m.
Proof.
  unfold NoiseXxMechanism.new. intros E.
  destruct server; [|destruct pk as [pk|]; [|done]]; cbn [mbind result_bind] in E.
  - destruct (build_responder sk); [done|]. by apply Ok_inj in E as <-.
  - destruct (build_initiator sk pk); [done|]. by apply Ok_inj in E as <-.
Qed.

End NoiseLemmas.

Section NoiseRun.
Context `{HX : SnowXX}.

Definition noise_sync (s r : NoiseDataCipher) : Prop := transport_sync (nc_transport s) (nc_transport r).

Lemma noise_decrypts s r pt s' ct :
  noise_sync s r -> NoiseDataCipher.encrypt s pt = (s', Ok ct) ->
  exists r', NoiseDataCipher.decrypt r ct = (r', Ok pt) /\ noise_sync s' r'.
Proof.
  intros Hs E. unfold NoiseDataCipher.encrypt in E. unfold NoiseDataCipher.NOISE_TAG_LEN in *.
  destruct (Z.ltb_spec (65535 - 16) (zlen pt)); [done|].
  destruct (transport_delivers _ _ pt Hs ltac:(lia)) as (ts & tr & ct' & Ew & Hl & Er & Hs').
  rewrite Ew in E. inv E. unfold NoiseDataCipher.decrypt, NoiseDataCipher.NOISE_TAG_LEN.
  pose proof (zlen_nonneg pt). rewrite (proj2 (Z.ltb_ge _ _)) by lia.
  replace (zlen ct - 16) with (zlen pt) by lia. rewrite Er. by eexists.
Qed.

(** A mechanism in the middle of the handshake. *)
Definition noise_mid (server : bool) (pk : option bytes) (hs : HandshakeState)
  (pending : option bytes) (m : NoiseXxMechanism) : Prop :=
  is_server_role m = server /\ configured_remote_static_pk_bytes m = pk /\
  nx_state m = Some hs /\ pending_outgoing_handshake_msg m = pending /\
  (current_status m = Handshaking \/ current_status m = Initializing).

Lemma mid_process server pk hs m token hs' p hs'' msg :
  noise_mid server pk hs None m -> read_message hs token 1024 = (hs', inr p) ->
  is_handshake_finished hs' = false -> is_my_turn hs' = true ->
  write_message hs' [] 1024 = (hs'', inr msg) ->
  exists m', NoiseXxMechanism.process_token m token = (m', Ok ProduceAndSend) /\
    noise_mid server pk hs'' (Some msg) m'.
Proof.
  intros (Hs & Hp & Hst & Hpend & Hc) Er Hf Ht Ew.
  unfold NoiseXxMechanism.process_token.
  assert (Hgo : forall m0, noise_mid server pk hs None m0 ->
    exists m', NoiseXxMechanism.process_new m0 token = (m', Ok ProduceAndSend) /\
      noise_mid server pk hs'' (Some msg) m').
  { intros m0 (Hs0 & Hp0 & Hst0 & _ & Hc0). unfold NoiseXxMechanism.process_new.
    rewrite Hst0, Er, Hf, Ht, Ew. eexists. split; [done|]. by split_and!. }
  destruct Hc as [Hc|Hc]; rewrite Hc; apply Hgo; split_and!; try done; [by left|by left].
Qed.

Lemma mid_pending server pk hs msg m :
  noise_mid server pk hs (Some msg) m -> is_handshake_finished hs = false ->
  exists m', NoiseXxMechanism.produce_token m = (m', Ok (Some msg)) /\ noise_mid server pk hs None m'.
Proof.
  intros (Hs & Hp & Hst & Hpend & Hc) Hf. unfold NoiseXxMechanism.produce_token. rewrite Hpend.
  cbn zeta. change (nx_state (m <| pending_outgoing_handshake_msg := None |>)) with (nx_state m).
  rewrite Hst, Hf, andb_false_r. eexists. split; [done|]. by split_and!.
Qed.

(** The last transition of either side. *)
Lemma transition_ready server pk hs m peer ts :
  is_server_role m = server -> configured_remote_static_pk_bytes m = pk -> nx_state m = Some hs ->
  is_handshake_finished hs = true -> get_remote_static hs = Some peer ->
  into_transport_mode hs = inr ts -> (server = false -> pk = Some peer) ->
  exists m', NoiseXxMechanism.transition_to_final_state m = (m', None) /\
    NoiseXxMechanism.into_data_cipher m' = Ok (mkNoiseCipher _ ts, Some peer).
Proof.
  intros Hs Hp Hst Hf Hg Ht Hok. unfold NoiseXxMechanism.transition_to_final_state.
  rewrite Hst, Hf, Hg. cbn [negb]. set (m1 := m <| verified_peer_static_pk := Some peer |>).
  assert (Hv : forall t, NoiseXxMechanism.verify_peer m1 peer t = (m1, None)).
  { intros t. unfold NoiseXxMechanism.verify_peer.
    change (is_server_role m1) with (is_server_role m).
    change (configured_remote_static_pk_bytes m1) with (configured_remote_static_pk_bytes m).
    rewrite Hs, Hp. destruct server; [done|]. rewrite Hok by done. by rewrite bool_decide_true. }
  rewrite !Hv, Ht. by eexists.
Qed.

Lemma transition_rejects pk hs m peer :
  is_server_role m = false -> configured_remote_static_pk_bytes m = Some pk -> nx_state m = Some hs ->
  is_handshake_finished hs = true -> get_remote_static hs = Some peer -> peer <> pk ->
  exists m', NoiseXxMechanism.transition_to_final_state m = (m', Some SnowDecrypt) /\
    current_status m' = StError.
Proof.
  intros Hs Hp Hst Hf Hg Hne. unfold NoiseXxMechanism.transition_to_final_state.
  rewrite Hst, Hf, Hg. cbn [negb]. set (m1 := m <| verified_peer_static_pk := Some peer |>).
  assert (Hv : forall t, exists m', NoiseXxMechanism.verify_peer m1 peer t = (m', Some SnowDecrypt) /\
    current_status m' = StError).
  { intros t. unfold NoiseXxMechanism.verify_peer.
    change (is_server_role m1) with (is_server_role m).
    change (configured_remote_static_pk_bytes m1) with (configured_remote_static_pk_bytes m).
    rewrite Hs, Hp, bool_decide_false by done. by eexists. }
  match goal with |- context [NoiseXxMechanism.verify_peer m1 peer ?t] =>
    destruct (Hv t) as (m' & -> & Hm') end. by exists m'.
Qed.

Lemma client_final pk hs msg m peer ts :
  noise_mid false (Some pk) hs (Some msg) m -> is_handshake_finished hs = true ->
  get_remote_static hs = Some peer -> into_transport_mode hs = inr ts ->
  (pk = peer -> exists m', NoiseXxMechanism.produce_token m = (m', Ok (Some msg)) /\
     NoiseXxMechanism.into_data_cipher m' = Ok (mkNoiseCipher _ ts, Some peer)) /\
  (pk <> peer -> exists m', NoiseXxMechanism.produce_token m = (m', Err (from_snow SnowDecrypt)) /\
     current_status m' = StError).
Proof.
  intros (Hs & Hp & Hst & Hpend & _) Hf Hg Ht. unfold NoiseXxMechanism.produce_token. rewrite Hpend.
  set (m1 := m <| pending_outgoing_handshake_msg := None |>). cbn zeta.
  change (nx_state m1) with (nx_state m). change (is_server_role m1) with (is_server_role m).
  rewrite Hst, Hf, Hs. cbn [negb andb]. split.
  - intros ->. destruct (transition_ready false (Some peer) hs m1 peer ts) as (m' & -> & E); [done..|].
    by exists m'.
  - intros Hne. destruct (transition_rejects pk hs m1 peer) as (m' & -> & E); [done..|].
    by exists m'.
Qed.

Lemma server_final hs m token hs' p peer ts :
  noise_mid true None hs None m -> read_message hs token 1024 = (hs', inr p) ->
  is_handshake_finished hs' = true -> get_remote_static hs' = Some peer ->
  into_transport_mode hs' = inr ts ->
  exists m', NoiseXxMechanism.process_token m token = (m', Ok HandshakeComplete) /\
    NoiseXxMechanism.into_data_cipher m' = Ok (mkNoiseCipher _ ts, Some peer).
Proof.
  intros (Hs & Hp & Hst & _ & Hc) Er Hf Hg Ht. unfold NoiseXxMechanism.process_token.
  assert (Hgo : forall m0, is_server_role m0 = true -> nx_state m0 = Some hs ->
    exists m', NoiseXxMechanism.process_new m0 token = (m', Ok HandshakeComplete) /\
      NoiseXxMechanism.into_data_cipher m' = Ok (mkNoiseCipher _ ts, Some peer)).
  { intros m0 Hs0 Hst0. unfold NoiseXxMechanism.process_new. rewrite Hst0, Er, Hf.
    destruct (transition_ready true (configured_remote_static_pk_bytes m0) hs'
      (m0 <| nx_state := Some hs' |>) peer ts)
      as (m' & -> & E); [done..|]. by exists m'. }
  destruct Hc as [Hc|Hc]; rewrite Hc; by apply Hgo.
Qed.

End NoiseRun.

#[export] Instance noise_pair `{SnowXX} : CipherPair NoiseDataCipher :=
  {| cp_sync := noise_sync; cp_decrypt := noise_decrypts |}.

(** A crate that satisfies [SnowXX]: each message is the sender's public key,
    and the transport appends sixteen zero octets. *)
Record toy_state := mkToy { ty_initiator : bool; ty_n : nat; ty_pk : bytes; ty_remote : option bytes }.

Definition toy_snow : Snow := {|
  HandshakeState := toy_state;
  TransportState := unit;
  build_initiator sk _ := inr (mkToy true 0 sk None);
  build_responder sk := inr (mkToy false 0 sk None);
  is_handshake_finished s := bool_decide (ty_n s = 3%nat);
  is_my_turn s := eqb (ty_initiator s) (Nat.even (ty_n s));
  get_remote_static := ty_remote;
  write_message s _ _ := (mkToy (ty_initiator s) (S (ty_n s)) (ty_pk s) (ty_remote s), inr (ty_pk s));
  read_message s msg _ := (mkToy (ty_initiator s) (S (ty_n s)) (ty_pk s) (Some msg), inr []);
  into_transport_mode _ := inr tt;
  transport_write s pt _ := (s, inr (pt ++ replicate 16 Byte.x00));
  transport_read s ct n := (s, inr (take (Z.to_nat n) ct));
  snow_debug _ := EmptyString;
|}.

Definition toy_stage (n : nat) (pki pkr : bytes) (i r : toy_state) : Prop :=
  exists ri rr, i = mkToy true n pki ri /\ r = mkToy false n pkr rr /\
    ((1 <= n)%nat -> rr = Some pki) /\ ((2 <= n)%nat -> ri = Some pkr).

Definition toy_xx : @SnowXX toy_snow.
Proof.
  refine (@Build_SnowXX toy_snow (fun sk => sk) toy_stage (fun _ _ => True) _ _ _ _ _).
  - intros ski skr pk i r E1 E2. cbn in E1, E2. simplify_eq. exists None, None.
    split_and!; try done; lia.
  - intros n pki pkr i r (ri & rr & -> & -> & H1 & H2) Hn.
    destruct n as [|[|[|n]]]; [..|lia]; cbn; split_and!; try done;
      eexists _, _, _, _; (split; [done|split; [done|split; [done|]]]);
      eexists _, _; (split; [done|split; [done|split]]); intros; auto; lia.
  - intros n pki pkr i r (ri & rr & -> & -> & _) Hn. cbn. split; apply bool_decide_false; lia.
  - intros pki pkr i r (ri & rr & -> & -> & H1 & H2). cbn. split_and!; [done|done|apply H2; lia|apply H1; lia|].
    by exists tt, tt.
  - intros s r pt _ Hl. cbn. eexists _, _, _. split_and!; [done| | |done].
    + by rewrite zlen_app.
    + do 2 f_equal. unfold zlen. rewrite Nat2Z.id. by rewrite take_app_length.
Defined.

(** ** Properties *)

(** A NOISE_XX client never becomes ready with the wrong server.  Whatever
    tokens it processes and in whatever order its operations are called, once it
    is ready the peer's static key is the configured one and that is the identity
    handed over with the framer. *)
Theorem noise_client_authenticates (HS : Snow) (sk pk : bytes) (m0 m : NoiseXxMechanism) (max : Z)
  (Hnew : NoiseXxMechanism.new false sk (Some pk) = Ok m0)
  (Hsteps : rtc noise_step m0 m) (Hready : current_status m = StReady) :
  exists c, NoiseXxMechanism.into_framer id m max =
    Ok (DynLengthPrefixed (LengthPrefixedFramer.new c max), Some pk).
Proof.
  assert (Hi : noise_inv false (Some pk) m).
  { refine (rtc_invariant noise_step _ m0 m Hsteps _ _).
    - by eapply noise_inv_new.
    - intros x y Hx Hy. by eapply noise_step_inv. }
  destruct Hi as (_ & _ & Hr). destruct (Hr Hready) as ([ts Hts] & _ & Hv).
  unfold NoiseXxMechanism.into_framer, NoiseXxMechanism.into_data_cipher.
  rewrite Hready, bool_decide_true by done. cbn [negb]. rewrite Hts, Hv by done. by eexists.
Qed.

Lemma noise_client_authenticates_witness :
  let HS := toy_snow in
  exists m c, current_status m = StReady /\ NoiseXxMechanism.into_framer id m (-1) =
    Ok (DynLengthPrefixed (LengthPrefixedFramer.new c (-1)), Some (bs "server")).
Proof.
  intros HS. pose (m0 := default (mkNoise toy_snow false None None None None StError None None)
    (ok (NoiseXxMechanism.new false (bs "client") (Some (bs "server"))))).
  pose (m1 := (NoiseXxMechanism.produce_token m0).1).
  pose (m2 := (NoiseXxMechanism.process_token m1 (bs "server")).1).
  exists (NoiseXxMechanism.produce_token m2).1.
  destruct (noise_client_authenticates toy_snow (bs "client") (bs "server") m0
    (NoiseXxMechanism.produce_token m2).1 (-1)) as [c Hc].
  - done.
  - apply (rtc_l _ _ m1); [constructor|]. apply (rtc_l _ _ m2); [constructor|].
    apply rtc_once. constructor.
  - by vm_compute.
  - exists c. split; [by vm_compute|exact Hc].
Defined.

(** C37: the NOISE_XX handshake of two rzmq peers takes three messages.  If the
    client's configured key is the server's, both sides end with data ciphers
    that decrypt each other's frames and each knows the other's static key.  If
    it is not, the client fails instead of producing the third message and is in
    error. *)
Theorem noise_handshake (HS : Snow) (HX : SnowXX) (ski skr pk : bytes) (i r : HandshakeState)
  (Hi : build_initiator ski pk = inr i) (Hr : build_responder skr = inr r) :
  exists c0 s0 c1 msg1 s1 s2 msg2 c2,
    NoiseXxMechanism.new false ski (Some pk) = Ok c0 /\ NoiseXxMechanism.new true skr None = Ok s0 /\
    NoiseXxMechanism.produce_token c0 = (c1, Ok (Some msg1)) /\
    NoiseXxMechanism.process_token s0 msg1 = (s1, Ok ProduceAndSend) /\
    NoiseXxMechanism.produce_token s1 = (s2, Ok (Some msg2)) /\
    NoiseXxMechanism.process_token c1 msg2 = (c2, Ok ProduceAndSend) /\
    (pk = public_of skr -> exists c3 msg3 s3 kc ks,
       NoiseXxMechanism.produce_token c2 = (c3, Ok (Some msg3)) /\
       NoiseXxMechanism.process_token s2 msg3 = (s3, Ok HandshakeComplete) /\
       NoiseXxMechanism.into_data_cipher c3 = Ok (kc, Some (public_of skr)) /\
       NoiseXxMechanism.into_data_cipher s3 = Ok (ks, Some (public_of ski)) /\
       cp_sync kc ks /\ cp_sync ks kc) /\
    (pk <> public_of skr -> exists c3,
       NoiseXxMechanism.produce_token c2 = (c3, Err (from_snow SnowDecrypt)) /\
       current_status c3 = StError).
Proof.
  pose proof (xx_start _ _ _ _ _ Hi Hr) as H0.
  destruct (xx_message 0 _ _ _ _ H0 ltac:(lia)) as (Ht0 & Hf0 & i1 & r1 & msg1 & p1 & Ew1 & Er1 & _ & H1).
  cbn [Nat.even] in H1.
  destruct (xx_message 1 _ _ _ _ H1 ltac:(lia)) as (Ht1 & Hf1 & r2 & i2 & msg2 & p2 & Ew2 & Er2 & Hf2 & H2).
  cbn [Nat.even] in H2.
  destruct (xx_message 2 _ _ _ _ H2 ltac:(lia)) as (Ht2 & Hf2' & i3 & r3 & msg3 & p3 & Ew3 & Er3 & _ & H3).
  cbn [Nat.even] in H3.
  destruct (xx_done _ _ _ _ H3) as (Hfi & Hfr & Hgi & Hgr & ti & tr & Eti & Etr & Hs1 & Hs2).
  assert (Enc : NoiseXxMechanism.new false ski (Some pk) =
    Ok (mkNoise _ false (Some i) None (Some pk) None Initializing None None)).
  { unfold NoiseXxMechanism.new. cbn [mbind result_bind]. by rewrite Hi. }
  assert (Ens : NoiseXxMechanism.new true skr None =
    Ok (mkNoise _ true (Some r) None None None Initializing None None)).
  { unfold NoiseXxMechanism.new. cbn [mbind result_bind]. by rewrite Hr. }
  set (c0 := mkNoise _ false _ _ _ _ _ _ _) in Enc. set (s0 := mkNoise _ true _ _ _ _ _ _ _) in Ens.
  assert (exists c1, NoiseXxMechanism.produce_token c0 = (c1, Ok (Some msg1)) /\
    noise_mid false (Some pk) i1 None c1) as (c1 & Ec1 & Hc1).
  { unfold NoiseXxMechanism.produce_token, NoiseXxMechanism.produce_new. cbn. rewrite Ht0, Ew1. cbn.
    rewrite andb_false_r. eexists. split; [done|]. split_and!; [done..|by left]. }
  destruct (mid_process true None r s0 msg1 r1 p1 r2 msg2) as (s1 & Es1 & Hm1); [|done|..].
  { split_and!; [done..|by right]. }
  { apply (xx_waiting 1 _ _ _ _ H1). lia. } { done. } { done. }
  destruct (mid_pending _ _ _ _ _ Hm1 Hf2) as (s2 & Es2 & Hm2).
  destruct (mid_process false (Some pk) i1 c1 msg2 i2 p2 i3 msg3 Hc1) as (c2 & Ec2 & Hc2); [done..|].
  exists c0, s0, c1, msg1, s1, s2, msg2, c2. split_and!; [done..| |].
  - intros ->. destruct (client_final _ _ _ _ _ _ Hc2 Hfi Hgi Eti) as [Hok _].
    destruct (Hok eq_refl) as (c3 & Ec3 & Kc).
    destruct (server_final _ _ _ _ _ _ _ Hm2 Er3 Hfr Hgr Etr) as (s3 & Es3 & Ks).
    eexists c3, msg3, s3, _, _. by split_and!.
  - apply (client_final _ _ _ _ _ _ Hc2 Hfi Hgi Eti).
Qed.

Lemma noise_handshake_witness :
  let HS := toy_snow in
  exists c0 c1 msg1 c2,
    NoiseXxMechanism.new false (bs "client") (Some (bs "other")) = Ok c0 /\
    NoiseXxMechanism.produce_token c0 = (c1, Ok (Some msg1)) /\
    NoiseXxMechanism.process_token c1 (bs "server") = (c2, Ok ProduceAndSend) /\
    exists c3, NoiseXxMechanism.produce_token c2 = (c3, Err (from_snow SnowDecrypt)) /\
      current_status c3 = StError.
Proof.
  intros HS.
  destruct (noise_handshake toy_snow toy_xx (bs "client") (bs "server") (bs "other")
    (mkToy true 0 (bs "client") None) (mkToy false 0 (bs "server") None))
    as (c0 & s0 & c1 & msg1 & s1 & s2 & msg2 & c2 & E0 & F0 & E1 & F1 & F2 & E2 & _ & Hbad); [done..|].
  exists c0, c1, msg1, c2. split_and!; [done|done| |by apply Hbad].
  assert (msg2 = bs "server") as <-; [|done].
  vm_compute in F0. inv F0. vm_compute in F1. inv F1. vm_compute in F2. by inv F2.
Defined.

(** NOISE_XX frames always fit the 16-bit length prefix of the secure
    framing: as long as the crate writes no more than the buffer it is given, what
    the framer puts on the wire announces exactly the ciphertext that follows. *)
Theorem noise_frames_fit (HS : Snow) (f : LengthPrefixedFramer NoiseDataCipher) (ms : list Msg)
  (frame : bytes)
  (Hbuf : forall ts pt n ts' ct, transport_write ts pt n = (ts', inr ct) -> zlen ct <= n)
  (Hwrite : (LengthPrefixedFramer.write_msg_multipart f ms).2 = Ok frame) :
  exists ct, get_uint 2 frame = Ok (zlen ct, ct) /\ zlen ct <= 65535.
Proof.
  unfold LengthPrefixedFramer.write_msg_multipart in Hwrite. rewrite encode_msgs_wire in Hwrite.
  cbn [app encrypt noise_cipher] in Hwrite. unfold NoiseDataCipher.encrypt in Hwrite.
  destruct (Z.ltb_spec (65535 - NoiseDataCipher.NOISE_TAG_LEN) (zlen (concat (wire <$> ms)))); [done|].
  unfold NoiseDataCipher.NOISE_TAG_LEN in *.
  destruct (transport_write _ _ _) as [ts [e|ct]] eqn:E; [done|]. apply Hbuf in E.
  cbn [snd mbind result_bind] in Hwrite. apply Ok_inj in Hwrite as <-. pose proof (zlen_nonneg ct).
  exists ct. split; [|lia]. unfold wrapU. rewrite Z.mod_small by lia.
  apply get_uint_app. change (256 ^ Z.of_nat 2) with (2 ^ 16). lia.
Qed.

Lemma noise_frames_fit_witness :
  let HS := toy_snow in
  exists ct, get_uint 2 (be_bytes 2 19 ++ [Byte.x00; Byte.x01; Byte.x61] ++ replicate 16 Byte.x00)
    = Ok (zlen ct, ct) /\ zlen ct <= 65535.
Proof.
  intros HS. pose (capped := {|
    HandshakeState := toy_state; TransportState := unit;
    build_initiator sk pk := @build_initiator toy_snow sk pk;
    build_responder sk := @build_responder toy_snow sk;
    is_handshake_finished := @is_handshake_finished toy_snow;
    is_my_turn := @is_my_turn toy_snow; get_remote_static := @get_remote_static toy_snow;
    write_message := @write_message toy_snow; read_message := @read_message toy_snow;
    into_transport_mode := @into_transport_mode toy_snow;
    transport_write s pt n :=
      (s, if zlen pt + 16 <=? n then inr (pt ++ replicate 16 Byte.x00) else inl SnowInput);
    transport_read := @transport_read toy_snow; snow_debug := @snow_debug toy_snow |}).
  refine (noise_frames_fit capped (LengthPrefixedFramer.new (mkNoiseCipher capped tt) (-1))
    [mkMsg (Some [Byte.x61]) 0] _ _ _).
  - intros ts pt n ts' ct. cbn. destruct (Z.leb_spec (zlen pt + 16) n); [|done].
    intros [= <- <-]. rewrite zlen_app. unfold zlen at 2. cbn [length]. lia.
  - by vm_compute.
Defined.
