(* ===== verification/Security.v ===== *)
(** Choosing a security mechanism: [core/src/security/mod.rs], and what an engine
    proposes in its own greeting ([determine_own_greeting_mechanism] of
    [core/src/sessionx/protocol_handler/handshake.rs]).

    [Box<dyn Mechanism>] and [Box<dyn IDataCipher>] are the sums of their
    implementations.  The secret key of the ephemeral pair that CURVE draws at
    random is the section variable [ephemeral]. *)

From S2P Require Import Prelude Error Utf8 Message Codec Framer Greeting Mechanism Plain Options Curve Noise.

Section Negotiation.
Context `{HD : Dryoc} `{HS : Snow}.

Inductive DynCipher :=
| CPassThrough (c : PassThroughDataCipher)
| CCurve (c : CurveDataCipher)
| CNoise (c : NoiseDataCipher).

#[export] Instance dyn_cipher : IDataCipher DynCipher := {
  encrypt c p :=
    match c with
    | CPassThrough c => let '(c, r) := encrypt c p in (CPassThrough c, r)
    | CCurve c => let '(c, r) := encrypt c p in (CCurve c, r)
    | CNoise c => let '(c, r) := encrypt c p in (CNoise c, r)
    end;
  decrypt c p :=
    match c with
    | CPassThrough c => let '(c, r) := decrypt c p in (CPassThrough c, r)
    | CCurve c => let '(c, r) := decrypt c p in (CCurve c, r)
    | CNoise c => let '(c, r) := decrypt c p in (CNoise c, r)
    end;
}.

Inductive DynMechanism :=
| MNull (m : NullMechanism)
| MPlain (m : PlainMechanism)
| MCurve (m : CurveMechanism)
| MNoise (m : NoiseXxMechanism).

#[export] Instance dyn_mechanism : Mechanism DynCipher DynMechanism :=
  let curve := curve_mechanism CCurve in
  let noise := noise_mechanism CNoise in
  {|
  mech_name m :=
    match m with
    | MNull m => mech_name DynCipher m
    | MPlain m => mech_name DynCipher m
    | MCurve m => mech_name DynCipher m
    | MNoise m => mech_name DynCipher m
    end;
  process_token m t :=
    match m with
    | MNull m => let '(m, r) := process_token DynCipher m t in (MNull m, r)
    | MPlain m => let '(m, r) := process_token DynCipher m t in (MPlain m, r)
    | MCurve m => let '(m, r) := process_token DynCipher m t in (MCurve m, r)
    | MNoise m => let '(m, r) := process_token DynCipher m t in (MNoise m, r)
    end;
  produce_token m :=
    match m with
    | MNull m => let '(m, r) := produce_token DynCipher m in (MNull m, r)
    | MPlain m => let '(m, r) := produce_token DynCipher m in (MPlain m, r)
    | MCurve m => let '(m, r) := produce_token DynCipher m in (MCurve m, r)
    | MNoise m => let '(m, r) := produce_token DynCipher m in (MNoise m, r)
    end;
  status m :=
    match m with
    | MNull m => status DynCipher m
    | MPlain m => status DynCipher m
    | MCurve m => status DynCipher m
    | MNoise m => status DynCipher m
    end;
  mech_peer_identity m :=
    match m with
    | MNull m => mech_peer_identity DynCipher m
    | MPlain m => mech_peer_identity DynCipher m
    | MCurve m => mech_peer_identity DynCipher m
    | MNoise m => mech_peer_identity DynCipher m
    end;
  set_error m reason :=
    match m with
    | MNull m => MNull (set_error DynCipher m reason)
    | MPlain m => MPlain (set_error DynCipher m reason)
    | MCurve m => MCurve (set_error DynCipher m reason)
    | MNoise m => MNoise (set_error DynCipher m reason)
    end;
  error_reason m :=
    match m with
    | MNull m => error_reason DynCipher m
    | MPlain m => error_reason DynCipher m
    | MCurve m => error_reason DynCipher m
    | MNoise m => error_reason DynCipher m
    end;
  into_framer m max :=
    match m with
    | MNull m => into_framer DynCipher m max
    | MPlain m => into_framer DynCipher m max
    | MCurve m => into_framer DynCipher m max
    | MNoise m => into_framer DynCipher m max
    end;
  |}.

Variable ephemeral : bytes.

Definition initialize_null (is_server : bool) (local_config : ZmtpEngineConfig)
  : result DynMechanism := Ok (MNull mkNullMechanism).

Definition initialize_plain (is_server : bool) (local_config : ZmtpEngineConfig)
  : result DynMechanism :=
  let user_bytes := cfg_plain_username_for_engine local_config in
  let pass_bytes := cfg_plain_password_for_engine local_config in
  let plain_mech := PlainMechanism.new is_server in
  let plain_mech :=
    if is_server
    then PlainMechanism.set_server_expected_credentials user_bytes pass_bytes plain_mech
    else PlainMechanism.set_client_credentials user_bytes pass_bytes plain_mech in
  Ok (MPlain plain_mech).

Record KnownMechanismDescriptor := mkDescriptor {
  name_static_bytes : bytes;
  name_str : string;
  initializer : bool -> ZmtpEngineConfig -> result DynMechanism;
  is_locally_enabled : ZmtpEngineConfig -> bool;
}.

Definition KNOWN_MECHANISMS : list KnownMechanismDescriptor := [
  mkDescriptor NullMechanism.NAME_BYTES NullMechanism.NAME initialize_null
    (fun cfg => negb (cfg_security_enabled cfg));
  mkDescriptor PlainMechanism.NAME_BYTES PlainMechanism.NAME initialize_plain cfg_use_plain;
  mkDescriptor CurveMechanism.NAME_BYTES CurveMechanism.NAME
    (fun s cfg => MCurve <$> initialize_curve s cfg ephemeral) cfg_use_curve;
  mkDescriptor NoiseXxMechanism.NAME_BYTES NoiseXxMechanism.NAME
    (fun s cfg => MNoise <$> initialize_noise_xx s cfg) cfg_use_noise_xx
].

(** The [for] loop over the known mechanisms; [None] when it completes. *)
Fixpoint negotiate_loop (known : list KnownMechanismDescriptor) (is_server : bool)
  (local_config : ZmtpEngineConfig) (proposed : bytes) : option (result DynMechanism) :=
  match known with
  | [] => None
  | descriptor :: known =>
      if bool_decide (name_static_bytes descriptor = proposed) then
        Some (if is_locally_enabled descriptor local_config
              then initializer descriptor is_server local_config
              else Err (SecurityError (format
                "Peer proposed mechanism '{}', but it is not enabled in the local configuration."
                [name_str descriptor])))
      else negotiate_loop known is_server local_config proposed
  end.

Definition negotiate_security_mechanism (is_server : bool) (local_config : ZmtpEngineConfig)
  (peer_greeting : ZmtpGreeting) : result DynMechanism :=
  let proposed := g_mechanism peer_greeting in
  match negotiate_loop KNOWN_MECHANISMS is_server local_config proposed with
  | Some r => r
  | None =>
      let peer_name_str :=
        text (trim_end_nul (if utf8_valid proposed then proposed else bs "<invalid_utf8>")) in
      Err (SecurityError (format
        "Unsupported or unknown security mechanism '{}' proposed by peer." [peer_name_str]))
  end.

(** What the engine puts into its own greeting. *)
Definition determine_own_greeting_mechanism (is_server : bool) (config : ZmtpEngineConfig) : bytes :=
  let can_propose_noise :=
    if is_server then bool_decide (is_Some (cfg_noise_xx_local_sk config))
    else bool_decide (is_Some (cfg_noise_xx_local_sk config))
         && bool_decide (is_Some (cfg_noise_xx_remote_pk config)) in
  if cfg_use_noise_xx config && can_propose_noise then NoiseXxMechanism.NAME_BYTES
  else if cfg_use_curve config then CurveMechanism.NAME_BYTES
  else if cfg_use_plain config then PlainMechanism.NAME_BYTES
  else NullMechanism.NAME_BYTES.

(** ** Lemmas *)

(** A mechanism and the field that names it in a greeting. *)
Definition mech_bytes (m : DynMechanism) : bytes :=
  match m with
  | MNull _ => NullMechanism.NAME_BYTES
  | MPlain _ => PlainMechanism.NAME_BYTES
  | MCurve _ => CurveMechanism.NAME_BYTES
  | MNoise _ => NoiseXxMechanism.NAME_BYTES
  end.

(** The configuration allows the mechanism. *)
Definition mech_allowed (cfg : ZmtpEngineConfig) (m : DynMechanism) : Prop :=
  match m with
  | MNull _ => cfg_security_enabled cfg = false
  | MPlain _ => cfg_use_plain cfg = true
  | MCurve _ => cfg_use_curve cfg = true
  | MNoise _ => cfg_use_noise_xx cfg = true
  end.

Lemma negotiate_loop_inv known is_server cfg p m :
  negotiate_loop known is_server cfg p = Some (Ok m) ->
  exists d, d ∈ known /\ name_static_bytes d = p /\ is_locally_enabled d cfg = true /\
    initializer d is_server cfg = Ok m.
Proof.
  induction known as [|d known IH]; [done|]. cbn [negotiate_loop]. case_bool_decide as E.
  - destruct (is_locally_enabled d cfg) eqn:El; [|done]. intros [= Hi].
    exists d. split_and!; [left|done..].
  - intros H. destruct (IH H) as (d' & Hd & ?). exists d'. split; [by right|done].
Qed.

(** A successful negotiation, by the mechanism chosen. *)
Lemma negotiate_inv is_server cfg g m :
  negotiate_security_mechanism is_server cfg g = Ok m ->
  g_mechanism g = mech_bytes m /\ mech_allowed cfg m /\
  match m with
  | MNoise n => initialize_noise_xx is_server cfg = Ok n
  | MPlain _ => initialize_plain is_server cfg = Ok m
  | _ => True
  end.
Proof.
  unfold negotiate_security_mechanism.
  destruct (negotiate_loop _ _ _ _) as [r|] eqn:E; [intros ->|done].
  apply negotiate_loop_inv in E as (d & Hd & <- & El & Hi). unfold KNOWN_MECHANISMS in Hd.
  repeat (apply elem_of_cons in Hd as [->|Hd]); [..|by apply elem_of_nil in Hd];
    cbn [is_locally_enabled initializer name_static_bytes] in *.
  - apply Ok_inj in Hi as <-. by apply negb_true_iff in El.
  - by apply Ok_inj in Hi as <-.
  - destruct (initialize_curve is_server cfg ephemeral) as [c| |]; [|done..]. by apply Ok_inj in Hi as <-.
  - destruct (initialize_noise_xx is_server cfg) as [n| |] eqn:En; [|done..]. by apply Ok_inj in Hi as <-.
Qed.

(** A mechanism that can be initialised for NOISE_XX could also be proposed. *)
Lemma noise_ok_proposed is_server cfg m :
  initialize_noise_xx is_server cfg = Ok m -> cfg_use_noise_xx cfg = true ->
  determine_own_greeting_mechanism is_server cfg = NoiseXxMechanism.NAME_BYTES.
Proof.
  unfold initialize_noise_xx, determine_own_greeting_mechanism. intros E ->.
  destruct (cfg_noise_xx_local_sk cfg) as [sk|]; [|done]. cbn [ok_or mbind result_bind] in E.
  destruct is_server; [by rewrite bool_decide_true by by eexists|].
  destruct (cfg_noise_xx_remote_pk cfg) as [pk|]; [|done].
  by rewrite !bool_decide_true by by eexists.
Qed.

End Negotiation.

Section Agreement.
Context `{HD : Dryoc} `{HS : Snow}.

(** The engine's proposal, by what is enabled. *)
Lemma propose_curve_or_noise s (cfg : ZmtpEngineConfig) :
  cfg_use_curve cfg = true ->
  determine_own_greeting_mechanism s cfg = NoiseXxMechanism.NAME_BYTES \/
  determine_own_greeting_mechanism s cfg = CurveMechanism.NAME_BYTES.
Proof. unfold determine_own_greeting_mechanism. intros ->. destruct (_ && _); auto. Qed.

Lemma propose_null s o :
  cfg_security_enabled (engine_config o) = false ->
  determine_own_greeting_mechanism s (engine_config o) = NullMechanism.NAME_BYTES.
Proof.
  cbn. intros [[H1 H2]%orb_false_elim H3]%orb_false_elim.
  unfold determine_own_greeting_mechanism. cbn. by rewrite H1, H2, H3.
Qed.

Lemma propose_not_null s (cfg : ZmtpEngineConfig) :
  cfg_use_plain cfg = true -> determine_own_greeting_mechanism s cfg <> NullMechanism.NAME_BYTES.
Proof. unfold determine_own_greeting_mechanism. intros ->. by repeat case_match. Qed.

End Agreement.

(** ** Properties *)

(** A socket with any security mechanism enabled never talks NULL, and a
    peer cannot choose a mechanism that is not enabled.  Whatever mechanism field
    the peer's greeting carries, a successful negotiation yields the mechanism of
    that name, the local configuration has it enabled, and it is NULL only when no
    mechanism is enabled at all. *)
Theorem negotiation_sound (HD : Dryoc) (HS : Snow) (e : bytes) (is_server : bool) (o : SocketOptions)
  (g : ZmtpGreeting) (m : DynMechanism)
  (Hneg : negotiate_security_mechanism e is_server (engine_config o) g = Ok m) :
  g_mechanism g = mech_bytes m /\
  match m with
  | MNull _ => plain_enabled (plain_options o) = false /\ noise_enabled (noise_xx_options o) = false /\
               curve_enabled (curve_options o) = false
  | MPlain _ => plain_enabled (plain_options o) = true
  | MCurve _ => curve_enabled (curve_options o) = true
  | MNoise _ => noise_enabled (noise_xx_options o) = true
  end.
Proof.
  apply negotiate_inv in Hneg as (Hb & Ha & _). split; [done|]. destruct m; try done.
  by apply orb_false_elim in Ha as [[]%orb_false_elim].
Qed.

Definition plain_socket : SocketOptions :=
  default_options <| plain_options := mkPlainOptions true (Some false) (Some (bs "u")) (Some (bs "p")) |>.

Lemma negotiation_sound_witness :
  let HD := toy_dryoc in let HS := toy_snow in
  exists m, negotiate_security_mechanism [] false (engine_config plain_socket)
    (mkGreeting (Byte.x03, Byte.x00) PlainMechanism.NAME_BYTES true) = Ok m /\
    PlainMechanism.NAME_BYTES = mech_bytes m.
Proof.
  intros HD HS. eexists. split; [reflexivity|].
  exact (proj1 (negotiation_sound toy_dryoc toy_snow [] false plain_socket
    (mkGreeting (Byte.x03, Byte.x00) PlainMechanism.NAME_BYTES true) _ eq_refl)).
Defined.

(** Two rzmq peers never end up running different mechanisms.  Each side
    negotiates from the other's proposal; if both negotiations succeed, whatever
    the two configurations, the mechanisms are the same. *)
Theorem negotiation_agreement (HD : Dryoc) (HS : Snow) (e1 e2 : bytes) (s1 s2 : bool)
  (o1 o2 : SocketOptions) (g1 g2 : ZmtpGreeting) (m1 m2 : DynMechanism)
  (Hg1 : g_mechanism g1 = determine_own_greeting_mechanism s1 (engine_config o1))
  (Hg2 : g_mechanism g2 = determine_own_greeting_mechanism s2 (engine_config o2))
  (Hn1 : negotiate_security_mechanism e1 s1 (engine_config o1) g2 = Ok m1)
  (Hn2 : negotiate_security_mechanism e2 s2 (engine_config o2) g1 = Ok m2) :
  mech_name DynCipher m1 = mech_name DynCipher m2.
Proof.
  apply negotiate_inv in Hn1 as (H1 & A1 & N1), Hn2 as (H2 & A2 & N2).
  rewrite Hg2 in H1. rewrite Hg1 in H2.
  destruct m1 as [m1|m1|m1|m1], m2 as [m2|m2|m2|m2]; try done; cbn [mech_bytes mech_allowed] in *; exfalso.
  - by rewrite (propose_null s1 o1 A1) in H2.
  - by rewrite (propose_null s1 o1 A1) in H2.
  - by rewrite (propose_null s1 o1 A1) in H2.
  - by rewrite (propose_null s2 o2 A2) in H1.
  - by destruct (propose_curve_or_noise s2 (engine_config o2) A2) as [E|E]; rewrite E in H1.
  - by rewrite (noise_ok_proposed s2 _ m2 N2 A2) in H1.
  - by rewrite (propose_null s2 o2 A2) in H1.
  - by destruct (propose_curve_or_noise s1 (engine_config o1) A1) as [E|E]; rewrite E in H2.
  - by rewrite (noise_ok_proposed s2 _ m2 N2 A2) in H1.
  - by rewrite (propose_null s2 o2 A2) in H1.
  - by rewrite (noise_ok_proposed s1 _ m1 N1 A1) in H2.
  - by rewrite (noise_ok_proposed s1 _ m1 N1 A1) in H2.
Qed.

Lemma negotiation_agreement_witness :
  let HD := toy_dryoc in let HS := toy_snow in
  let g s := mkGreeting (Byte.x03, Byte.x00)
    (determine_own_greeting_mechanism s (engine_config plain_socket)) s in
  exists m1 m2,
    negotiate_security_mechanism [] false (engine_config plain_socket) (g true) = Ok m1 /\
    negotiate_security_mechanism [] true (engine_config plain_socket) (g false) = Ok m2 /\
    mech_name DynCipher m1 = mech_name DynCipher m2.
Proof.
  intros HD HS g. eexists _, _. split; [reflexivity|]. split; [reflexivity|].
  exact (negotiation_agreement toy_dryoc toy_snow [] [] false true plain_socket plain_socket
    (g false) (g true) _ _ eq_refl eq_refl eq_refl eq_refl).
Defined.
