(* ===== verification/Io.v ===== *)
(** Asynchronous I/O of a session: the part of [tokio] the protocol handler
    stands on, as a small state monad.

    A procedure runs over a component state and a [World]: the read events the
    network will deliver (each with the time it takes to arrive), the outcomes of
    the next writes, what has been written so far, and the clock.  It ends with a
    value, an error, a panic, or [Pending]: the script of events is used up while
    the future is still waiting.  [Pending] keeps the state reached so far, which
    is what the actor's [select!] leaves behind when it drops the future, so
    running a procedure again from that state is a cancelled and restarted
    future. *)

From S2P Require Import Prelude Error.

(** ** Events *)

(** [read_buf]: a chunk (empty at end of stream) or an error, after a delay. *)
Inductive ReadEvent :=
| RData (delay : Z) (chunk : bytes)
| RFail (delay : Z) (kind : ErrorKind) (message : string).

Definition ev_delay (e : ReadEvent) : Z :=
  match e with RData d _ => d | RFail d _ _ => d end.

(** [write_all] under a timeout: done, or failed, timed out or still waiting
    after [n] octets were taken. *)
Inductive WriteEvent :=
| WOk
| WFail (n : nat) (kind : ErrorKind) (message : string)
| WTimeout (n : nat)
| WStall (n : nat).

Record World := mkWorld {
  w_inbox : list ReadEvent;
  w_writes : list WriteEvent;   (** outcomes of the next writes; [WOk] when used up *)
  w_corks : list bool;          (** whether the next [setsockopt] works; yes when used up *)
  w_sent : bytes;
  w_now : Z;
}.

#[export] Instance World_eta : Eta World := fun w =>
  mkWorld (w_inbox w) (w_writes w) (w_corks w) (w_sent w) (w_now w).

(** ** Procedures *)

Inductive outcome (A : Type) :=
| Done (a : A)
| Failed (e : ZmqError)
| Crashed
| Pending.
Arguments Done {A}.
Arguments Failed {A}.
Arguments Crashed {A}.
Arguments Pending {A}.

Definition proc (H A : Type) : Type := H -> World -> outcome A * H * World.

#[export] Instance proc_ret H : MRet (proc H) := fun A a h w => (Done a, h, w).
#[export] Instance proc_bind H : MBind (proc H) := fun A B k m h w =>
  match m h w with
  | (Done a, h, w) => k a h w
  | (Failed e, h, w) => (Failed e, h, w)
  | (Crashed, h, w) => (Crashed, h, w)
  | (Pending, h, w) => (Pending, h, w)
  end.

Section Procs.
Context {H : Type}.

Definition get : proc H H := fun h w => (Done h, h, w).
Definition modify (f : H -> H) : proc H unit := fun h w => (Done tt, f h, w).
Definition now : proc H Z := fun h w => (Done (w_now w), h, w).
Definition fail {A} (e : ZmqError) : proc H A := fun h w => (Failed e, h, w).
(** [r?]. *)
Definition lift {A} (r : result A) : proc H A := fun h w =>
  (match r with Ok a => Done a | Err e => Failed e | Panic => Crashed end, h, w).

(** [timeout(d, stream.write_all(data)).await.map_err(..)?.map_err(..)]: the
    timeout returns, the result of the write is a value.  Also [flush], which
    writes nothing. *)
Definition try_write (d : Z) (data : bytes) (endpoint : string) : proc H (result unit) := fun h w =>
  let ev := default WOk (head (w_writes w)) in
  let w := w <| w_writes := tail (w_writes w) |> in
  let sent n := w <| w_sent := w_sent w ++ take n data |> in
  match ev with
  | WOk => (Done (Ok tt), h, sent (length data))
  | WFail n kind message => (Done (Err (from_io_endpoint kind message endpoint)), h, sent n)
  | WTimeout n => (Failed Timeout, h, (sent n) <| w_now := w_now w + d |>)
  | WStall n => (Pending, h, sent n)
  end.

(** ... with a second [?]. *)
Definition write_all (d : Z) (data : bytes) (endpoint : string) : proc H unit :=
  r ← try_write d data endpoint; lift r.

(** A loop that alternates between [check] and reading more, until [check]
    yields a value: the shape of every read of the handler.  [absorb] takes a
    chunk in.  With a deadline the read is under a timeout. *)
Section ReadLoop.
Context {A : Type}.
Variable check : H -> World -> outcome (option A) * H.
Variable absorb : bytes -> Z -> H -> H.
Variable deadline : option Z.
Variable endpoint : string.

(** Does the deadline pass before something that takes [delay] happens? *)
Definition expired (delay : Z) (w : World) : bool :=
  match deadline with
  | None => false
  | Some d =>
      let remaining := Z.max 0 (d - w_now w) in
      (remaining =? 0) || (remaining <? delay)
  end.

Fixpoint read_events (inbox : list ReadEvent) (h : H) (w : World) : outcome A * H * World :=
  match check h w with
  | (Done (Some a), h) => (Done a, h, w <| w_inbox := inbox |>)
  | (Failed e, h) => (Failed e, h, w <| w_inbox := inbox |>)
  | (Crashed, h) => (Crashed, h, w <| w_inbox := inbox |>)
  | (Pending, h) => (Pending, h, w <| w_inbox := inbox |>)
  | (Done None, h) =>
      if expired 0 w then (Failed Timeout, h, w <| w_inbox := inbox |>)
      else match inbox with
           | [] => (Pending, h, w <| w_inbox := inbox |>)
           | ev :: rest =>
               if expired (ev_delay ev) w
               then (Failed Timeout, h, w <| w_inbox := inbox |> <| w_now := default (w_now w) deadline |>)
               else
                 let w := w <| w_inbox := rest |> <| w_now := w_now w + ev_delay ev |> in
                 match ev with
                 | RFail _ kind message => (Failed (from_io_endpoint kind message endpoint), h, w)
                 | RData _ [] => (Failed ConnectionClosed, h, w)
                 | RData _ chunk => read_events rest (absorb chunk (w_now w) h) w
                 end
           end
  end.

Definition read_until : proc H A := fun h w => read_events (w_inbox w) h w.

End ReadLoop.
End Procs.

(** ** Lemmas *)

(** Partial correctness of a procedure: from [P], whatever the network does,
    a value satisfies [Q] and every other end leaves a state in [R]. *)
Definition hoare {H A} (P : H -> Prop) (m : proc H A) (Q : A -> H -> Prop) (R : H -> Prop) : Prop :=
  forall h w, P h ->
  match m h w with
  | (Done a, h', _) => Q a h'
  | (_, h', _) => R h'
  end.

Lemma hoare_bind {H A B} (P : H -> Prop) (m : proc H A) (k : A -> proc H B) Q R S :
  hoare P m Q R -> (forall a, hoare (Q a) (k a) S R) -> hoare P (m ≫= k) S R.
Proof.
  intros Hm Hk h w Hp. specialize (Hm h w Hp). unfold mbind, proc_bind.
  destruct (m h w) as [[[a|e| |] h'] w']; try done. by apply Hk.
Qed.

Lemma hoare_conseq {H A} (P P' : H -> Prop) (m : proc H A) Q Q' (R R' : H -> Prop) :
  hoare P m Q R -> (forall h, P' h -> P h) -> (forall a h, Q a h -> Q' a h) ->
  (forall h, R h -> R' h) -> hoare P' m Q' R'.
Proof.
  intros Hm Hp Hq Hr h w Hp'. specialize (Hm h w (Hp h Hp')).
  destruct (m h w) as [[[a|e| |] h'] w']; auto.
Qed.

Lemma hoare_ret {H A} (P : H -> Prop) (a : A) (Q : A -> H -> Prop) R :
  (forall h, P h -> Q a h) -> hoare P (mret a) Q R.
Proof. intros Hq h w Hp. by apply Hq. Qed.

Lemma hoare_get {H} (P : H -> Prop) (Q : H -> H -> Prop) R :
  (forall h, P h -> Q h h) -> hoare P get Q R.
Proof. intros Hq h w Hp. by apply Hq. Qed.

Lemma hoare_now {H} (P : H -> Prop) (Q : Z -> H -> Prop) R :
  (forall t h, P h -> Q t h) -> hoare P now Q R.
Proof. intros Hq h w Hp. by apply Hq. Qed.

Lemma hoare_modify {H} (P : H -> Prop) (f : H -> H) (Q : unit -> H -> Prop) R :
  (forall h, P h -> Q tt (f h)) -> hoare P (modify f) Q R.
Proof. intros Hq h w Hp. by apply Hq. Qed.

Lemma hoare_fail {H A} (P : H -> Prop) e (Q : A -> H -> Prop) (R : H -> Prop) :
  (forall h, P h -> R h) -> hoare P (fail e) Q R.
Proof. intros Hr h w Hp. by apply Hr. Qed.

Lemma hoare_lift {H A} (P : H -> Prop) (r : result A) (Q : A -> H -> Prop) (R : H -> Prop) :
  (forall a h, r = Ok a -> P h -> Q a h) -> (forall h, P h -> R h) -> hoare P (lift r) Q R.
Proof. intros Hq Hr h w Hp. unfold lift. destruct r; [by apply Hq|by apply Hr..]. Qed.

Lemma hoare_try_write {H} (P : H -> Prop) d data ep (Q : result unit -> H -> Prop) (R : H -> Prop) :
  (forall r h, P h -> Q r h) -> (forall h, P h -> R h) -> hoare P (try_write d data ep) Q R.
Proof.
  intros Hq Hr h w Hp. unfold try_write.
  destruct (default WOk (head (w_writes w))); [by apply Hq|by apply Hq|by apply Hr..].
Qed.

Lemma hoare_write {H} (P : H -> Prop) d data ep (Q : unit -> H -> Prop) (R : H -> Prop) :
  (forall h, P h -> Q tt h) -> (forall h, P h -> R h) -> hoare P (write_all d data ep) Q R.
Proof.
  intros Hq Hr. unfold write_all. eapply (hoare_bind _ _ _ (fun _ h => P h)); [by apply hoare_try_write|].
  intros r. apply hoare_lift; [|done]. intros [] h _. apply Hq.
Qed.

Lemma hoare_read {H A} (P : H -> Prop) check absorb dl ep (Q : A -> H -> Prop) (R : H -> Prop) :
  (forall h w, P h -> match check h w with
     | (Done (Some a), h') => Q a h'
     | (Done None, h') => P h'
     | (_, h') => R h' end) ->
  (forall chunk t h, P h -> P (absorb chunk t h)) -> (forall h, P h -> R h) ->
  hoare P (read_until check absorb dl ep) Q R.
Proof.
  intros Hc Ha Hr h w Hp. unfold read_until. generalize (w_inbox w). intros inbox.
  revert h w Hp. induction inbox as [|ev rest IH]; intros h w Hp; cbn [read_events];
    specialize (Hc h w Hp); destruct (check h w) as [[[a|]|e| |] h']; try exact Hc.
  - by destruct (expired dl 0 w); apply Hr.
  - destruct (expired dl 0 w); [by apply Hr|].
    destruct (expired dl (ev_delay ev) w); [by apply Hr|].
    destruct ev as [d [|b chunk]|d kind msg]; [by apply Hr| |by apply Hr].
    apply IH. by apply Ha.
Qed.

(** Running a procedure. *)
Lemma bind_done {H A B} (m : proc H A) (k : A -> proc H B) h w a h' w' :
  m h w = (Done a, h', w') -> (m ≫= k) h w = k a h' w'.
Proof. unfold mbind, proc_bind. by intros ->. Qed.

Lemma bind_pending {H A B} (m : proc H A) (k : A -> proc H B) h w h' w' :
  m h w = (Pending, h', w') -> (m ≫= k) h w = (Pending, h', w').
Proof. unfold mbind, proc_bind. by intros ->. Qed.

Lemma bind_failed {H A B} (m : proc H A) (k : A -> proc H B) h w e h' w' :
  m h w = (Failed e, h', w') -> (m ≫= k) h w = (Failed e, h', w').
Proof. unfold mbind, proc_bind. by intros ->. Qed.

(** With no outcome scripted, a write is done at once. *)
Lemma write_done {H} d data ep (h : H) inbox corks sent t :
  write_all d data ep h (mkWorld inbox [] corks sent t) =
  (Done tt, h, mkWorld inbox [] corks (sent ++ data) t).
Proof. unfold write_all, try_write, mbind, proc_bind. cbn. by rewrite firstn_all. Qed.

(** ** A network that delivers *)

(** Octets arrive, in pieces that are not empty, within finite delays. *)
Definition clean (inbox : list ReadEvent) : Prop :=
  Forall (fun ev => match ev with RData d c => 0 <= d /\ c <> [] | RFail _ _ _ => False end) inbox.

Definition ev_bytes (ev : ReadEvent) : bytes :=
  match ev with RData _ c => c | RFail _ _ _ => [] end.
Definition inbox_bytes (inbox : list ReadEvent) : bytes := concat (ev_bytes <$> inbox).
Definition inbox_time (inbox : list ReadEvent) : Z := foldr (fun ev t => ev_delay ev + t) 0 inbox.

Lemma inbox_time_nonneg inbox : clean inbox -> 0 <= inbox_time inbox.
Proof.
  unfold clean. induction 1 as [|ev inbox Hev _ IH]; [done|]. destruct ev as [d c|]; [|done].
  cbn [inbox_time foldr ev_delay]. unfold inbox_time in IH. lia.
Qed.

(** A read loop over a network that delivers.  [I s h] says that the component
    is in state [h] having received the octets [s], and [enough s] that they end
    the loop. *)
Section Deliver.
Context {H A : Type}.
Variable check : H -> World -> outcome (option A) * H.
Variable absorb : bytes -> Z -> H -> H.
Variable valid : bytes -> Prop.
Variable I : bytes -> H -> Prop.
Variable enough : bytes -> bool.
Variable J : bytes -> A -> H -> Prop.
Hypothesis Hvalid : forall s c, valid (s ++ c) -> valid s.
Hypothesis Hstop : forall s h w, valid s -> I s h -> enough s = true ->
  exists a h', check h w = (Done (Some a), h') /\ J s a h'.
Hypothesis Hmore : forall s h w, valid s -> I s h -> enough s = false ->
  exists h', check h w = (Done None, h') /\ I s h'.
Hypothesis Habsorb : forall s c t h, I s h -> I (s ++ c) (absorb c t h).

(** The loop ends with a value as soon as enough has arrived; otherwise it waits
    with everything taken in. *)
Lemma read_delivered inbox dl ep s h w :
  clean inbox -> valid (s ++ inbox_bytes inbox) -> I s h ->
  match dl with Some d => w_now w + inbox_time inbox < d | None => True end ->
  exists h' pre post, inbox = pre ++ post /\
    let w' := w <| w_inbox := post |> <| w_now := w_now w + inbox_time pre |> in
    (exists a, read_events check absorb dl ep inbox h w = (Done a, h', w') /\
       enough (s ++ inbox_bytes pre) = true /\ J (s ++ inbox_bytes pre) a h') \/
    (read_events check absorb dl ep inbox h w = (Pending, h', w') /\ post = [] /\
       enough (s ++ inbox_bytes inbox) = false /\ I (s ++ inbox_bytes inbox) h').
Proof.
  revert s h w. induction inbox as [|ev rest IH]; intros s h w Hc Hv Hi Ht.
  - cbn [inbox_bytes fmap list_fmap concat] in Hv. rewrite app_nil_r in Hv.
    destruct (enough s) eqn:E.
    + destruct (Hstop s h w Hv Hi E) as (a & h' & Hck & Hj). exists h', [], []. split; [done|]. left. exists a.
      cbn [read_events inbox_bytes fmap list_fmap concat]. rewrite Hck, app_nil_r. split; [|done].
      destruct w. cbn. by rewrite Z.add_0_r.
    + destruct (Hmore s h w Hv Hi E) as (h' & Hck & Hi'). exists h', [], []. split; [done|]. right.
      cbn [read_events inbox_bytes fmap list_fmap concat]. rewrite Hck, app_nil_r.
      replace (expired dl 0 w) with false by (unfold expired; destruct dl; [cbn [inbox_time foldr] in Ht; lia|done]).
      split_and!; [|done..]. destruct w. cbn. by rewrite Z.add_0_r.
  - pose proof Hc as Hc0. inv Hc as [|? ? Hev Hc']. destruct ev as [dl' c|]; [|done]. destruct Hev as [Hdl Hne].
    pose proof (inbox_time_nonneg _ Hc') as Ht'.
    change (inbox_time (RData dl' c :: rest)) with (dl' + inbox_time rest) in Ht.
    change (inbox_bytes (RData dl' c :: rest)) with (c ++ inbox_bytes rest) in *.
    assert (Hvs : valid s) by by eapply Hvalid.
    destruct (enough s) eqn:E.
    + destruct (Hstop s h w Hvs Hi E) as (a & h' & Hck & Hj). exists h', [], (RData dl' c :: rest).
      split; [done|]. left. exists a. cbn [read_events inbox_bytes fmap list_fmap concat].
      rewrite Hck, app_nil_r. split; [|done]. destruct w. cbn. by rewrite Z.add_0_r.
    + destruct (Hmore s h w Hvs Hi E) as (h1 & Hck & Hi1).
      assert (He0 : expired dl 0 w = false) by (unfold expired; destruct dl; [lia|done]).
      assert (He : expired dl (ev_delay (RData dl' c)) w = false) by (unfold expired; cbn [ev_delay]; destruct dl; [lia|done]).
      cbn [read_events]. rewrite Hck, He0, He.
      destruct c as [|b c]; [done|]. set (w1 := w <| w_inbox := rest |> <| w_now := _ |>).
      rewrite app_assoc in Hv.
      destruct (IH (s ++ b :: c) (absorb (b :: c) (w_now w1) h1) w1 Hc' Hv)
        as (h' & pre & post & -> & Hres); [by apply Habsorb|destruct dl; [subst w1; cbn; lia|done]|].
      exists h', (RData dl' (b :: c) :: pre), post. split; [done|].
      change (inbox_bytes (RData dl' (b :: c) :: pre)) with ((b :: c) ++ inbox_bytes pre).
      change (inbox_bytes (RData dl' (b :: c) :: pre ++ post)) with ((b :: c) ++ inbox_bytes (pre ++ post)).
      rewrite !(app_assoc s (b :: c)).
      assert (Hw : w1 <| w_inbox := post |> <| w_now := w_now w1 + inbox_time pre |> =
        w <| w_inbox := post |> <| w_now := w_now w + inbox_time (RData dl' (b :: c) :: pre) |>).
      { subst w1. destruct w. cbn. by rewrite Z.add_assoc. }
      cbn zeta in Hres |- *. rewrite Hw in Hres. exact Hres.
Qed.

End Deliver.
