(* ===== verification/Handler.v ===== *)
(** The protocol handler of one connection: its state, heartbeats, TCP_CORK and
    the data phase
    ([core/src/sessionx/{types,cork}.rs],
    [core/src/sessionx/protocol_handler/{mod,heartbeat,data_io}.rs]). *)

From S2P Require Import Prelude Error Message Codec Command Framer Greeting Mechanism Plain Options.
From S2P Require Import Curve Noise Security Io.

(** ** Types *)

Inductive ConnectionPhaseX :=
| PInitial | PHandshakeInProgress | PWaitingForPipes | POperational | PShuttingDownStream | PTerminating.

Inductive ZmtpHandshakeProgressX :=
| InProgress
| IdentityReady (identity : bytes)
| HandshakeCompleteX
| ProtocolErrorX (s : string)
| FatalErrorX (e : ZmqError).

Inductive HandshakeSubPhaseX :=
| GreetingExchange | WaitingForPeerRevision | WaitingForGreeting | SecurityHandshake | ReadyExchange
| ClientSentReady | ServerReceivedReady | V2IdentityExchange | PhaseDone.

#[export] Instance ConnectionPhaseX_eq_dec : EqDecision ConnectionPhaseX.
Proof. solve_decision. Defined.
#[export] Instance HandshakeSubPhaseX_eq_dec : EqDecision HandshakeSubPhaseX.
Proof. solve_decision. Defined.

(** ** Heartbeats *)

Definition ms (n : Z) : Duration := n * 1000000.
Definition secs (n : Z) : Duration := n * 1000000000.

Record ZmtpHeartbeatStateX := mkHeartbeat {
  last_activity_time : Z;
  last_ping_sent_time : option Z;
  waiting_for_pong : bool;
  hb_ivl : option Duration;
  hb_timeout : Duration;
}.

#[export] Instance heartbeat_eta : Eta ZmtpHeartbeatStateX := fun s =>
  mkHeartbeat (last_activity_time s) (last_ping_sent_time s) (waiting_for_pong s) (hb_ivl s) (hb_timeout s).

Module Heartbeat.

Definition new (now : Z) (ivl : option Duration) (timeout : Duration) : ZmtpHeartbeatStateX :=
  mkHeartbeat now None false ivl timeout.

Definition record_activity (now : Z) (s : ZmtpHeartbeatStateX) : ZmtpHeartbeatStateX :=
  s <| last_activity_time := now |>.

Definition ping_sent (now : Z) (s : ZmtpHeartbeatStateX) : ZmtpHeartbeatStateX :=
  s <| last_ping_sent_time := Some now |> <| waiting_for_pong := true |> <| last_activity_time := now |>.

Definition pong_received (s : ZmtpHeartbeatStateX) : ZmtpHeartbeatStateX :=
  s <| waiting_for_pong := false |> <| last_ping_sent_time := None |>.

(** [later.duration_since(earlier)] saturates at zero. *)
Definition duration_since (later earlier : Z) : Duration := Z.max 0 (later - earlier).

Definition should_send_ping (now : Z) (s : ZmtpHeartbeatStateX) : bool :=
  if waiting_for_pong s then false
  else match hb_ivl s with
       | Some interval => interval <=? duration_since now (last_activity_time s)
       | None => false
       end.

Definition has_pong_timed_out (now : Z) (s : ZmtpHeartbeatStateX) : bool :=
  if negb (waiting_for_pong s) then false
  else match last_ping_sent_time s with
       | Some ping_sent_at => hb_timeout s <=? duration_since now ping_sent_at
       | None => false
       end.

Definition get_pong_deadline (s : ZmtpHeartbeatStateX) : option Z :=
  if waiting_for_pong s then (fun sent_at => sent_at + hb_timeout s) <$> last_ping_sent_time s else None.

End Heartbeat.

(** ** The handler *)

Record ZmtpHandshakeStateX := mkHandshakeState {
  sub_phase : HandshakeSubPhaseX;
  peer_socket_type : option bytes;
  peer_identity_from_ready : option bytes;
}.

#[export] Instance handshake_state_eta : Eta ZmtpHandshakeStateX := fun s =>
  mkHandshakeState (sub_phase s) (peer_socket_type s) (peer_identity_from_ready s).

Record TcpCorkInfoX := mkCork {
  is_corked : bool;
  expecting_first_frame_of_new_zmq_message : bool;
}.

#[export] Instance cork_eta : Eta TcpCorkInfoX := fun c =>
  mkCork (is_corked c) (expecting_first_frame_of_new_zmq_message c).

Record ZmtpProtocolHandlerX `{Snow} := mkHandler {
  h_config : ZmtpEngineConfig;
  h_is_server : bool;
  h_stream : bool;                (** [stream.is_some()] *)
  network_read_buffer : bytes;
  handshake_state : ZmtpHandshakeStateX;
  security_mechanism : DynMechanism;
  pending_peer_greeting : option ZmtpGreeting;
  negotiated_version : option NegotiatedVersion;
  zmtp_manual_parser : ZmtpManualParser;
  framer : DynFramer DynCipher;
  heartbeat_state : ZmtpHeartbeatStateX;
  cork_info : option TcpCorkInfoX;
}.

#[export] Instance handler_eta `{Snow} : Eta ZmtpProtocolHandlerX := fun h =>
  mkHandler _ (h_config h) (h_is_server h) (h_stream h) (network_read_buffer h) (handshake_state h)
    (security_mechanism h) (pending_peer_greeting h) (negotiated_version h) (zmtp_manual_parser h)
    (framer h) (heartbeat_state h) (cork_info h).

Module Handler.
Section Handler.
Context `{HD : Dryoc} `{HS : Snow}.
Abbreviation handler := ZmtpProtocolHandlerX.
Abbreviation M := (proc handler).

(** [try_create_cork_info]; the descriptor of a stream is valid. *)
Definition try_create_cork_info (use_cork : bool) : option TcpCorkInfoX :=
  if use_cork then Some (mkCork false true) else None.

Definition new (config : ZmtpEngineConfig) (is_server : bool) (now : Z) : handler :=
  let ivl := cfg_heartbeat_ivl config in
  let effective_timeout :=
    match cfg_heartbeat_timeout config with
    | Some t => t
    | None => match ivl with Some ivl => Z.max ivl (ms 100) | None => secs 30 end
    end in
  let max_msg_size := cfg_max_msg_size config in
  mkHandler _ config is_server true [] (mkHandshakeState GreetingExchange None None)
    (MNull mkNullMechanism) None None (ZmtpManualParser.new max_msg_size)
    (DynNull (NullFramer.new max_msg_size)) (Heartbeat.new now ivl effective_timeout)
    (try_create_cork_info (cfg_use_cork config)).

Definition is_handshake_complete (h : handler) : bool :=
  bool_decide (sub_phase (handshake_state h) = PhaseDone).

Definition set_phase (p : HandshakeSubPhaseX) (h : handler) : handler :=
  h <| handshake_state := (handshake_state h) <| sub_phase := p |> |>.

Definition activity (now : Z) (h : handler) : handler :=
  h <| heartbeat_state := Heartbeat.record_activity now (heartbeat_state h) |>.

(** [handler.heartbeat_state.record_activity()]. *)
Definition record_activity : M unit := t ← now; modify (activity t).

(** [stream.as_mut().ok_or_else(..)?]. *)
Definition need_stream (text : string) : M unit :=
  h ← get; if h_stream h then mret tt else fail (Internal text).

(** What a successful [read_buf] does to the handler. *)
Definition absorb (chunk : bytes) (now : Z) (h : handler) : handler :=
  activity now (h <| network_read_buffer := network_read_buffer h ++ chunk |>).

(** ** The data phase *)

Definition MAX_BUFFER_SIZE : Z := 16 * 1024 * 1024.

(** The first half of the loop of [read_data_frame_impl]. *)
Definition frame_check (h : handler) (w : World) : Io.outcome (option Msg) * handler :=
  if MAX_BUFFER_SIZE <? zlen (network_read_buffer h) then (Failed ResourceLimitReached, h)
  else
    let '(f, buf, r) := try_read_msg (framer h) (network_read_buffer h) in
    let h := h <| framer := f |> <| network_read_buffer := buf |> in
    match r with
    | Ok (Some msg) => (Done (Some msg), activity (w_now w) h)
    | Ok None => (Done None, h)
    | Err e => (Failed e, h)
    | Panic => (Crashed, h)
    end.

Definition read_data_frame : M (option Msg) :=
  need_stream "Stream unavailable for data frame reading";;
  msg ← read_until frame_check absorb None "data read";
  mret (Some msg).

(** [apply_cork_state]: the system call may fail, which leaves the flag. *)
Definition apply_cork_state (enable : bool) : M unit := fun h w =>
  match cork_info h with
  | None => (Done tt, h, w)
  | Some ci =>
      if eqb (is_corked ci) enable then (Done tt, h, w)
      else
        let worked := default true (head (w_corks w)) in
        let w := w <| w_corks := tail (w_corks w) |> in
        (Done tt, if worked then h <| cork_info := Some (ci <| is_corked := enable |>) |> else h, w)
  end.

Definition uncork : M unit :=
  h ← get;
  match cork_info h with
  | None => mret tt
  | Some ci =>
      (if is_corked ci then apply_cork_state false else mret tt);;
      modify (fun h => h <| cork_info :=
        (fun ci => ci <| expecting_first_frame_of_new_zmq_message := true |>) <$> cork_info h |>)
  end.

(** The [debug_assert] against commands on a ZMTP 2.0 session is not in release
    builds. *)
Definition write_data_msgs (msgs : list Msg) : M unit :=
  match msgs with
  | [] => mret tt
  | _ =>
      need_stream "Stream unavailable for writing data message";;
      h ← get;
      let operation_timeout := default (secs 300) (cfg_sndtimeo (h_config h)) in
      let '(f, r) := write_msg_multipart (framer h) msgs in
      modify (fun h => h <| framer := f |>);;
      wire_bytes_to_send ← lift r;
      apply_cork_state true;;
      write_result ← try_write operation_timeout wire_bytes_to_send "data write";
      record_activity;;
      uncork;;
      lift write_result
  end.

Definition write_data_msg (msg : Msg) : M bool :=
  let was_last_part := negb (Msg.is_more msg) in
  write_data_msgs [msg];; mret was_last_part.

(** ** Commands of the data phase *)

Definition process_heartbeat_command (cmd_msg : Msg) (h : handler) : handler * result (option Msg) :=
  match ZmtpCommand.parse cmd_msg with
  | Ok (Some (Ping context)) => (h, Ok (Some (ZmtpCommand.create_pong context)))
  | Ok (Some (Pong _)) =>
      (h <| heartbeat_state := Heartbeat.pong_received (heartbeat_state h) |>, Ok None)
  | Ok (Some CmdError) => (h, Err (ProtocolViolation "Received ZMTP ERROR from peer"))
  | Ok (Some _) => (h, Ok None)
  | Ok None => (h, Err (ProtocolViolation "Unparseable command received in data phase"))
  | Err e => (h, Err e)
  | Panic => (h, Panic)
  end.

Definition is_v2_session (h : handler) : bool :=
  match negotiated_version h with Some v => is_v2 v | None => false end.

Definition try_send_ping : M unit :=
  h ← get;
  if is_v2_session h then mret tt
  else
    t ← now;
    if Heartbeat.should_send_ping t (heartbeat_state h) then
      _ ← write_data_msg (ZmtpCommand.create_ping 0 []);
      t ← now;
      modify (fun h => h <| heartbeat_state := Heartbeat.ping_sent t (heartbeat_state h) |>)
    else mret tt.

(** ** Shutdown *)

Definition clear_handshake_state (h : handler) : handler :=
  h <| pending_peer_greeting := None |> <| negotiated_version := None |>
    <| network_read_buffer := [] |>
    <| security_mechanism :=
         if bool_decide (mech_name DynCipher (security_mechanism h) <> NullMechanism.NAME)
         then MNull mkNullMechanism else security_mechanism h |>
    <| framer := DynNull (NullFramer.new (cfg_max_msg_size (h_config h))) |>.

Definition initiate_stream_shutdown : M unit :=
  modify clear_handshake_state;;
  h ← get;
  (if h_stream h
   then match cork_info h with
        | Some ci => if is_corked ci then apply_cork_state false else mret tt
        | None => mret tt
        end
   else mret tt);;
  modify (fun h => h <| h_stream := false |>).

End Handler.
End Handler.
