(* ===== verification/Handshake.v ===== *)
(** The connection handshake
    ([core/src/sessionx/protocol_handler/{handshake,v2_path}.rs]): the staged
    greeting, the security handshake, the READY exchange, and the ZMTP 2.0
    identity exchange.  Every sub-phase is a procedure over the handler and the
    world, in the order of the source. *)

From S2P Require Import Prelude Error Utf8 Message Codec Command Framer Greeting Mechanism Plain Options.
From S2P Require Import Curve Noise Security Io Handler.

Module Handshake.
Section Handshake.
Context `{HD : Dryoc} `{HS : Snow}.
Variable ephemeral : bytes.
Abbreviation handler := ZmtpProtocolHandlerX.
Abbreviation M := (proc handler).

(** ** Reading and writing *)

(** [while buffer.len() < n { read }]. *)
Definition have (n : Z) (h : handler) (w : World) : Io.outcome (option unit) * handler :=
  (Done (if zlen (network_read_buffer h) <? n then None else Some tt), h).

Definition fill (n : Z) (timeout : Duration) (endpoint : string) : M unit :=
  t ← now; read_until (have n) Handler.absorb (Some (t + timeout)) endpoint.

(** Parse a frame off the buffer with the handshake parser. *)
Definition parse_buffer (h : handler) : handler * result (option Msg) :=
  let '(p, buf, r) :=
    ZmtpManualParser.decode_from_buffer (zmtp_manual_parser h) (network_read_buffer h) in
  (h <| zmtp_manual_parser := p |> <| network_read_buffer := buf |>, r).

Definition command_check (h : handler) (w : World) : Io.outcome (option Msg) * handler :=
  match network_read_buffer h with
  | [] => (Done None, h)
  | _ =>
      match parse_buffer h with
      | (h, Ok (Some msg)) =>
          let h := Handler.activity (w_now w) h in
          if negb (Msg.is_command msg)
          then (Failed (ProtocolViolation "Expected COMMAND frame in handshake"), h)
          else (Done (Some msg), h)
      | (h, Ok None) => (Done None, h)
      | (h, Err e) => (Failed e, h)
      | (h, Panic) => (Crashed, h)
      end
  end.

Definition read_handshake_command_frame (timeout : Duration) : M Msg :=
  Handler.need_stream "Stream unavailable for reading handshake command";;
  t ← now;
  read_until command_check Handler.absorb (Some (t + timeout)) "handshake command read".

Definition send_handshake_command_frame (command_msg : Msg) (timeout : Duration) : M unit :=
  let '(buf, r) := ZmtpCodec.encode (Msg.set_flags MsgFlags.COMMAND command_msg) [] in
  _ ← lift r;
  Handler.need_stream "Stream unavailable for send";;
  Io.write_all timeout buf "handshake command send";;
  Handler.record_activity.

(** ** The staged greeting *)

Definition send_signature (timeout : Duration) : M ZmtpHandshakeProgressX :=
  Handler.need_stream "Stream unavailable";;
  let prelude := encode_signature [] ++ [GREETING_VERSION_MAJOR_BYTE] in
  Io.write_all timeout prelude "g sig send";;
  Io.write_all timeout [] "g sig flush";;
  Handler.record_activity;;
  modify (fun h => Handler.set_phase WaitingForPeerRevision (h <| network_read_buffer := [] |>));;
  mret InProgress.

Definition read_peer_signature_and_peek_revision (timeout : Duration) (peek_len : Z) : M byte :=
  Handler.need_stream "Stream unavailable";;
  fill peek_len timeout "g peek read";;
  h ← get;
  head ← lift (slice_to (network_read_buffer h) peek_len);
  lift (peek_revision head).

Definition write_v2_tail_and_advance (timeout : Duration) : M ZmtpHandshakeProgressX :=
  h ← get;
  if negb (cfg_allow_zmtp2 (h_config h))
  then fail (ProtocolViolation "peer advertised ZMTP/2.0 but allow_zmtp2 is disabled")
  else
    stype_byte ← lift (ok_or (socket_type_code (cfg_socket_type_name (h_config h)))
      (ProtocolViolation (format "no ZMTP/2.0 socket-type byte for socket type {}"
         [debug_str (cfg_socket_type_name (h_config h))])));
    Handler.need_stream "Stream unavailable";;
    Io.write_all timeout [stype_byte] "g v2 tail send";;
    Io.write_all timeout [] "g v2 tail flush";;
    modify (fun h => Handler.set_phase V2IdentityExchange (h <| negotiated_version := Some V2 |>));;
    mret InProgress.

Definition write_v3_tail_and_advance (timeout : Duration) : M ZmtpHandshakeProgressX :=
  h ← get;
  let mech := determine_own_greeting_mechanism (h_is_server h) (h_config h) in
  let tail := encode_v3_tail_post_major mech (h_is_server h) [] in
  Handler.need_stream "Stream unavailable";;
  Io.write_all timeout tail "g v3 tail send";;
  Io.write_all timeout [] "g v3 tail flush";;
  modify (Handler.set_phase WaitingForGreeting);;
  mret InProgress.

Definition wait_for_peer_revision (timeout : Duration) : M ZmtpHandshakeProgressX :=
  peer_revision ← read_peer_signature_and_peek_revision timeout (SIGNATURE_LENGTH + 1);
  if bool_decide (peer_revision = ZmtpV2Greeting.REVISION) then write_v2_tail_and_advance timeout
  else if byteZ GREETING_VERSION_MAJOR_BYTE <=? byteZ peer_revision then write_v3_tail_and_advance timeout
  else fail (ProtocolViolation (format "Unsupported ZMTP revision {} (only 0x01 and 0x03+ are supported)"
               [hex04 peer_revision])).

Definition receive_greeting (timeout : Duration) : M ZmtpHandshakeProgressX :=
  Handler.need_stream "Stream unavailable";;
  fill GREETING_LENGTH timeout "g read";;
  h ← get;
  let '(buf, r) := ZmtpGreeting.decode (network_read_buffer h) in
  modify (fun h => h <| network_read_buffer := buf |>);;
  decoded ← lift r;
  match decoded with
  | Some pg =>
      let '(major, minor) := g_version pg in
      if byteZ major <? 3
      then fail (ProtocolViolation (format "V {}.{}" [pretty (byteZ major); pretty (byteZ minor)]))
      else
        modify (fun h => Handler.set_phase SecurityHandshake
          (h <| negotiated_version := Some (V3 minor) |> <| pending_peer_greeting := Some pg |>));;
        mret InProgress
  | None => fail (ProtocolViolation "g decode")
  end.

(** ** The security handshake *)

(** An operation of the mechanism. *)
Definition with_mechanism {A} (op : DynMechanism -> DynMechanism * result A) : M A :=
  h ← get;
  let '(m, r) := op (security_mechanism h) in
  modify (fun h => h <| security_mechanism := m |>);;
  lift r.

Definition negotiate_once : M unit :=
  h ← get;
  if bool_decide (mech_name DynCipher (security_mechanism h) = "NULL") then
    peer_greeting ← lift (ok_or (pending_peer_greeting h)
      (Internal "Handshake entered security phase without a peer greeting"));
    m ← lift (negotiate_security_mechanism ephemeral (h_is_server h) (h_config h) peer_greeting);
    modify (fun h => h <| security_mechanism := m |>)
  else mret tt.

Definition finish_security : M ZmtpHandshakeProgressX :=
  h ← get;
  modify (fun h => h <| security_mechanism := MNull mkNullMechanism |>);;
  '(new_framer, id_opt) ← lift (into_framer DynCipher (security_mechanism h) (cfg_max_msg_size (h_config h)));
  modify (fun h => Handler.set_phase ReadyExchange (h <| framer := new_framer |>));;
  mret (match id_opt with Some identity => IdentityReady identity | None => InProgress end).

(** One round of the loop that does not end it: send a token, or read one and
    act on it. *)
Definition security_round (timeout : Duration) : M unit :=
  token ← with_mechanism (produce_token DynCipher);
  match token with
  | Some t => send_handshake_command_frame (Msg.from_vec t) timeout
  | None =>
      received ← read_handshake_command_frame timeout;
      action ← with_mechanism (fun m => process_token DynCipher m (default [] (Msg.data received)));
      match action with
      | ContinueWaiting => mret tt
      | ProduceAndSend =>
          reply ← with_mechanism (produce_token DynCipher);
          match reply with
          | Some t => send_handshake_command_frame (Msg.from_vec t) timeout
          | None => fail (Internal "Mechanism requested ProduceAndSend but then produced no token.")
          end
      | HandshakeComplete => mret tt
      end
  end.

Definition still_running {A} : M A := fun h w => (Pending, h, w).

(** The loop.  A mechanism takes at most four rounds; a loop that is still
    running when the fuel is gone has not ended and is [Pending]. *)
Fixpoint security_loop (fuel : nat) (timeout : Duration) : M ZmtpHandshakeProgressX :=
  h ← get;
  if is_complete DynCipher (security_mechanism h) then finish_security
  else if is_error DynCipher (security_mechanism h) then
    fail (SecurityError (default "Unknown security error" (error_reason DynCipher (security_mechanism h))))
  else
    security_round timeout;;
    match fuel with
    | O => still_running
    | S fuel => security_loop fuel timeout
    end.

Definition SECURITY_ROUNDS : nat := 8.

Definition perform_security_handshake_step (timeout : Duration) : M ZmtpHandshakeProgressX :=
  negotiate_once;; security_loop SECURITY_ROUNDS timeout.

(** ** The READY exchange *)

Definition ready_properties (config : ZmtpEngineConfig) : gmap bytes bytes :=
  let socket_type := cfg_socket_type_name config in
  let props : gmap bytes bytes := {[bs "Socket-Type" := bs socket_type]} in
  if bool_decide (socket_type = "REQ" \/ socket_type = "DEALER" \/ socket_type = "ROUTER") then
    let identity := default [] (cfg_routing_id config) in
    if zlen identity <=? 255 then <[bs "Identity" := identity]> props else props
  else props.

Definition build_ready_properties (h : handler) : list (bytes * bytes) :=
  map_to_list (ready_properties (h_config h)).

Definition parse_peer_ready_identity (ready : ZmtpReady) : option bytes :=
  match properties ready !! bs "Identity" with
  | Some id => if negb (bool_decide (id = [])) && (zlen id <=? 255) then Some id else None
  | None => None
  end.

(** Read the peer's READY and note its socket type. *)
Definition read_ready (timeout : Duration) : M ZmtpReady :=
  msg ← read_handshake_command_frame timeout;
  cmd ← lift (ZmtpCommand.parse msg);
  match cmd with
  | Some (Ready data) =>
      match properties data !! bs "Socket-Type" with
      | Some b =>
          if utf8_valid b
          then modify (fun h => h <| handshake_state := (handshake_state h) <| peer_socket_type := Some b |> |>)
          else mret tt
      | None => mret tt
      end;;
      mret data
  | _ => fail (ProtocolViolation "Expected READY")
  end.

Definition complete (peer_id : option bytes) : ZmtpHandshakeProgressX :=
  match peer_id with Some id => IdentityReady id | None => HandshakeCompleteX end.

Definition perform_ready_exchange_step (timeout : Duration) : M ZmtpHandshakeProgressX :=
  h ← get;
  if negb (h_is_server h) then
    send_handshake_command_frame (ZmtpReady.create_msg (build_ready_properties h)) timeout;;
    modify (Handler.set_phase ClientSentReady);;
    mret InProgress
  else
    data ← read_ready timeout;
    modify (fun h => Handler.set_phase ServerReceivedReady
      (h <| handshake_state := (handshake_state h)
              <| peer_identity_from_ready := parse_peer_ready_identity data |> |>));;
    mret InProgress.

Definition client_receive_peer_ready (timeout : Duration) : M ZmtpHandshakeProgressX :=
  data ← read_ready timeout;
  modify (Handler.set_phase PhaseDone);;
  mret (complete (parse_peer_ready_identity data)).

Definition take_peer_identity : M (option bytes) :=
  h ← get;
  modify (fun h => h <| handshake_state := (handshake_state h) <| peer_identity_from_ready := None |> |>);;
  mret (peer_identity_from_ready (handshake_state h)).

Definition server_send_ready (timeout : Duration) : M ZmtpHandshakeProgressX :=
  h ← get;
  send_handshake_command_frame (ZmtpReady.create_msg (build_ready_properties h)) timeout;;
  final_peer_id ← take_peer_identity;
  modify (Handler.set_phase PhaseDone);;
  mret (complete final_peer_id).

(** ** ZMTP 2.0 *)

Definition consume_peer_v2_greeting (timeout : Duration) : M byte :=
  Handler.need_stream "Stream unavailable";;
  fill V2_GREETING_LENGTH timeout "v2 greeting read";;
  h ← get;
  socket_type_byte ← lift (index (network_read_buffer h) 11);
  rest ← lift (slice_from (network_read_buffer h) V2_GREETING_LENGTH);
  modify (fun h => h <| network_read_buffer := rest |>);;
  mret socket_type_byte.

(** The pairs of socket types that may talk ZMTP 2.0. *)
Definition v2_pairs : list (string * byte) := [
  ("PULL", V2_SOCKET_TYPE_PUSH); ("PUSH", V2_SOCKET_TYPE_PULL);
  ("PUB", V2_SOCKET_TYPE_SUB); ("SUB", V2_SOCKET_TYPE_PUB);
  ("REQ", V2_SOCKET_TYPE_REP); ("REP", V2_SOCKET_TYPE_REQ);
  ("REQ", V2_SOCKET_TYPE_ROUTER); ("ROUTER", V2_SOCKET_TYPE_REQ);
  ("REP", V2_SOCKET_TYPE_DEALER); ("DEALER", V2_SOCKET_TYPE_REP);
  ("DEALER", V2_SOCKET_TYPE_ROUTER); ("ROUTER", V2_SOCKET_TYPE_DEALER);
  ("DEALER", V2_SOCKET_TYPE_DEALER); ("ROUTER", V2_SOCKET_TYPE_ROUTER);
  ("PAIR", V2_SOCKET_TYPE_PAIR)]%string.

Definition validate_v2_socket_type_compat (own_name : string) (peer_byte : byte) : result unit :=
  peer_name ← ok_or (socket_type_name_from_code peer_byte)
    (ProtocolViolation (format "v2 peer advertised unknown socket-type byte {}" [hex04 peer_byte]));
  if bool_decide ((own_name, peer_byte) ∈ v2_pairs) then Ok tt
  else Err (ProtocolViolation (format "incompatible ZMTP/2.0 socket pairing: local {} ↔ peer {}"
              [own_name; peer_name])).

Definition send_empty_identity_frame_v2 (timeout : Duration) : M unit :=
  Handler.need_stream "Stream unavailable";;
  Io.write_all timeout [Byte.x00; Byte.x00] "v2 identity send";;
  Io.write_all timeout [] "v2 identity flush";;
  Handler.record_activity.

Definition enforce_v2_identity_constraints (msg : Msg) : result unit :=
  if MsgFlags.contains (Msg.flags msg) MsgFlags.COMMAND
  then Err (ProtocolViolation "ZMTP/2.0 identity frame had COMMAND flag set (commands do not exist in v2)")
  else if MsgFlags.contains (Msg.flags msg) MsgFlags.MORE
  then Err (ProtocolViolation "ZMTP/2.0 identity frame had MORE flag set (identity is a single frame)")
  else if 255 <? zlen (default [] (Msg.data msg))
  then Err (ProtocolViolation "ZMTP/2.0 identity frame exceeded 255 bytes")
  else Ok tt.

Definition identity_check (h : handler) (w : World) : Io.outcome (option bytes) * handler :=
  let parsed := match network_read_buffer h with [] => (h, Ok None) | _ => parse_buffer h end in
  match parsed with
  | (h, Ok (Some msg)) =>
      match enforce_v2_identity_constraints msg with
      | Ok _ => (Done (Some (default [] (Msg.data msg))), Handler.activity (w_now w) h)
      | Err e => (Failed e, h)
      | Panic => (Crashed, h)
      end
  | (h, Ok None) =>
      if h_stream h then (Done None, h) else (Failed (Internal "Stream unavailable"), h)
  | (h, Err e) => (Failed e, h)
  | (h, Panic) => (Crashed, h)
  end.

Definition read_v2_identity_frame (timeout : Duration) : M bytes :=
  t ← now;
  read_until identity_check Handler.absorb (Some (t + timeout)) "v2 identity read".

Definition exchange_v2_identity (timeout : Duration) : M ZmtpHandshakeProgressX :=
  peer_socket_type_byte ← consume_peer_v2_greeting timeout;
  h ← get;
  _ ← lift (validate_v2_socket_type_compat (cfg_socket_type_name (h_config h)) peer_socket_type_byte);
  match socket_type_name_from_code peer_socket_type_byte with
  | Some name =>
      modify (fun h => h <| handshake_state := (handshake_state h) <| peer_socket_type := Some (bs name) |> |>)
  | None => mret tt
  end;;
  send_empty_identity_frame_v2 timeout;;
  peer_identity ← read_v2_identity_frame timeout;
  (if bool_decide (peer_identity = []) then mret tt
   else modify (fun h => h <| handshake_state := (handshake_state h)
                  <| peer_identity_from_ready := Some peer_identity |> |>));;
  modify (Handler.set_phase PhaseDone);;
  id ← take_peer_identity;
  mret (complete id).

(** ** The state machine *)

Definition advance_handshake_step : M ZmtpHandshakeProgressX :=
  h ← get;
  let operation_timeout := default (secs 15) (cfg_handshake_timeout (h_config h)) in
  match sub_phase (handshake_state h) with
  | GreetingExchange => send_signature operation_timeout
  | WaitingForPeerRevision => wait_for_peer_revision operation_timeout
  | WaitingForGreeting => receive_greeting operation_timeout
  | SecurityHandshake => perform_security_handshake_step operation_timeout
  | ReadyExchange => perform_ready_exchange_step operation_timeout
  | ClientSentReady => client_receive_peer_ready operation_timeout
  | ServerReceivedReady => server_send_ready operation_timeout
  | V2IdentityExchange => exchange_v2_identity operation_timeout
  | PhaseDone => mret HandshakeCompleteX
  end.

End Handshake.
End Handshake.
