(* ===== verification/HandshakeSafety.v ===== *)
(** What a finished handshake has established.

    The network may deliver anything, at any time and in any pieces, writes may
    fail or stall, and the actor may drop a step that waits and run it again: one
    [handshake_step] is a run of [advance_handshake_step] in an arbitrary world,
    and a handler is reachable when a sequence of such steps leads to it from a
    new connection.  The invariant below is proved with the Hoare rules of the
    I/O monad, procedure by procedure. *)

From S2P Require Import Prelude Error Utf8 Message Codec Command Framer Greeting Mechanism Plain Options.
From S2P Require Import Curve Noise Security Io Handler Handshake.

(** ** Lemmas *)

#[local] Set Warnings "-clear-no-such-hyp".

Section Safety.
Context `{HD : Dryoc} `{HS : Snow}.
Variable ephemeral : bytes.
Abbreviation handler := ZmtpProtocolHandlerX.

(** The fields of the handler that reading and writing leave alone. *)
Definition core (h : handler) : ZmtpEngineConfig * bool * HandshakeSubPhaseX * DynMechanism
                                * DynFramer DynCipher :=
  (h_config h, h_is_server h, sub_phase (handshake_state h), security_mechanism h, framer h).

(** A procedure that keeps a predicate of the core, however it ends. *)
Definition keeps {A} (P : handler -> Prop) (m : proc handler A) : Prop := hoare P m (fun _ => P) P.

(** A predicate of the core alone. *)
Class OfCore (P : handler -> Prop) := of_core : forall h h', core h = core h' -> P h -> P h'.

Lemma keeps_bind {A B} P (m : proc handler A) (k : A -> proc handler B) :
  keeps P m -> (forall a, keeps P (k a)) -> keeps P (m ≫= k).
Proof. intros Hm Hk. by eapply hoare_bind. Qed.

Lemma keeps_ret {A} P (a : A) : keeps P (mret a).
Proof. by apply hoare_ret. Qed.
Lemma keeps_get P : keeps P get.
Proof. by apply hoare_get. Qed.
Lemma keeps_now P : keeps P now.
Proof. by apply hoare_now. Qed.
Lemma keeps_fail {A} P e : keeps P (@fail _ A e).
Proof. by apply hoare_fail. Qed.
Lemma keeps_lift {A} P (r : result A) : keeps P (lift r).
Proof. by apply hoare_lift. Qed.
Lemma keeps_write P d data ep : keeps P (Io.write_all d data ep).
Proof. by apply hoare_write. Qed.
Lemma keeps_modify P f : (forall h, P h -> P (f h)) -> keeps P (modify f).
Proof. intros Hf. apply hoare_modify. exact Hf. Qed.
Lemma keeps_core `{OfCore P} f : (forall h, core (f h) = core h) -> keeps P (modify f).
Proof. intros Hf. apply keeps_modify. intros h. by apply of_core. Qed.

Lemma keeps_activity `{OfCore P} : keeps P Handler.record_activity.
Proof. apply keeps_bind; [apply keeps_now|]. intros t. by apply keeps_core. Qed.

Lemma keeps_stream P text : keeps P (Handler.need_stream text).
Proof.
  apply keeps_bind; [apply keeps_get|]. intros h.
  destruct (h_stream h); [apply keeps_ret|apply keeps_fail].
Qed.

Lemma keeps_read `{OfCore P} {A} (check : handler -> World -> Io.outcome (option A) * handler) dl ep :
  (forall h w, core (check h w).2 = core h) -> keeps P (read_until check Handler.absorb dl ep).
Proof.
  intros Hc. apply hoare_read; [|intros chunk t h; by apply of_core|done].
  intros h w Hp. specialize (Hc h w). destruct (check h w) as [[[a|]|e| |] h']; cbn in Hc;
    by eapply of_core.
Qed.

Lemma keeps_fill `{OfCore P} n d ep : keeps P (Handshake.fill n d ep).
Proof. apply keeps_bind; [apply keeps_now|]. intros t. by apply keeps_read. Qed.

Lemma parse_buffer_core h : core (Handshake.parse_buffer h).1 = core h.
Proof.
  unfold Handshake.parse_buffer. by destruct (ZmtpManualParser.decode_from_buffer _ _) as [[p buf] r].
Qed.

Lemma command_check_core h w : core (Handshake.command_check h w).2 = core h.
Proof.
  unfold Handshake.command_check. destruct (network_read_buffer h); [done|].
  pose proof (parse_buffer_core h) as Hp. destruct (Handshake.parse_buffer h) as [h' [[msg|]|e|]]; try done.
  by destruct (Msg.is_command msg).
Qed.

Lemma keeps_command `{OfCore P} d : keeps P (Handshake.read_handshake_command_frame d).
Proof.
  apply keeps_bind; [apply keeps_stream|]. intros _. apply keeps_bind; [apply keeps_now|].
  intros t. apply keeps_read, command_check_core.
Qed.

Lemma keeps_send `{OfCore P} msg d : keeps P (Handshake.send_handshake_command_frame msg d).
Proof.
  unfold Handshake.send_handshake_command_frame. destruct (ZmtpCodec.encode _ _) as [buf r].
  apply keeps_bind; [apply keeps_lift|]. intros _.
  apply keeps_bind; [apply keeps_stream|]. intros _.
  apply keeps_bind; [apply keeps_write|]. intros _. apply keeps_activity.
Qed.

Lemma keeps_ready `{OfCore P} d : keeps P (Handshake.read_ready d).
Proof.
  apply keeps_bind; [apply keeps_command|]. intros msg.
  apply keeps_bind; [apply keeps_lift|]. intros [[| |data| |]|]; try apply keeps_fail.
  apply keeps_bind; [|intros _; apply keeps_ret].
  destruct (properties data !! bs "Socket-Type") as [b|]; [|apply keeps_ret].
  destruct (utf8_valid b); [by apply keeps_core|apply keeps_ret].
Qed.

Lemma keeps_identity `{OfCore P} : keeps P Handshake.take_peer_identity.
Proof.
  apply keeps_bind; [apply keeps_get|]. intros h. apply keeps_bind; [by apply keeps_core|].
  intros _. apply keeps_ret.
Qed.

(** ** What a finished handshake has established *)

(** What the handshake does to a mechanism. *)
Inductive mech_step : DynMechanism -> DynMechanism -> Prop :=
| ms_produce m : mech_step m (produce_token DynCipher m).1
| ms_process m token : mech_step m (process_token DynCipher m token).1.

Section Secured.
Variable cfg : ZmtpEngineConfig.
Variable is_server : bool.
Hypothesis Hv2 : cfg_allow_zmtp2 cfg = false.

(** The mechanism was negotiated with the configuration and run since. *)
Definition derived (m : DynMechanism) : Prop :=
  exists g m0, negotiate_security_mechanism ephemeral is_server cfg g = Ok m0 /\ rtc mech_step m0 m.

(** The data-phase framer was made by a completed mechanism of that kind. *)
Definition made (h : handler) : Prop :=
  exists m id, derived m /\ is_complete DynCipher m = true /\
    into_framer DynCipher m (cfg_max_msg_size cfg) = Ok (framer h, id).

Definition final_phase (p : HandshakeSubPhaseX) : Prop :=
  p = ReadyExchange \/ p = ClientSentReady \/ p = ServerReceivedReady \/ p = PhaseDone.

Definition hinv (h : handler) : Prop :=
  h_config h = cfg /\ h_is_server h = is_server /\ sub_phase (handshake_state h) <> V2IdentityExchange /\
  (final_phase (sub_phase (handshake_state h)) -> made h) /\
  (mech_name DynCipher (security_mechanism h) = "NULL"%string \/ derived (security_mechanism h)).

Definition loop_inv (h : handler) : Prop := hinv h /\ derived (security_mechanism h).
Definition final_inv (h : handler) : Prop := hinv h /\ made h.

#[local] Instance hinv_core : OfCore hinv.
Proof.
  intros h h' E. unfold core in E. injection E as E1 E2 E3 E4 E5.
  unfold hinv, made. by rewrite E1, E2, E3, E4, E5.
Qed.
#[local] Instance loop_core : OfCore loop_inv.
Proof.
  intros h h' E [Hi Ha]. split; [by eapply of_core|].
  unfold core in E. injection E as _ _ _ E4 _. by rewrite <- E4.
Qed.
#[local] Instance final_core : OfCore final_inv.
Proof.
  intros h h' E [Hi Ha]. split; [by eapply of_core|].
  unfold core in E. injection E as _ _ _ _ E5. unfold made. by rewrite <- E5.
Qed.

(** Moving to a phase before the end. *)
Lemma hinv_phase p f h :
  ~ final_phase p -> p <> V2IdentityExchange ->
  (h_config (f h) = h_config h /\ h_is_server (f h) = h_is_server h /\ security_mechanism (f h) = security_mechanism h) ->
  hinv h -> hinv (Handler.set_phase p (f h)).
Proof.
  intros Hp Hp' (E1 & E2 & E3) (Hc & Hs & _ & _ & Hm). unfold hinv.
  cbn [Handler.set_phase handshake_state sub_phase].
  split_and!; [by rewrite <- Hc, <- E1|by rewrite <- Hs, <- E2|done|done|by rewrite <- E3 in Hm].
Qed.

Lemma keeps_state {A} P (m : handler -> proc handler A) :
  (forall h, hoare (fun h' => h' = h /\ P h') (m h) (fun _ => P) P) -> keeps P (h ← get; m h).
Proof.
  intros Hm. eapply (hoare_bind _ _ _ (fun h h' => h' = h /\ P h')); [by apply hoare_get|]. apply Hm.
Qed.

Lemma keeps_mechanism {A} (op : DynMechanism -> DynMechanism * result A) :
  (forall m, mech_step m (op m).1) -> keeps loop_inv (Handshake.with_mechanism op).
Proof.
  intros Hop. apply keeps_state. intros h. specialize (Hop (security_mechanism h)).
  destruct (op (security_mechanism h)) as [m r]. cbn [fst] in Hop.
  eapply (hoare_bind _ _ _ (fun _ => loop_inv)); [|intros _; by apply keeps_lift].
  apply hoare_modify. intros h' [-> [(Hc & Hs & Hp & Hf & _) (g & m0 & Hm0 & Hr)]].
  assert (derived m) by (exists g, m0; split; [done|by eapply rtc_r]).
  split; [split_and!; [done..|by right]|done].
Qed.

Lemma keeps_round d : keeps loop_inv (Handshake.security_round d).
Proof.
  apply keeps_bind; [apply keeps_mechanism, ms_produce|].
  intros [t|]; [apply keeps_send; apply _|].
  apply keeps_bind; [apply keeps_command; apply _|]. intros msg.
  apply keeps_bind; [apply keeps_mechanism; intros m; apply ms_process|].
  intros [| |]; [apply keeps_ret| |apply keeps_ret].
  apply keeps_bind; [apply keeps_mechanism, ms_produce|].
  intros [t|]; [apply keeps_send; apply _|apply keeps_fail].
Qed.

Lemma finish_spec h :
  hoare (fun h' => h' = h /\ loop_inv h' /\ is_complete DynCipher (security_mechanism h) = true)
    Handshake.finish_security (fun _ => hinv) hinv.
Proof.
  intros h' w (-> & [(Hc & Hs & Hp & Hf & _) Ha] & Hd). unfold Handshake.finish_security, mbind, proc_bind.
  cbn [get modify lift mret proc_ret].
  destruct (into_framer DynCipher (security_mechanism h) _) as [[f id]|e|] eqn:E;
    [|by split_and!; [..|left]..].
  split_and!; [done|done|done| |by left]. intros _. exists (security_mechanism h), id.
  by rewrite Hc in E.
Qed.

Lemma loop_spec fuel d : hoare loop_inv (Handshake.security_loop fuel d) (fun _ => hinv) hinv.
Proof.
  assert (Hweak : forall h, loop_inv h -> hinv h) by by intros h [].
  induction fuel as [|fuel IH]; cbn [Handshake.security_loop];
    (eapply (hoare_bind _ _ _ (fun h h' => h' = h /\ loop_inv h')); [by apply hoare_get|]; intros h);
    (destruct (is_complete DynCipher (security_mechanism h)) eqn:Hd;
     [eapply hoare_conseq; [apply (finish_spec h)|naive_solver..]|]);
    (destruct (is_error DynCipher (security_mechanism h)); [apply hoare_fail; naive_solver|]);
    (eapply (hoare_bind _ _ _ (fun _ => loop_inv));
     [eapply hoare_conseq; [apply (keeps_round d)|naive_solver..]|]); intros _.
  - intros h' w Hi. by apply Hweak.
  - exact IH.
Qed.

Lemma negotiate_spec : hoare hinv (Handshake.negotiate_once ephemeral) (fun _ => loop_inv) hinv.
Proof.
  intros h w Hi. unfold Handshake.negotiate_once, mbind, proc_bind. cbn [get].
  case_bool_decide as Hn.
  - destruct (pending_peer_greeting h) as [g|]; [|done]. cbn [ok_or lift].
    destruct (negotiate_security_mechanism _ _ _ _) as [m|e|] eqn:E; [|done..].
    destruct Hi as (Hc & Hs & Hp & Hf & _). rewrite Hc, Hs in E.
    assert (derived m) by (by exists g, m; split).
    split; [split_and!; [done..|by right]|done].
  - cbn. destruct Hi as (Hc & Hs & Hp & Hf & [Hm|Hm]); [done|]. split; [split_and!; [done..|by right]|done].
Qed.

Lemma keeps_signature d : keeps hinv (Handshake.send_signature d).
Proof.
  apply keeps_bind; [apply keeps_stream|]. intros _.
  apply keeps_bind; [apply keeps_write|]. intros _.
  apply keeps_bind; [apply keeps_write|]. intros _.
  apply keeps_bind; [apply keeps_activity; apply _|]. intros _.
  apply keeps_bind; [|intros _; apply keeps_ret].
  apply keeps_modify. intros h. apply hinv_phase; [by intros [|[|[]]]|done..].
Qed.

(** The downgrade to ZMTP 2.0 is refused. *)
Lemma keeps_v2_tail d : keeps hinv (Handshake.write_v2_tail_and_advance d).
Proof.
  apply keeps_state. intros h h' w [-> Hi].
  destruct Hi as (Hc & Hi). by rewrite Hc, Hv2.
Qed.

Lemma keeps_revision d : keeps hinv (Handshake.wait_for_peer_revision d).
Proof.
  apply keeps_bind.
  { apply keeps_bind; [apply keeps_stream|]. intros _. apply keeps_bind; [apply keeps_fill; apply _|]. intros _.
    apply keeps_bind; [apply keeps_get|]. intros h. apply keeps_bind; [apply keeps_lift|]. intros b. apply keeps_lift. }
  intros r. case_bool_decide; [apply keeps_v2_tail|]. destruct (_ <=? _); [|apply keeps_fail].
  apply keeps_bind; [apply keeps_get|]. intros h.
  apply keeps_bind; [apply keeps_stream|]. intros _.
  apply keeps_bind; [apply keeps_write|]. intros _. apply keeps_bind; [apply keeps_write|]. intros _.
  apply keeps_bind; [|intros _; apply keeps_ret].
  apply keeps_modify. intros h'. apply (hinv_phase _ id); [by intros [|[|[]]]|done..].
Qed.

Lemma keeps_greeting d : keeps hinv (Handshake.receive_greeting d).
Proof.
  apply keeps_bind; [apply keeps_stream|]. intros _. apply keeps_bind; [apply keeps_fill; apply _|]. intros _.
  apply keeps_bind; [apply keeps_get|]. intros h. destruct (ZmtpGreeting.decode _) as [buf r].
  apply keeps_bind; [by apply keeps_core|]. intros _. apply keeps_bind; [apply keeps_lift|].
  intros [pg|]; [|apply keeps_fail]. destruct (g_version pg) as [major minor].
  destruct (_ <? _); [apply keeps_fail|]. apply keeps_bind; [|intros _; apply keeps_ret].
  apply keeps_modify. intros h'. apply (hinv_phase _ (fun h => h <| negotiated_version := _ |> <| pending_peer_greeting := _ |>)); [by intros [|[|[]]]|done..].
Qed.

(** In the phases after the security handshake the framer stays. *)
Lemma final_phase_kept p f h :
  p <> V2IdentityExchange -> core (f h) = core h -> final_inv h -> final_inv (Handler.set_phase p (f h)).
Proof.
  intros Hp E Hi. apply (of_core _ (f h) (symmetry E)) in Hi.
  destruct Hi as [(Hc & Hs & _ & _ & Hm) Hf]. by split; [split_and!|].
Qed.

Lemma keeps_exchange d : keeps final_inv (Handshake.perform_ready_exchange_step d).
Proof.
  apply keeps_bind; [apply keeps_get|]. intros h. destruct (negb _).
  - apply keeps_bind; [apply keeps_send; apply _|]. intros _. apply keeps_bind; [|intros _; apply keeps_ret].
    apply keeps_modify. intros h'. by apply (final_phase_kept _ id).
  - apply keeps_bind; [apply keeps_ready; apply _|]. intros data. apply keeps_bind; [|intros _; apply keeps_ret].
    apply keeps_modify. intros h'. by apply (final_phase_kept _ (fun h => h <| handshake_state := _ |>)).
Qed.

Lemma keeps_client_ready d : keeps final_inv (Handshake.client_receive_peer_ready d).
Proof.
  apply keeps_bind; [apply keeps_ready; apply _|]. intros data. apply keeps_bind; [|intros _; apply keeps_ret].
  apply keeps_modify. intros h'. by apply (final_phase_kept _ id).
Qed.

Lemma keeps_server_ready d : keeps final_inv (Handshake.server_send_ready d).
Proof.
  apply keeps_bind; [apply keeps_get|]. intros h. apply keeps_bind; [apply keeps_send; apply _|]. intros _.
  apply keeps_bind; [apply keeps_identity; apply _|]. intros data. apply keeps_bind; [|intros _; apply keeps_ret].
  apply keeps_modify. intros h'. by apply (final_phase_kept _ id).
Qed.

Lemma step_keeps : keeps hinv (Handshake.advance_handshake_step ephemeral).
Proof.
  apply keeps_state. intros h.
  assert (Hearly : forall m : proc handler ZmtpHandshakeProgressX, keeps hinv m -> hoare (fun h' => h' = h /\ hinv h') m (fun _ => hinv) hinv).
  { intros m Hm. by eapply hoare_conseq; [exact Hm|intros h' []|..]. }
  assert (Hlate : forall m : proc handler ZmtpHandshakeProgressX, final_phase (sub_phase (handshake_state h)) -> keeps final_inv m ->
    hoare (fun h' => h' = h /\ hinv h') m (fun _ => hinv) hinv).
  { intros m Hp Hm. eapply hoare_conseq; [exact Hm| |by intros ? h' []|by intros h' []].
    intros h' [-> Hi]. split; [exact Hi|]. destruct Hi as (_ & _ & _ & Hf & _). by apply Hf. }
  unfold final_phase in Hlate. destruct (sub_phase (handshake_state h)) eqn:Ep.
  - apply Hearly, keeps_signature.
  - apply Hearly, keeps_revision.
  - apply Hearly, keeps_greeting.
  - apply Hearly. apply (hoare_bind _ _ _ (fun _ => loop_inv)); [apply negotiate_spec|intros _; apply loop_spec].
  - apply Hlate; [auto|apply keeps_exchange].
  - apply Hlate; [auto|apply keeps_client_ready].
  - apply Hlate; [auto|apply keeps_server_ready].
  - intros h' w [-> (_ & _ & Hp & _)]. by destruct (Hp Ep).
  - apply Hearly, keeps_ret.
Qed.

(** One call of [advance_handshake_step], whatever the network does. *)
Definition handshake_step (h h' : handler) : Prop :=
  exists w r w', Handshake.advance_handshake_step ephemeral h w = (r, h', w').

Lemma reachable_inv t0 h : rtc handshake_step (Handler.new cfg is_server t0) h -> hinv h.
Proof.
  intros Hr. refine (rtc_invariant handshake_step hinv _ _ Hr _ _).
  - split_and!; [done..|by intros [|[|[]]]|by left].
  - intros h1 h2 Hi (w & r & w' & E). pose proof (step_keeps h1 w Hi) as Hk. rewrite E in Hk. by destruct r.
Qed.

(** ** What the derived mechanisms have established *)

(** Running a mechanism keeps its kind. *)
Lemma mech_steps_kind m0 m :
  rtc mech_step m0 m ->
  match m0 with
  | MNull _ => exists n, m = MNull n
  | MPlain p0 => exists p, m = MPlain p /\ rtc plain_step p0 p
  | MCurve _ => exists c, m = MCurve c
  | MNoise n0 => exists n, m = MNoise n /\ rtc noise_step n0 n
  end.
Proof.
  intros Hr. refine (rtc_invariant mech_step (fun m => match m0 with _ => _ end) m0 m Hr _ _).
  - destruct m0; by eexists.
  - intros m1 m2 Hm1 Hs. destruct m0 as [n0|p0|c0|n0]; [destruct Hm1 as [n ->]|destruct Hm1 as (n & -> & Hn)
      |destruct Hm1 as [n ->]|destruct Hm1 as (n & -> & Hn)]; inv Hs; cbn [produce_token process_token dyn_mechanism];
      try by eexists.
    + pose proof (step_produce n). cbn. destruct (PlainMechanism.produce_token n). eexists. split; [done|by eapply rtc_r].
    + pose proof (step_process n token). cbn. destruct (PlainMechanism.process_token n token).
      eexists. split; [done|by eapply rtc_r].
    + cbn. destruct (CurveMechanism.produce_token n). by eexists.
    + cbn. destruct (CurveMechanism.process_token n token). by eexists.
    + pose proof (ns_produce n). cbn. destruct (NoiseXxMechanism.produce_token n). eexists. split; [done|by eapply rtc_r].
    + pose proof (ns_process n token). cbn. destruct (NoiseXxMechanism.process_token n token).
      eexists. split; [done|by eapply rtc_r].
Qed.

(** A PLAIN server's credentials, from the configuration to the ready mechanism. *)
Lemma derived_plain p :
  derived (MPlain p) -> is_server = true -> PlainMechanism.status p = StReady ->
  is_Some (cfg_plain_username_for_engine cfg) /\ is_Some (cfg_plain_password_for_engine cfg) /\
  username p = cfg_plain_username_for_engine cfg /\ password p = cfg_plain_password_for_engine cfg.
Proof.
  intros (g & m0 & Hneg & Hr) Hsrv Hready. apply negotiate_inv in Hneg as (_ & _ & Hinit).
  apply mech_steps_kind in Hr. destruct m0 as [n|p0|c|n]; [by destruct Hr| |by destruct Hr|by destruct Hr as (? & ? & _)].
  destruct Hr as (p' & [= <-] & Hr). rewrite Hsrv in Hinit. injection Hinit as <-.
  refine (accepted_ready _ _ p _ (or_introl Hready)).
  eapply rtc_invariant; [exact Hr|apply accepted_new|by intros; eapply accepted_step].
Qed.

(** A NOISE_XX client's peer, likewise. *)
Lemma derived_noise n :
  derived (MNoise n) -> current_status n = StReady ->
  is_Some (transport_state n) /\
  (is_server = false -> verified_peer_static_pk n = cfg_noise_xx_remote_pk cfg).
Proof.
  intros (g & m0 & Hneg & Hr) Hready. apply negotiate_inv in Hneg as (_ & _ & Hinit).
  apply mech_steps_kind in Hr. destruct m0 as [n'|p0|c|n0]; [by destruct Hr|by destruct Hr as (? & ? & _)|by destruct Hr|].
  destruct Hr as (n' & [= <-] & Hr). unfold initialize_noise_xx in Hinit.
  destruct (cfg_noise_xx_local_sk cfg) as [sk|]; [|done].
  assert (noise_inv is_server (cfg_noise_xx_remote_pk cfg) n) as (_ & _ & Hi).
  { eapply rtc_invariant; [exact Hr|exact (noise_inv_new _ _ _ _ Hinit)|by intros; eapply noise_step_inv]. }
  by destruct (Hi Hready) as (? & _ & ?).
Qed.

Lemma derived_allowed m : derived m -> mech_allowed cfg m.
Proof.
  intros (g & m0 & (_ & Ha & _)%negotiate_inv & Hr%mech_steps_kind).
  destruct m0; [destruct Hr as [? ->]|destruct Hr as (? & -> & _)|destruct Hr as [? ->]|destruct Hr as (? & -> & _)];
    exact Ha.
Qed.

End Secured.
End Safety.

(** A handshake driven step by step in a given world. *)
Fixpoint run_handshake `{Dryoc} `{Snow} (e : bytes) (n : nat) (h : ZmtpProtocolHandlerX) (w : World)
  : ZmtpProtocolHandlerX * World :=
  match n with
  | O => (h, w)
  | S n => let '(_, h, w) := Handshake.advance_handshake_step e h w in run_handshake e n h w
  end.

Lemma run_handshake_steps `{Dryoc} `{Snow} e n h w :
  rtc (handshake_step e) h (run_handshake e n h w).1.
Proof.
  revert h w. induction n as [|n IH]; intros h w; [apply rtc_refl|]. cbn [run_handshake].
  destruct (Handshake.advance_handshake_step e h w) as [[r h'] w'] eqn:E.
  eapply rtc_l; [by exists w, r, w'|apply IH].
Qed.

(** What the peer of a PLAIN server sends: greeting, HELLO, READY. *)
Definition plain_peer_octets : bytes :=
  let cmd body := (ZmtpCodec.encode (Msg.set_flags MsgFlags.COMMAND (Msg.from_vec body)) []).1 in
  encode_signature [] ++ [GREETING_VERSION_MAJOR_BYTE] ++
  encode_v3_tail_post_major PlainMechanism.NAME_BYTES false [] ++
  cmd (default [] (default None (ok (PlainMechanism.produce_token
         (plain_client (Some (bs "u")) (Some (bs "p")))).2))) ++
  (ZmtpCodec.encode (Msg.set_flags MsgFlags.COMMAND
     (ZmtpReady.create_msg [(bs "Socket-Type", bs "REQ")])) []).1.

(** What the framer of a complete handshake shows. *)
Definition secured_framer `{Dryoc} `{Snow} (o : SocketOptions) (is_server : bool) (f : DynFramer DynCipher) : Prop :=
  exists m id, is_complete DynCipher m = true /\
    into_framer DynCipher m (maxmsgsize o) = Ok (f, id) /\
    match m with
    | MNull _ => plain_enabled (plain_options o) = false /\ noise_enabled (noise_xx_options o) = false /\
                 curve_enabled (curve_options o) = false
    | MPlain p => plain_enabled (plain_options o) = true /\
        (is_server = true -> is_Some (plain_username (plain_options o)) /\
           is_Some (plain_password (plain_options o)) /\
           username p = plain_username (plain_options o) /\ password p = plain_password (plain_options o))
    | MCurve _ => curve_enabled (curve_options o) = true /\
        exists c, f = DynLengthPrefixed (LengthPrefixedFramer.new (CCurve c) (maxmsgsize o))
    | MNoise n => noise_enabled (noise_xx_options o) = true /\
        (exists c, f = DynLengthPrefixed (LengthPrefixedFramer.new (CNoise c) (maxmsgsize o))) /\
        (is_server = false -> id = remote_static_public_key_bytes (noise_xx_options o))
    end.

(** What a complete handshake of [h] has established. *)
Definition secured `{Dryoc} `{Snow} (o : SocketOptions) (is_server : bool) (h : ZmtpProtocolHandlerX) : Prop :=
  secured_framer o is_server (framer h).

Lemma derived_secured `{Dryoc} `{Snow} e o is_server m f id :
  derived e (engine_config o) is_server m -> is_complete DynCipher m = true ->
  into_framer DynCipher m (maxmsgsize o) = Ok (f, id) -> secured_framer o is_server f.
Proof.
  intros Hd Hc Hfr. exists m, id. split; [done|]. split; [done|].
  pose proof (derived_allowed _ _ _ m Hd) as Ha.
  destruct m as [m|m|m|m]; cbn [mech_allowed] in Ha.
  - by apply orb_false_elim in Ha as [[]%orb_false_elim].
  - split; [done|]. intros Hs. apply (derived_plain _ _ _ m Hd Hs). by apply bool_decide_eq_true in Hc.
  - split; [done|]. cbn in Hfr. unfold CurveMechanism.into_framer in Hfr. destruct (negb _); [done|].
    destruct (CurveHandshake.into_data_cipher (cm_handshake m)) as [c| |]; [|done..].
    exists c. by apply Ok_inj in Hfr as [= <- _].
  - split; [done|]. cbn in Hfr. unfold NoiseXxMechanism.into_framer in Hfr.
    destruct (bool_decide (current_status m = StReady)) eqn:Er; [|done]. apply bool_decide_eq_true in Er.
    destruct (derived_noise _ _ _ m Hd Er) as ([ts Hts] & Hv).
    unfold NoiseXxMechanism.into_data_cipher in Hfr. rewrite Er, Hts in Hfr.
    apply Ok_inj in Hfr as [= <- <-]. split; [by eexists|exact Hv].
Qed.

Lemma reachable_secured `{Dryoc} `{Snow} e o is_server t0 h :
  allow_zmtp2 o = false -> rtc (handshake_step e) (Handler.new (engine_config o) is_server t0) h ->
  Handler.is_handshake_complete h = true -> secured o is_server h.
Proof.
  intros Hv2 Hrun Hdone.
  apply (reachable_inv e (engine_config o) is_server Hv2) in Hrun as (_ & _ & _ & Hf & _).
  apply bool_decide_eq_true in Hdone. destruct Hf as (m & id & Hd & Hc & Hfr); [by right; right; right|].
  by eapply derived_secured.
Qed.

(** ** Properties *)


