(* ===== verification/HandshakeLive.v ===== *)
(** Two rzmq peers that talk NULL reach the end of the handshake.

    The two handlers run their steps in any order; each step sees any part of
    what the other side has sent, cut into any pieces, and may be left waiting
    and started again.  Writes complete and the pieces of a step arrive within
    its timeout.  A peer is described by its stage, the octets it has received
    and the stage's demand; [step_stage] is the refinement of
    [advance_handshake_step] by these stages, and the theorem follows from the
    way the demands of two peers interlock. *)

From S2P Require Import Prelude Error Utf8 Message Codec Command Framer Greeting Mechanism Plain Options.
From S2P Require Import Curve Noise Security Io Handler Handshake HandshakeSafety.

(** ** One peer *)

Lemma stream_there `{Dryoc} `{Snow} text (h : ZmtpProtocolHandlerX) w : h_stream h = true -> Handler.need_stream text h w = (Done tt, h, w).
Proof. unfold Handler.need_stream, mbind, proc_bind. cbn. by intros ->. Qed.

Lemma activity_done `{Dryoc} `{Snow} (h : ZmtpProtocolHandlerX) w : Handler.record_activity h w = (Done tt, Handler.activity (w_now w) h, w).
Proof. done. Qed.

(** Run the procedure at the head of the goal as far as its effects are known. *)
Ltac run :=
  repeat match goal with
  | |- context [?m ≫= ?k] =>
      erewrite (bind_done m k) by
        first [apply write_done | eapply stream_there; eassumption | apply activity_done | reflexivity]
  end.

Section Peer.
Context `{HD : Dryoc} `{HS : Snow}.
Variable ephemeral : bytes.
Variable cfg : ZmtpEngineConfig.
Variable role : bool.
Abbreviation handler := ZmtpProtocolHandlerX.

(** What the other side sends: a greeting, then a READY. *)
Variable G : bytes.
Variable g : ZmtpGreeting.
Variable ready : Msg.
Variable props : ZmtpReady.
Variable stype : bytes.
Abbreviation IN := (G ++ wire ready).

Hypothesis HG : zlen G = GREETING_LENGTH.
Hypothesis Hpeek : forall rest, peek_revision (take 11 (G ++ rest)) = Ok GREETING_VERSION_MAJOR_BYTE.
Hypothesis Hdecode : forall rest, ZmtpGreeting.decode (G ++ rest) = (rest, Ok (Some g)).
Hypothesis Hversion : g_version g = (Byte.x03, Byte.x00).
Hypothesis Hnull : negotiate_security_mechanism ephemeral role cfg g = Ok (MNull mkNullMechanism).
Hypothesis Hcommand : Msg.is_command (norm_msg ready) = true.
Hypothesis Hsize : 0 < Msg.size ready < 2 ^ 64.
Hypothesis Hlimit : parser_limit (cfg_max_msg_size cfg) (Msg.size ready) = None.
Hypothesis Hparse : ZmtpCommand.parse (norm_msg ready) = Ok (Some (Ready props)).
Hypothesis Hstype : properties props !! bs "Socket-Type" = Some stype.
Hypothesis Hutf8 : utf8_valid stype = true.

Definition timeout : Duration := default (secs 15) (cfg_handshake_timeout cfg).

(** The stages of a NULL handshake. *)
Inductive stage := S0 | S1 | S2 | S3 | S4 | S5 | S6.
#[export] Instance stage_eq_dec : EqDecision stage.
Proof. solve_decision. Defined.

Definition phase_of (k : stage) : HandshakeSubPhaseX :=
  match k with
  | S0 => GreetingExchange
  | S1 => WaitingForPeerRevision
  | S2 => WaitingForGreeting
  | S3 => SecurityHandshake
  | S4 => ReadyExchange
  | S5 => if role then ServerReceivedReady else ClientSentReady
  | S6 => PhaseDone
  end.

Definition next (k : stage) : stage :=
  match k with S0 => S1 | S1 => S2 | S2 => S3 | S3 => S4 | S4 => S5 | S5 => S6 | S6 => S6 end.

(** The octets a stage has taken off the stream. *)
Definition consumed (k : stage) : bytes :=
  match k with
  | S0 | S1 | S2 => []
  | S3 | S4 => G
  | S5 => if role then IN else G
  | S6 => IN
  end.

(** How many octets must have arrived before a stage is left. *)
Definition demand (k : stage) : Z :=
  match k with
  | S1 => 11
  | S2 => GREETING_LENGTH
  | S4 => if role then zlen IN else 0
  | S5 => if role then 0 else zlen IN
  | _ => 0
  end.

Definition own_ready : bytes :=
  wire (Msg.set_flags MsgFlags.COMMAND (ZmtpReady.create_msg (map_to_list (Handshake.ready_properties cfg)))).

(** What leaving a stage writes. *)
Definition output (k : stage) : bytes :=
  match k with
  | S0 => encode_signature [] ++ [GREETING_VERSION_MAJOR_BYTE]
  | S1 => encode_v3_tail_post_major (determine_own_greeting_mechanism role cfg) role []
  | S4 => if role then [] else own_ready
  | S5 => if role then own_ready else []
  | _ => []
  end.

Definition early (k : stage) : bool := match k with S0 | S1 | S2 | S3 => true | _ => false end.

(** The peer's READY has been read. *)
Definition seen (k : stage) : bool := match k with S5 => role | S6 => true | _ => false end.

(** The handler at a stage, having received [s]. *)
Record at_stage (k : stage) (s : bytes) (h : handler) : Prop := {
  as_config : h_config h = cfg;
  as_role : h_is_server h = role;
  as_stream : h_stream h = true;
  as_phase : sub_phase (handshake_state h) = phase_of k;
  as_max : max_msg_size (zmtp_manual_parser h) = cfg_max_msg_size cfg;
  as_parser : state_wf (parser_limit (cfg_max_msg_size cfg)) (mp_state (zmtp_manual_parser h));
  as_fresh : early k = true -> mp_state (zmtp_manual_parser h) = ReadHeader;
  as_octets : s = consumed k ++ state_pending (mp_state (zmtp_manual_parser h)) ++ network_read_buffer h;
  as_start : k = S0 -> s = [];
  as_mech : early k = true -> security_mechanism h = MNull mkNullMechanism;
  as_greeting : k = S3 -> pending_peer_greeting h = Some g;
  as_peer : seen k = true -> peer_socket_type (handshake_state h) = Some stype;
}.

Definition valid (s : bytes) : Prop := s `prefix_of` IN.

Lemma valid_prefix s c : valid (s ++ c) -> valid s.
Proof. intros [k E]. exists (c ++ k). by rewrite E, app_assoc. Qed.

Lemma valid_pre s pre post : valid (s ++ inbox_bytes (pre ++ post)) -> valid (s ++ inbox_bytes pre).
Proof. unfold inbox_bytes. rewrite fmap_app, concat_app, app_assoc. apply valid_prefix. Qed.

(** Taking octets in. *)
Lemma absorb_stage k s c t h : k <> S0 -> at_stage k s h -> at_stage k (s ++ c) (Handler.absorb c t h).
Proof.
  intros Hk []. split; try done; cbn.
  rewrite as_octets0 at 1. by rewrite <- !app_assoc.
Qed.

(** The buffer of the early stages holds everything. *)
Lemma early_buffer k s h : at_stage k s h -> k = S1 \/ k = S2 -> network_read_buffer h = s.
Proof. intros [] Hk. rewrite as_octets0, as_fresh0; [|by destruct Hk; subst]. by destruct Hk; subst. Qed.

(** [fill], at a stage that keeps everything it receives. *)
Lemma fill_stage k n ep s h inbox corks sent t :
  k = S1 \/ k = S2 -> at_stage k s h -> clean inbox -> valid (s ++ inbox_bytes inbox) ->
  inbox_time inbox < timeout ->
  exists h' pre post t', inbox = pre ++ post /\
    ((Handshake.fill n timeout ep h (mkWorld inbox [] corks sent t) = (Done tt, h', mkWorld post [] corks sent t') /\
      n <= zlen (s ++ inbox_bytes pre) /\ at_stage k (s ++ inbox_bytes pre) h') \/
     (Handshake.fill n timeout ep h (mkWorld inbox [] corks sent t) = (Pending, h', mkWorld [] [] corks sent t') /\
      post = [] /\ zlen (s ++ inbox_bytes inbox) < n /\ at_stage k (s ++ inbox_bytes inbox) h')).
Proof.
  intros Hk Hat Hc Hv Ht.
  destruct (read_delivered (Handshake.have n) Handler.absorb valid (at_stage k) (fun s => n <=? zlen s)
    (fun s _ h => at_stage k s h) valid_prefix) with (inbox := inbox) (dl := Some (t + timeout)) (ep := ep) (s := s)
    (h := h) (w := mkWorld inbox [] corks sent t) as (h' & pre & post & -> & Hres); try done.
  - intros s' h' w _ Hi He. exists tt, h'. split; [|done]. unfold Handshake.have.
    rewrite (early_buffer _ _ _ Hi Hk). by replace (_ <? _) with false by lia.
  - intros s' h' w _ Hi He. exists h'. split; [|done]. unfold Handshake.have.
    rewrite (early_buffer _ _ _ Hi Hk). by replace (_ <? _) with true by lia.
  - intros s' c t' h'. apply absorb_stage. by destruct Hk; subst.
  - cbn. lia.
  - exists h', pre, post, (t + inbox_time pre). split; [done|]. cbn zeta in Hres.
    destruct Hres as [([] & Hr & He & Hj)|(Hr & -> & He & Hj)].
    + left. split; [exact Hr|]. split; [lia|done].
    + right. split; [exact Hr|]. split; [done|]. split; [lia|done].
Qed.

(** One step, by stages. *)
Definition step_result (k : stage) (s : bytes) (inbox : list ReadEvent) corks (sent : bytes)
  (res : Io.outcome ZmtpHandshakeProgressX * handler * World) : Prop :=
  exists h' pre post t, inbox = pre ++ post /\
    ((exists p, res = (Done p, h', mkWorld post [] corks (sent ++ output k) t) /\
        demand k <= zlen (s ++ inbox_bytes pre) /\ at_stage (next k) (s ++ inbox_bytes pre) h') \/
     (res = (Pending, h', mkWorld [] [] corks sent t) /\ post = [] /\
        zlen (s ++ inbox_bytes inbox) < demand k /\ at_stage k (s ++ inbox_bytes inbox) h')).

Lemma signature_stage s h inbox corks sent t :
  at_stage S0 s h -> step_result S0 s inbox corks sent (Handshake.send_signature timeout h (mkWorld inbox [] corks sent t)).
Proof.
  intros []. unfold Handshake.send_signature. run.
  eexists _, [], inbox, _. split; [done|]. left. eexists. split; [|split].
  - rewrite app_nil_r. reflexivity.
  - apply zlen_nonneg.
  - cbn [inbox_bytes fmap list_fmap concat]. rewrite as_start0 by done. split; try done; cbn; auto.
    by rewrite as_fresh0.
Qed.

Lemma valid_take n s : valid s -> Z.of_nat n <= zlen s -> take n s = take n IN.
Proof. intros [k ->] Hn. rewrite take_app_le; [done|]. unfold zlen in Hn. lia. Qed.

Lemma valid_greeting s : valid s -> GREETING_LENGTH <= zlen s -> s = G ++ drop (length G) s.
Proof.
  intros Hv Hl. rewrite <- (take_drop (length G) s) at 1. f_equal.
  rewrite (valid_take _ _ Hv); [by rewrite take_app_length|]. unfold zlen in HG. by rewrite HG.
Qed.

Lemma peek_stage s h inbox corks sent t :
  at_stage S1 s h -> clean inbox -> valid (s ++ inbox_bytes inbox) -> inbox_time inbox < timeout ->
  let res := Handshake.read_peer_signature_and_peek_revision timeout (SIGNATURE_LENGTH + 1) h
               (mkWorld inbox [] corks sent t) in
  exists h' pre post t', inbox = pre ++ post /\
    ((res = (Done GREETING_VERSION_MAJOR_BYTE, h', mkWorld post [] corks sent t') /\
      11 <= zlen (s ++ inbox_bytes pre) /\ at_stage S1 (s ++ inbox_bytes pre) h') \/
     (res = (Pending, h', mkWorld [] [] corks sent t') /\
      post = [] /\ zlen (s ++ inbox_bytes inbox) < 11 /\ at_stage S1 (s ++ inbox_bytes inbox) h')).
Proof.
  intros Hat Hc Hv Ht. pose proof Hat as [].
  destruct (fill_stage S1 11 "g peek read" s h inbox corks sent t (or_introl eq_refl) Hat Hc Hv Ht)
    as (h' & pre & post & t' & -> & Hres). cbn zeta.
  exists h', pre, post, t'. split; [done|].
  unfold Handshake.read_peer_signature_and_peek_revision. run. change (SIGNATURE_LENGTH + 1) with 11.
  destruct Hres as [(E & Hl & Hat')|(E & -> & Hl & Hat')]; [left|right].
  - rewrite (bind_done _ _ _ _ _ _ _ E). run. split; [|done].
    rewrite (early_buffer _ _ _ Hat' (or_introl eq_refl)).
    pose proof (valid_pre _ _ _ Hv) as Hv'.
    assert (Es : slice_to (s ++ inbox_bytes pre) 11 = Ok (take 11 IN)).
    { unfold slice_to. replace (_ && _) with true by lia. by rewrite <- (valid_take 11 _ Hv'). }
    rewrite Es. run. by rewrite Hpeek.
  - by rewrite (bind_pending _ _ _ _ _ _ E).
Qed.

Lemma revision_stage s h inbox corks sent t :
  at_stage S1 s h -> clean inbox -> valid (s ++ inbox_bytes inbox) -> inbox_time inbox < timeout ->
  step_result S1 s inbox corks sent (Handshake.wait_for_peer_revision timeout h (mkWorld inbox [] corks sent t)).
Proof.
  intros Hat Hc Hv Ht.
  destruct (peek_stage s h inbox corks sent t Hat Hc Hv Ht) as (h' & pre & post & t' & -> & Hres).
  destruct Hres as [(E & Hl & Hat')|(E & -> & Hl & Hat')]; unfold Handshake.wait_for_peer_revision.
  - rewrite (bind_done _ _ _ _ _ _ _ E). cbn match. pose proof Hat' as [].
    change (bool_decide (GREETING_VERSION_MAJOR_BYTE = ZmtpV2Greeting.REVISION)) with false.
    change (byteZ GREETING_VERSION_MAJOR_BYTE <=? byteZ GREETING_VERSION_MAJOR_BYTE) with true.
    cbn match. unfold Handshake.write_v3_tail_and_advance. run.
    eexists _, pre, post, _. split; [done|]. left. eexists. split; [|split].
    + rewrite app_nil_r, as_config0, as_role0. reflexivity.
    + done.
    + by split.
  - rewrite (bind_pending _ _ _ _ _ _ E). exists h', pre, [], t'. split; [done|]. by right.
Qed.

Lemma greeting_stage s h inbox corks sent t :
  at_stage S2 s h -> clean inbox -> valid (s ++ inbox_bytes inbox) -> inbox_time inbox < timeout ->
  step_result S2 s inbox corks sent (Handshake.receive_greeting timeout h (mkWorld inbox [] corks sent t)).
Proof.
  intros Hat Hc Hv Ht. pose proof Hat as [].
  destruct (fill_stage S2 GREETING_LENGTH "g read" s h inbox corks sent t (or_intror eq_refl) Hat Hc Hv Ht)
    as (h' & pre & post & t' & -> & Hres). unfold Handshake.receive_greeting. run.
  destruct Hres as [(E & Hl & Hat')|(E & -> & Hl & Hat')].
  - rewrite (bind_done _ _ _ _ _ _ _ E). run. rewrite (early_buffer _ _ _ Hat' (or_intror eq_refl)).
    pose proof (valid_pre _ _ _ Hv) as Hv'.
    rewrite (valid_greeting _ Hv' Hl), Hdecode. run. cbn match. rewrite Hversion.
    change (byteZ Byte.x03 <? 3) with false. cbn match. run.
    eexists _, pre, post, _. split; [done|]. left. eexists. split; [rewrite app_nil_r; reflexivity|].
    split; [done|]. destruct Hat'. split; try done. cbn.
    rewrite as_fresh1 by done. by apply valid_greeting.
  - rewrite (bind_pending _ _ _ _ _ _ E). exists h', pre, [], t'. split; [done|]. by right.
Qed.

Lemma security_stage s h inbox corks sent t :
  at_stage S3 s h ->
  step_result S3 s inbox corks sent
    (Handshake.perform_security_handshake_step ephemeral timeout h (mkWorld inbox [] corks sent t)).
Proof.
  intros []. exists (Handler.set_phase ReadyExchange (h <| framer := DynNull (NullFramer.new (cfg_max_msg_size cfg)) |>)),
    [], inbox, t. split; [done|]. left. exists InProgress.
  cbn [inbox_bytes fmap list_fmap concat]. rewrite !app_nil_r. split; [|split].
  - unfold Handshake.perform_security_handshake_step.
    assert (E : Handshake.negotiate_once ephemeral h (mkWorld inbox [] corks sent t) =
      (Done tt, h <| security_mechanism := MNull mkNullMechanism |>, mkWorld inbox [] corks sent t)).
    { unfold Handshake.negotiate_once. run. rewrite as_mech0 by done.
      change (bool_decide (mech_name DynCipher (MNull mkNullMechanism) = "NULL"%string)) with true. cbn match.
      rewrite as_greeting0, as_role0, as_config0 by done. run. by rewrite Hnull. }
    rewrite (bind_done _ _ _ _ _ _ _ E). unfold Handshake.SECURITY_ROUNDS. cbn [Handshake.security_loop]. run.
    change (is_complete DynCipher (security_mechanism (h <| security_mechanism := MNull mkNullMechanism |>))) with true.
    cbn match. unfold Handshake.finish_security. run.
    cbn. unfold mret, proc_ret. do 2 f_equal. f_equal. destruct h. cbn in *. by rewrite as_config0, as_mech0.
  - apply zlen_nonneg.
  - by split; try done; intros _; apply as_fresh0.
Qed.

(** ** Reading the peer's READY *)

Definition reading (k : stage) : Prop := (role = true /\ k = S4) \/ (role = false /\ k = S5).

Lemma reading_facts k :
  reading k -> consumed k = G /\ demand k = zlen IN /\ k <> S0 /\ early k = false /\ seen k = false /\ k <> S3 /\
  consumed (next k) = IN /\ output k = [] /\ k <> S0 /\ next k <> S0 /\ next k <> S3 /\ early (next k) = false.
Proof.
  intros [[Er ->]|[Er ->]]; cbn [consumed demand seen next output]; rewrite Er; cbn; by split_and!.
Qed.

(** What is left of the stream when the greeting is gone. *)
Lemma valid_rest x : valid (G ++ x) -> exists y, wire ready = x ++ y.
Proof. intros [y E]. exists y. rewrite <- app_assoc in E. by apply app_inv_head in E. Qed.

Lemma frame_complete : frame_spec (parser_limit (cfg_max_msg_size cfg)) (wire ready) = Frame (norm_msg ready) [].
Proof. rewrite <- (app_nil_r (wire ready)). apply frame_spec_wire; [apply Hsize|done]. Qed.

Lemma frame_partial x y :
  wire ready = x ++ y -> y <> [] -> frame_spec (parser_limit (cfg_max_msg_size cfg)) x = NeedMore.
Proof.
  intros E Hy. pose proof (frame_spec_app (parser_limit (cfg_max_msg_size cfg)) x y) as Ha.
  rewrite <- E, frame_complete in Ha. destruct (frame_spec _ x) as [|e r|m r]; [done|done|].
  injection Ha as _ Hr. symmetry in Hr. by apply app_eq_nil in Hr as [_ ?].
Qed.

(** With an empty buffer the frame is not complete. *)
Lemma pending_partial st :
  state_wf (parser_limit (cfg_max_msg_size cfg)) st -> state_pending st <> wire ready.
Proof.
  intros Hwf E. pose proof frame_complete as Hf. rewrite <- E in Hf. destruct st as [|hd]; [done|].
  cbn [state_pending] in Hf. rewrite <- (app_nil_r (header_octets hd)), (frame_spec_header _ _ _ Hwf) in Hf.
  destruct (Z.ltb_spec (zlen (@nil byte)) (h_size hd)); [done|]. injection Hf as Hm _ _.
  rewrite take_nil in Hm. pose proof (size_payload ready) as Hp. rewrite <- Hm in Hp. rewrite zlen_nil in Hp. lia.
Qed.

(** The handler when the READY has been parsed. *)
Record drained (k : stage) (h : handler) : Prop := {
  dr_config : h_config h = cfg;
  dr_role : h_is_server h = role;
  dr_stream : h_stream h = true;
  dr_phase : sub_phase (handshake_state h) = phase_of k;
  dr_max : max_msg_size (zmtp_manual_parser h) = cfg_max_msg_size cfg;
  dr_fresh : mp_state (zmtp_manual_parser h) = ReadHeader;
  dr_buffer : network_read_buffer h = [];
}.

Lemma parse_stage k s h :
  reading k -> at_stage k s h -> valid s ->
  exists h' r, Handshake.parse_buffer h = (h', r) /\
    ((zlen IN <= zlen s /\ r = Ok (Some (norm_msg ready)) /\ s = IN /\ drained k h') \/
     (zlen s < zlen IN /\ r = Ok None /\ at_stage k s h')).
Proof.
  intros Hk Hat Hv. destruct (reading_facts k Hk) as (Hc & _ & _ & He & Hs & H3 & _).
  pose proof Hat as []. rewrite as_octets0, Hc in Hv. apply valid_rest in Hv as [y Hy].
  unfold Handshake.parse_buffer.
  pose proof (parser_decode_post (zmtp_manual_parser h) (network_read_buffer h)) as Hp.
  rewrite as_max0 in Hp. specialize (Hp as_parser0).
  destruct (ZmtpManualParser.decode_from_buffer _ _) as [[p' src'] r]. destruct Hp as (Hmax & Hwf & Hpost).
  eexists _, r. split; [done|]. unfold decode_post in Hpost.
  assert (Hlen : zlen s = zlen G + zlen (state_pending (mp_state (zmtp_manual_parser h)) ++ network_read_buffer h)).
  { rewrite as_octets0 at 1. by rewrite Hc, zlen_app. }
  rewrite Hlen, zlen_app, Hy, zlen_app. destruct y as [|b y].
  - left. rewrite app_nil_r in Hy. rewrite <- Hy, frame_complete in Hpost. destruct Hpost as (-> & Hpe & ->).
    split; [rewrite zlen_nil; lia|]. split; [done|]. split; [by rewrite as_octets0, Hc, <- Hy, app_nil_r|].
    split; try done. cbn. by destruct (mp_state p').
  - right. rewrite (frame_partial _ _ Hy) in Hpost by done. destruct Hpost as (-> & Hpe).
    split; [rewrite zlen_cons; pose proof (zlen_nonneg y); lia|]. split; [done|].
    split; try done; cbn; [by rewrite He|by rewrite as_octets0, Hpe].
Qed.

Lemma check_stage k s h w :
  reading k -> at_stage k s h -> valid s ->
  exists r h', Handshake.command_check h w = (Done r, h') /\
    ((zlen IN <= zlen s /\ r = Some (norm_msg ready) /\ s = IN /\ drained k h') \/
     (zlen s < zlen IN /\ r = None /\ at_stage k s h')).
Proof.
  intros Hk Hat Hv. unfold Handshake.command_check.
  destruct (parse_stage k s h Hk Hat Hv) as (h' & r & -> & Hr).
  destruct (network_read_buffer h) as [|b buf] eqn:Eb.
  - exists None, h. split; [done|]. right. split; [|done].
    destruct (reading_facts k Hk) as (Hc & _). destruct Hat. rewrite as_octets0, Hc, Eb, app_nil_r in Hv |- *.
    apply valid_rest in Hv as [y Hy]. rewrite !zlen_app, Hy, zlen_app. destruct y as [|b y].
    + rewrite app_nil_r in Hy. by destruct (pending_partial _ as_parser0).
    + rewrite zlen_cons. pose proof (zlen_nonneg y). lia.
  - destruct Hr as [(Hl & -> & -> & Hd)|(Hl & -> & Hat')].
    + rewrite Hcommand. eexists _, _. split; [done|]. left. split_and!; try done. by destruct Hd.
    + eexists _, _. split; [done|]. by right.
Qed.

Lemma command_stage k s h inbox corks sent t :
  reading k -> at_stage k s h -> clean inbox -> valid (s ++ inbox_bytes inbox) -> inbox_time inbox < timeout ->
  let res := Handshake.read_handshake_command_frame timeout h (mkWorld inbox [] corks sent t) in
  exists h' pre post t', inbox = pre ++ post /\
    ((res = (Done (norm_msg ready), h', mkWorld post [] corks sent t') /\
      s ++ inbox_bytes pre = IN /\ drained k h') \/
     (res = (Pending, h', mkWorld [] [] corks sent t') /\
      post = [] /\ zlen (s ++ inbox_bytes inbox) < zlen IN /\ at_stage k (s ++ inbox_bytes inbox) h')).
Proof.
  intros Hk Hat Hc Hv Ht. cbn zeta.
  destruct (read_delivered Handshake.command_check Handler.absorb valid (at_stage k) (fun s => zlen IN <=? zlen s)
    (fun s a h => a = norm_msg ready /\ s = IN /\ drained k h) valid_prefix)
    with (inbox := inbox) (dl := Some (t + timeout)) (ep := "handshake command read"%string) (s := s)
    (h := h) (w := mkWorld inbox [] corks sent t) as (h' & pre & post & -> & Hres); try done.
  - intros s' h' w Hv' Hi He. destruct (check_stage k s' h' w Hk Hi Hv') as (r & h2 & E & Hr).
    destruct Hr as [(_ & -> & -> & Hd)|(Hl & _)]; [by exists (norm_msg ready), h2|lia].
  - intros s' h' w Hv' Hi He. destruct (check_stage k s' h' w Hk Hi Hv') as (r & h2 & E & Hr).
    destruct Hr as [(Hl & _)|(_ & -> & Hat2)]; [lia|by exists h2].
  - intros s' c t' h'. apply absorb_stage. by apply reading_facts.
  - cbn. lia.
  - exists h', pre, post, (t + inbox_time pre). split; [done|]. cbn zeta in Hres.
    unfold Handshake.read_handshake_command_frame. pose proof Hat as []. run.
    destruct Hres as [(a & Hr & He & -> & Hi & Hd)|(Hr & -> & He & Hj)].
    + left. split; [exact Hr|]. done.
    + right. split; [exact Hr|]. split; [done|]. split; [lia|done].
Qed.

(** The READY is read and the peer's socket type noted. *)
Lemma read_ready_stage k s h inbox corks sent t :
  reading k -> at_stage k s h -> clean inbox -> valid (s ++ inbox_bytes inbox) -> inbox_time inbox < timeout ->
  let res := Handshake.read_ready timeout h (mkWorld inbox [] corks sent t) in
  exists h' pre post t', inbox = pre ++ post /\
    ((res = (Done props, h', mkWorld post [] corks sent t') /\
      s ++ inbox_bytes pre = IN /\ drained k h' /\ peer_socket_type (handshake_state h') = Some stype) \/
     (res = (Pending, h', mkWorld [] [] corks sent t') /\
      post = [] /\ zlen (s ++ inbox_bytes inbox) < zlen IN /\ at_stage k (s ++ inbox_bytes inbox) h')).
Proof.
  intros Hk Hat Hc Hv Ht. cbn zeta.
  destruct (command_stage k s h inbox corks sent t Hk Hat Hc Hv Ht) as (h' & pre & post & t' & -> & Hres).
  unfold Handshake.read_ready.
  destruct Hres as [(E & Hs & Hd)|(E & -> & Hl & Hat')].
  - rewrite (bind_done _ _ _ _ _ _ _ E), Hparse. run. cbn match. rewrite Hstype, Hutf8. run.
    eexists _, pre, post, t'. split; [done|]. left. split; [reflexivity|]. split; [done|].
    split; [|done]. by destruct Hd.
  - rewrite (bind_pending _ _ _ _ _ _ E). exists h', pre, [], t'. split; [done|]. by right.
Qed.

Lemma send_done msg d h inbox corks sent t :
  h_stream h = true ->
  Handshake.send_handshake_command_frame msg d h (mkWorld inbox [] corks sent t) =
  (Done tt, Handler.activity t h, mkWorld inbox [] corks (sent ++ wire (Msg.set_flags MsgFlags.COMMAND msg)) t).
Proof.
  intros Hst. unfold Handshake.send_handshake_command_frame. rewrite encode_wire. by run.
Qed.

Lemma exchange_stage s h inbox corks sent t :
  at_stage S4 s h -> clean inbox -> valid (s ++ inbox_bytes inbox) -> inbox_time inbox < timeout ->
  step_result S4 s inbox corks sent (Handshake.perform_ready_exchange_step timeout h (mkWorld inbox [] corks sent t)).
Proof.
  intros Hat Hc Hv Ht. pose proof Hat as []. unfold Handshake.perform_ready_exchange_step. run. rewrite as_role0.
  unfold step_result. cbn [next output demand]. destruct role eqn:Er; cbn [negb].
  - assert (Hk : reading S4) by by left.
    destruct (read_ready_stage S4 s h inbox corks sent t Hk Hat Hc Hv Ht) as (h' & pre & post & t' & -> & Hres).
    destruct Hres as [(E & Hs & Hd & Hp)|(E & -> & Hl & Hat')].
    + rewrite (bind_done _ _ _ _ _ _ _ E). run. eexists _, pre, post, t'. split; [done|]. left.
      eexists. split; [rewrite app_nil_r; reflexivity|]. rewrite Hs. split; [done|]. destruct Hd.
      split; cbn; try done; rewrite ?dr_fresh0, ?dr_buffer0, ?Er; try done. by rewrite app_nil_r.
    + rewrite (bind_pending _ _ _ _ _ _ E). exists h', pre, [], t'. split; [done|]. by right.
  - erewrite bind_done by by apply send_done. run. eexists _, [], inbox, t. split; [done|]. left.
    eexists. cbn [inbox_bytes fmap list_fmap concat]. rewrite app_nil_r. split; [|split; [apply zlen_nonneg|]].
    + unfold own_ready, Handshake.build_ready_properties. rewrite as_config0. reflexivity.
    + split; cbn; try done; by rewrite ?Er.
Qed.

Lemma last_stage s h inbox corks sent t :
  at_stage S5 s h -> clean inbox -> valid (s ++ inbox_bytes inbox) -> inbox_time inbox < timeout ->
  step_result S5 s inbox corks sent
    ((if role then Handshake.server_send_ready timeout else Handshake.client_receive_peer_ready timeout)
       h (mkWorld inbox [] corks sent t)).
Proof.
  intros Hat Hc Hv Ht. pose proof Hat as [].
  unfold step_result. cbn [next output demand]. destruct role eqn:Er.
  - unfold Handshake.server_send_ready. run. erewrite bind_done by by apply send_done. run.
    eexists _, [], inbox, t. split; [done|]. left.
    eexists. cbn [inbox_bytes fmap list_fmap concat]. rewrite app_nil_r. split; [|split; [apply zlen_nonneg|]].
    + unfold own_ready, Handshake.build_ready_properties. rewrite as_config0. reflexivity.
    + cbn [consumed seen] in as_octets0, as_peer0. rewrite Er in as_octets0. rewrite Er in as_peer0.
      by split; try done; rewrite Er.
  - assert (Hk : reading S5) by by right.
    destruct (read_ready_stage S5 s h inbox corks sent t Hk Hat Hc Hv Ht) as (h' & pre & post & t' & -> & Hres).
    unfold Handshake.client_receive_peer_ready.
    destruct Hres as [(E & Hs & Hd & Hp)|(E & -> & Hl & Hat')].
    + rewrite (bind_done _ _ _ _ _ _ _ E). run. eexists _, pre, post, t'. split; [done|]. left.
      eexists. split; [rewrite app_nil_r; reflexivity|]. rewrite Hs. split; [done|]. destruct Hd.
      split; cbn; try done; rewrite ?dr_fresh0, ?dr_buffer0, ?Er; try done. by rewrite app_nil_r.
    + rewrite (bind_pending _ _ _ _ _ _ E). exists h', pre, [], t'. split; [done|]. by right.
Qed.

Lemma step_stage k s h inbox corks sent t :
  k <> S6 -> at_stage k s h -> clean inbox -> valid (s ++ inbox_bytes inbox) -> inbox_time inbox < timeout ->
  step_result k s inbox corks sent
    (Handshake.advance_handshake_step ephemeral h (mkWorld inbox [] corks sent t)).
Proof.
  intros Hk Hat Hc Hv Ht. unfold Handshake.advance_handshake_step. run.
  rewrite (as_phase _ _ _ Hat), (as_config _ _ _ Hat). fold timeout.
  destruct k; cbn [phase_of]; [..|done].
  - by apply signature_stage.
  - by apply revision_stage.
  - by apply greeting_stage.
  - by apply security_stage.
  - by apply exchange_stage.
  - pose proof (last_stage s h inbox corks sent t Hat Hc Hv Ht). by destruct role.
Qed.

(** A new handler is at the first stage. *)
Lemma new_stage t0 : at_stage S0 [] (Handler.new cfg role t0).
Proof. by split. Qed.

(** A finished one stays finished. *)
Lemma done_stage s h w :
  at_stage S6 s h -> Handshake.advance_handshake_step ephemeral h w = (Done HandshakeCompleteX, h, w).
Proof. intros Hat. unfold Handshake.advance_handshake_step. run. by rewrite (as_phase _ _ _ Hat). Qed.

(** ** A turn *)

(** The peer runs one step with part of what is on its way; what it does not
    take stays on the way. *)
Definition turn (h : handler) (inbox : list ReadEvent) (corks : list bool) (t : Z) : handler * bytes * bytes :=
  let '(_, h', w') := Handshake.advance_handshake_step ephemeral h (mkWorld inbox [] corks [] t) in
  (h', w_sent w', inbox_bytes (w_inbox w')).

(** Everything written before a stage. *)
Definition written (k : stage) : bytes :=
  match k with
  | S0 => []
  | S1 => output S0
  | S2 | S3 | S4 => output S0 ++ output S1
  | S5 => (output S0 ++ output S1) ++ output S4
  | S6 => ((output S0 ++ output S1) ++ output S4) ++ output S5
  end.

Lemma written_next k : k <> S6 -> written (next k) = written k ++ output k.
Proof. destruct k; cbn [written next output]; intros; rewrite ?app_nil_r; done. Qed.

Lemma inbox_bytes_app pre post : inbox_bytes (pre ++ post) = inbox_bytes pre ++ inbox_bytes post.
Proof. unfold inbox_bytes. by rewrite fmap_app, concat_app. Qed.

Lemma turn_spec k s h inbox rest corks t h' out unread :
  at_stage k s h -> clean inbox -> inbox_time inbox < timeout -> valid (s ++ inbox_bytes inbox ++ rest) ->
  turn h inbox corks t = (h', out, unread) ->
  exists k' s', at_stage k' s' h' /\ s' ++ unread ++ rest = s ++ inbox_bytes inbox ++ rest /\
    written k' = written k ++ out /\
    ((k' = k /\ (k = S6 \/ zlen (s ++ inbox_bytes inbox) < demand k)) \/ (k' = next k /\ k <> S6)).
Proof.
  intros Hat Hc Ht Hv. unfold turn. destruct (decide (k = S6)) as [->|Hk].
  - rewrite (done_stage s h _ Hat). intros [= <- <- <-]. exists S6, s. cbn [w_inbox w_sent].
    rewrite app_nil_r. split_and!; [done..|]. left. auto.
  - rewrite app_assoc in Hv. apply valid_prefix in Hv.
    destruct (step_stage k s h inbox corks [] t Hk Hat Hc Hv Ht) as (h1 & pre & post & t1 & -> & Hres).
    destruct Hres as [(p & E & Hd & Hat')|(E & -> & Hd & Hat')]; rewrite E; intros [= <- <- <-]; cbn [w_inbox w_sent].
    + exists (next k), (s ++ inbox_bytes pre). rewrite inbox_bytes_app, <- !app_assoc.
      split_and!; [done|done|by apply written_next|]. by right.
    + exists k, (s ++ inbox_bytes (pre ++ [])). rewrite !app_nil_r in *. cbn [inbox_bytes fmap list_fmap concat].
      rewrite <- !app_assoc. split_and!; [done..|]. left. auto.
Qed.

End Peer.

(** ** The READY of a socket *)

Section NullSocket.
Variable o : SocketOptions.
Hypothesis Htype : is_Some (socket_type_code (socket_type_name o)).

Abbreviation props := (Handshake.ready_properties (engine_config o)).

Definition ready_of : Msg :=
  Msg.set_flags MsgFlags.COMMAND (ZmtpReady.create_msg (map_to_list props)).

Lemma type_name : zlen (bs (socket_type_name o)) <= 6 /\ utf8_valid (bs (socket_type_name o)) = true.
Proof.
  destruct Htype as [c Hc%socket_type_code_name].
  destruct c; cbn in Hc; try discriminate Hc; injection Hc as <-; by vm_compute.
Qed.

(** The octets of a list of properties. *)
Definition props_size (iter : list (bytes * bytes)) : Z :=
  foldr (fun kv n => 5 + zlen kv.1 + zlen kv.2 + n) 0 iter.

Lemma zlen_encode_properties iter : zlen (ZmtpReady.encode_properties iter []) <= props_size iter.
Proof.
  induction iter as [|[k v] iter IH]; [done|].
  change (ZmtpReady.encode_properties ((k, v) :: iter) []) with
    (ZmtpReady.encode_properties iter (ZmtpReady.encode_property [] (k, v))).
  rewrite encode_properties_app, zlen_app. cbn [props_size foldr fst snd]. fold (props_size iter).
  unfold ZmtpReady.encode_property. pose proof (zlen_nonneg k). pose proof (zlen_nonneg v).
  destruct (255 <? zlen k); autorewrite with rzmq_len; lia.
Qed.

#[local] Instance props_size_proper : Proper ((≡ₚ) ==> (=)) props_size.
Proof. unfold props_size. induction 1; cbn [foldr]; lia. Qed.

Lemma ready_size : 0 < Msg.size ready_of <= 512.
Proof.
  assert (E : Msg.size ready_of = 6 + zlen (ZmtpReady.encode_properties (map_to_list props) [])).
  { unfold ready_of. rewrite create_msg_eq, size_payload.
    change (zlen (READY_PREFIX ++ ZmtpReady.encode_properties (map_to_list props) []) =
      6 + zlen (ZmtpReady.encode_properties (map_to_list props) [])).
    by rewrite zlen_app. }
  pose proof (zlen_nonneg (ZmtpReady.encode_properties (map_to_list props) [])) as H0.
  pose proof (zlen_encode_properties (map_to_list props)) as Hs. rewrite E. split; [lia|].
  destruct type_name as [Hn _]. enough (props_size (map_to_list props) <= 300) by lia. clear E Hs H0.
  unfold Handshake.ready_properties. cbn [cfg_socket_type_name cfg_routing_id engine_config].
  set (st := bs (socket_type_name o)) in *.
  assert (H1 : props_size (map_to_list ({[bs "Socket-Type" := st]} : gmap bytes bytes)) <= 30).
  { rewrite map_to_list_singleton. cbn [props_size foldr fst snd]. change (zlen (bs "Socket-Type")) with 11. lia. }
  case_bool_decide; [|lia]. destruct (Z.leb_spec (zlen (default [] (routing_id o))) 255); [|lia].
  rewrite map_to_list_insert by by apply lookup_singleton_ne. cbn [props_size foldr fst snd].
  fold (props_size (map_to_list ({[bs "Socket-Type" := st]} : gmap bytes bytes))).
  change (zlen (bs "Identity")) with 8. lia.
Qed.

Lemma ready_norm : norm_msg ready_of = ZmtpReady.create_msg (map_to_list props).
Proof. unfold ready_of. by rewrite create_msg_eq. Qed.

Lemma props_type : props !! bs "Socket-Type" = Some (bs (socket_type_name o)).
Proof.
  unfold Handshake.ready_properties. cbn [cfg_socket_type_name cfg_routing_id engine_config].
  case_bool_decide; [destruct (_ <=? _); [rewrite lookup_insert_ne by done|]|]; apply lookup_singleton_eq.
Qed.

Lemma props_ok : map_Forall (fun k v => property_ok (k, v) /\ name_short (k, v)) props.
Proof.
  destruct type_name as [Hn _].
  assert (Hs : map_Forall (fun k v => property_ok (k, v) /\ name_short (k, v))
    ({[bs "Socket-Type" := bs (socket_type_name o)]} : gmap bytes bytes)).
  { apply map_Forall_singleton. split; [split; [done|cbn [snd]; lia]|done]. }
  unfold Handshake.ready_properties. cbn [cfg_socket_type_name cfg_routing_id engine_config].
  case_bool_decide; [|done]. destruct (Z.leb_spec (zlen (default [] (routing_id o))) 255); [|done].
  apply map_Forall_insert; [by apply lookup_singleton_ne|]. split; [|done].
  split; [split; [done|cbn [snd]; lia]|done].
Qed.

Lemma ready_parse :
  ZmtpCommand.parse (norm_msg ready_of) = Ok (Some (Ready (mkReady props))).
Proof.
  pose proof props_ok as Hok. rewrite ready_norm, create_msg_eq, parse_ready_body.
  rewrite (parse_properties_encode props); [|done|by eapply map_Forall_impl; [exact Hok|intros ? ? []]].
  rewrite map_filter_id; [done|]. intros k v Hkv. by apply Hok in Hkv as [].
Qed.

(** The greeting of a socket without security. *)
Hypothesis Hsec : cfg_security_enabled (engine_config o) = false.
Variable role : bool.

Definition greeting_of : bytes := output (engine_config o) role S0 ++ output (engine_config o) role S1.

Lemma greeting_of_octets : greeting_of = octets (greeting_fields NullMechanism.NAME_BYTES role).
Proof.
  unfold greeting_of. cbn [output]. rewrite propose_null by done.
  pose proof (encode_octets NullMechanism.NAME_BYTES role [] eq_refl) as E. cbn [app] in E. rewrite <- E.
  by rewrite v3_tail_post_major_eq.
Qed.

Lemma greeting_of_length : zlen greeting_of = GREETING_LENGTH.
Proof. rewrite greeting_of_octets. by apply octets_length, greeting_fields_wf. Qed.

Lemma greeting_of_decode rest :
  ZmtpGreeting.decode (greeting_of ++ rest) =
  (rest, Ok (Some (mkGreeting (Byte.x03, Byte.x00) NullMechanism.NAME_BYTES role))).
Proof. rewrite greeting_of_octets, decode_octets by by apply greeting_fields_wf. by destruct role. Qed.

Lemma greeting_of_peek rest : peek_revision (take 11 (greeting_of ++ rest)) = Ok GREETING_VERSION_MAJOR_BYTE.
Proof. rewrite greeting_of_octets. done. Qed.

(** It negotiates NULL with such a greeting. *)
Lemma negotiate_null `{Dryoc} `{Snow} e r srv :
  negotiate_security_mechanism e r (engine_config o)
    (mkGreeting (Byte.x03, Byte.x00) NullMechanism.NAME_BYTES srv) = Ok (MNull mkNullMechanism).
Proof.
  unfold negotiate_security_mechanism. cbn [g_mechanism KNOWN_MECHANISMS negotiate_loop name_static_bytes].
  rewrite bool_decide_true by done. cbn [is_locally_enabled]. by rewrite Hsec.
Qed.

Lemma written_all :
  written (engine_config o) role S6 = greeting_of ++ wire ready_of.
Proof.
  cbn [written]. unfold greeting_of. cbn [output]. fold ready_of.
  destruct role; by rewrite ?app_nil_r.
Qed.

End NullSocket.

(** ** A turn of a socket that talks NULL *)

Abbreviation null_greeting := (mkGreeting (Byte.x03, Byte.x00) NullMechanism.NAME_BYTES).

(** The socket [o] in the given role, its peer being [o']. *)
Definition null_at `{Snow} (o o' : SocketOptions) (role : bool) : stage -> bytes -> ZmtpProtocolHandlerX -> Prop :=
  at_stage (engine_config o) role (greeting_of o' (negb role)) (null_greeting (negb role))
    (ready_of o') (bs (socket_type_name o')).

Definition null_written (o : SocketOptions) (role : bool) : stage -> bytes := written (engine_config o) role.

(** Sockets the theorem is about: no security mechanism, a type with a ZMTP
    name, and a size limit that admits a READY. *)
Definition null_socket (o : SocketOptions) : Prop :=
  cfg_security_enabled (engine_config o) = false /\ is_Some (socket_type_code (socket_type_name o)) /\
  (maxmsgsize o < 0 \/ 512 <= maxmsgsize o < 2 ^ 63).

Lemma small_limit max size : max < 0 \/ 512 <= max < 2 ^ 63 -> size <= 512 -> parser_limit max size = None.
Proof. intros [Hm|Hm] Hs; [by apply parser_limit_unlimited|apply parser_limit_None; lia]. Qed.

Lemma written_prefix cfg role k : written cfg role k `prefix_of` written cfg role S6.
Proof.
  destruct k; cbn [written]; rewrite <- ?app_assoc;
    first [done | apply prefix_nil | by apply prefix_app_r | by eexists; rewrite <- ?app_assoc].
Qed.

Lemma null_turn `{Dryoc} `{Snow} e o o' role k k2 s h inbox rest corks t h' out unread :
  null_socket o -> null_socket o' -> null_at o o' role k s h ->
  clean inbox -> inbox_time inbox < timeout (engine_config o) ->
  s ++ inbox_bytes inbox ++ rest = null_written o' (negb role) k2 -> turn e h inbox corks t = (h', out, unread) ->
  exists k' s', null_at o o' role k' s' h' /\ s' ++ unread ++ rest = null_written o' (negb role) k2 /\
    null_written o role k' = null_written o role k ++ out /\
    ((k' = k /\ (k = S6 \/ zlen (s ++ inbox_bytes inbox) < demand role (greeting_of o' (negb role)) (ready_of o') k))
     \/ (k' = next k /\ k <> S6)).
Proof.
  intros (Hsec & _ & Hmax) (Hsec' & Hty' & _) Hat Hc Ht Hs Hturn. rewrite <- Hs.
  pose proof (ready_size o' Hty') as Hsz.
  eapply turn_spec; [by apply greeting_of_length|by apply greeting_of_peek|by apply greeting_of_decode|done
    |by apply negotiate_null| | | |by apply ready_parse|apply props_type|by apply type_name|done..| |done].
  - by rewrite ready_norm, create_msg_eq.
  - lia.
  - apply small_limit; [done|lia].
  - rewrite Hs. unfold valid, null_written. rewrite <- written_all by done. apply written_prefix.
Qed.

(** At the end everything received has been used. *)
Lemma done_buffers o role role' k s pending buf way :
  cfg_security_enabled (engine_config o) = false ->
  s = consumed role' (greeting_of o role) (ready_of o) k ++ pending ++ buf ->
  k = S6 -> s ++ way = null_written o role S6 -> buf = [] /\ way = [].
Proof.
  intros Hsec -> -> E. unfold null_written in E. rewrite written_all in E by done. cbn [consumed] in E.
  rewrite <- (app_nil_r (greeting_of o role ++ wire _)) in E at 2. rewrite <- app_assoc in E.
  apply app_inv_head in E. rewrite <- app_assoc in E.
  apply app_eq_nil in E as [_ E]. by apply app_eq_nil in E as [-> ->].
Qed.

(** ** Two peers *)

Record pair `{Snow} := mkPair {
  pa : ZmtpProtocolHandlerX;  (** the connecting side *)
  pb : ZmtpProtocolHandlerX;  (** the listening side *)
  ab : bytes;                 (** written by [pa], not yet read by [pb] *)
  ba : bytes;
}.

Section Pair.
Context `{HD : Dryoc} `{HS : Snow}.
Variables ea eb : bytes.

(** Either side takes a turn, with any part of what is on its way to it. *)
Inductive pair_step : pair -> pair -> Prop :=
| turn_of_a p inbox rest corks t h out unread :
    clean inbox -> inbox_time inbox < timeout (h_config (pa p)) -> ba p = inbox_bytes inbox ++ rest ->
    turn ea (pa p) inbox corks t = (h, out, unread) ->
    pair_step p (mkPair _ h (pb p) (ab p ++ out) (unread ++ rest))
| turn_of_b p inbox rest corks t h out unread :
    clean inbox -> inbox_time inbox < timeout (h_config (pb p)) -> ab p = inbox_bytes inbox ++ rest ->
    turn eb (pb p) inbox corks t = (h, out, unread) ->
    pair_step p (mkPair _ (pa p) h (unread ++ rest) (ba p ++ out)).

(** A round: everything on its way is delivered, to one side and then to the
    other. *)
Definition deliver (s : bytes) : list ReadEvent := if bool_decide (s = []) then [] else [RData 0 s].

Definition round_a (p : pair) : pair :=
  let '(h, out, unread) := turn ea (pa p) (deliver (ba p)) [] 0 in mkPair _ h (pb p) (ab p ++ out) unread.
Definition round_b (p : pair) : pair :=
  let '(h, out, unread) := turn eb (pb p) (deliver (ab p)) [] 0 in mkPair _ (pa p) h unread (ba p ++ out).
Definition round (p : pair) : pair := round_b (round_a p).

Definition start (oa ob : SocketOptions) (t : Z) : pair :=
  mkPair _ (Handler.new (engine_config oa) false t) (Handler.new (engine_config ob) true t) [] [].

Lemma deliver_spec s : clean (deliver s) /\ inbox_time (deliver s) = 0 /\ inbox_bytes (deliver s) = s.
Proof.
  unfold deliver. case_bool_decide as E; [subst; by split; [constructor|]|]. split; [by repeat constructor|].
  split; [done|]. apply app_nil_r.
Qed.

(** ** The invariant and the rounds *)

Variables oa ob : SocketOptions.
Hypothesis Hna : null_socket oa.
Hypothesis Hnb : null_socket ob.

Definition pair_at (ka kb : stage) (p : pair) : Prop :=
  exists sa sb, null_at oa ob false ka sa (pa p) /\ null_at ob oa true kb sb (pb p) /\
    sa ++ ba p = null_written ob true kb /\ sb ++ ab p = null_written oa false ka.

Lemma start_at t : pair_at S0 S0 (start oa ob t).
Proof. exists [], []. split_and!; [apply new_stage|apply new_stage|done|done]. Qed.

Lemma pair_step_at ka kb p p' :
  pair_at ka kb p -> pair_step p p' -> exists ka' kb', pair_at ka' kb' p'.
Proof.
  intros (sa & sb & Ha & Hb & Eba & Eab) Hstep. inv Hstep as [? ? ? ? ? ? ? ? Hc Ht E Hturn|? ? ? ? ? ? ? ? Hc Ht E Hturn].
  - rewrite (as_config _ _ _ _ _ _ _ _ _ Ha) in Ht. rewrite E in Eba.
    destruct (null_turn ea oa ob false ka kb sa _ inbox rest corks t h out unread Hna Hnb Ha Hc Ht Eba Hturn)
      as (k' & s' & Hat & Es & Ew & _).
    exists k', kb, s', sb. cbn [pa pb ab ba]. split_and!; [done..|]. by rewrite app_assoc, Eab, Ew.
  - rewrite (as_config _ _ _ _ _ _ _ _ _ Hb) in Ht. rewrite E in Eab.
    destruct (null_turn eb ob oa true kb ka sb _ inbox rest corks t h out unread Hnb Hna Hb Hc Ht Eab Hturn)
      as (k' & s' & Hat & Es & Ew & _).
    exists ka, k', sa, s'. cbn [pa pb ab ba]. split_and!; [done..| |done]. by rewrite app_assoc, Eba, Ew.
Qed.

Hypothesis Hta : 0 < timeout (engine_config oa).
Hypothesis Htb : 0 < timeout (engine_config ob).

Abbreviation demand_a := (demand false (greeting_of ob true) (ready_of ob)).
Abbreviation demand_b := (demand true (greeting_of oa false) (ready_of oa)).

Definition rank (k : stage) : nat :=
  match k with S0 => 0 | S1 => 1 | S2 => 2 | S3 => 3 | S4 => 4 | S5 => 5 | S6 => 6 end.

Lemma round_a_at ka kb p :
  pair_at ka kb p -> exists ka', pair_at ka' kb (round_a p) /\ (rank ka <= rank ka')%nat /\
    (ka <> S6 -> demand_a ka <= zlen (null_written ob true kb) -> (rank ka < rank ka')%nat).
Proof.
  intros (sa & sb & Ha & Hb & Eba & Eab). unfold round_a.
  destruct (deliver_spec (ba p)) as (Hc & Ht & Es). destruct (turn ea (pa p) _ [] 0) as [[h out] unread] eqn:E.
  assert (Eba' : sa ++ inbox_bytes (deliver (ba p)) ++ [] = null_written ob true kb) by by rewrite Es, app_nil_r.
  destruct (null_turn ea oa ob false ka kb sa _ _ [] [] 0 h out unread Hna Hnb Ha Hc ltac:(lia) Eba' E)
    as (k' & s' & Hat & Es' & Ew & Hk).
  exists k'. split; [exists s', sb; cbn [pa pb ab ba]; rewrite app_nil_r in Es'; split_and!; [done..|];
    by rewrite app_assoc, Eab, Ew|].
  rewrite Es, Eba in Hk. cbn [negb] in Hk. destruct Hk as [[-> [->|Hlt]]|[-> Hne]]; [done|split; [done|lia]|].
  destruct ka; cbn; split; try lia; done.
Qed.

Lemma round_b_at ka kb p :
  pair_at ka kb p -> exists kb', pair_at ka kb' (round_b p) /\ (rank kb <= rank kb')%nat /\
    (kb <> S6 -> demand_b kb <= zlen (null_written oa false ka) -> (rank kb < rank kb')%nat).
Proof.
  intros (sa & sb & Ha & Hb & Eba & Eab). unfold round_b.
  destruct (deliver_spec (ab p)) as (Hc & Ht & Es). destruct (turn eb (pb p) _ [] 0) as [[h out] unread] eqn:E.
  assert (Eab' : sb ++ inbox_bytes (deliver (ab p)) ++ [] = null_written oa false ka) by by rewrite Es, app_nil_r.
  destruct (null_turn eb ob oa true kb ka sb _ _ [] [] 0 h out unread Hnb Hna Hb Hc ltac:(lia) Eab' E)
    as (k' & s' & Hat & Es' & Ew & Hk).
  exists k'. split; [exists sa, s'; cbn [pa pb ab ba]; rewrite app_nil_r in Es'; split_and!; [done..| |done];
    by rewrite app_assoc, Eba, Ew|].
  rewrite Es, Eab in Hk. cbn [negb] in Hk. destruct Hk as [[-> [->|Hlt]]|[-> Hne]]; [done|split; [done|lia]|].
  destruct kb; cbn; split; try lia; done.
Qed.

(** The lengths of what has been written. *)
Lemma zlen_written o role k :
  null_socket o ->
  zlen (null_written o role k) =
  match k with
  | S0 => 0 | S1 => 11 | S2 | S3 | S4 => 64
  | S5 => if role then 64 else 64 + zlen (wire (ready_of o))
  | S6 => 64 + zlen (wire (ready_of o))
  end.
Proof.
  intros (Hsec & _). pose proof (greeting_of_length o Hsec role) as Hg. unfold greeting_of in Hg.
  unfold null_written. destruct k; [done|done|exact Hg..| |].
  - cbn [written]. rewrite zlen_app, Hg. cbn [output]. by destruct role.
  - change (written _ role S6) with (written (engine_config o) role S6). rewrite written_all by done.
    rewrite zlen_app. by rewrite (greeting_of_length o Hsec role).
Qed.

(** The demands interlock: never do both sides wait. *)
Lemma interlock ka kb :
  ~ (ka = S6 /\ kb = S6) ->
  (ka <> S6 /\ demand_a ka <= zlen (null_written ob true kb)) \/
  (kb <> S6 /\ demand_b kb <= zlen (null_written oa false ka)).
Proof.
  intros Hne. rewrite !zlen_written by done.
  pose proof (zlen_nonneg (wire (ready_of oa))). pose proof (zlen_nonneg (wire (ready_of ob))).
  pose proof (greeting_of_length oa (proj1 Hna) false) as Ga. pose proof (greeting_of_length ob (proj1 Hnb) true) as Gb.
  destruct ka, kb; cbn [demand]; rewrite ?zlen_app, ?Ga, ?Gb;
    first [by destruct Hne | left; split; [done|lia] | right; split; [done|lia]].
Qed.

Lemma round_at ka kb p :
  pair_at ka kb p -> exists ka' kb', pair_at ka' kb' (round p) /\
    (Nat.min 12 (rank ka + rank kb + 1) <= rank ka' + rank kb')%nat.
Proof.
  intros Hat. destruct (round_a_at ka kb p Hat) as (ka' & Ha & Hra & Hpa).
  destruct (round_b_at ka' kb (round_a p) Ha) as (kb' & Hb & Hrb & Hpb).
  exists ka', kb'. split; [done|]. destruct (decide (ka = S6 /\ kb = S6)) as [[-> ->]|Hne]; [cbn in *; lia|].
  destruct (decide (ka' = ka)) as [->|Hka].
  - destruct (interlock ka kb Hne) as [[H1 H2]|[H1 H2]]; [specialize (Hpa H1 H2)|specialize (Hpb H1 H2)]; lia.
  - enough (rank ka <> rank ka') by lia. destruct ka, ka'; done.
Qed.

Lemma rounds_at n ka kb p :
  pair_at ka kb p -> exists ka' kb', pair_at ka' kb' (Nat.iter n round p) /\
    (Nat.min 12 (rank ka + rank kb + n) <= rank ka' + rank kb')%nat.
Proof.
  induction n as [|n IH]; intros Hat; [exists ka, kb; split; [done|lia]|].
  destruct (IH Hat) as (k1 & k2 & Hat1 & Hr). destruct (round_at k1 k2 _ Hat1) as (k1' & k2' & Hat2 & Hr2).
  exists k1', k2'. split; [done|]. lia.
Qed.

End Pair.

(** ** Properties *)

(** C19: two rzmq sockets without security always finish the handshake.  Whatever
    turns the two sides have taken, however the octets were cut, delayed within
    the timeouts or left on the way, and however often a waiting step was dropped
    and started again: from there, twelve rounds in which everything written is
    delivered bring both sides to the end, each knowing the other's socket type,
    with nothing left in a buffer or on the way.  (No deadlock, no message of
    the handshake lost or read twice.) *)
Theorem handshake_live (HD : Dryoc) (HS : Snow) (ea eb : bytes) (oa ob : SocketOptions) (t0 : Z) (p : pair)
  (Hna : null_socket oa) (Hnb : null_socket ob)
  (Hta : 0 < timeout (engine_config oa)) (Htb : 0 < timeout (engine_config ob))
  (Hrun : rtc (pair_step ea eb) (start oa ob t0) p) :
  let q := Nat.iter 12 (round ea eb) p in
  Handler.is_handshake_complete (pa q) = true /\ Handler.is_handshake_complete (pb q) = true /\
  peer_socket_type (handshake_state (pa q)) = Some (bs (socket_type_name ob)) /\
  peer_socket_type (handshake_state (pb q)) = Some (bs (socket_type_name oa)) /\
  ab q = [] /\ ba q = [] /\ network_read_buffer (pa q) = [] /\ network_read_buffer (pb q) = [].
Proof.
  cbn zeta. assert (exists ka kb, pair_at oa ob ka kb p) as (ka & kb & Hat).
  { refine (rtc_invariant (pair_step ea eb) (fun p => exists ka kb, pair_at oa ob ka kb p) _ _ Hrun _ _).
    - exists S0, S0. by apply start_at.
    - intros p1 p2 (k1 & k2 & H1) H2. by eapply pair_step_at. }
  destruct (rounds_at ea eb oa ob Hna Hnb Hta Htb 12 ka kb p Hat) as (ka' & kb' & Hq & Hr).
  set (q := Nat.iter 12 (round ea eb) p) in *. clearbody q.
  assert (Hr' : (12 <= rank ka' + rank kb')%nat) by lia. clear Hr.
  assert (ka' = S6 /\ kb' = S6) as [-> ->] by (destruct ka', kb'; cbn in Hr'; split; (done || lia)).
  destruct Hq as (sa & sb & Ha & Hb & Eba & Eab).
  destruct (done_buffers ob true _ _ _ _ _ _ (proj1 Hnb) (as_octets _ _ _ _ _ _ _ _ _ Ha) eq_refl Eba) as [-> ->].
  destruct (done_buffers oa false _ _ _ _ _ _ (proj1 Hna) (as_octets _ _ _ _ _ _ _ _ _ Hb) eq_refl Eab) as [-> ->].
  split_and!; [by apply bool_decide_eq_true, Ha|by apply bool_decide_eq_true, Hb|by apply Ha|by apply Hb|done..].
Qed.

Lemma handshake_live_witness :
  let HD := toy_dryoc in let HS := toy_snow in
  let o := default_options <| socket_type_name := "REQ"%string |> in
  let o' := default_options <| socket_type_name := "REP"%string |> in
  let q := Nat.iter 12 (round [] []) (start o o' 0) in
  Handler.is_handshake_complete (pa q) = true /\ Handler.is_handshake_complete (pb q) = true.
Proof.
  intros HD HS o o' q.
  assert (Hn : forall ty, is_Some (socket_type_code ty) -> null_socket (default_options <| socket_type_name := ty |>)).
  { intros ty Hty. split; [reflexivity|]. split; [exact Hty|]. left. reflexivity. }
  destruct (handshake_live HD HS [] [] o o' 0 (start o o' 0)) as (H1 & H2 & _).
  - apply Hn. by eexists.
  - apply Hn. by eexists.
  - reflexivity.
  - reflexivity.
  - apply rtc_refl.
  - split; [exact H1|exact H2].
Defined.
