(* ===== verification/HandshakeV2.v ===== *)
(** The ZMTP 2.0 path of the handshake
    ([core/src/sessionx/protocol_handler/v2_path.rs]): what a peer that
    announces revision 1 gets. *)

From S2P Require Import Prelude Error Utf8 Message Codec Command Framer Greeting Mechanism Plain Options.
From S2P Require Import Curve Noise Security Io Handler Handshake HandshakeSafety HandshakeLive.

Section V2.
Context `{HD : Dryoc} `{HS : Snow}.
Variable e : bytes.
Variable o : SocketOptions.
Variable role : bool.
Variable peer : byte.
Variable identity : bytes.
Variable t0 : Z.
Hypothesis Hallow : allow_zmtp2 o = true.
Hypothesis Hpair : (socket_type_name o, peer) ∈ Handshake.v2_pairs.
Hypothesis Hid : zlen identity <= 255.
Hypothesis Hlimit : parser_limit (maxmsgsize o) (zlen identity) = None.
Hypothesis Ht : 0 < timeout (engine_config o).

(** What the peer sends: its greeting and its identity. *)
Definition v2_octets : bytes :=
  ZmtpV2Greeting.encode_full peer [] ++ wire (Msg.from_vec identity).

(** A read that one delivery completes, and one that needs none. *)
Lemma read_one {H A} (check : H -> World -> Io.outcome (option A) * H) absorb d ep h chunk corks sent t a h1 h2 :
  t < d -> chunk <> [] -> check h (mkWorld [RData 0 chunk] [] corks sent t) = (Done None, h1) ->
  (forall w, w_now w = t -> check (absorb chunk t h1) w = (Done (Some a), h2)) ->
  read_until check absorb (Some d) ep h (mkWorld [RData 0 chunk] [] corks sent t) =
  (Done a, h2, mkWorld [] [] corks sent t).
Proof.
  intros Hd Hc H1 H2. unfold read_until. cbn [w_inbox read_events ev_delay]. rewrite H1.
  replace (expired _ _ _) with false by (unfold expired; cbn [w_now]; lia).
  destruct chunk as [|b chunk]; [done|]. cbn [w_now]. rewrite Z.add_0_r. by rewrite H2.
Qed.

Lemma read_now {H A} (check : H -> World -> Io.outcome (option A) * H) absorb d ep h inbox corks sent t a h1 :
  check h (mkWorld inbox [] corks sent t) = (Done (Some a), h1) ->
  read_until check absorb d ep h (mkWorld inbox [] corks sent t) = (Done a, h1, mkWorld inbox [] corks sent t).
Proof. intros H1. unfold read_until. cbn [w_inbox]. destruct inbox; cbn [read_events]; by rewrite H1. Qed.

Lemma v2_own : exists own, socket_type_code (socket_type_name o) = Some own.
Proof.
  pose proof Hpair as Hp. unfold Handshake.v2_pairs in Hp.
  repeat (apply elem_of_cons in Hp as [[= -> _]|Hp]; [by eexists|]). by apply elem_of_nil in Hp.
Qed.

Lemma v2_peer_name : exists name, socket_type_name_from_code peer = Some name.
Proof.
  pose proof Hpair as Hp. unfold Handshake.v2_pairs in Hp.
  repeat (apply elem_of_cons in Hp as [[= _ ->]|Hp]; [by eexists|]). by apply elem_of_nil in Hp.
Qed.

(** A handler of this socket that has its stream, in a given phase. *)
Definition at_phase (p : HandshakeSubPhaseX) (buf : bytes) (h : ZmtpProtocolHandlerX) : Prop :=
  h_config h = engine_config o /\ h_stream h = true /\ sub_phase (handshake_state h) = p /\
  network_read_buffer h = buf /\ zmtp_manual_parser h = mkParser ReadHeader (maxmsgsize o) /\
  peer_identity_from_ready (handshake_state h) = None /\
  framer h = DynNull (NullFramer.new (maxmsgsize o)) /\ security_mechanism h = MNull mkNullMechanism.

Lemma v2_signature h sent :
  at_phase GreetingExchange [] h ->
  exists p h', Handshake.advance_handshake_step e h (mkWorld [RData 0 v2_octets] [] [] sent t0) =
    (Done p, h', mkWorld [RData 0 v2_octets] [] [] (sent ++ encode_signature [] ++ [GREETING_VERSION_MAJOR_BYTE]) t0) /\
    at_phase WaitingForPeerRevision [] h'.
Proof.
  intros (Hc & Hs & Hp & Hb & Hm & Hi & Hf & Hse). eexists _, _.
  unfold Handshake.advance_handshake_step. run. rewrite Hp. unfold Handshake.send_signature. run.
  rewrite app_nil_r. split; [reflexivity|]. by split_and!.
Qed.

Lemma v2_greeting_prefix : exists rest, v2_octets = ZmtpV2Greeting.encode_full peer [] ++ rest /\ zlen v2_octets = 12 + zlen rest.
Proof. eexists. split; [done|]. unfold v2_octets. by rewrite zlen_app. Qed.

Lemma v2_revision h sent :
  at_phase WaitingForPeerRevision [] h ->
  exists p h' own, Handshake.advance_handshake_step e h (mkWorld [RData 0 v2_octets] [] [] sent t0) =
    (Done p, h', mkWorld [] [] [] (sent ++ [own]) t0) /\
    socket_type_code (socket_type_name o) = Some own /\
    at_phase V2IdentityExchange v2_octets h' /\ negotiated_version h' = Some V2.
Proof.
  intros (Hc & Hs & Hp & Hb & Hm & Hi & Hf & Hse). destruct v2_own as [own Hown].
  destruct v2_greeting_prefix as (rest & Ho & Hl). pose proof (zlen_nonneg rest).
  assert (Hpeek : Handshake.read_peer_signature_and_peek_revision (timeout (engine_config o)) (SIGNATURE_LENGTH + 1) h
      (mkWorld [RData 0 v2_octets] [] [] sent t0) =
    (Done ZmtpV2Greeting.REVISION, Handler.absorb v2_octets t0 h, mkWorld [] [] [] sent t0)).
  { unfold Handshake.read_peer_signature_and_peek_revision. run.
    change (SIGNATURE_LENGTH + 1) with 11.
    assert (Hfill : Handshake.fill 11 (timeout (engine_config o)) "g peek read" h
      (mkWorld [RData 0 v2_octets] [] [] sent t0) = (Done tt, Handler.absorb v2_octets t0 h, mkWorld [] [] [] sent t0)).
    { unfold Handshake.fill. run. apply (read_one _ _ _ _ _ _ _ _ _ tt h); [cbn [w_now]; lia|done| |].
      - unfold Handshake.have. by rewrite Hb.
      - intros w Hw. unfold Handshake.have. change (network_read_buffer (Handler.absorb v2_octets t0 h)) with (network_read_buffer h ++ v2_octets).
        rewrite Hb. cbn [app]. by replace (_ <? _) with false by lia. }
    rewrite (bind_done _ _ _ _ _ _ _ Hfill).
    run. change (network_read_buffer (Handler.absorb v2_octets t0 h)) with (network_read_buffer h ++ v2_octets). rewrite Hb. cbn [app].
    unfold slice_to. replace (_ && _) with true by lia. rewrite Ho. run. done. }
  unfold Handshake.advance_handshake_step. run. rewrite Hp, Hc. fold (timeout (engine_config o)).
  unfold Handshake.wait_for_peer_revision. rewrite (bind_done _ _ _ _ _ _ _ Hpeek).
  rewrite bool_decide_true by done. unfold Handshake.write_v2_tail_and_advance. run.
  change (h_config (Handler.absorb v2_octets t0 h)) with (h_config h). rewrite Hc. cbn [cfg_allow_zmtp2 cfg_socket_type_name engine_config].
  rewrite Hallow, Hown. cbn [negb]. run.
  rewrite app_nil_r.
  eexists _, _, own. split; [reflexivity|]. split; [done|]. split; [|done].
  split_and!; try done. cbn. by rewrite Hb.
Qed.

Lemma v2_frame :
  ZmtpManualParser.decode_from_buffer (mkParser ReadHeader (maxmsgsize o)) (wire (Msg.from_vec identity)) =
  (mkParser ReadHeader (maxmsgsize o), [], Ok (Some (norm_msg (Msg.from_vec identity)))).
Proof.
  pose proof (parser_decode_post (mkParser ReadHeader (maxmsgsize o)) (wire (Msg.from_vec identity)) I) as Hp.
  destruct (ZmtpManualParser.decode_from_buffer _ _) as [[p src] r].
  destruct Hp as (Hmax & _ & Hpost). cbn [max_msg_size] in *. unfold decode_post in Hpost. cbn [mp_state state_pending app] in Hpost.
  rewrite <- (app_nil_r (wire _)), frame_spec_wire in Hpost; [|unfold Msg.size; cbn; lia|done].
  destruct Hpost as (-> & Hpe & ->). destruct p as [[|hd] max]; cbn in Hmax; [by subst|done].
Qed.

Lemma v2_consume h sent :
  at_phase V2IdentityExchange v2_octets h ->
  Handshake.consume_peer_v2_greeting (timeout (engine_config o)) h (mkWorld [] [] [] sent t0) =
  (Done peer, h <| network_read_buffer := wire (Msg.from_vec identity) |>, mkWorld [] [] [] sent t0).
Proof.
  intros (Hc & Hs & Hp & Hb & _). destruct v2_greeting_prefix as (rest & Ho & Hl). pose proof (zlen_nonneg rest).
  unfold Handshake.consume_peer_v2_greeting. run.
  assert (Hfill : Handshake.fill V2_GREETING_LENGTH (timeout (engine_config o)) "v2 greeting read" h
    (mkWorld [] [] [] sent t0) = (Done tt, h, mkWorld [] [] [] sent t0)).
  { unfold Handshake.fill. run. apply read_now. unfold Handshake.have. rewrite Hb.
    change V2_GREETING_LENGTH with 12. by replace (_ <? _) with false by lia. }
  rewrite (bind_done _ _ _ _ _ _ _ Hfill). run. rewrite Hb. unfold v2_octets.
  change (index (ZmtpV2Greeting.encode_full peer [] ++ wire (Msg.from_vec identity)) 11) with (Ok peer). run.
  rewrite slice_from_app by done. by run.
Qed.

Lemma v2_read h sent d :
  zmtp_manual_parser h = mkParser ReadHeader (maxmsgsize o) ->
  network_read_buffer h = wire (Msg.from_vec identity) ->
  Handshake.read_v2_identity_frame d h (mkWorld [] [] [] sent t0) =
  (Done identity, Handler.activity t0 (h <| zmtp_manual_parser := mkParser ReadHeader (maxmsgsize o) |>
                                         <| network_read_buffer := [] |>), mkWorld [] [] [] sent t0).
Proof.
  intros Hm Hb. unfold Handshake.read_v2_identity_frame. run. apply read_now.
  unfold Handshake.identity_check, Handshake.parse_buffer. rewrite Hm, Hb, v2_frame. cbn match.
  change (match wire (Msg.from_vec identity) with [] => _ | _ => ?x end) with x.
  unfold Handshake.enforce_v2_identity_constraints.
  change (MsgFlags.contains (Msg.flags (norm_msg (Msg.from_vec identity))) MsgFlags.COMMAND) with false.
  change (MsgFlags.contains (Msg.flags (norm_msg (Msg.from_vec identity))) MsgFlags.MORE) with false. cbn match.
  change (default [] (Msg.data (norm_msg (Msg.from_vec identity)))) with identity.
  by replace (255 <? zlen identity) with false by lia.
Qed.

Lemma v2_send h sent d :
  h_stream h = true ->
  Handshake.send_empty_identity_frame_v2 d h (mkWorld [] [] [] sent t0) =
  (Done tt, Handler.activity t0 h, mkWorld [] [] [] (sent ++ [Byte.x00; Byte.x00]) t0).
Proof. intros Hs. unfold Handshake.send_empty_identity_frame_v2. run. rewrite app_nil_r. done. Qed.

Lemma v2_identity h sent :
  at_phase V2IdentityExchange v2_octets h ->
  exists h', Handshake.advance_handshake_step e h (mkWorld [] [] [] sent t0) =
    (Done (Handshake.complete (if bool_decide (identity = []) then None else Some identity)), h',
     mkWorld [] [] [] (sent ++ [Byte.x00; Byte.x00]) t0) /\
    at_phase PhaseDone [] h' /\ negotiated_version h' = negotiated_version h.
Proof.
  intros Hat. pose proof Hat as (Hc & Hs & Hp & Hb & Hm & Hi & Hf & Hse).
  destruct v2_peer_name as [name Hname].
  unfold Handshake.advance_handshake_step. run. rewrite Hp, Hc. fold (timeout (engine_config o)).
  unfold Handshake.exchange_v2_identity. rewrite (bind_done _ _ _ _ _ _ _ (v2_consume h sent Hat)). run.
  change (cfg_socket_type_name _) with (cfg_socket_type_name (h_config h)). rewrite Hc.
  unfold Handshake.validate_v2_socket_type_compat. rewrite Hname. cbn [ok_or mbind result_bind].
  rewrite bool_decide_true by exact Hpair. run.
  erewrite bind_done by by apply v2_send. erewrite bind_done by (apply v2_read; [exact Hm|done]).
  case_bool_decide as He; run.
  - eexists. split; [|split].
    + replace (Handshake.complete None) with (Handshake.complete (peer_identity_from_ready (handshake_state h)))
        by by rewrite Hi.
      reflexivity.
    + by split_and!.
    + done.
  - eexists. split; [reflexivity|]. split; [by split_and!|done].
Qed.

End V2.

(** ** Properties *)

(** C34: a ZMTP 2.0 peer gets a plain connection, whatever security is
    configured.  On a socket that allows ZMTP 2.0 (the default), in either role, a
    peer that announces revision 1 and a compatible socket type completes the
    handshake in three steps: the engine answers with its own socket type and an
    empty identity, reports the peer's identity, and the data phase is framed
    without any mechanism. *)
Theorem v2_downgrade (HD : Dryoc) (HS : Snow) (e : bytes) (o : SocketOptions) (role : bool) (peer : byte)
  (identity : bytes) (t0 : Z)
  (Hallow : allow_zmtp2 o = true) (Hpair : (socket_type_name o, peer) ∈ Handshake.v2_pairs)
  (Hid : zlen identity <= 255) (Hlimit : parser_limit (maxmsgsize o) (zlen identity) = None)
  (Ht : 0 < timeout (engine_config o)) :
  let w := mkWorld [RData 0 (ZmtpV2Greeting.encode_full peer [] ++ wire (Msg.from_vec identity))] [] [] [] t0 in
  let '(h2, w2) := run_handshake e 2 (Handler.new (engine_config o) role t0) w in
  exists h3 own, Handshake.advance_handshake_step e h2 w2 =
    (Done (Handshake.complete (if bool_decide (identity = []) then None else Some identity)), h3,
     mkWorld [] [] [] (encode_signature [] ++ [GREETING_VERSION_MAJOR_BYTE; own; Byte.x00; Byte.x00]) t0) /\
    socket_type_code (socket_type_name o) = Some own /\
    Handler.is_handshake_complete h3 = true /\ Handler.is_v2_session h3 = true /\
    framer h3 = DynNull (NullFramer.new (maxmsgsize o)) /\ network_read_buffer h3 = [].
Proof.
  cbn zeta. fold (v2_octets peer identity). cbn [run_handshake].
  assert (H0 : at_phase o GreetingExchange [] (Handler.new (engine_config o) role t0)) by by split_and!.
  destruct (v2_signature e o peer identity t0 _ [] H0) as (p1 & h1 & -> & H1).
  destruct (v2_revision e o peer identity t0 Hallow Hpair Ht h1 ([] ++ encode_signature [] ++ [GREETING_VERSION_MAJOR_BYTE]) H1) as (p2 & h2 & own & -> & Hown & H2 & Hv).
  destruct (v2_identity e o peer identity t0 Hpair Hid Hlimit h2
    (([] ++ encode_signature [] ++ [GREETING_VERSION_MAJOR_BYTE]) ++ [own]) H2) as (h3 & -> & H3 & Hn).
  exists h3, own. destruct H3 as (_ & _ & Hp & Hb & _ & _ & Hf & _).
  split_and!; [by rewrite <- !app_assoc|done|by apply bool_decide_eq_true| |done..].
  unfold Handler.is_v2_session. by rewrite Hn, Hv.
Qed.

(** A listening DEALER that requires PLAIN credentials. *)
Definition plain_dealer : SocketOptions := plain_socket <| socket_type_name := "DEALER"%string |>.

Lemma v2_downgrade_witness :
  let HD := toy_dryoc in let HS := toy_snow in
  plain_enabled (plain_options plain_dealer) = true /\
  let w := mkWorld [RData 0 (ZmtpV2Greeting.encode_full V2_SOCKET_TYPE_ROUTER [] ++ wire (Msg.from_vec (bs "x")))]
             [] [] [] 0 in
  let '(h2, w2) := run_handshake [] 2 (Handler.new (engine_config plain_dealer) true 0) w in
  exists h3 w3, Handshake.advance_handshake_step [] h2 w2 = (Done (IdentityReady (bs "x")), h3, w3) /\
    framer h3 = DynNull (NullFramer.new (-1)).
Proof.
  intros HD HS. split; [reflexivity|]. intros w.
  pose proof (v2_downgrade HD HS [] plain_dealer true V2_SOCKET_TYPE_ROUTER (bs "x") 0 eq_refl
    ltac:(apply (bool_decide_unpack _); vm_compute; exact I) ltac:(vm_compute; discriminate) eq_refl eq_refl) as Hw.
  cbn zeta in Hw. fold w in Hw. destruct (run_handshake [] 2 _ w) as [h2 w2].
  destruct Hw as (h3 & own & E & _ & _ & _ & Hf & _). eexists h3, _. split; [exact E|exact Hf].
Defined.
