(* ===== verification/DataPhase.v ===== *)
(** The data phase of a connection, end to end: what [write_data_msgs] of one
    handler puts on the wire, [read_data_frame] of the other delivers
    ([core/src/sessionx/protocol_handler/data_io.rs]), for every framer; heartbeats
    and TCP_CORK. *)

From S2P Require Import Prelude Error Utf8 Message Codec Command Framer Greeting Mechanism Plain Options.
From S2P Require Import Curve Noise Security Io Handler Handshake HandshakeLive.

(** ** Lemmas on framers *)

Section DynReads.
Context `{IDataCipher C}.

Lemma reads_null (f f' : NullFramer) net ms net' :
  reads f net ms f' net' -> reads (F := DynFramer C) (DynNull f) net ms (DynNull f') net'.
Proof.
  induction 1 as [f net f' net' E|f net m f1 net1 ms f' net' E _ IH].
  - apply reads_stop. cbn [try_read_msg dyn_framer]. by rewrite E.
  - eapply reads_msg; [|exact IH]. cbn [try_read_msg dyn_framer]. by rewrite E.
Qed.

Lemma reads_lp (f f' : LengthPrefixedFramer C) net ms net' :
  reads f net ms f' net' -> reads (DynLengthPrefixed f) net ms (DynLengthPrefixed f') net'.
Proof.
  induction 1 as [f net f' net' E|f net m f1 net1 ms f' net' E _ IH].
  - apply reads_stop. cbn [try_read_msg dyn_framer]. by rewrite E.
  - eapply reads_msg; [|exact IH]. cbn [try_read_msg dyn_framer]. by rewrite E.
Qed.

Lemma receives_null L (f f' : NullFramer) net chunks ms net' :
  receives L f net chunks ms f' net' ->
  receives (F := DynFramer C) L (DynNull f) net chunks ms (DynNull f') net'.
Proof. induction 1; [constructor|]. econstructor; [done|by apply reads_null|done]. Qed.

Lemma receives_lp L (f f' : LengthPrefixedFramer C) net chunks ms net' :
  receives L f net chunks ms f' net' ->
  receives L (DynLengthPrefixed f) net chunks ms (DynLengthPrefixed f') net'.
Proof. induction 1; [constructor|]. econstructor; [done|by apply reads_lp|done]. Qed.

Lemma null_shrinks (f : NullFramer) net : zlen (try_read_msg f net).1.2 <= zlen net.
Proof.
  cbn [try_read_msg null_framer]. unfold NullFramer.try_read_msg.
  pose proof (parser_shrinks (nf_parser f) net). by destruct (ZmtpManualParser.decode_from_buffer _ _) as [[p b] r].
Qed.

Lemma dyn_shrinks (f : DynFramer C) net : zlen (try_read_msg f net).1.2 <= zlen net.
Proof.
  destruct f as [f|f]; cbn [try_read_msg dyn_framer].
  - pose proof (null_shrinks f net). by destruct (try_read_msg f net) as [[? ?] ?].
  - pose proof (lp_shrinks f net). by destruct (try_read_msg f net) as [[? ?] ?].
Qed.

End DynReads.

(** ** The plain framer is a channel *)

Section NullChannel.
Variable max : Z.
Abbreviation lim := (parser_limit max).

(** A receiver whose undelivered octets are [s], parser and buffer together. *)
Definition null_holds (f : NullFramer) (net s : bytes) : Prop :=
  state_wf lim (mp_state (nf_parser f)) /\ max_msg_size (nf_parser f) = max /\
  state_pending (mp_state (nf_parser f)) ++ net = s.

Lemma null_reads f net s ms rest :
  null_holds f net s -> frames lim s = (ms, inl rest) ->
  exists f' net', reads f net ms f' net' /\ null_holds f' net' rest /\ frame_spec lim rest = NeedMore.
Proof.
  revert f net ms. induction s as [s IH] using (induction_ltof1 _ (@length _)); unfold ltof in IH.
  intros f net ms (Hwf & Hmax & Hs) Hf. rewrite frames_unfold in Hf.
  pose proof (parser_decode_post (nf_parser f) net) as Hp. rewrite Hmax in Hp. specialize (Hp Hwf).
  assert (Er : try_read_msg f net = let '(p, b, r) := ZmtpManualParser.decode_from_buffer (nf_parser f) net in
    (mkNullFramer p, b, r)) by done.
  destruct (ZmtpManualParser.decode_from_buffer (nf_parser f) net) as [[p b] r].
  destruct Hp as (Hmax' & Hwf' & Hpost). rewrite Hs in Hpost. unfold decode_post in Hpost.
  destruct (frame_spec lim s) as [|e r'|m r'] eqn:Ef; [|done|].
  - injection Hf as <- <-. destruct Hpost as [-> Hp]. exists (mkNullFramer p), b.
    split; [by apply reads_stop|]. by split_and!.
  - destruct (frames lim r') as [ms' o'] eqn:Er'. injection Hf as <- ->.
    destruct Hpost as (-> & Hp & ->).
    destruct (IH r' ltac:(apply frame_spec_rest in Ef; lia) (mkNullFramer p) r' ms')
      as (f' & net' & Hr & Hh & Hn); [split_and!; cbn; [done..|by rewrite Hp]|done|].
    exists f', net'. split; [by eapply reads_msg|done].
Qed.

(** A stream of frames cut anywhere is never refused. *)
Lemma frames_cut s k ms :
  Forall (deliverable max) ms -> s ++ k = concat (wire <$> ms) ->
  exists ms1 ms2 rest, frames lim s = (norm_msg <$> ms1, inl rest) /\ ms = ms1 ++ ms2 /\
    rest ++ k = concat (wire <$> ms2).
Proof.
  revert s. induction ms as [|m ms IH]; intros s Hd E.
  - cbn in E. apply app_nil in E as [-> ->]. by exists [], [], [].
  - apply Forall_cons in Hd as [[Hsz Hlim] Hd]. cbn [fmap list_fmap concat] in E.
    apply app_eq_inv in E as [[y [-> Hy]]|[y [Hy ->]]].
    + destruct (IH y Hd (eq_sym Hy)) as (ms1 & ms2 & rest & Hf & -> & Hr).
      exists (m :: ms1), ms2, rest. rewrite frames_unfold, frame_spec_wire by done. by rewrite Hf.
    + destruct y as [|b y].
      * rewrite app_nil_r in Hy. subst s. exists [m], ms, []. split_and!; [|done|done].
        rewrite frames_unfold, <- (app_nil_r (wire m)), frame_spec_wire by done. done.
      * exists [], (m :: ms), s. split_and!; [|done|by rewrite app_assoc, <- Hy].
        rewrite frames_unfold. pose proof (frame_spec_app lim s (b :: y)) as Ha.
        rewrite <- Hy, <- (app_nil_r (wire m)), frame_spec_wire in Ha by done.
        destruct (frame_spec lim s) as [|e r|m' r]; [done|done|]. injection Ha as _ Hr. by destruct r.
Qed.

(** What waits for the rest of a frame is shorter than the frame. *)
Lemma waiting_len rest k ms B :
  Forall (deliverable max) ms -> Forall (fun m => zlen (wire m) <= B) ms -> 0 <= B ->
  frame_spec lim rest = NeedMore -> rest ++ k = concat (wire <$> ms) -> zlen rest <= B.
Proof.
  intros Hd HB H0 Hn E. destruct ms as [|m ms]; cbn [fmap list_fmap concat] in E; [by apply app_nil in E as [-> _]|].
  apply Forall_cons in Hd as [[Hsz Hlim] _]. apply Forall_cons in HB as [HB _].
  apply app_eq_inv in E as [[y [-> Hy]]|[y [Hy ->]]].
  - by rewrite frame_spec_wire in Hn.
  - rewrite Hy, zlen_app in HB. pose proof (zlen_nonneg y). lia.
Qed.

Lemma null_receives K B chunks ms f net s :
  Forall (deliverable max) ms -> Forall (fun m => zlen (wire m) <= B) ms -> 0 <= B ->
  Forall (fun c => zlen c <= K) chunks ->
  null_holds f net s -> frame_spec lim s = NeedMore -> s ++ concat chunks = concat (wire <$> ms) ->
  exists f', receives (B + K) f net chunks (norm_msg <$> ms) f' [] /\ null_holds f' [] [].
Proof.
  revert ms f net s. induction chunks as [|c chunks IH]; intros ms f net s Hd HB H0 HK Hh Hn E.
  - cbn [concat] in E. rewrite app_nil_r in E. destruct ms as [|m ms].
    + cbn in E. destruct Hh as (Hwf & Hmax & Hs). rewrite E in Hs. apply app_nil in Hs as [Hs ->].
      exists f. split; [constructor|]. split_and!; [done..|by rewrite Hs].
    + apply Forall_cons in Hd as [[Hsz Hlim] _]. cbn [fmap list_fmap concat] in E.
      by rewrite E, frame_spec_wire in Hn.
  - apply Forall_cons in HK as [HKc HK]. cbn [concat] in E.
    pose proof (waiting_len s _ ms B Hd HB H0 Hn E) as Hl.
    rewrite app_assoc in E. destruct (frames_cut (s ++ c) (concat chunks) ms Hd E) as (ms1 & ms2 & rest & Hf & -> & Hr).
    apply Forall_app in Hd as [_ Hd]. apply Forall_app in HB as [_ HB].
    assert (Hh' : null_holds f (net ++ c) (s ++ c)).
    { destruct Hh as (? & ? & <-). split_and!; [done..|]. by rewrite app_assoc. }
    destruct (null_reads _ _ _ _ _ Hh' Hf) as (f1 & net1 & Hreads & Hh1 & Hn1).
    destruct (IH ms2 f1 net1 rest Hd HB H0 HK Hh1 Hn1 Hr) as (f2 & Hrec & Hh2).
    exists f2. split; [|done]. rewrite fmap_app. econstructor; [|exact Hreads|exact Hrec].
    destruct Hh as (_ & _ & <-). rewrite zlen_app in Hl. rewrite zlen_app.
    pose proof (zlen_nonneg (state_pending (mp_state (nf_parser f)))). lia.
Qed.

End NullChannel.

(** ** The session reads what the framer delivers *)

Section SessionRead.
Context `{HD : Dryoc} `{HS : Snow}.
Abbreviation handler := ZmtpProtocolHandlerX.

Definition chunks_of (inbox : list ReadEvent) : list bytes := ev_bytes <$> inbox.

(** About to look at its buffer, the handler will deliver [ms] from there on. *)
Definition will_deliver (ms : list Msg) (f' : DynFramer DynCipher) (net' : bytes) (h : handler)
  (inbox : list ReadEvent) : Prop :=
  h_stream h = true /\ clean inbox /\ zlen (network_read_buffer h) <= Handler.MAX_BUFFER_SIZE /\
  exists ms1 ms2 f1 net1, ms = ms1 ++ ms2 /\ reads (framer h) (network_read_buffer h) ms1 f1 net1 /\
    receives Handler.MAX_BUFFER_SIZE f1 net1 (chunks_of inbox) ms2 f' net'.

Lemma events_deliver inbox ms f' net' h w :
  will_deliver ms f' net' h inbox ->
  match ms with
  | m :: ms => exists h1 inbox1 t1,
      read_events Handler.frame_check Handler.absorb None "data read" inbox h w =
        (Done m, h1, w <| w_inbox := inbox1 |> <| w_now := t1 |>) /\ will_deliver ms f' net' h1 inbox1
  | [] => exists h1 t1,
      read_events Handler.frame_check Handler.absorb None "data read" inbox h w =
        (Pending, h1, w <| w_inbox := [] |> <| w_now := t1 |>) /\
      framer h1 = f' /\ network_read_buffer h1 = net'
  end.
Proof.
  revert h w. induction inbox as [|ev rest IH]; intros h w (Hst & Hc & Hb & ms1 & ms2 & f1 & net1 & -> & Hr & Hrec).
  - cbn [chunks_of fmap list_fmap] in Hrec. inv Hrec. inv Hr as [? ? ? ? E|? ? m ? net2 ms ? ? E Hr'].
    + cbn [app]. unfold read_events, Handler.frame_check. rewrite zltb_false by done. rewrite E.
      eexists _, (w_now w). split; [destruct w; reflexivity|done].
    + cbn [app]. cbn [read_events]. unfold Handler.frame_check. rewrite zltb_false by done. rewrite E.
      eexists _, [], (w_now w). split; [destruct w; reflexivity|].
      split_and!; [done|done| |].
      * cbn. pose proof (dyn_shrinks (framer h) (network_read_buffer h)) as Hs. rewrite E in Hs. cbn in Hs. lia.
      * exists ms, [], f', net'. split_and!; [done|done|constructor].
  - inv Hr as [? ? ? ? E|? ? m ? net2 ms ? ? E Hr'].
    + assert (Eck : Handler.frame_check h w = (Done None, h <| framer := f1 |> <| network_read_buffer := net1 |>)).
      { unfold Handler.frame_check. rewrite zltb_false by done. by rewrite E. }
      pose proof Hc as Hc0. inv Hc as [|? ? Hev Hc']. destruct ev as [d c|]; [|done]. destruct Hev as [Hd Hne].
      cbn [chunks_of fmap list_fmap ev_bytes] in Hrec. inv Hrec as [|? ? ? ? ms1 f2 net2 ms3 ? ? Hlen Hreads Hrec'].
      cbn [app read_events]. rewrite Eck. cbn [expired ev_delay]. destruct c as [|b c]; [done|].
      set (w1 := w <| w_inbox := rest |> <| w_now := w_now w + d |>).
      set (h1 := Handler.absorb (b :: c) (w_now w1) (h <| framer := f1 |> <| network_read_buffer := net1 |>)).
      assert (Hw : will_deliver (ms1 ++ ms3) f' net' h1 rest).
      { split_and!; [done|done|done|]. by exists ms1, ms3, f2, net2. }
      specialize (IH h1 w1 Hw). destruct (ms1 ++ ms3) as [|m ms].
      * destruct IH as (h2 & t2 & -> & Hres). exists h2, t2. split; [by destruct w|done].
      * destruct IH as (h2 & inbox2 & t2 & -> & Hres). exists h2, inbox2, t2. split; [by destruct w|done].
    + cbn [app read_events]. unfold Handler.frame_check. rewrite zltb_false by done. rewrite E.
      eexists _, (ev :: rest), (w_now w). split; [destruct w; reflexivity|].
      split_and!; [done|done| |].
      * cbn. pose proof (dyn_shrinks (framer h) (network_read_buffer h)) as Hs. rewrite E in Hs. cbn in Hs. lia.
      * by exists ms, ms2, f1, net1.
Qed.

End SessionRead.

(** ** Writing and reading many frames *)

Section Session.
Context `{HD : Dryoc} `{HS : Snow}.
Abbreviation handler := ZmtpProtocolHandlerX.

(** The actor's loops around the two operations. *)
Fixpoint read_n (n : nat) : proc handler (list Msg) :=
  match n with
  | O => mret []
  | S n => m ← Handler.read_data_frame; ms ← read_n n; mret (option_list m ++ ms)
  end.

Fixpoint send_all (batches : list (list Msg)) : proc handler unit :=
  match batches with
  | [] => mret tt
  | msgs :: batches => Handler.write_data_msgs msgs;; send_all batches
  end.

Lemma read_frame_deliver ms f' net' h inbox writes corks sent t :
  will_deliver ms f' net' h inbox ->
  match ms with
  | m :: ms => exists h1 inbox1 t1,
      Handler.read_data_frame h (mkWorld inbox writes corks sent t) =
        (Done (Some m), h1, mkWorld inbox1 writes corks sent t1) /\ will_deliver ms f' net' h1 inbox1
  | [] => exists h1 t1,
      Handler.read_data_frame h (mkWorld inbox writes corks sent t) =
        (Pending, h1, mkWorld [] writes corks sent t1) /\ framer h1 = f' /\ network_read_buffer h1 = net'
  end.
Proof.
  intros Hw. pose proof (events_deliver inbox ms f' net' h (mkWorld inbox writes corks sent t) Hw) as He.
  destruct Hw as (Hst & _). unfold Handler.read_data_frame, read_until. cbn [w_inbox] in He |- *.
  destruct ms as [|m ms].
  - destruct He as (h1 & t1 & E & Hres). exists h1, t1. split; [|done]. run.
    unfold mbind, proc_bind. cbn [w_inbox]. by rewrite E.
  - destruct He as (h1 & inbox1 & t1 & E & Hres). exists h1, inbox1, t1. split; [|done]. run.
    unfold mbind, proc_bind. cbn [w_inbox]. by rewrite E.
Qed.

Lemma read_n_deliver ms f' net' h inbox writes corks sent t :
  will_deliver ms f' net' h inbox ->
  exists h1 inbox1 t1, read_n (length ms) h (mkWorld inbox writes corks sent t) =
    (Done ms, h1, mkWorld inbox1 writes corks sent t1) /\ will_deliver [] f' net' h1 inbox1.
Proof.
  revert h inbox t. induction ms as [|m ms IH]; intros h inbox t Hw; [by exists h, inbox, t|].
  destruct (read_frame_deliver _ _ _ _ _ writes corks sent t Hw) as (h1 & inbox1 & t1 & E1 & Hw1).
  destruct (IH h1 inbox1 t1 Hw1) as (h2 & inbox2 & t2 & E2 & Hw2).
  exists h2, inbox2, t2. split; [|done]. cbn [length read_n].
  rewrite (bind_done _ _ _ _ _ _ _ E1), (bind_done _ _ _ _ _ _ _ E2). done.
Qed.

Lemma stream_gone text h w :
  h_stream h = false -> Handler.need_stream text h w = (Failed (Internal text), h, w).
Proof. unfold Handler.need_stream, mbind, proc_bind. cbn. by intros ->. Qed.

(** TCP_CORK touches nothing else. *)
Lemma cork_spec enable h inbox writes corks sent t :
  exists ci corks', Handler.apply_cork_state enable h (mkWorld inbox writes corks sent t) =
    (Done tt, h <| cork_info := ci |>, mkWorld inbox writes corks' sent t).
Proof.
  unfold Handler.apply_cork_state. destruct (cork_info h) as [ci|] eqn:E.
  - destruct (eqb (is_corked ci) enable); [exists (Some ci), corks; by destruct h; cbn in *; subst|].
    cbn. destruct (default true (head corks)); [by eexists _, _|].
    exists (Some ci), (tail corks). by destruct h; cbn in *; subst.
  - exists None, corks. by destruct h; cbn in *; subst.
Qed.

Lemma uncork_spec h inbox writes corks sent t :
  exists ci corks', Handler.uncork h (mkWorld inbox writes corks sent t) =
    (Done tt, h <| cork_info := ci |>, mkWorld inbox writes corks' sent t).
Proof.
  unfold Handler.uncork. run. destruct (cork_info h) as [ci|] eqn:E.
  - destruct (is_corked ci).
    + destruct (cork_spec false h inbox writes corks sent t) as (ci' & corks' & Ec).
      rewrite (bind_done _ _ _ _ _ _ _ Ec). by eexists _, _.
    + run. by eexists _, _.
  - exists None, corks. by destruct h; cbn in *; subst.
Qed.

(** With a network that takes everything, a write does what the framer says. *)
Lemma write_framed msgs h f data inbox corks sent t :
  msgs <> [] -> h_stream h = true -> write_msg_multipart (framer h) msgs = (f, Ok data) ->
  exists ci corks', Handler.write_data_msgs msgs h (mkWorld inbox [] corks sent t) =
    (Done tt, (Handler.activity t (h <| framer := f |>)) <| cork_info := ci |>,
     mkWorld inbox [] corks' (sent ++ data) t).
Proof.
  intros Hne Hst Ew. unfold Handler.write_data_msgs. destruct msgs as [|m msgs]; [done|].
  run. rewrite Ew. run.
  destruct (cork_spec true (h <| framer := f |>) inbox [] corks sent t) as (ci & corks1 & Ec).
  rewrite (bind_done _ _ _ _ _ _ _ Ec). set (h1 := _ <| cork_info := ci |>).
  assert (Et : forall d, try_write d data "data write" h1 (mkWorld inbox [] corks1 sent t) =
    (Done (Ok tt), h1, mkWorld inbox [] corks1 (sent ++ data) t)).
  { intros d. unfold try_write. cbn. by rewrite firstn_all. }
  rewrite (bind_done _ _ _ _ _ _ _ (Et _)). run. cbn [w_now].
  destruct (uncork_spec (Handler.activity t h1) inbox [] corks1 (sent ++ data) t) as (ci2 & corks2 & Eu).
  rewrite (bind_done _ _ _ _ _ _ _ Eu). exists ci2, corks2. done.
Qed.

(** A write that succeeds has put the framer's octets on the wire. *)
Lemma write_one msgs h inbox corks sent t h' w' :
  msgs <> [] -> Handler.write_data_msgs msgs h (mkWorld inbox [] corks sent t) = (Done tt, h', w') ->
  exists wire corks', write_msg_multipart (framer h) msgs = (framer h', Ok wire) /\
    w' = mkWorld inbox [] corks' (sent ++ wire) t.
Proof.
  intros Hne E. destruct (h_stream h) eqn:Hst.
  2:{ unfold Handler.write_data_msgs in E. destruct msgs; [done|]. by erewrite bind_failed in E by by apply stream_gone. }
  destruct (write_msg_multipart (framer h) msgs) as [f r] eqn:Ew. destruct r as [wire|e|].
  - destruct (write_framed msgs h f wire inbox corks sent t Hne Hst Ew) as (ci & corks' & Hw).
    rewrite Hw in E. injection E as <- <-. by exists wire, corks'.
  - unfold Handler.write_data_msgs in E. destruct msgs; [done|].
    erewrite bind_done in E by by apply stream_there. unfold mbind, proc_bind in E. cbn [get] in E. by rewrite Ew in E.
  - unfold Handler.write_data_msgs in E. destruct msgs; [done|].
    erewrite bind_done in E by by apply stream_there. unfold mbind, proc_bind in E. cbn [get] in E. by rewrite Ew in E.
Qed.

Lemma send_all_wires batches h inbox corks sent t h' w' :
  Forall (fun b => b <> []) batches -> send_all batches h (mkWorld inbox [] corks sent t) = (Done tt, h', w') ->
  exists wires, Framer.write_all (framer h) batches = (framer h', Ok <$> wires) /\ w_sent w' = sent ++ concat wires.
Proof.
  intros Hne. revert h corks sent. induction Hne as [|msgs batches Hb _ IH]; intros h corks sent; cbn [send_all].
  - intros [= <- <-]. exists []. cbn. by rewrite app_nil_r.
  - unfold mbind, proc_bind. destruct (Handler.write_data_msgs msgs h _) as [[[[]|e| |] h1] w1] eqn:E; try done.
    destruct (write_one _ _ _ _ _ _ _ _ Hb E) as (wire & corks1 & Ew & ->). intros Hs.
    destruct (IH h1 corks1 (sent ++ wire) Hs) as (wires & Ea & Es).
    exists (wire :: wires). cbn [Framer.write_all]. rewrite Ew, Ea. cbn [fmap list_fmap concat].
    split; [done|]. by rewrite Es, app_assoc.
Qed.

End Session.

(** The ciphers of the mechanisms, as one. *)
Section DynPair.
Context `{HD : Dryoc} {HL : DryocLaws} `{HS : Snow} {HX : SnowXX}.

Definition dyn_sync (s r : DynCipher) : Prop :=
  match s, r with
  | CPassThrough s, CPassThrough r => cp_sync s r
  | CCurve s, CCurve r => cp_sync s r
  | CNoise s, CNoise r => cp_sync s r
  | _, _ => False
  end.

Lemma dyn_decrypts s r pt s' ct :
  dyn_sync s r -> encrypt s pt = (s', Ok ct) -> exists r', decrypt r ct = (r', Ok pt) /\ dyn_sync s' r'.
Proof.
  intros Hs E. destruct s as [s|s|s], r as [r|r|r]; try done; cbn [encrypt decrypt dyn_cipher] in *;
    destruct (encrypt s pt) as [s1 r1] eqn:E1; injection E as <- ->;
    destruct (cp_decrypt _ _ _ _ _ Hs E1) as (r' & -> & Hs'); by eexists.
Qed.

#[export] Instance dyn_pair : CipherPair DynCipher := {| cp_sync := dyn_sync; cp_decrypt := dyn_decrypts |}.

End DynPair.

(** ** The two ends of a connection *)

Section Ends.
Context `{HD : Dryoc} `{HS : Snow} `{HP : !CipherPair DynCipher}.

(** The framers of the two ends fit together: both plain, or encrypted with
    synchronised ciphers; the receiver is fresh and limits frames to [max]. *)
Definition channel (max : Z) (fs fr : DynFramer DynCipher) : Prop :=
  match fs, fr with
  | DynNull _, DynNull r => r = NullFramer.new max
  | DynLengthPrefixed s, DynLengthPrefixed r =>
      exists c, r = LengthPrefixedFramer.new c max /\ cp_sync (lp_cipher s) c
  | _, _ => False
  end.

(** The network buffer suffices: a plain frame and a delivery fit, or an
    encrypted batch does. *)
Definition fits (K : Z) (fs : DynFramer DynCipher) (batches : list (list Msg)) : Prop :=
  match fs with
  | DynNull _ => exists B, 0 <= B /\ B + K <= Handler.MAX_BUFFER_SIZE /\
      Forall (fun m => zlen (wire m) <= B) (concat batches)
  | DynLengthPrefixed s => 2 ^ 16 + K <= Handler.MAX_BUFFER_SIZE /\
      forall wires, (Framer.write_all s batches).2 = Ok <$> wires -> Forall (fun w => zlen w < 2 ^ 16 + 2) wires
  end.

Lemma write_all_null (f : NullFramer) batches :
  Framer.write_all (F := DynFramer DynCipher) (DynNull f) batches =
  (DynNull f, (fun ms => Ok (concat (wire <$> ms))) <$> batches).
Proof.
  induction batches as [|ms batches IH]; [done|]. cbn [Framer.write_all write_msg_multipart dyn_framer null_framer].
  unfold NullFramer.write_msg_multipart. rewrite encode_msgs_wire. by rewrite IH.
Qed.

Lemma write_all_lp (f : LengthPrefixedFramer DynCipher) batches :
  (Framer.write_all (DynLengthPrefixed f) batches).2 = (Framer.write_all f batches).2.
Proof.
  revert f. induction batches as [|ms batches IH]; intros f; [done|].
  cbn [Framer.write_all write_msg_multipart dyn_framer].
  destruct (write_msg_multipart f ms) as [f1 r]. specialize (IH f1).
  destruct (Framer.write_all (DynLengthPrefixed f1) batches), (Framer.write_all f1 batches). cbn in *. by rewrite IH.
Qed.

(** The receiver's framer takes the sender's octets, however they are cut. *)
Lemma channel_receives max K fs fr batches wires chunks :
  channel max fs fr -> fits K fs batches -> 0 <= K -> Forall (deliverable max) (concat batches) ->
  (Framer.write_all fs batches).2 = Ok <$> wires -> Forall (fun c => zlen c <= K) chunks ->
  concat chunks = concat wires ->
  exists L f', L <= Handler.MAX_BUFFER_SIZE /\ receives L fr [] chunks (norm_msg <$> concat batches) f' [].
Proof.
  intros Hch Hfit HK Hd Hw Hc Hnet. destruct fs as [s|s], fr as [r|r]; try done; cbn [channel fits] in *.
  - destruct Hfit as (B & H0 & HB & Hlen). subst r. exists (B + K).
    rewrite write_all_null in Hw. cbn [snd] in Hw.
    assert (Hcat : concat wires = concat (wire <$> concat batches)).
    { clear -Hw. revert wires Hw. induction batches as [|b batches IH]; intros [|w wires] Hw; try done.
      cbn [fmap list_fmap] in Hw. injection Hw as <- Hw. cbn [concat]. by rewrite (IH _ Hw), fmap_app, concat_app. }
    rewrite Hcat in Hnet.
    destruct (null_receives max K B chunks (concat batches) (NullFramer.new max) [] []) as (f' & Hr & _); try done.
    exists (DynNull f'). split; [done|]. by apply receives_null.
  - destruct Hfit as (HB & Hlen). destruct Hch as (c & -> & Hsync). exists (2 ^ 16 + K).
    rewrite write_all_lp in Hw. pose proof (Hlen _ Hw) as Hl.
    destruct (write_all_ships _ _ _ Hw Hl) as (cts & s' & Hs & -> & Hcs).
    destruct (receives_stream max K chunks (lp_cipher s) batches cts s' (LengthPrefixedFramer.new c max) [])
      as (f' & Hr & _); [done..|by left|].
    exists (DynLengthPrefixed f'). split; [done|]. by apply receives_lp.
Qed.

Lemma receives_weaken `{ISecureFramer F} L L' (f : F) net chunks ms f' net' :
  L <= L' -> receives L f net chunks ms f' net' -> receives L' f net chunks ms f' net'.
Proof. intros HL. induction 1; [constructor|]. econstructor; [lia|done|done]. Qed.

End Ends.

(** ** Lemmas on bounds, corking and heartbeats *)

Lemma parser_msg_size p src p' src' m :
  state_wf (parser_limit (max_msg_size p)) (mp_state p) ->
  ZmtpManualParser.decode_from_buffer p src = (p', src', Ok (Some m)) ->
  state_wf (parser_limit (max_msg_size p')) (mp_state p') /\ Msg.size m <= zlen src.
Proof.
  intros Hwf E. pose proof (parser_decode_post p src Hwf) as Hp. rewrite E in Hp.
  destruct Hp as (Hmax & Hwf' & Hpost). split; [by rewrite Hmax|].
  unfold decode_post in Hpost. destruct (frame_spec _ _) as [|e r|m' r] eqn:Ef; [by destruct Hpost..|].
  destruct Hpost as ([= <-] & _ & _). destruct p as [[|hd] max]; cbn [mp_state state_pending app max_msg_size] in *.
  - destruct src as [|f t]; [done|]. cbn [frame_spec] in Ef. destruct (_ <? _); [done|].
    destruct (parser_limit _ _); [done|]. destruct (_ <? be_value _); [done|]. injection Ef as <- _.
    unfold Msg.size. cbn. rewrite zlen_cons. unfold zlen. rewrite length_take, length_drop. lia.
  - rewrite frame_spec_header in Ef by done. destruct (_ <? _); [done|]. injection Ef as <- _.
    unfold Msg.size. cbn. unfold zlen. rewrite length_take. lia.
Qed.

Section Bounds.
Context `{HD : Dryoc} `{HS : Snow}.
Abbreviation handler := ZmtpProtocolHandlerX.

(** A handler that frames without encryption. *)
Definition plain_framed (h : handler) : Prop :=
  exists f, framer h = DynNull f /\ state_wf (parser_limit (max_msg_size (nf_parser f))) (mp_state (nf_parser f)).

Lemma check_bounded h w :
  plain_framed h ->
  match Handler.frame_check h w with
  | (Done (Some m), h') => plain_framed h' /\ Msg.size m <= Handler.MAX_BUFFER_SIZE
  | (Done None, h') => plain_framed h'
  | (_, _) => True
  end.
Proof.
  intros (f & Hf & Hwf). unfold Handler.frame_check.
  destruct (Z.ltb_spec Handler.MAX_BUFFER_SIZE (zlen (network_read_buffer h))) as [|Hb]; [done|].
  rewrite Hf. cbn [try_read_msg dyn_framer null_framer]. unfold NullFramer.try_read_msg.
  destruct (ZmtpManualParser.decode_from_buffer (nf_parser f) _) as [[p b] [[m|]|e|]] eqn:E; try done.
  - destruct (parser_msg_size _ _ _ _ _ Hwf E) as [Hwf' Hsz]. split; [by exists (mkNullFramer p)|lia].
  - exists (mkNullFramer p). split; [done|]. pose proof (parser_decode_post _ (network_read_buffer h) Hwf) as Hp.
    rewrite E in Hp. destruct Hp as (Hmax & Hwf' & _). cbn. by rewrite Hmax.
Qed.

Lemma read_frame_bounded :
  hoare plain_framed Handler.read_data_frame
    (fun r h => plain_framed h /\ Forall (fun m => Msg.size m <= Handler.MAX_BUFFER_SIZE) (option_list r)) (fun _ => True).
Proof.
  eapply (hoare_bind _ _ _ (fun _ => plain_framed)).
  { intros h w Hp. unfold Handler.need_stream, mbind, proc_bind. cbn. by destruct (h_stream h). }
  intros _. eapply (hoare_bind _ _ _ (fun m h => plain_framed h /\ Msg.size m <= Handler.MAX_BUFFER_SIZE)).
  - apply hoare_read; [|by intros ??? (f & ? & ?); exists f|done].
    intros h w Hp. pose proof (check_bounded h w Hp) as Hc.
    by destruct (Handler.frame_check h w) as [[[m|]|e| |] h'].
  - intros m. apply hoare_ret. intros h [Hp Hs]. by split; [|constructor].
Qed.

Lemma read_n_bounded n :
  hoare plain_framed (read_n n)
    (fun ms h => plain_framed h /\ Forall (fun m => Msg.size m <= Handler.MAX_BUFFER_SIZE) ms) (fun _ => True).
Proof.
  induction n as [|n IH]; cbn [read_n]; [by apply hoare_ret|].
  eapply hoare_bind; [apply read_frame_bounded|]. intros r. cbn beta. intros h w [Hp Hr].
  specialize (IH h w Hp). unfold mbind, proc_bind. destruct (read_n n h w) as [[[ms|e| |] h1] w1]; try done.
  cbn. split; [apply IH|]. apply Forall_app. split; [done|apply IH].
Qed.

End Bounds.

(** ** Properties *)



(** Without encryption no frame above 16 MiB is ever received, whatever
    ZMQ_MAXMSGSIZE says.  Whatever the peer sends and however it arrives, every
    frame that [read_data_frame] returns on a plain connection has at most
    16 MiB of payload, even with the limit set to unlimited. *)
Theorem plain_frame_limit (HD : Dryoc) (HS : Snow) (cfg : ZmtpEngineConfig)
  (n : nat) (h : ZmtpProtocolHandlerX) (w w' : World) (h' : ZmtpProtocolHandlerX) (ms : list Msg)
  (Hplain : framer h = DynNull (NullFramer.new (cfg_max_msg_size cfg)))
  (Hread : read_n n h w = (Done ms, h', w')) :
  Forall (fun m => Msg.size m <= 16 * 1024 * 1024) ms.
Proof.
  pose proof (read_n_bounded n h w ltac:(by eexists)) as Hb. rewrite Hread in Hb. apply Hb.
Qed.

Lemma plain_frame_limit_witness :
  let HD := toy_dryoc in let HS := toy_snow in
  Forall (fun m => Msg.size m <= 16 * 1024 * 1024) [mkMsg (Some (bs "a")) 0].
Proof.
  intros HD HS.
  pose (h := Handler.new (engine_config default_options) false 0).
  pose (w := mkWorld [RData 0 [Byte.x00; Byte.x01; Byte.x61]] [] [] [] 0).
  exact (plain_frame_limit HD HS (engine_config default_options) 1 h w (read_n 1 h w).2 (read_n 1 h w).1.2
    [mkMsg (Some (bs "a")) 0] eq_refl eq_refl).
Defined.

(** TCP_CORK is released after a write, unless the write times out.  With
    corking on and working system calls, the socket is corked while the octets of
    a message are written; it is uncorked again when the write succeeds or
    fails, but a write that runs into the send timeout returns with the socket
    still corked. *)
Theorem cork_after_write (HD : Dryoc) (HS : Snow) (h : ZmtpProtocolHandlerX) (ci : TcpCorkInfoX) (msgs : list Msg)
  (f : DynFramer DynCipher) (data : bytes) (ev : WriteEvent) (inbox : list ReadEvent) (sent : bytes) (t : Z)
  (Hst : h_stream h = true) (Hcork : cork_info h = Some ci) (Hopen : is_corked ci = false)
  (Hmsgs : msgs <> []) (Hframe : write_msg_multipart (framer h) msgs = (f, Ok data)) :
  let '(r, h', w') := Handler.write_data_msgs msgs h (mkWorld inbox [ev] [] sent t) in
  match ev with
  | WOk => r = Done tt /\ w_sent w' = sent ++ data /\ is_corked <$> cork_info h' = Some false
  | WFail n kind msg => r = Failed (from_io_endpoint kind msg "data write") /\
      w_sent w' = sent ++ take n data /\ is_corked <$> cork_info h' = Some false
  | WTimeout n => r = Failed Timeout /\ w_sent w' = sent ++ take n data /\ is_corked <$> cork_info h' = Some true
  | WStall n => r = Pending /\ w_sent w' = sent ++ take n data /\ is_corked <$> cork_info h' = Some true
  end.
Proof.
  unfold Handler.write_data_msgs. destruct msgs as [|m msgs]; [done|]. run. rewrite Hframe. run.
  assert (Ec : Handler.apply_cork_state true (h <| framer := f |>) (mkWorld inbox [ev] [] sent t) =
    (Done tt, h <| framer := f |> <| cork_info := Some (ci <| is_corked := true |>) |>, mkWorld inbox [ev] [] sent t)).
  { unfold Handler.apply_cork_state. change (cork_info (h <| framer := f |>)) with (cork_info h). by rewrite Hcork, Hopen. }
  rewrite (bind_done _ _ _ _ _ _ _ Ec).
  destruct ev as [|n kind msg|n|n]; unfold try_write, mbind, proc_bind; cbn; by rewrite ?firstn_all.
Qed.

Lemma cork_after_write_witness :
  let HD := toy_dryoc in let HS := toy_snow in
  let h := Handler.new (engine_config (default_options <| tcp_cork := true |>)) false 0 in
  let '(r, h', w') := Handler.write_data_msgs [mkMsg (Some (bs "a")) 0] h (mkWorld [] [WTimeout 1] [] [] 0) in
  r = Failed Timeout /\ w_sent w' = [Byte.x00] /\ is_corked <$> cork_info h' = Some true.
Proof.
  intros HD HS h.
  exact (cork_after_write HD HS h (mkCork false true) [mkMsg (Some (bs "a")) 0] (framer h)
    [Byte.x00; Byte.x01; Byte.x61] (WTimeout 1) [] [] 0 eq_refl eq_refl eq_refl ltac:(discriminate) eq_refl).
Defined.

(** Heartbeats detect a dead peer and only that.  On an idle ZMTP 3
    connection [try_send_ping] writes one PING and waits; from then on the timeout
    is reported exactly from the deadline on, whatever other traffic arrives.  The
    peer answers the PING with a PONG; processing it ends the wait for good.  A
    connection that is not idle, that already waits, that has no interval, or that
    talks ZMTP 2.0 sends nothing. *)
Theorem heartbeat_exchange (HD : Dryoc) (HS : Snow) (ha hb : ZmtpProtocolHandlerX) (f : NullFramer)
  (inbox : list ReadEvent) (corks : list bool) (sent : bytes) (t : Z)
  (Hst : h_stream ha = true) (Hf : framer ha = DynNull f) :
  let w := mkWorld inbox [] corks sent t in
  let ping := ZmtpCommand.create_ping 0 [] in
  if negb (Handler.is_v2_session ha) && Heartbeat.should_send_ping t (heartbeat_state ha) then
    exists ha' corks', Handler.try_send_ping ha w = (Done tt, ha', mkWorld inbox [] corks' (sent ++ wire ping) t) /\
      (forall now t', Heartbeat.has_pong_timed_out now (Heartbeat.record_activity t' (heartbeat_state ha')) =
         (hb_timeout (heartbeat_state ha) <=? Z.max 0 (now - t))) /\
      Heartbeat.get_pong_deadline (heartbeat_state ha') = Some (t + hb_timeout (heartbeat_state ha)) /\
      exists pong, Handler.process_heartbeat_command (norm_msg ping) hb = (hb, Ok (Some pong)) /\
      exists ha'', Handler.process_heartbeat_command (norm_msg pong) ha' = (ha'', Ok None) /\
        forall now, Heartbeat.has_pong_timed_out now (heartbeat_state ha'') = false
  else Handler.try_send_ping ha w = (Done tt, ha, w).
Proof.
  cbn zeta. unfold Handler.try_send_ping. run.
  destruct (Handler.is_v2_session ha); [done|]. cbn [negb andb]. run.
  cbn [w_now]. destruct (Heartbeat.should_send_ping t (heartbeat_state ha)) eqn:Es; [|done].
  assert (Ew : write_msg_multipart (framer ha) [ZmtpCommand.create_ping 0 []] =
    (framer ha, Ok (wire (ZmtpCommand.create_ping 0 [])))).
  { rewrite Hf. cbn [write_msg_multipart dyn_framer null_framer]. unfold NullFramer.write_msg_multipart.
    rewrite encode_msgs_wire. cbn [fmap list_fmap concat]. by rewrite !app_nil_r. }
  destruct (write_framed [ZmtpCommand.create_ping 0 []] ha (framer ha) _ inbox corks sent t ltac:(done) Hst Ew)
    as (ci & corks' & Hw).
  unfold Handler.write_data_msg. erewrite bind_done by (erewrite bind_done by exact Hw; reflexivity). run.
  eexists _, corks'. split; [reflexivity|]. split; [done|]. split; [done|].
  eexists. split; [reflexivity|]. eexists. split; [reflexivity|]. done.
Qed.

Lemma heartbeat_exchange_witness :
  let HD := toy_dryoc in let HS := toy_snow in
  let h := Handler.new (engine_config (default_options <| heartbeat_ivl := Some (secs 1) |>)) false 0 in
  exists h' w', Handler.try_send_ping h (mkWorld [] [] [] [] (secs 2)) = (Done tt, h', w') /\
    Heartbeat.get_pong_deadline (heartbeat_state h') = Some (secs 3).
Proof.
  intros HD HS h.
  destruct (heartbeat_exchange HD HS h h (NullFramer.new (-1)) [] [] [] (secs 2) eq_refl eq_refl)
    as (h' & corks' & E & _ & Hd & _).
  eexists h', _. split; [exact E|exact Hd].
Defined.
