(* ===== verification/Trie.v ===== *)
(** The subscription trie: [core/src/socket/patterns/trie.rs].

    The hash map of children is an association list with distinct keys; its
    order is the order the map happens to be iterated in, which only the order of
    [get_all_topics] depends on.  Counts are 64-bit ([AtomicUsize]).  The locks
    make each access to a node atomic; [unsubscribe] touches the count twice, and
    the two accesses are separate definitions so that other operations can come
    in between. *)

From S2P Require Import Prelude Error.

#[warnings="-register-all"]
Inductive TrieNode := mkNode (children : list (byte * TrieNode)) (count : Z).

Definition node_children (n : TrieNode) : list (byte * TrieNode) := let 'mkNode ch _ := n in ch.
Definition node_count (n : TrieNode) : Z := let 'mkNode _ c := n in c.

(** [TrieNode::default()]. *)
Definition empty_node : TrieNode := mkNode [] 0.

Fixpoint child (b : byte) (ch : list (byte * TrieNode)) : option TrieNode :=
  match ch with
  | [] => None
  | (b', n) :: ch => if Byte.eqb b' b then Some n else child b ch
  end.

(** Replace the child at [b], or add one. *)
Fixpoint put (b : byte) (n : TrieNode) (ch : list (byte * TrieNode)) : list (byte * TrieNode) :=
  match ch with
  | [] => [(b, n)]
  | (b', n') :: ch => if Byte.eqb b' b then (b', n) :: ch else (b', n') :: put b n ch
  end.

Module SubscriptionTrie.

Definition new : TrieNode := empty_node.

(** [fetch_add] and [fetch_sub]. *)
Definition fetch_add (n : TrieNode) : TrieNode := mkNode (node_children n) (wrapU 64 (node_count n + 1)).
Definition fetch_sub (n : TrieNode) : TrieNode := mkNode (node_children n) (wrapU 64 (node_count n - 1)).

Fixpoint subscribe (topic : bytes) (n : TrieNode) : TrieNode :=
  match topic with
  | [] => fetch_add n
  | b :: topic =>
      let next := default empty_node (child b (node_children n)) in
      mkNode (put b (subscribe topic next) (node_children n)) (node_count n)
  end.

(** Walk to the node of a topic. *)
Fixpoint walk (topic : bytes) (n : TrieNode) : option TrieNode :=
  match topic with
  | [] => Some n
  | b :: topic => match child b (node_children n) with Some next => walk topic next | None => None end
  end.

(** Change the node of a topic. *)
Fixpoint alter (f : TrieNode -> TrieNode) (topic : bytes) (n : TrieNode) : TrieNode :=
  match topic with
  | [] => f n
  | b :: topic =>
      match child b (node_children n) with
      | Some next => mkNode (put b (alter f topic next) (node_children n)) (node_count n)
      | None => n
      end
  end.

(** [unsubscribe], up to the first access to the count: the old count if the
    node is there. *)
Definition unsubscribe_begin (topic : bytes) (n : TrieNode) : TrieNode * option Z :=
  match walk topic n with
  | Some final => (alter fetch_sub topic n, Some (node_count final))
  | None => (n, None)
  end.

(** ... and from there. *)
Definition unsubscribe_end (topic : bytes) (old : option Z) (n : TrieNode) : TrieNode * bool :=
  match old with
  | None => (n, false)
  | Some old_count =>
      if 0 <? old_count then (n, old_count =? 1) else (alter fetch_add topic n, false)
  end.

Definition unsubscribe (topic : bytes) (n : TrieNode) : TrieNode * bool :=
  let '(n, old) := unsubscribe_begin topic n in unsubscribe_end topic old n.

Fixpoint matches_from (n : TrieNode) (message_topic : bytes) : bool :=
  match message_topic with
  | [] => 0 <? node_count n
  | b :: t =>
      if 0 <? node_count n then true
      else match child b (node_children n) with
           | Some next => matches_from next t
           | None => false
           end
  end.

Definition matches (n : TrieNode) (message_topic : bytes) : bool :=
  if 0 <? node_count n then true else matches_from n message_topic.

Fixpoint collect_topics_recursive (n : TrieNode) (prefix : bytes) : list bytes :=
  let 'mkNode ch c := n in
  (if 0 <? c then [prefix] else []) ++
  (fix visit (ch : list (byte * TrieNode)) : list bytes :=
     match ch with
     | [] => []
     | (b, next) :: ch => collect_topics_recursive next (prefix ++ [b]) ++ visit ch
     end) ch.

Definition get_all_topics (n : TrieNode) : list bytes := collect_topics_recursive n [].

End SubscriptionTrie.

(** ** Lemmas *)

Definition cnt (n : TrieNode) (topic : bytes) : Z :=
  match SubscriptionTrie.walk topic n with Some m => node_count m | None => 0 end.

Lemma byte_eqb_spec (a b : byte) : Byte.eqb a b = bool_decide (a = b).
Proof.
  case_bool_decide as E; [subst; by destruct b|]. destruct (Byte.eqb a b) eqn:E'; [|done].
  by apply Byte.byte_dec_bl in E'.
Qed.

Lemma child_put b b' n ch : child b (put b' n ch) = if bool_decide (b' = b) then Some n else child b ch.
Proof.
  induction ch as [|[c m] ch IH]; cbn [put child]; [by rewrite byte_eqb_spec|].
  rewrite (byte_eqb_spec c b'). destruct (decide (c = b')) as [->|Hne].
  - rewrite bool_decide_true by done. cbn [child]. rewrite byte_eqb_spec. by case_bool_decide.
  - rewrite bool_decide_false by done. cbn [child]. rewrite IH, byte_eqb_spec.
    destruct (decide (b' = b)) as [->|]; [by rewrite (bool_decide_false (c = b))|].
    by rewrite (bool_decide_false (b' = b)).
Qed.

Lemma cnt_empty t : cnt empty_node t = 0.
Proof. by destruct t. Qed.

Lemma cnt_cons n b t : cnt n (b :: t) = cnt (default empty_node (child b (node_children n))) t.
Proof.
  unfold cnt at 1. cbn [SubscriptionTrie.walk]. destruct (child b (node_children n)); [done|]. by rewrite cnt_empty.
Qed.

Lemma cnt_subscribe t n t' :
  cnt (SubscriptionTrie.subscribe t n) t' = if bool_decide (t' = t) then wrapU 64 (cnt n t + 1) else cnt n t'.
Proof.
  revert n t'. induction t as [|b t IH]; intros n t'; cbn [SubscriptionTrie.subscribe].
  - by destruct t', n.
  - destruct t' as [|b' t']; [done|]. rewrite !cnt_cons. cbn [node_children]. rewrite child_put.
    destruct (decide (b = b')) as [<-|Hb].
    + rewrite (bool_decide_true (b = b)) by done. cbn [default from_option id]. rewrite IH.
      by destruct (decide (t' = t)) as [->|]; [rewrite !bool_decide_true|rewrite !bool_decide_false by congruence].
    + by rewrite !bool_decide_false by congruence.
Qed.

Lemma cnt_alter f t n m t' :
  (forall k, node_children (f k) = node_children k) -> SubscriptionTrie.walk t n = Some m ->
  cnt (SubscriptionTrie.alter f t n) t' = if bool_decide (t' = t) then node_count (f m) else cnt n t'.
Proof.
  intros Hf. revert n t'. induction t as [|b t IH]; intros n t' Hw; cbn [SubscriptionTrie.alter].
  - injection Hw as ->. destruct t' as [|b' t']; [done|]. rewrite !cnt_cons, Hf. done.
  - cbn [SubscriptionTrie.walk] in Hw. destruct (child b (node_children n)) as [next|] eqn:Ec; [|done].
    destruct t' as [|b' t']; [done|]. rewrite !cnt_cons. cbn [node_children]. rewrite child_put.
    destruct (decide (b = b')) as [<-|Hb].
    + rewrite (bool_decide_true (b = b)), Ec by done. cbn [default from_option id]. rewrite (IH next t' Hw).
      by destruct (decide (t' = t)) as [->|]; [rewrite !bool_decide_true|rewrite !bool_decide_false by congruence].
    + by rewrite !bool_decide_false by congruence.
Qed.

Lemma cnt_walk t n m : SubscriptionTrie.walk t n = Some m -> cnt n t = node_count m.
Proof. unfold cnt. by intros ->. Qed.

(** Changing the same node twice. *)
Lemma walk_alter f t n m :
  SubscriptionTrie.walk t n = Some m -> SubscriptionTrie.walk t (SubscriptionTrie.alter f t n) = Some (f m).
Proof.
  revert n. induction t as [|b t IH]; intros n Hw; [by injection Hw as ->|].
  cbn [SubscriptionTrie.walk SubscriptionTrie.alter] in *.
  destruct (child b (node_children n)) as [next|]; [|done]. cbn [SubscriptionTrie.walk node_children].
  rewrite child_put, bool_decide_true by done. by apply IH.
Qed.

Lemma cnt_unsubscribe t n t' :
  (forall u, 0 <= cnt n u < 2 ^ 64) ->
  cnt (SubscriptionTrie.unsubscribe t n).1 t' =
    (if bool_decide (t' = t) then Z.max 0 (cnt n t - 1) else cnt n t') /\
  (SubscriptionTrie.unsubscribe t n).2 = (cnt n t =? 1).
Proof.
  intros Hb. pose proof (Hb t) as Ht. unfold SubscriptionTrie.unsubscribe, SubscriptionTrie.unsubscribe_begin.
  destruct (SubscriptionTrie.walk t n) as [m|] eqn:Hw; unfold SubscriptionTrie.unsubscribe_end.
  - rewrite (cnt_walk _ _ _ Hw) in *. destruct (Z.ltb_spec 0 (node_count m)) as [Hp|Hz]; cbn [fst snd].
    + split; [|done]. rewrite (cnt_alter _ _ _ m) by done. case_bool_decide; [|done].
      cbn. unfold wrapU. rewrite Z.mod_small by lia. lia.
    + assert (E : node_count m = 0) by lia. split; [|by rewrite E].
      rewrite (cnt_alter _ _ _ (SubscriptionTrie.fetch_sub m)) by (done || by apply walk_alter).
      rewrite (cnt_alter _ _ _ m) by done. case_bool_decide; [|done]. by rewrite E; cbn; rewrite E.
  - assert (E : cnt n t = 0) by (unfold cnt; by rewrite Hw). cbn [fst snd]. rewrite E. split; [|done].
    case_bool_decide; [subst; by rewrite E|done].
Qed.

Lemma matches_from_spec n msg :
  SubscriptionTrie.matches_from n msg = true <-> exists p, p `prefix_of` msg /\ 0 < cnt n p.
Proof.
  revert n. induction msg as [|b msg IH]; intros n; cbn [SubscriptionTrie.matches_from].
  - rewrite Z.ltb_lt. split; [by exists []|]. intros (p & Hp & Hc). by apply prefix_nil_inv in Hp as ->.
  - destruct (Z.ltb_spec 0 (node_count n)) as [Hp|Hz].
    + split; [|done]. intros _. exists []. split; [apply prefix_nil|done].
    + transitivity (exists p, p `prefix_of` msg /\ 0 < cnt n (b :: p)).
      * destruct (child b (node_children n)) as [next|] eqn:Ec.
        -- rewrite IH. by setoid_rewrite cnt_cons; rewrite Ec.
        -- split; [done|]. intros (p & _ & Hc). rewrite cnt_cons, Ec in Hc. cbn [default from_option id] in Hc.
           rewrite cnt_empty in Hc. lia.
      * split; intros (p & Hp & Hc); [exists (b :: p); split; [by apply prefix_cons|done]|].
        destruct p as [|b' p]; [unfold cnt in Hc; cbn in Hc; lia|].
        pose proof (prefix_cons_inv_1 _ _ _ _ Hp) as ->. apply prefix_cons_inv_2 in Hp. by exists p.
Qed.

Lemma matches_spec n msg :
  SubscriptionTrie.matches n msg = true <-> exists p, p `prefix_of` msg /\ 0 < cnt n p.
Proof.
  unfold SubscriptionTrie.matches. destruct (Z.ltb_spec 0 (node_count n)) as [Hp|]; [|apply matches_from_spec].
  split; [|done]. intros _. exists []. split; [apply prefix_nil|done].
Qed.

(** ** Enumeration *)

(** Every node has at most one child per octet. *)
#[warnings="-register-all"]
Inductive trie_wf : TrieNode -> Prop :=
| wf_node ch c : NoDup ch.*1 -> Forall (fun p => trie_wf p.2) ch -> trie_wf (mkNode ch c).

Section TrieInd.
Variable P : TrieNode -> Prop.
Hypothesis Hnode : forall ch c, Forall (fun p => P p.2) ch -> P (mkNode ch c).

Fixpoint trie_ind (n : TrieNode) : P n :=
  let 'mkNode ch c := n in
  Hnode ch c ((fix go (ch : list (byte * TrieNode)) : Forall (fun p => P p.2) ch :=
    match ch with
    | [] => Forall_nil_2 _
    | p :: ch => Forall_cons_2 _ p ch (trie_ind p.2) (go ch)
    end) ch).
End TrieInd.

Lemma child_elem b n ch : NoDup ch.*1 -> child b ch = Some n <-> (b, n) ∈ ch.
Proof.
  induction ch as [|[c m] ch IH]; cbn [child]; [by rewrite elem_of_nil|].
  rewrite fmap_cons, NoDup_cons. intros [Hc Hnd]. rewrite elem_of_cons, byte_eqb_spec. cbn [fst] in Hc.
  case_bool_decide as E.
  - subst c. split; [by intros [= ->]; left|]. intros [[= ->]|Hin]; [done|].
    destruct Hc. apply list_elem_of_fmap. by exists (b, n).
  - rewrite (IH Hnd). split; [by right|]. by intros [[= -> _]|].
Qed.

Lemma put_keys b n ch : (put b n ch).*1 = if bool_decide (b ∈ ch.*1) then ch.*1 else ch.*1 ++ [b].
Proof.
  induction ch as [|[c m] ch IH]; [done|]. cbn [put]. rewrite byte_eqb_spec, fmap_cons. cbn [fst].
  destruct (decide (c = b)) as [->|Hne].
  - rewrite (bool_decide_true (b = b)) by done. rewrite bool_decide_true by left. done.
  - rewrite (bool_decide_false (c = b)) by done. rewrite fmap_cons, IH. cbn [fst].
    destruct (decide (b ∈ ch.*1)); [rewrite !bool_decide_true; [done|by right|done]|].
    rewrite !bool_decide_false; [done|by rewrite elem_of_cons; intros [->|]|done].
Qed.

Lemma put_wf b n ch :
  NoDup ch.*1 -> Forall (fun p => trie_wf p.2) ch -> trie_wf n ->
  NoDup (put b n ch).*1 /\ Forall (fun p => trie_wf p.2) (put b n ch).
Proof.
  intros Hnd Hf Hn. split.
  - rewrite put_keys. case_bool_decide; [done|]. apply NoDup_app. split_and!; [done| |by apply NoDup_singleton].
    intros x Hx. by rewrite list_elem_of_singleton; intros ->.
  - clear Hnd. induction Hf as [|[c m] ch Hm Hf IH]; cbn [put]; [by repeat constructor|].
    by destruct (Byte.eqb c b); constructor.
Qed.

Lemma child_wf b ch : Forall (fun p => trie_wf p.2) ch -> trie_wf (default empty_node (child b ch)).
Proof.
  induction 1 as [|[c m] ch Hm _ IH]; cbn [child]; [by constructor; constructor|].
  by destruct (Byte.eqb c b).
Qed.

Lemma subscribe_wf t n : trie_wf n -> trie_wf (SubscriptionTrie.subscribe t n).
Proof.
  revert n. induction t as [|b t IH]; intros n [ch c Hnd Hf]; cbn; [by constructor|].
  destruct (put_wf b (SubscriptionTrie.subscribe t (default empty_node (child b ch))) ch Hnd Hf) as [? ?];
    [by apply IH, child_wf|by constructor].
Qed.

Lemma alter_wf f t n :
  (forall k, node_children (f k) = node_children k) -> trie_wf n -> trie_wf (SubscriptionTrie.alter f t n).
Proof.
  intros Hf. revert n. induction t as [|b t IH]; intros n Hwf; cbn [SubscriptionTrie.alter].
  - destruct Hwf as [ch c Hnd Hall]. specialize (Hf (mkNode ch c)). destruct (f (mkNode ch c)). cbn in Hf. subst. by constructor.
  - destruct Hwf as [ch c Hnd Hall]. cbn [node_children node_count].
    pose proof (child_wf b ch Hall) as Hc. destruct (child b ch) as [next|]; [|by constructor].
    destruct (put_wf b (SubscriptionTrie.alter f t next) ch Hnd Hall (IH next Hc)). by constructor.
Qed.

Lemma unsubscribe_wf t n : trie_wf n -> trie_wf (SubscriptionTrie.unsubscribe t n).1.
Proof.
  intros Hwf. unfold SubscriptionTrie.unsubscribe, SubscriptionTrie.unsubscribe_begin, SubscriptionTrie.unsubscribe_end.
  destruct (SubscriptionTrie.walk t n); [|done]. destruct (_ <? _); cbn; by repeat apply alter_wf.
Qed.

(** The topics below a node. *)
Definition visit (prefix : bytes) : list (byte * TrieNode) -> list bytes :=
  fix visit ch :=
    match ch with
    | [] => []
    | (b, next) :: ch => SubscriptionTrie.collect_topics_recursive next (prefix ++ [b]) ++ visit ch
    end.

Lemma collect_eq ch c prefix :
  SubscriptionTrie.collect_topics_recursive (mkNode ch c) prefix =
  (if 0 <? c then [prefix] else []) ++ visit prefix ch.
Proof. done. Qed.

Lemma collect_spec n : trie_wf n -> forall prefix,
  NoDup (SubscriptionTrie.collect_topics_recursive n prefix) /\
  forall t, t ∈ SubscriptionTrie.collect_topics_recursive n prefix <-> exists u, t = prefix ++ u /\ 0 < cnt n u.
Proof.
  induction n as [ch c IH] using trie_ind. intros Hwf prefix. inv Hwf as [? ? Hnd Hall]. rewrite collect_eq.
  assert (Hvisit : NoDup (visit prefix ch) /\ forall t, t ∈ visit prefix ch <->
    exists b next u, (b, next) ∈ ch /\ t = prefix ++ b :: u /\ 0 < cnt next u).
  { clear c. induction ch as [|[b next] ch IHch]; cbn [visit].
    - split; [constructor|]. intros t. rewrite elem_of_nil. split; [done|]. intros (b & next & u & Hin & _).
      by apply elem_of_nil in Hin.
    - apply Forall_cons in IH as [IHn IH], Hall as [Hwn Hall]. rewrite fmap_cons in Hnd. apply NoDup_cons in Hnd as [Hb Hnd].
      destruct (IHch IH Hnd Hall) as [Hnd1 Hel1]. destruct (IHn Hwn (prefix ++ [b])) as [Hnd2 Hel2]. cbn [snd] in *.
      split.
      + apply NoDup_app. split_and!; [done| |done]. intros t Ht1 Ht2.
        apply Hel2 in Ht1 as (u & -> & _). apply Hel1 in Ht2 as (b' & next' & u' & Hin & E & _).
        rewrite <- app_assoc in E. apply app_inv_head in E. injection E as <- _.
        destruct Hb. apply list_elem_of_fmap. by exists (b, next').
      + intros t. rewrite elem_of_app, Hel1, Hel2. split.
        * intros [(u & -> & Hc)|(b' & next' & u & Hin & -> & Hc)].
          -- exists b, next, u. rewrite <- app_assoc. by split_and!; [left|..].
          -- exists b', next', u. by split_and!; [right|..].
        * intros (b' & next' & u & Hin & -> & Hc). apply elem_of_cons in Hin as [[= -> ->]|Hin].
          -- left. exists u. by rewrite <- app_assoc.
          -- right. by exists b', next', u. }
  destruct Hvisit as [Hnd1 Hel1].
  assert (Hbelow : forall t, t ∈ visit prefix ch <-> exists b u, t = prefix ++ b :: u /\ 0 < cnt (mkNode ch c) (b :: u)).
  { intros t. rewrite Hel1. split.
    - intros (b & next & u & Hin & -> & Hc). exists b, u. rewrite cnt_cons. cbn [node_children].
      apply child_elem in Hin; [|done]. by rewrite Hin.
    - intros (b & u & -> & Hc). rewrite cnt_cons in Hc. cbn [node_children] in Hc.
      destruct (child b ch) as [next|] eqn:Ec; cbn [default from_option id] in Hc; [|rewrite cnt_empty in Hc; lia].
      apply child_elem in Ec; [|done]. by exists b, next, u. }
  split.
  - destruct (0 <? c); [|done]. cbn [app]. apply NoDup_cons. split; [|done].
    intros (b & u & E & _)%Hbelow. apply (f_equal length) in E. rewrite length_app in E. cbn in E. lia.
  - intros t. rewrite elem_of_app, Hbelow. split.
    + intros [Hin|(b & u & -> & Hc)]; [|by exists (b :: u)].
      destruct (Z.ltb_spec 0 c); [|by apply elem_of_nil in Hin]. apply list_elem_of_singleton in Hin as ->.
      exists []. by rewrite app_nil_r.
    + intros ([|b u] & -> & Hc); [left|right; by exists b, u].
      rewrite app_nil_r. cbn in Hc. by rewrite (proj2 (Z.ltb_lt _ _) Hc), list_elem_of_singleton.
Qed.

(** ** Sequences of operations *)

Inductive trie_op := Sub (topic : bytes) | Unsub (topic : bytes).

Definition trie_apply (n : TrieNode) (op : trie_op) : TrieNode :=
  match op with
  | Sub t => SubscriptionTrie.subscribe t n
  | Unsub t => (SubscriptionTrie.unsubscribe t n).1
  end.

(** The specification: a bag of topics. *)
Fixpoint remove_one (t : bytes) (s : list bytes) : list bytes :=
  match s with
  | [] => []
  | u :: s => if bool_decide (u = t) then s else u :: remove_one t s
  end.

Definition bag_apply (s : list bytes) (op : trie_op) : list bytes :=
  match op with Sub t => t :: s | Unsub t => remove_one t s end.

Definition occurrences (s : list bytes) (t : bytes) : Z := zlen (filter (fun u => u = t) s).

Lemma occurrences_cons u s t : occurrences (u :: s) t = (if bool_decide (t = u) then 1 else 0) + occurrences s t.
Proof.
  unfold occurrences. rewrite filter_cons. destruct (decide (u = t)) as [->|Hne].
  - by rewrite bool_decide_true, zlen_cons.
  - by rewrite bool_decide_false.
Qed.

Lemma occurrences_remove s t u :
  occurrences (remove_one t s) u = if bool_decide (u = t) then Z.max 0 (occurrences s t - 1) else occurrences s u.
Proof.
  induction s as [|v s IH]; cbn [remove_one]; [by case_bool_decide|].
  pose proof (zlen_nonneg (filter (fun u => u = t) s)) as H0. fold (occurrences s t) in H0.
  destruct (decide (v = t)) as [->|Hne].
  - rewrite (bool_decide_true (t = t)), !occurrences_cons by done. rewrite (bool_decide_true (t = t)) by done.
    case_bool_decide; [subst; lia|done].
  - rewrite (bool_decide_false (v = t)), !occurrences_cons, IH by done.
    rewrite (bool_decide_false (t = v)) by done. destruct (decide (u = t)) as [->|].
    + by rewrite (bool_decide_false (t = v)) by done.
    + by rewrite (bool_decide_false (u = t)) by done.
Qed.

Lemma occurrences_elem s t : 0 < occurrences s t <-> t ∈ s.
Proof.
  induction s as [|u s IH]; [by rewrite elem_of_nil|]. rewrite occurrences_cons, elem_of_cons, <- IH.
  pose proof (zlen_nonneg (filter (fun u => u = t) s)) as H0. fold (occurrences s t) in H0.
  case_bool_decide; [split; [by left|lia]|]. split; [by right|by intros [|]].
Qed.

Lemma occurrences_length s t : 0 <= occurrences s t <= zlen s.
Proof. unfold occurrences, zlen. pose proof (length_filter (fun u => u = t) s). lia. Qed.

Lemma remove_one_length t s : zlen (remove_one t s) <= zlen s.
Proof. induction s as [|u s IH]; [done|]. cbn [remove_one]. case_bool_decide; rewrite ?zlen_cons; lia. Qed.

Lemma trie_counts ops n s :
  trie_wf n -> (forall t, cnt n t = occurrences s t) -> zlen s + zlen ops < 2 ^ 64 ->
  trie_wf (foldl trie_apply n ops) /\
  forall t, cnt (foldl trie_apply n ops) t = occurrences (foldl bag_apply s ops) t /\
            0 <= occurrences (foldl bag_apply s ops) t < 2 ^ 64.
Proof.
  revert n s. induction ops as [|op ops IH]; intros n s Hwf Hc Hl; cbn [foldl].
  - split; [done|]. intros t. split; [done|]. pose proof (occurrences_length s t). rewrite zlen_nil in Hl. lia.
  - rewrite zlen_cons in Hl. pose proof (zlen_nonneg ops). destruct op as [t|t]; cbn [trie_apply bag_apply]; apply IH.
    + by apply subscribe_wf.
    + intros u. rewrite cnt_subscribe, occurrences_cons, !Hc. pose proof (occurrences_length s t).
      destruct (decide (u = t)) as [->|]; [rewrite !bool_decide_true by done|by rewrite !bool_decide_false].
      unfold wrapU. rewrite Z.mod_small; lia.
    + rewrite zlen_cons. lia.
    + by apply unsubscribe_wf.
    + intros u. rewrite occurrences_remove.
      destruct (cnt_unsubscribe t n u) as [E _]; [intros v; rewrite Hc; pose proof (occurrences_length s v); lia|].
      by rewrite E, !Hc.
    + pose proof (remove_one_length t s). lia.
Qed.

(** An [unsubscribe] for a topic without subscriptions takes the count below zero
    and puts it back; in between the trie matches the topic. *)
Lemma unsubscribe_race t n m msg :
  SubscriptionTrie.walk t n = Some m -> node_count m = 0 -> t `prefix_of` msg ->
  SubscriptionTrie.matches (SubscriptionTrie.unsubscribe_begin t n).1 msg = true.
Proof.
  intros Hw Hm Hp. apply matches_spec. exists t. split; [done|].
  unfold SubscriptionTrie.unsubscribe_begin. rewrite Hw. cbn [fst].
  rewrite (cnt_alter _ _ _ m), bool_decide_true by done. cbn. by rewrite Hm.
Qed.

Lemma trie_matches ops msg :
  zlen ops < 2 ^ 64 ->
  SubscriptionTrie.matches (foldl trie_apply SubscriptionTrie.new ops) msg = true <->
  exists p, p ∈ foldl bag_apply [] ops /\ p `prefix_of` msg.
Proof.
  intros Hlen.
  destruct (trie_counts ops SubscriptionTrie.new []) as [_ Hc]; [by constructor; constructor|apply cnt_empty|done|].
  rewrite matches_spec. split; intros (p & H1 & H2); exists p.
  - split; [|done]. apply occurrences_elem. by rewrite <- (proj1 (Hc p)).
  - split; [done|]. rewrite (proj1 (Hc p)). by apply occurrences_elem.
Qed.

(** ** Properties *)

(** C32: the trie implements a bag of topic prefixes.  After any sequence of
    subscriptions and unsubscriptions (fewer than 2^64), a message matches exactly
    if some subscribed topic is a prefix of it; [unsubscribe] answers true exactly
    when it removes the last subscription to the topic, and changes nothing for
    a topic that is not subscribed; and the topics enumerated for a new peer are
    exactly the subscribed ones, each once. *)
Theorem trie_refines_bag (ops : list trie_op) (Hlen : zlen ops < 2 ^ 64) :
  let n := foldl trie_apply SubscriptionTrie.new ops in
  let s := foldl bag_apply [] ops in
  (forall msg, SubscriptionTrie.matches n msg = true <-> exists p, p ∈ s /\ p `prefix_of` msg) /\
  (forall t, (SubscriptionTrie.unsubscribe t n).2 = true <-> occurrences s t = 1) /\
  NoDup (SubscriptionTrie.get_all_topics n) /\
  (forall t, t ∈ SubscriptionTrie.get_all_topics n <-> t ∈ s).
Proof.
  cbn zeta. destruct (trie_counts ops SubscriptionTrie.new []) as [Hwf Hc]; [by constructor; constructor|apply cnt_empty|done|].
  set (n := foldl trie_apply _ ops) in *. set (s := foldl bag_apply [] ops) in *.
  destruct (collect_spec n Hwf []) as [Hnd Hel]. split_and!; [..|done|].
  - intros msg. by apply trie_matches.
  - intros t. destruct (cnt_unsubscribe t n t) as [_ ->]; [intros u; rewrite (proj1 (Hc u)); apply Hc|].
    rewrite Z.eqb_eq. by rewrite (proj1 (Hc t)).
  - intros t. rewrite (Hel t), <- occurrences_elem. split.
    + intros (u & -> & Hu). change ([] ++ u) with u. by rewrite <- (proj1 (Hc u)).
    + intros Ht. exists t. split; [done|]. by rewrite (proj1 (Hc t)).
Qed.

Lemma trie_refines_bag_witness :
  let ops := [Sub (bs "ab"); Sub (bs "ab"); Sub []; Unsub []; Unsub (bs "ab"); Unsub (bs "x")] in
  SubscriptionTrie.matches (foldl trie_apply SubscriptionTrie.new ops) (bs "abc") = true <->
  exists p, p ∈ foldl bag_apply [] ops /\ p `prefix_of` bs "abc".
Proof.
  cbn zeta. apply (trie_refines_bag [Sub (bs "ab"); Sub (bs "ab"); Sub []; Unsub []; Unsub (bs "ab"); Unsub (bs "x")]).
  by vm_compute.
Defined.
