(* ===== verification/Patterns.v ===== *)
(** Patterns the socket types are built from: the round-robin load balancer, the
    delimiter framing and the routing table of ROUTER
    ([core/src/socket/patterns/{load_balancer,framing,router}.rs]).

    A method holds its locks for its whole body and is one step;
    [remove_peer_by_read_pipe], which takes its two locks one after the other, is
    two.  [wait_for_connection], a loop over tokio's [Notify], is left out. *)

From S2P Require Import Prelude Error Message.

#[local] Set Warnings "-clear-no-such-hyp".

(** ** Load balancer *)

Module LoadBalancer.

(** [connection_uris]. *)
Definition new : list string := [].

Definition add_connection (endpoint_uri : string) (uris : list string) : list string :=
  if bool_decide (endpoint_uri ∈ uris) then uris else uris ++ [endpoint_uri].

(** [position] and [remove]: the first occurrence. *)
Fixpoint remove_connection (endpoint_uri : string) (uris : list string) : list string :=
  match uris with
  | [] => []
  | uri :: uris => if bool_decide (uri = endpoint_uri) then uris else uri :: remove_connection endpoint_uri uris
  end.

Definition get_next_connection_uri (uris : list string) : list string * option string :=
  match uris with
  | uri :: uris => (uris ++ [uri], Some uri)
  | [] => ([], None)
  end.

Definition has_connections (uris : list string) : bool := negb (bool_decide (uris = [])).
Definition connection_count (uris : list string) : Z := zlen uris.

End LoadBalancer.

(** ** Framing *)

(** [flags | MORE] and [flags & !MORE]. *)
Definition with_more (m : Msg) : Msg := Msg.set_flags (Z.lor (Msg.flags m) MsgFlags.MORE) m.
Definition without_more (m : Msg) : Msg := Msg.set_flags (Z.ldiff (Msg.flags m) MsgFlags.MORE) m.

(** The loop that sets MORE on every frame but the last and clears it there. *)
Fixpoint mark_more (frames : list Msg) : list Msg :=
  match frames with
  | [] => []
  | [frame] => [without_more frame]
  | frame :: frames => with_more frame :: mark_more frames
  end.

(** A delimiter, with MORE if something follows. *)
Definition delimiter (more : bool) : Msg :=
  if more then Msg.set_flags MsgFlags.MORE Msg.new else Msg.new.

Definition router_auto_encode (frames : list Msg) : list Msg :=
  match frames with
  | [] => []
  | identity :: rest => with_more identity :: delimiter (negb (bool_decide (rest = []))) :: rest
  end.

Definition router_auto_decode (frames : list Msg) : list Msg :=
  match frames with
  | first :: _ :: rest => first :: rest
  | _ => frames
  end.

Definition dealer_auto_encode (frames : list Msg) : list Msg :=
  delimiter (negb (bool_decide (frames = []))) :: frames.

Definition dealer_auto_decode (frames : list Msg) : list Msg := tail frames.

(** [FramingLatch]: the mode and the two operations of the automatic mode. *)
Record FramingLatch := mkLatch {
  latch_mode : Z;
  latch_encode : list Msg -> list Msg;
  latch_decode : list Msg -> list Msg;
}.

Module FramingLatch.

Definition new (auto_encode auto_decode : list Msg -> list Msg) : FramingLatch :=
  mkLatch 0 auto_encode auto_decode.

(** [encoders[idx & 1]]. *)
Definition encode (l : FramingLatch) (frames : list Msg) : list Msg :=
  if Z.land (latch_mode l) 1 =? 0 then latch_encode l frames else frames.
Definition decode (l : FramingLatch) (frames : list Msg) : list Msg :=
  if Z.land (latch_mode l) 1 =? 0 then latch_decode l frames else frames.

(** [compare_exchange(0, 1)]. *)
Definition set_manual (l : FramingLatch) : FramingLatch * bool :=
  if latch_mode l =? 0 then (mkLatch 1 (latch_encode l) (latch_decode l), true) else (l, false).

Definition is_manual (l : FramingLatch) : bool := latch_mode l =? 1.

End FramingLatch.

(** ** The routing table of ROUTER *)

Inductive RouterSendStrategy := ReqPeerStrategy | DealerPeerStrategy | RouterPeerStrategy | DefaultRouterStrategy.

#[export] Instance RouterSendStrategy_eq_dec : EqDecision RouterSendStrategy.
Proof. solve_decision. Defined.

Definition identity_delimiter_payload (identity : Msg) (payload : list Msg) (framing : FramingLatch) : list Msg :=
  let identity := if bool_decide (payload = []) then identity else with_more identity in
  FramingLatch.encode framing (identity :: payload).

Definition prepare_wire_frames (strategy : RouterSendStrategy) (destination_identity_msg : Msg)
  (payload_frames : list Msg) (framing : FramingLatch) : list Msg :=
  match strategy with
  | ReqPeerStrategy => delimiter (negb (bool_decide (payload_frames = []))) :: payload_frames
  | DealerPeerStrategy =>
      if FramingLatch.is_manual framing then payload_frames
      else identity_delimiter_payload destination_identity_msg payload_frames framing
  | RouterPeerStrategy => payload_frames
  | DefaultRouterStrategy => identity_delimiter_payload destination_identity_msg payload_frames framing
  end.

Record PeerInfo := mkPeerInfo { peer_uri : string; peer_strategy : RouterSendStrategy }.

Record RouterMap := mkRouterMap {
  identity_to_peer_info : gmap bytes PeerInfo;
  read_pipe_to_identity : gmap Z bytes;
}.

Module RouterMap.

Definition new : RouterMap := mkRouterMap ∅ ∅.

Definition add_peer (identity : bytes) (pipe_read_id : Z) (endpoint_uri : string) (m : RouterMap) : RouterMap :=
  let fwd := <[identity := mkPeerInfo endpoint_uri DefaultRouterStrategy]> (identity_to_peer_info m) in
  let rev := <[pipe_read_id := identity]> (read_pipe_to_identity m) in
  let fwd :=
    match read_pipe_to_identity m !! pipe_read_id with
    | Some old_identity => if bool_decide (old_identity = identity) then fwd else delete old_identity fwd
    | None => fwd
    end in
  mkRouterMap fwd rev.

(** The two locks are taken one after the other. *)
Definition remove_begin (pipe_read_id : Z) (m : RouterMap) : RouterMap * option bytes :=
  (mkRouterMap (identity_to_peer_info m) (delete pipe_read_id (read_pipe_to_identity m)),
   read_pipe_to_identity m !! pipe_read_id).

Definition remove_end (identity_to_remove : option bytes) (m : RouterMap) : RouterMap :=
  match identity_to_remove with
  | Some identity => mkRouterMap (delete identity (identity_to_peer_info m)) (read_pipe_to_identity m)
  | None => m
  end.

Definition remove_peer_by_read_pipe (pipe_read_id : Z) (m : RouterMap) : RouterMap :=
  let '(m, identity_to_remove) := remove_begin pipe_read_id m in
  remove_end identity_to_remove m.

Definition get_identity_by_read_pipe (pipe_read_id : Z) (m : RouterMap) : option bytes :=
  read_pipe_to_identity m !! pipe_read_id.

(** The reverse entry removed is the first that the iteration over the hash map
    meets; [iter] is that iteration. *)
Definition remove_peer_by_identity (iter : gmap Z bytes -> list (Z * bytes)) (identity : bytes) (m : RouterMap) :
    RouterMap :=
  match identity_to_peer_info m !! identity with
  | Some _ =>
      mkRouterMap (delete identity (identity_to_peer_info m))
        (match list_find (fun kv => kv.2 = identity) (iter (read_pipe_to_identity m)) with
         | Some (_, (key, _)) => delete key (read_pipe_to_identity m)
         | None => read_pipe_to_identity m
         end)
  | None => m
  end.

Definition strategy_for (peer_socket_type : option string) : RouterSendStrategy :=
  match peer_socket_type with
  | Some "REQ" => ReqPeerStrategy
  | Some "DEALER" => DealerPeerStrategy
  | Some "ROUTER" => RouterPeerStrategy
  | _ => DefaultRouterStrategy
  end%string.

Definition update_peer_identity (pipe_read_id : Z) (new_identity : bytes) (endpoint_uri : string)
  (peer_socket_type : option string) (m : RouterMap) : RouterMap :=
  let fwd :=
    match read_pipe_to_identity m !! pipe_read_id with
    | Some old_identity =>
        if bool_decide (old_identity = new_identity) then identity_to_peer_info m
        else delete old_identity (identity_to_peer_info m)
    | None => identity_to_peer_info m
    end in
  mkRouterMap (<[new_identity := mkPeerInfo endpoint_uri (strategy_for peer_socket_type)]> fwd)
    (<[pipe_read_id := new_identity]> (read_pipe_to_identity m)).

Definition get_peer_info_for_identity (identity : bytes) (m : RouterMap) : option PeerInfo :=
  identity_to_peer_info m !! identity.

End RouterMap.

(** ** Lemmas on the load balancer *)

Inductive lb_op := LbAdd (uri : string) | LbRemove (uri : string) | LbNext.

#[export] Instance lb_op_eq_dec : EqDecision lb_op.
Proof. solve_decision. Defined.

(** The queue after some operations, and what [get_next_connection_uri]
    returned. *)
Fixpoint lb_run (uris : list string) (ops : list lb_op) : list string * list (option string) :=
  match ops with
  | [] => (uris, [])
  | LbAdd uri :: ops => lb_run (LoadBalancer.add_connection uri uris) ops
  | LbRemove uri :: ops => lb_run (LoadBalancer.remove_connection uri uris) ops
  | LbNext :: ops =>
      let '(uris, r) := LoadBalancer.get_next_connection_uri uris in
      let '(uris, rs) := lb_run uris ops in (uris, r :: rs)
  end.

Lemma remove_sub uri uris x : x ∈ LoadBalancer.remove_connection uri uris -> x ∈ uris.
Proof.
  induction uris as [|u uris IH]; [done|]. cbn. case_bool_decide; [by right|].
  intros [->|Hx]%elem_of_cons; [left|right; by apply IH].
Qed.

Lemma lb_nodup ops uris : NoDup uris -> NoDup (lb_run uris ops).1.
Proof.
  revert uris. induction ops as [|[u|u|] ops IH]; intros uris Hnd; cbn [lb_run]; [done|..].
  - apply IH. unfold LoadBalancer.add_connection. case_bool_decide; [done|].
    apply NoDup_app. split_and!; [done| |apply NoDup_singleton]. intros x Hx ->%list_elem_of_singleton. done.
  - apply IH. induction uris as [|v uris IHu]; [done|]. cbn. apply NoDup_cons in Hnd as [Hv Hnd].
    case_bool_decide; [done|]. apply NoDup_cons. split; [|by apply IHu]. by intros ?%remove_sub.
  - destruct uris as [|v uris]; cbn [LoadBalancer.get_next_connection_uri].
    + specialize (IH [] Hnd). by destruct (lb_run [] ops).
    + specialize (IH (uris ++ [v])). destruct (lb_run (uris ++ [v]) ops). apply IH.
      apply NoDup_cons in Hnd as [Hv Hnd]. apply NoDup_app. split_and!; [done| |apply NoDup_singleton].
      intros x Hx ->%list_elem_of_singleton. done.
Qed.

(** A connection moves towards the front. *)
Lemma remove_keeps_before uri c pre post :
  uri <> c -> exists pre' post', LoadBalancer.remove_connection uri (pre ++ c :: post) = pre' ++ c :: post' /\
    (length pre' <= length pre)%nat.
Proof.
  intros Hne. induction pre as [|u pre IH]; cbn [app LoadBalancer.remove_connection].
  - rewrite bool_decide_false by congruence. by eexists [], _.
  - case_bool_decide; [exists pre, post; cbn; split; [done|lia]|].
    destruct IH as (pre' & post' & -> & Hl). exists (u :: pre'), post'. cbn. split; [done|lia].
Qed.

Lemma lb_served c ops pre post :
  LbRemove c ∉ ops -> (length pre < length (filter (fun op => op = LbNext) ops))%nat ->
  Some c ∈ (lb_run (pre ++ c :: post) ops).2.
Proof.
  revert pre post. induction ops as [|op ops IH]; intros pre post Hnr Hl; [cbn in Hl; lia|].
  rewrite elem_of_cons in Hnr. assert (Hops : LbRemove c ∉ ops) by tauto.
  destruct op as [u|u|]; cbn [lb_run].
  - rewrite filter_cons_False in Hl by done. unfold LoadBalancer.add_connection. case_bool_decide; [by apply IH|].
    rewrite <- app_assoc. by apply IH.
  - rewrite filter_cons_False in Hl by done.
    destruct (remove_keeps_before u c pre post) as (pre' & post' & -> & Hp); [intros ->; tauto|]. apply IH; [done|lia].
  - rewrite filter_cons_True in Hl by done. cbn [length] in Hl.
    destruct pre as [|v pre]; cbn [app LoadBalancer.get_next_connection_uri].
    + destruct (lb_run (post ++ [c]) ops). by left.
    + rewrite <- app_assoc, <- app_comm_cons. specialize (IH pre (post ++ [v]) Hops).
      destruct (lb_run (pre ++ c :: post ++ [v]) ops). right. apply IH. cbn [length] in Hl. lia.
Qed.

Lemma lb_rotate done_ todo :
  lb_run (todo ++ done_) (replicate (length todo) LbNext) = (done_ ++ todo, Some <$> todo).
Proof.
  revert done_. induction todo as [|u todo IH]; intros done_; cbn; [by rewrite app_nil_r|].
  rewrite <- app_assoc, IH. by rewrite <- app_assoc.
Qed.

(** The load balancer is a fair round robin.  After any history its queue has
    no connection twice; as many requests as there are connections return each of
    them once, in queue order, and restore the queue; and no connection starves:
    one that is at position [i] and is not removed is chosen within the next
    [i + 1] requests, whatever is added or removed between them. *)
Theorem round_robin_fair (history ops : list lb_op) (i : nat) (c : string) :
  let uris := (lb_run LoadBalancer.new history).1 in
  NoDup uris /\
  lb_run uris (replicate (length uris) LbNext) = (uris, Some <$> uris) /\
  (uris !! i = Some c -> LbRemove c ∉ ops -> (i < length (filter (fun op => op = LbNext) ops))%nat ->
   Some c ∈ (lb_run uris ops).2).
Proof.
  intros uris. split_and!.
  - apply lb_nodup, NoDup_nil_2.
  - rewrite <- (app_nil_r uris) at 1. by rewrite lb_rotate.
  - intros Hi Hnr Hl. apply list_elem_of_split_length in Hi as (pre & post & -> & ->). by apply lb_served.
Qed.

Lemma round_robin_fair_witness :
  Some "b" ∈ (lb_run (lb_run LoadBalancer.new [LbAdd "a"; LbAdd "b"]).1 [LbNext; LbRemove "a"; LbAdd "c"; LbNext]).2.
Proof.
  destruct (round_robin_fair [LbAdd "a"; LbAdd "b"] [LbNext; LbRemove "a"; LbAdd "c"; LbNext] 1 "b") as (_ & _ & H).
  apply H; [done| |vm_compute; lia]. rewrite !not_elem_of_cons. set_solver.
Defined.

(** ** Lemmas on the routing table *)

Section Routing.

(** How the hash map is iterated. *)
Variable iter : gmap Z bytes -> list (Z * bytes).
Hypothesis iter_elements : forall m, iter m ≡ₚ map_to_list m.

Inductive route_op :=
  | RAdd (identity : bytes) (pipe : Z) (uri : string)
  | RUpdate (pipe : Z) (identity : bytes) (uri : string) (peer_type : option string)
  | RDetach (pipe : Z)
  | RForget (identity : bytes).

Definition route_exec (m : RouterMap) (op : route_op) : RouterMap :=
  match op with
  | RAdd identity pipe uri => RouterMap.add_peer identity pipe uri m
  | RUpdate pipe identity uri peer_type => RouterMap.update_peer_identity pipe identity uri peer_type m
  | RDetach pipe => RouterMap.remove_peer_by_read_pipe pipe m
  | RForget identity => RouterMap.remove_peer_by_identity iter identity m
  end.

(** Specification: one map from pipes to their peer. *)
Abbreviation peers := (gmap Z (bytes * PeerInfo)).

Definition route_spec (a : peers) (op : route_op) : peers :=
  match op with
  | RAdd identity pipe uri => <[pipe := (identity, mkPeerInfo uri DefaultRouterStrategy)]> a
  | RUpdate pipe identity uri peer_type => <[pipe := (identity, mkPeerInfo uri (RouterMap.strategy_for peer_type))]> a
  | RDetach pipe => delete pipe a
  | RForget identity => filter (fun kv => kv.2.1 <> identity) a
  end.

(** No two pipes with one identity. *)
Definition distinct (a : peers) : Prop :=
  forall p q id i j, a !! p = Some (id, i) -> a !! q = Some (id, j) -> p = q.

(** The operation does not give a pipe the identity of another. *)
Definition unclaimed (a : peers) (op : route_op) : Prop :=
  match op with
  | RAdd identity pipe _ | RUpdate pipe identity _ _ => forall q i, a !! q = Some (identity, i) -> q = pipe
  | _ => True
  end.

Record routes (a : peers) (m : RouterMap) : Prop := {
  routes_distinct : distinct a;
  routes_rev p id : read_pipe_to_identity m !! p = Some id <-> exists i, a !! p = Some (id, i);
  routes_fwd id i : identity_to_peer_info m !! id = Some i <-> exists p, a !! p = Some (id, i);
}.

Lemma routes_new : routes ∅ RouterMap.new.
Proof.
  split; [intros ?????; by rewrite lookup_empty|..]; intros; cbn [RouterMap.new read_pipe_to_identity identity_to_peer_info]; rewrite lookup_empty;
    (split; [done|intros [? H]; by rewrite lookup_empty in H]).
Qed.

(** Both tables after a pipe gets an identity. *)
Lemma routes_assign a m p id info :
  routes a m -> (forall q i, a !! q = Some (id, i) -> q = p) ->
  routes (<[p := (id, info)]> a)
    (mkRouterMap
       (<[id := info]>
          (match read_pipe_to_identity m !! p with
           | Some old => if bool_decide (old = id) then identity_to_peer_info m else delete old (identity_to_peer_info m)
           | None => identity_to_peer_info m
           end))
       (<[p := id]> (read_pipe_to_identity m))).
Proof.
  intros [Hd Hr Hf] Hfree. split; cbn [identity_to_peer_info read_pipe_to_identity].
  - intros q r x i j. rewrite !lookup_insert_Some. naive_solver.
  - intros q x. rewrite lookup_insert_Some, Hr. setoid_rewrite lookup_insert_Some. naive_solver.
  - intros x i. setoid_rewrite lookup_insert_Some.
    assert (Hrest : forall y j, y <> id ->
      (match read_pipe_to_identity m !! p with
       | Some old => if bool_decide (old = id) then identity_to_peer_info m else delete old (identity_to_peer_info m)
       | None => identity_to_peer_info m
       end) !! y = Some j <-> exists q, q <> p /\ a !! q = Some (y, j)).
    { intros y j Hy. destruct (read_pipe_to_identity m !! p) as [old|] eqn:Hp.
      - apply Hr in Hp as [oi Hp]. case_bool_decide as Hold.
        + rewrite Hf. naive_solver.
        + rewrite lookup_delete_Some, Hf. split.
          * intros (Hne & q & Hq). exists q. split; [|done]. intros ->. congruence.
          * intros (q & Hqp & Hq). split; [|by eauto]. intros ->. by eapply Hqp, Hd.
      - rewrite Hf. split; [|naive_solver]. intros (q & Hq). exists q. split; [|done]. intros ->.
        assert (is_Some (read_pipe_to_identity m !! p)) as [? ?]; [|congruence]. exists y. apply Hr. by eauto. }
    split.
    + intros [[<- <-]|[Hne Hx]]; [exists p; by left|]. apply Hrest in Hx as (q & Hq & Ha); [|done]. exists q. by right.
    + intros (q & [(<- & [= <- <-])|[Hq Ha]]); [by left|]. destruct (decide (id = x)) as [<-|Hne]; [|right].
      * exfalso. apply Hq. symmetry. by eapply Hfree.
      * split; [done|]. apply Hrest; [done|]. eauto.
Qed.

Lemma routes_step a m op : routes a m -> unclaimed a op -> routes (route_spec a op) (route_exec m op).
Proof.
  intros Hm Hu. destruct op as [id p uri|p id uri t|p|id]; cbn [route_exec route_spec unclaimed] in *.
  - pose proof (routes_assign a m p id (mkPeerInfo uri DefaultRouterStrategy) Hm Hu) as H.
    unfold RouterMap.add_peer. destruct (read_pipe_to_identity m !! p) as [old|]; [|done].
    case_bool_decide; [done|]. by rewrite delete_insert_ne by congruence.
  - by apply routes_assign.
  - destruct Hm as [Hd Hr Hf]. unfold RouterMap.remove_peer_by_read_pipe, RouterMap.remove_begin.
    split.
    + intros q r x i j. rewrite !lookup_delete_Some. naive_solver.
    + intros q x. destruct (read_pipe_to_identity m !! p); cbn; rewrite lookup_delete_Some, Hr;
        setoid_rewrite lookup_delete_Some; naive_solver.
    + intros x i. setoid_rewrite lookup_delete_Some.
      destruct (read_pipe_to_identity m !! p) as [old|] eqn:Hp; cbn [RouterMap.remove_end identity_to_peer_info].
      * apply Hr in Hp as [oi Hp]. rewrite lookup_delete_Some, Hf. split.
        -- intros (Hne & q & Hq). exists q. split; [|done]. intros ->. congruence.
        -- intros (q & Hqp & Hq). split; [|by eauto]. intros ->. by eapply Hqp, Hd.
      * rewrite Hf. split; [|naive_solver]. intros (q & Hq). exists q. split; [|done]. intros ->.
        assert (read_pipe_to_identity m !! q = Some x) by (apply Hr; eauto). congruence.
  - destruct Hm as [Hd Hr Hf]. unfold RouterMap.remove_peer_by_identity.
    destruct (identity_to_peer_info m !! id) as [i0|] eqn:Hi.
    + apply Hf in Hi as [p Hp].
      assert (Hfind : exists k, list_find (fun kv => kv.2 = id) (iter (read_pipe_to_identity m)) = Some (k, (p, id))).
      { destruct (list_find (fun kv => kv.2 = id) (iter (read_pipe_to_identity m))) as [[k [q x]]|] eqn:Hl.
        - apply list_find_Some in Hl as (Hk & Hx & _). cbn in Hx. subst x. apply list_elem_of_lookup_2 in Hk.
          rewrite iter_elements, elem_of_map_to_list, Hr in Hk. destruct Hk as [j Hq].
          rewrite (Hd q p id j i0 Hq Hp). eauto.
        - apply list_find_None in Hl. rewrite Forall_forall in Hl. exfalso. apply (Hl (p, id)); [|done].
          rewrite iter_elements. apply elem_of_map_to_list, Hr. eauto. }
      destruct Hfind as [k ->]. split; cbn [identity_to_peer_info read_pipe_to_identity].
      * intros q r x i j. rewrite !map_lookup_filter_Some. naive_solver.
      * intros q x. rewrite lookup_delete_Some, Hr. setoid_rewrite map_lookup_filter_Some. cbn. split.
        -- intros (Hne & i & Hq). exists i. split; [done|]. intros ->. by eapply Hne, Hd.
        -- intros (i & Hq & Hx). split; [|by eauto]. intros ->. congruence.
      * intros x i. rewrite lookup_delete_Some, Hf. setoid_rewrite map_lookup_filter_Some. naive_solver.
    + rewrite map_filter_id; [by split|]. intros p [x i] Hp. cbn. intros ->.
      assert (identity_to_peer_info m !! id = Some i) by (apply Hf; eauto). congruence.
Qed.

Fixpoint route_run (m : RouterMap) (ops : list route_op) : RouterMap :=
  match ops with [] => m | op :: ops => route_run (route_exec m op) ops end.

Fixpoint spec_run (a : peers) (ops : list route_op) : peers :=
  match ops with [] => a | op :: ops => spec_run (route_spec a op) ops end.

Fixpoint all_unclaimed (a : peers) (ops : list route_op) : Prop :=
  match ops with [] => True | op :: ops => unclaimed a op /\ all_unclaimed (route_spec a op) ops end.

Lemma routes_run ops a m : routes a m -> all_unclaimed a ops -> routes (spec_run a ops) (route_run m ops).
Proof.
  revert a m. induction ops as [|op ops IH]; intros a m Hm Hu; [done|]. destruct Hu as [Hop Hu].
  cbn [spec_run route_run]. apply IH; [by apply routes_step|done].
Qed.

(** C33: The two tables of the ROUTER implement one map from pipes to peers.  For
    every sequence of attachments, identity updates, detachments and removals in
    which no pipe is given an identity another pipe holds, and for every iteration
    order of the hash map: a pipe has the identity the specification gives it, and
    an identity is routed to the endpoint, with the framing strategy, of the one
    pipe that has it. *)
Theorem router_map_refines (ops : list route_op) (pipe : Z) (identity : bytes) (info : PeerInfo) :
  all_unclaimed ∅ ops ->
  let m := route_run RouterMap.new ops in
  let a := spec_run ∅ ops in
  (RouterMap.get_identity_by_read_pipe pipe m = Some identity <-> exists i, a !! pipe = Some (identity, i)) /\
  (RouterMap.get_peer_info_for_identity identity m = Some info <-> exists p, a !! p = Some (identity, info)) /\
  (forall p q i j, a !! p = Some (identity, i) -> a !! q = Some (identity, j) -> p = q).
Proof.
  intros Hu m a. destruct (routes_run ops ∅ RouterMap.new routes_new Hu) as [Hd Hr Hf].
  split_and!; [apply Hr|apply Hf|]. intros p q i j. apply (Hd p q identity i j).
Qed.

End Routing.

Lemma router_map_refines_witness :
  let ops := [RAdd (bs "A") 1 "tcp://x"; RUpdate 1 (bs "I") "tcp://x" (Some "REQ"); RAdd (bs "B") 2 "tcp://y"; RDetach 2] in
  RouterMap.get_peer_info_for_identity (bs "I") (route_run map_to_list RouterMap.new ops) =
    Some (mkPeerInfo "tcp://x" ReqPeerStrategy).
Proof.
  intros ops.
  destruct (router_map_refines map_to_list (fun _ => reflexivity _) ops 1 (bs "I") (mkPeerInfo "tcp://x" ReqPeerStrategy))
    as (_ & H & _).
  - cbn. split_and!; try done; intros q i; rewrite ?lookup_insert_Some, ?lookup_empty; naive_solver.
  - apply H. exists 1. reflexivity.
Defined.

(** Without distinct identities a detached pipe takes the route of its successor
    with it: a peer that reconnects before its old pipe is detached becomes
    unreachable, though its pipe still has the identity. *)
Lemma router_identity_takeover id p q uri uri' :
  p <> q ->
  let m := RouterMap.remove_peer_by_read_pipe p
             (RouterMap.add_peer id q uri' (RouterMap.add_peer id p uri RouterMap.new)) in
  RouterMap.get_identity_by_read_pipe q m = Some id /\ RouterMap.get_peer_info_for_identity id m = None.
Proof.
  intros Hne. unfold RouterMap.remove_peer_by_read_pipe, RouterMap.add_peer, RouterMap.new,
    RouterMap.get_identity_by_read_pipe, RouterMap.get_peer_info_for_identity, RouterMap.remove_begin.
  cbn [read_pipe_to_identity identity_to_peer_info]. rewrite !lookup_empty, (lookup_insert_ne _ p q) by done.
  rewrite lookup_empty. cbn [read_pipe_to_identity identity_to_peer_info].
  rewrite (lookup_insert_ne _ q p), lookup_insert_eq by done. cbn.
  rewrite lookup_delete_ne, lookup_insert_eq by done. by rewrite lookup_delete_eq.
Qed.
