(* ===== verification/Queue.v ===== *)
(** The receive side of a socket: the bounded queue of items and the orchestrator
    that reassembles messages from the frames of its pipes
    ([core/src/socket/patterns/{fair_queue,incoming_orchestrator}.rs]).

    The bounded channel is the crate fibre, a class with what the code relies on
    as laws.  A future is modelled by its last poll: an operation that waits
    returns [None] as long as it has to, and a [tokio::time::timeout] around it
    takes [elapsed], whether the timer has expired; like tokio's, it polls the
    operation first.  A method that holds its locks to the end is one step;
    [recv_message], which gives up the lock of its buffer while it waits for an
    item, is [recv_buffered], [recv_item_from_main_queue] and [recv_store]. *)

From S2P Require Import Prelude Error Message Patterns.

#[local] Set Warnings "-clear-no-such-hyp".

(** ** Bounded channels (the crate fibre) *)

Inductive send_outcome := Sent | SendFull | SendClosed.
Inductive recv_outcome (A : Type) := Received (a : A) | RecvEmpty | RecvDisconnected.
Arguments Received {A} a.
Arguments RecvEmpty {A}.
Arguments RecvDisconnected {A}.

Class Fibre := {
  chan : Type -> Type;
  bounded_async {A} : Z -> chan A;
  try_send {A} : A -> chan A -> chan A * send_outcome;
  try_recv {A} : chan A -> chan A * recv_outcome A;
  close_sender {A} : chan A -> chan A;
  chan_len {A} : chan A -> Z;
}.

(** A closed channel takes nothing more and can be drained; otherwise it is a
    queue of at most its capacity. *)
Class FibreLaws `{Fibre} := {
  items {A} : chan A -> list A;
  capacity {A} : chan A -> Z;
  closed {A} : chan A -> bool;
  bounded_new {A} n : 1 <= n ->
    items (bounded_async (A:=A) n) = [] /\ capacity (bounded_async (A:=A) n) = n /\
    closed (bounded_async (A:=A) n) = false;
  try_send_closed {A} (a : A) c : closed c = true -> try_send a c = (c, SendClosed);
  try_send_full {A} (a : A) c : closed c = false -> capacity c <= zlen (items c) -> try_send a c = (c, SendFull);
  try_send_room {A} (a : A) c : closed c = false -> zlen (items c) < capacity c ->
    (try_send a c).2 = Sent /\ items (try_send a c).1 = items c ++ [a] /\
    capacity (try_send a c).1 = capacity c /\ closed (try_send a c).1 = false;
  try_recv_item {A} (a : A) c l : items c = a :: l ->
    (try_recv c).2 = Received a /\ items (try_recv c).1 = l /\
    capacity (try_recv c).1 = capacity c /\ closed (try_recv c).1 = closed c;
  try_recv_empty {A} (c : chan A) : items c = [] ->
    try_recv c = (c, if closed c then RecvDisconnected else RecvEmpty);
  close_spec {A} (c : chan A) :
    items (close_sender c) = items c /\ capacity (close_sender c) = capacity c /\ closed (close_sender c) = true;
  chan_len_spec {A} (c : chan A) : chan_len c = zlen (items c);
}.

(** ** Fair queue *)

Inductive PushError (A : Type) := PushFull (a : A) | PushClosed (a : A).
Arguments PushFull {A} a.
Arguments PushClosed {A} a.

Record FairQueue `{Fibre} (A : Type) := mkFairQueue { channel : chan A; hwm : Z }.
Arguments mkFairQueue {_ A} channel hwm.
Arguments channel {_ A} f.
Arguments hwm {_ A} f.

Module FairQueue.
Section FairQueue.
Context `{Fibre} {A : Type}.

Definition new (capacity : Z) : FairQueue A := mkFairQueue (bounded_async (Z.max capacity 1)) (Z.max capacity 1).

Definition push_item (item : A) (q : FairQueue A) : FairQueue A * option (result unit) :=
  let '(c, r) := try_send item (channel q) in
  (mkFairQueue c (hwm q),
   match r with
   | Sent => Some (Ok tt)
   | SendFull => None
   | SendClosed => Some (Err (Internal "FairQueue channel closed unexpectedly"))
   end).

Definition pop_item (q : FairQueue A) : FairQueue A * option (result (option A)) :=
  let '(c, r) := try_recv (channel q) in
  (mkFairQueue c (hwm q),
   match r with
   | Received a => Some (Ok (Some a))
   | RecvEmpty => None
   | RecvDisconnected => Some (Ok None)
   end).

Definition try_push_item (item : A) (q : FairQueue A) : FairQueue A * (unit + PushError A) :=
  let '(c, r) := try_send item (channel q) in
  (mkFairQueue c (hwm q),
   match r with
   | Sent => inl tt
   | SendFull => inr (PushFull item)
   | SendClosed => inr (PushClosed item)
   end).

Definition try_pop_item (q : FairQueue A) : FairQueue A * result (option A) :=
  let '(c, r) := try_recv (channel q) in
  (mkFairQueue c (hwm q),
   match r with
   | Received a => Ok (Some a)
   | RecvEmpty => Ok None
   | RecvDisconnected => Err (Internal "FairQueue channel closed unexpectedly")
   end).

Definition capacity (q : FairQueue A) : Z := hwm q.
Definition len (q : FairQueue A) : Z := chan_len (channel q).
Definition is_empty (q : FairQueue A) : bool := chan_len (channel q) =? 0.
Definition close (q : FairQueue A) : FairQueue A := mkFairQueue (close_sender (channel q)) (hwm q).

End FairQueue.
End FairQueue.

(** ** Orchestrator *)

(** [str::contains]. *)
Definition contains (text pattern : string) : bool :=
  match String.index 0 pattern text with Some _ => true | None => false end.

Record Orchestrator `{Fibre} (QItem : Type) := mkOrchestrator {
  main_incoming_queue : FairQueue QItem;
  queue_push_timeout : option Z;
  partial_pipe_messages : gmap Z (list Msg);
  current_recv_frames_buffer : list Msg;
}.
Arguments mkOrchestrator {_ QItem} _ _ _ _.
Arguments main_incoming_queue {_ QItem} _.
Arguments queue_push_timeout {_ QItem} _.
Arguments partial_pipe_messages {_ QItem} _.
Arguments current_recv_frames_buffer {_ QItem} _.

#[export] Instance Orchestrator_eta `{Fibre} {QItem} : Eta (Orchestrator QItem) := fun r =>
  mkOrchestrator (main_incoming_queue r) (queue_push_timeout r) (partial_pipe_messages r) (current_recv_frames_buffer r).

Module Orchestrator.
Section Orchestrator.
Context `{Fibre} {QItem : Type}.
Implicit Types o : Orchestrator QItem.

(** [queue_push_timeout] in milliseconds. *)
Definition new (rcvhwm : Z) : Orchestrator QItem :=
  mkOrchestrator (FairQueue.new (Z.max rcvhwm 1)) (Some 1000) ∅ [].

Definition accumulate_pipe_frame (pipe_read_id : Z) (incoming_frame : Msg) o : Orchestrator QItem * option (list Msg) :=
  if negb (Msg.is_more incoming_frame) then
    (o <| partial_pipe_messages := delete pipe_read_id (partial_pipe_messages o) |>,
     Some (default [] (partial_pipe_messages o !! pipe_read_id) ++ [incoming_frame]))
  else
    (o <| partial_pipe_messages :=
         <[pipe_read_id := default [] (partial_pipe_messages o !! pipe_read_id) ++ [incoming_frame]]>
           (partial_pipe_messages o) |>,
     None).

(** What [queue_item] makes of the result of the push. *)
Definition queue_result (push_result : result unit) : result unit :=
  match push_result with
  | Ok tt => Ok tt
  | Err (Internal msg) =>
      if contains msg "FairQueue channel closed" then Err (Internal "Main incoming queue channel unexpectedly closed")
      else Err (Internal msg)
  | Err e => Err e
  | Panic => Panic
  end.

Definition queue_item (elapsed : bool) (item_to_queue : QItem) o : Orchestrator QItem * option (result unit) :=
  match queue_push_timeout o with
  | Some 0 =>
      let '(q, r) := FairQueue.try_push_item item_to_queue (main_incoming_queue o) in
      (o <| main_incoming_queue := q |>,
       Some (queue_result (match r with
                           | inl _ | inr (PushFull _) => Ok tt
                           | inr (PushClosed _) => Err (Internal "Main incoming queue closed")
                           end)))
  | timeout =>
      let '(q, r) := FairQueue.push_item item_to_queue (main_incoming_queue o) in
      (o <| main_incoming_queue := q |>,
       match r with
       | Some r => Some (queue_result r)
       | None => if bool_decide (is_Some timeout) && elapsed then Some (queue_result (Ok tt)) else None
       end)
  end.

Definition recv_item_from_main_queue (elapsed : bool) (rcvtimeo_opt : option Z) o :
    Orchestrator QItem * option (result QItem) :=
  match rcvtimeo_opt with
  | Some 0 =>
      let '(q, r) := FairQueue.try_pop_item (main_incoming_queue o) in
      (o <| main_incoming_queue := q |>,
       Some (match r with
             | Ok (Some item) => Ok item
             | Ok None => Err ResourceLimitReached
             | Err e => Err e
             | Panic => Panic
             end))
  | Some _ =>
      let '(q, r) := FairQueue.pop_item (main_incoming_queue o) in
      (o <| main_incoming_queue := q |>,
       match r with
       | Some (Ok (Some item)) => Some (Ok item)
       | Some (Ok None) => Some (Err (Internal "Orchestrator: Main receive queue closed while popping item"))
       | Some (Err e) => Some (Err e)
       | Some Panic => Some Panic
       | None => if elapsed then Some (Err Timeout) else None
       end)
  | None =>
      let '(q, r) := FairQueue.pop_item (main_incoming_queue o) in
      (o <| main_incoming_queue := q |>,
       match r with
       | Some (Ok (Some item)) => Some (Ok item)
       | Some (Ok None) => Some (Err (Internal "Orchestrator: Main receive queue closed (inf wait)"))
       | Some (Err e) => Some (Err e)
       | Some Panic => Some Panic
       | None => None
       end)
  end.

(** [reset_recv_message_buffer], and the first lock of [recv_logical_message]. *)
Definition reset_recv_message_buffer o : Orchestrator QItem := o <| current_recv_frames_buffer := [] |>.

Definition recv_logical_message (elapsed : bool) (rcvtimeo_opt : option Z) (qitem_to_app_frames : QItem -> list Msg) o :
    Orchestrator QItem * option (result (list Msg)) :=
  let '(o, r) := recv_item_from_main_queue elapsed rcvtimeo_opt (reset_recv_message_buffer o) in
  (o, fmap (M:=option) (fmap (M:=result) qitem_to_app_frames) r).

(** The frame that the buffer holds. *)
Definition recv_buffered o : Orchestrator QItem * option Msg :=
  match current_recv_frames_buffer o with
  | frame :: rest =>
      (o <| current_recv_frames_buffer := rest |>,
       Some (if bool_decide (rest = []) then without_more frame else with_more frame))
  | [] => (o, None)
  end.

(** The frames of a new item, the first of them returned. *)
Definition recv_store (app_frames : list Msg) o : Orchestrator QItem * Msg :=
  match app_frames with
  | [] => (o, Msg.new)
  | first_frame :: rest => (o <| current_recv_frames_buffer := rest |>, first_frame)
  end.

Definition recv_message (elapsed : bool) (rcvtimeo_opt : option Z) (qitem_to_app_frames : QItem -> list Msg) o :
    Orchestrator QItem * option (result Msg) :=
  let '(o, frame) := recv_buffered o in
  match frame with
  | Some frame => (o, Some (Ok frame))
  | None =>
      let '(o, r) := recv_item_from_main_queue elapsed rcvtimeo_opt o in
      match r with
      | Some (Ok q_item) => let '(o, frame) := recv_store (qitem_to_app_frames q_item) o in (o, Some (Ok frame))
      | Some (Err e) => (o, Some (Err e))
      | Some Panic => (o, Some Panic)
      | None => (o, None)
      end
  end.

Definition clear_pipe_state (pipe_read_id : Z) o : Orchestrator QItem :=
  reset_recv_message_buffer (o <| partial_pipe_messages := delete pipe_read_id (partial_pipe_messages o) |>).

Definition close o : Orchestrator QItem :=
  mkOrchestrator (FairQueue.close (main_incoming_queue o)) (queue_push_timeout o) ∅ [].

End Orchestrator.
End Orchestrator.

(** ** A socket over the orchestrator

    What every socket does with it: frames of a pipe are accumulated, a complete
    message is turned into an item and queued, unless the socket does not want it
    ([process]), a detached pipe is cleared, and the application receives. *)

Section Socket.
Context `{FibreLaws} {QItem : Type}.
Variable process : Z -> list Msg -> option QItem.
Variable to_app : QItem -> list Msg.
Implicit Types o : Orchestrator QItem.

Definition pipe_frame (elapsed : bool) (pipe : Z) (frame : Msg) o : Orchestrator QItem * option (result unit) :=
  let '(o, message) := Orchestrator.accumulate_pipe_frame pipe frame o in
  match message with
  | Some message =>
      match process pipe message with
      | Some item => Orchestrator.queue_item elapsed item o
      | None => (o, Some (Ok tt))
      end
  | None => (o, Some (Ok tt))
  end.

Inductive orch_event :=
  | Arrive (pipe : Z) (frame : Msg) (elapsed : bool)
  | Detach (pipe : Z)
  | Receive (timeout : option Z) (elapsed : bool).

(** The messages the application gets; [None] if an event is still waiting. *)
Fixpoint orch_run o (evs : list orch_event) : option (Orchestrator QItem * list (list Msg)) :=
  match evs with
  | [] => Some (o, [])
  | Arrive pipe frame elapsed :: evs =>
      let '(o, r) := pipe_frame elapsed pipe frame o in
      match r with Some _ => orch_run o evs | None => None end
  | Detach pipe :: evs => orch_run (Orchestrator.clear_pipe_state pipe o) evs
  | Receive timeout elapsed :: evs =>
      let '(o, r) := Orchestrator.recv_logical_message elapsed timeout to_app o in
      match r with
      | Some (Ok message) => '(o, outs) ← orch_run o evs; Some (o, message :: outs)
      | Some _ => orch_run o evs
      | None => None
      end
  end.

(** The messages that arrive on one pipe, of which [part] has arrived before. *)
Fixpoint assembled (pipe : Z) (part : list Msg) (evs : list orch_event) : list (list Msg) :=
  match evs with
  | [] => []
  | Arrive p frame _ :: evs =>
      if bool_decide (p = pipe) then
        if Msg.is_more frame then assembled pipe (part ++ [frame]) evs
        else (part ++ [frame]) :: assembled pipe [] evs
      else assembled pipe part evs
  | Detach p :: evs => assembled pipe (if bool_decide (p = pipe) then [] else part) evs
  | Receive _ _ :: evs => assembled pipe part evs
  end.

(** No push times out. *)
Definition no_timeout (evs : list orch_event) : Prop :=
  Forall (fun ev => match ev with Arrive _ _ elapsed => elapsed = false | _ => True end) evs.

(** No event waits: the timers of those that could have expired. *)
Definition impatient (ev : orch_event) : Prop :=
  match ev with
  | Arrive _ _ elapsed => elapsed = true
  | Detach _ => True
  | Receive timeout elapsed => timeout = Some 0 \/ is_Some timeout /\ elapsed = true
  end.

Definition queued o : list QItem := items (channel (main_incoming_queue o)).

(** An open queue within its capacity. *)
Record open (cap : Z) o : Prop := {
  open_timeout : queue_push_timeout o = Some 1000;
  open_closed : closed (channel (main_incoming_queue o)) = false;
  open_cap : capacity (channel (main_incoming_queue o)) = cap;
  open_bound : zlen (queued o) <= cap;
}.

Lemma open_new hwm : open (Z.max hwm 1) (Orchestrator.new hwm) /\ queued (Orchestrator.new hwm) = [].
Proof.
  unfold Orchestrator.new, FairQueue.new, queued; cbn [main_incoming_queue channel].
  destruct (bounded_new (A:=QItem) (Z.max (Z.max hwm 1) 1)) as (Hi & Hc & Ho); [lia|].
  split; [|done]. split; unfold queued; cbn [main_incoming_queue channel queue_push_timeout]; rewrite ?Hi; try done.
  - rewrite Hc. lia.
  - unfold zlen. cbn. lia.
Qed.

(** A message is queued, or dropped if the queue is full and the timer expired. *)
Lemma queue_item_spec cap elapsed item o :
  open cap o ->
  match Orchestrator.queue_item elapsed item o with
  | (o', r) =>
      partial_pipe_messages o' = partial_pipe_messages o /\ open cap o' /\
      (r = Some (Ok tt) /\ queued o' = queued o ++ [item] /\ zlen (queued o) < cap \/
       r = Some (Ok tt) /\ queued o' = queued o /\ zlen (queued o) = cap /\ elapsed = true \/
       r = None /\ elapsed = false)
  end.
Proof.
  intros [Ht Hc Hcap Hb]. unfold Orchestrator.queue_item, FairQueue.push_item. rewrite Ht. unfold queued in *.
  destruct (Z_lt_le_dec (zlen (items (channel (main_incoming_queue o)))) cap) as [Hlt|Hge].
  - destruct (try_send_room item (channel (main_incoming_queue o))) as (Hr & Hi & Hcap' & Hc'); [done|lia|].
    destruct (try_send item (channel (main_incoming_queue o))) as [c r]. cbn [fst snd] in *. subst r. cbn.
    split_and!; [done| |by left].
    split; cbn; [done|done|lia|]. unfold queued; cbn. rewrite Hi. unfold zlen in *. rewrite length_app. cbn. lia.
  - rewrite try_send_full by (lia || done). cbn. split_and!; [done|by split|].
    destruct elapsed; [right; left|right; right]; split_and!; (done || lia).
Qed.

(** A receive takes the oldest message. *)
Lemma recv_item_spec cap elapsed timeout o :
  open cap o ->
  match Orchestrator.recv_item_from_main_queue elapsed timeout o with
  | (o', r) =>
      partial_pipe_messages o' = partial_pipe_messages o /\ open cap o' /\
      current_recv_frames_buffer o' = current_recv_frames_buffer o /\
      match queued o with
      | item :: rest => r = Some (Ok item) /\ queued o' = rest
      | [] =>
          queued o' = [] /\
          (timeout = Some 0 /\ r = Some (Err ResourceLimitReached) \/
           is_Some timeout /\ elapsed = true /\ r = Some (Err Timeout) \/
           r = None /\ timeout <> Some 0 /\ (timeout = None \/ elapsed = false))
      end
  end.
Proof.
  intros [Ht Hc Hcap Hb].
  unfold Orchestrator.recv_item_from_main_queue, FairQueue.try_pop_item, FairQueue.pop_item, queued in *.
  destruct (items (channel (main_incoming_queue o))) as [|item rest] eqn:Hi.
  - rewrite try_recv_empty, Hc by done.
    destruct timeout as [[|z|z]|]; cbn; split_and!; try done; try (split; unfold queued; cbn; rewrite ?Hi; done);
      destruct elapsed; naive_solver.
  - destruct (try_recv_item item (channel (main_incoming_queue o)) rest Hi) as (Hr & Hi' & Hcap' & Hc').
    destruct (try_recv (channel (main_incoming_queue o))) as [c r]. cbn [fst snd] in *. subst r.
    assert (zlen rest <= cap) by (unfold zlen in *; cbn in Hb; lia).
    destruct timeout as [[|z|z]|]; cbn; split_and!; try done; split; unfold queued; cbn; rewrite ?Hi'; congruence.
Qed.

(** The messages of one pipe among all. *)
Definition of_pipe (pipe : Z) (messages : list (Z * list Msg)) : list (list Msg) :=
  (filter (fun m => m.1 = pipe) messages).*2.

Lemma of_pipe_cons pipe p m l :
  of_pipe pipe ((p, m) :: l) = if bool_decide (p = pipe) then m :: of_pipe pipe l else of_pipe pipe l.
Proof.
  unfold of_pipe. case_bool_decide as Hp; [by rewrite filter_cons_True|by rewrite filter_cons_False].
Qed.

(** The items of some messages. *)
Definition items_of (messages : list (Z * list Msg)) : list QItem := omap (fun m => process m.1 m.2) messages.

(** What a run delivers and leaves queued. *)
Definition accounts (cap : Z) o (evs : list orch_event) o' (outs : list (list Msg)) : Prop :=
  exists complete kept,
    (forall p, of_pipe p complete = assembled p (default [] (partial_pipe_messages o !! p)) evs) /\
    kept `sublist_of` items_of complete /\
    outs ++ (to_app <$> queued o') = (to_app <$> queued o) ++ (to_app <$> kept) /\
    open cap o' /\
    (no_timeout evs \/ zlen (queued o) + zlen (items_of complete) <= cap -> kept = items_of complete).

Lemma accounts_more cap o evs o' outs pipe frame elapsed :
  Msg.is_more frame = true ->
  accounts cap (Orchestrator.accumulate_pipe_frame pipe frame o).1 evs o' outs ->
  accounts cap o (Arrive pipe frame elapsed :: evs) o' outs.
Proof.
  intros Hm (complete & kept & Hp & Hk & Ho & Hopen & Hall). unfold Orchestrator.accumulate_pipe_frame in *.
  rewrite Hm in *. cbn in Hp, Ho, Hall. exists complete, kept. split_and!; try done.
  - intros p. rewrite Hp. cbn [assembled]. rewrite Hm.
    case_bool_decide as Heq; [subst; by rewrite lookup_insert_eq|by rewrite lookup_insert_ne].
  - intros [Hn|Hl]; apply Hall; [left; by inv Hn|by right].
Qed.

(** The last frame of a message: the message is not wanted, queued or dropped. *)
Lemma accounts_last cap o o1 evs o' outs pipe frame elapsed :
  Msg.is_more frame = false ->
  let message := default [] (partial_pipe_messages o !! pipe) ++ [frame] in
  partial_pipe_messages o1 = delete pipe (partial_pipe_messages o) ->
  match process pipe message with
  | None => queued o1 = queued o
  | Some item => queued o1 = queued o ++ [item] \/ queued o1 = queued o /\ zlen (queued o) = cap /\ elapsed = true
  end ->
  accounts cap o1 evs o' outs ->
  accounts cap o (Arrive pipe frame elapsed :: evs) o' outs.
Proof.
  intros Hm message Hpart Hq (complete & kept & Hp & Hk & Ho & Hopen & Hall).
  assert (Hone : forall p, of_pipe p ((pipe, message) :: complete) =
    assembled p (default [] (partial_pipe_messages o !! p)) (Arrive pipe frame elapsed :: evs)).
  { intros p. rewrite of_pipe_cons, Hp, Hpart. cbn [assembled]. rewrite Hm.
    case_bool_decide as Heq; [subst; by rewrite lookup_delete_eq|by rewrite lookup_delete_ne]. }
  assert (Hitems : items_of ((pipe, message) :: complete) = option_list (process pipe message) ++ items_of complete)
    by (unfold items_of; cbn; by destruct (process pipe message)).
  exists ((pipe, message) :: complete). rewrite Hitems.
  destruct (process pipe message) as [item|]; [destruct Hq as [Hq|(Hq & Hfull & He)]|]; rewrite Hq in Ho, Hall; cbn [option_list app].
  - exists (item :: kept). split_and!; try done.
    + by apply sublist_skip.
    + rewrite Ho, fmap_app, <- app_assoc. done.
    + intros H'. f_equal. apply Hall. destruct H' as [Hn|Hl]; [left; by inv Hn|right].
      unfold zlen in *. rewrite length_app. cbn in *. lia.
  - exists kept. split_and!; try done.
    + by apply sublist_cons.
    + intros [Hn|Hl]; exfalso; [inv Hn; congruence|]. unfold zlen in *. cbn in Hl. lia.
  - exists kept. split_and!; try done. intros [Hn|Hl]; apply Hall; [left; by inv Hn|by right].
Qed.

Lemma orch_run_accounts cap evs o o' outs :
  open cap o -> orch_run o evs = Some (o', outs) -> accounts cap o evs o' outs.
Proof.
  revert o outs. induction evs as [|ev evs IH]; intros o outs Hopen Hrun.
  { injection Hrun as <- <-. exists [], []. split_and!; try done. cbn. by rewrite app_nil_r. }
  destruct ev as [pipe frame elapsed|pipe|timeout elapsed]; cbn [orch_run] in Hrun.
  - unfold pipe_frame in Hrun. destruct (Msg.is_more frame) eqn:Hm.
    + apply accounts_more; [done|]. apply IH; unfold Orchestrator.accumulate_pipe_frame in *; rewrite Hm in *; [|done].
      destruct Hopen. by split.
    + unfold Orchestrator.accumulate_pipe_frame in Hrun. rewrite Hm in Hrun. cbn [negb] in Hrun.
      set (o1 := o <| partial_pipe_messages := _ |>) in Hrun.
      assert (Ho1 : open cap o1) by (destruct Hopen; by split).
      destruct (process pipe _) as [item|] eqn:Hitem.
      * pose proof (queue_item_spec cap elapsed item o1 Ho1) as Hspec.
        destruct (Orchestrator.queue_item _ _ o1) as [o2 r]. destruct Hspec as (Hpart & Ho2 & Hcase).
        destruct r as [r|]; [|done]. apply (accounts_last cap o o2); try done; [|by apply IH].
        rewrite Hitem. change (queued o1) with (queued o) in Hcase. naive_solver.
      * apply (accounts_last cap o o1); try done; [by rewrite Hitem|by apply IH].
  - destruct (IH (Orchestrator.clear_pipe_state pipe o) outs) as (complete & kept & Hp & Hk & Ho & Hopen' & Hall);
      [by destruct Hopen|done|].
    exists complete, kept. split_and!; try done.
    + intros p. rewrite Hp. cbn [assembled]. f_equal. cbn.
      case_bool_decide as Heq; [subst; by rewrite lookup_delete_eq|by rewrite lookup_delete_ne].
    + intros [Hn|Hl]; apply Hall; [left; by inv Hn|by right].
  - unfold Orchestrator.recv_logical_message in Hrun.
    assert (Ho1 : open cap (Orchestrator.reset_recv_message_buffer o)) by (destruct Hopen; by split).
    pose proof (recv_item_spec cap elapsed timeout _ Ho1) as Hspec.
    destruct (Orchestrator.recv_item_from_main_queue _ _ _) as [o2 r]. destruct Hspec as (Hpart & Ho2 & _ & Hcase).
    change (queued (Orchestrator.reset_recv_message_buffer o)) with (queued o) in Hcase.
    change (partial_pipe_messages (Orchestrator.reset_recv_message_buffer o)) with (partial_pipe_messages o) in Hpart.
    destruct (queued o) as [|item rest] eqn:Hq.
    + assert (Hrun' : orch_run o2 evs = Some (o', outs)) by naive_solver.
      destruct (IH o2 outs Ho2 Hrun') as (complete & kept & Hp & Hk & Ho & Hopen' & Hall).
      exists complete, kept. split_and!; try done; rewrite ?Hq.
      * intros p. by rewrite Hp, Hpart.
      * destruct Hcase as [Hq2 _]. by rewrite Hq2 in Ho.
      * destruct Hcase as [Hq2 _]. rewrite Hq2 in Hall. intros [Hn|Hl]; apply Hall; [left; by inv Hn|by right].
    + destruct Hcase as [-> Hq2]. cbn in Hrun.
      destruct (orch_run o2 evs) as [[o3 outs']|] eqn:Hrun'; [|done]. injection Hrun as <- <-.
      destruct (IH o2 outs' Ho2 Hrun') as (complete & kept & Hp & Hk & Ho & Hopen' & Hall).
      exists complete, kept. split_and!; try done; rewrite ?Hq.
      * intros p. by rewrite Hp, Hpart.
      * rewrite Hq2 in Ho. cbn. by rewrite Ho.
      * rewrite Hq2 in Hall. intros [Hn|Hl]; apply Hall; [left; by inv Hn|right]. unfold zlen in *. cbn in Hl. lia.
Qed.

Lemma orch_run_total cap evs o : open cap o -> Forall impatient evs -> is_Some (orch_run o evs).
Proof.
  revert o. induction evs as [|ev evs IH]; intros o Hopen Himp; [by eexists|]. inv Himp.
  destruct ev as [pipe frame elapsed|pipe|timeout elapsed]; cbn [orch_run].
  - unfold pipe_frame, Orchestrator.accumulate_pipe_frame. destruct (Msg.is_more frame); cbn [negb].
    + apply IH; [by destruct Hopen|done].
    + set (o1 := o <| partial_pipe_messages := _ |>).
      destruct (process pipe _) as [item|]; [|apply IH; [by destruct Hopen|done]].
      pose proof (queue_item_spec cap elapsed item o1 ltac:(by destruct Hopen)) as Hspec.
      destruct (Orchestrator.queue_item _ _ o1) as [o2 r]. destruct Hspec as (_ & Ho2 & Hcase).
      destruct r; [by apply IH|]. naive_solver.
  - apply IH; [by destruct Hopen|done].
  - unfold Orchestrator.recv_logical_message.
    pose proof (recv_item_spec cap elapsed timeout (Orchestrator.reset_recv_message_buffer o)
      ltac:(by destruct Hopen)) as Hspec.
    destruct (Orchestrator.recv_item_from_main_queue _ _ _) as [o2 r]. destruct Hspec as (_ & Ho2 & _ & Hcase).
    destruct (IH o2 Ho2 ltac:(done)) as [[o3 outs] Hrun]. rewrite Hrun.
    destruct (queued _); destruct r as [[]|]; cbn; try done; naive_solver.
Qed.


(** ** Receiving frame by frame *)

(** [n] calls of [recv_message] that do not wait. *)
Fixpoint recv_n (n : nat) o : option (Orchestrator QItem * list Msg) :=
  match n with
  | O => Some (o, [])
  | S n =>
      match Orchestrator.recv_message false None to_app o with
      | (o, Some (Ok frame)) => '(o, frames) ← recv_n n o; Some (o, frame :: frames)
      | _ => None
      end
  end.

Lemma recv_n_buffer frames o :
  current_recv_frames_buffer o = frames ->
  recv_n (length frames) o = Some (o <| current_recv_frames_buffer := [] |>, mark_more frames).
Proof.
  revert o. induction frames as [|f frames IH]; intros o Hb.
  - destruct o; cbn in Hb; subst. done.
  - cbn [length recv_n]. unfold Orchestrator.recv_message, Orchestrator.recv_buffered. rewrite Hb.
    rewrite IH by done. destruct frames as [|g frames]; done.
Qed.

Lemma mark_more_cons f frames :
  f = (if bool_decide (frames = []) then without_more f else with_more f) ->
  f :: mark_more frames = mark_more (f :: frames).
Proof. intros Hf. destruct frames as [|g frames]; cbn in *; by rewrite <- Hf. Qed.

(** As many calls of [recv] as the oldest message has frames return them in order,
    with MORE on every frame but the last, and leave the next message for the
    next call. *)
Lemma recv_frame_by_frame cap o item rest f frames :
  open cap o -> current_recv_frames_buffer o = [] -> queued o = item :: rest -> to_app item = f :: frames ->
  f = (if bool_decide (frames = []) then without_more f else with_more f) ->
  exists o', recv_n (S (length frames)) o = Some (o', mark_more (f :: frames)) /\
    open cap o' /\ current_recv_frames_buffer o' = [] /\ queued o' = rest.
Proof.
  intros Hopen Hb Hq Happ Hf. pose proof (recv_item_spec cap false None o Hopen) as Hspec.
  cbn [recv_n]. unfold Orchestrator.recv_message, Orchestrator.recv_buffered. rewrite Hb.
  destruct (Orchestrator.recv_item_from_main_queue false None o) as [o1 r].
  destruct Hspec as (_ & Ho1 & _ & Hcase). rewrite Hq in Hcase. destruct Hcase as [-> Hq1]. rewrite Happ.
  cbn [Orchestrator.recv_store]. rewrite (recv_n_buffer frames) by done.
  eexists. split; [cbn [mbind option_bind]; by rewrite mark_more_cons|]. split; [by destruct Ho1|done].
Qed.

(** [recv_message] gives up the lock of its buffer while it takes an item: when
    two calls interleave there, the second overwrites the frames the first left,
    which are never delivered. *)
Lemma concurrent_recv_drops cap o item1 item2 rest f1 frames1 f2 frames2 :
  open cap o -> current_recv_frames_buffer o = [] -> queued o = item1 :: item2 :: rest ->
  to_app item1 = f1 :: frames1 -> to_app item2 = f2 :: frames2 ->
  let '(o, a) := Orchestrator.recv_buffered o in
  let '(o, b) := Orchestrator.recv_buffered o in
  let '(o, i1) := Orchestrator.recv_item_from_main_queue false None o in
  let '(o, i2) := Orchestrator.recv_item_from_main_queue false None o in
  a = None /\ b = None /\ i1 = Some (Ok item1) /\ i2 = Some (Ok item2) /\
  let '(o, r1) := Orchestrator.recv_store (to_app item1) o in
  let '(o, r2) := Orchestrator.recv_store (to_app item2) o in
  r1 = f1 /\ r2 = f2 /\ current_recv_frames_buffer o = frames2 /\ queued o = rest.
Proof.
  intros Hopen Hb Hq H1 H2. unfold Orchestrator.recv_buffered. rewrite Hb. cbn iota. rewrite Hb.
  pose proof (recv_item_spec cap false None o Hopen) as Hs1.
  destruct (Orchestrator.recv_item_from_main_queue false None o) as [o1 r1].
  destruct Hs1 as (_ & Ho1 & _ & Hs1). rewrite Hq in Hs1. destruct Hs1 as [-> Hq1].
  pose proof (recv_item_spec cap false None o1 Ho1) as Hs2.
  destruct (Orchestrator.recv_item_from_main_queue false None o1) as [o2 r2].
  destruct Hs2 as (_ & Ho2 & _ & Hs2). rewrite Hq1 in Hs2. destruct Hs2 as [-> Hq2].
  rewrite H1, H2. cbn. by split_and!.
Qed.

End Socket.

(** ** A channel for the witness *)

Record ListChan (A : Type) := mkListChan { lc_items : list A; lc_cap : Z; lc_closed : bool }.
Arguments mkListChan {A} _ _ _.
Arguments lc_items {A} _.
Arguments lc_cap {A} _.
Arguments lc_closed {A} _.

Definition list_fibre : Fibre := {|
  chan := ListChan;
  bounded_async A n := mkListChan [] n false;
  try_send A a c :=
    if lc_closed c then (c, SendClosed)
    else if lc_cap c <=? zlen (lc_items c) then (c, SendFull)
    else (mkListChan (lc_items c ++ [a]) (lc_cap c) false, Sent);
  try_recv A c :=
    match lc_items c with
    | a :: l => (mkListChan l (lc_cap c) (lc_closed c), Received a)
    | [] => (c, if lc_closed c then RecvDisconnected else RecvEmpty)
    end;
  close_sender A c := mkListChan (lc_items c) (lc_cap c) true;
  chan_len A c := zlen (lc_items c);
|}.

Lemma list_fibre_laws : @FibreLaws list_fibre.
Proof.
  refine (@Build_FibreLaws list_fibre (@lc_items) (@lc_cap) (@lc_closed) _ _ _ _ _ _ _ _); cbn.
  - done.
  - intros A a c ->. done.
  - intros A a c -> Hle. by apply Z.leb_le in Hle as ->.
  - intros A a c -> Hlt. apply Z.leb_gt in Hlt as ->. done.
  - intros A a c l ->. done.
  - intros A c ->. done.
  - done.
  - done.
Defined.

