(* ===== verification/Endpoints.v ===== *)
(** What the socket types see of their core: the endpoints and options of
    [CoreState] and the shutdown phase ([core/src/socket/core/{state,mod}.rs]), and
    the connections they write to ([core/src/socket/connection_iface.rs]). *)

From S2P Require Import Prelude Error Message.

Inductive ShutdownPhase := Running | StoppingChildren | Lingering | CleaningPipes | Finished.

#[export] Instance ShutdownPhase_eq_dec : EqDecision ShutdownPhase.
Proof. solve_decision. Defined.

(** The fields of [EndpointInfo] the sockets read; [connection_iface] is the
    handle of the connection. *)
Record EndpointInfo := mkEndpoint {
  connection_iface : Z;
  pipe_ids : option (Z * Z);
  handle_id : Z;
  peer_socket_type : option string;
}.

(** The fields of [CoreState] and [SocketCore] the sockets read.  Durations are in
    milliseconds. *)
Record Core := mkCore {
  phase : ShutdownPhase;
  sndtimeo : option Z;
  rcvtimeo : option Z;
  sndhwm : Z;
  rcvhwm : Z;
  router_mandatory : bool;
  endpoints : gmap string EndpointInfo;
  pipe_read_id_to_endpoint_uri : gmap Z string;
}.

#[export] Instance Core_eta : Eta Core := fun r =>
  mkCore (phase r) (sndtimeo r) (rcvtimeo r) (sndhwm r) (rcvhwm r) (router_mandatory r) (endpoints r)
    (pipe_read_id_to_endpoint_uri r).

Definition is_running (core : Core) : bool := bool_decide (phase core = Running).

(** [trait ISocketConnection]: a message is handed to a connection, when the call
    completes. *)
Class ISocketConnection (W : Type) := {
  send_multipart : Z -> list Msg -> W -> W * result unit;
}.

(** The default method. *)
Definition send_message `{ISocketConnection W} (conn : Z) (msg : Msg) (w : W) : W * result unit :=
  send_multipart conn [msg] w.

(** A recorder: every connection but those refused takes what it is sent. *)
Definition record_conn (refused : list (Z * ZmqError)) : ISocketConnection (list (Z * list Msg)) := {|
  send_multipart conn msgs w :=
    match list_find (fun r => r.1 = conn) refused with
    | Some (_, (_, e)) => (w, Err e)
    | None => (w ++ [(conn, msgs)], Ok tt)
    end;
|}.
