(* ===== verification/Tasks.v ===== *)
(** Concurrent sockets: one task of the application and the handlers of the core
    over a shared state.

    A socket is a [Program]: calls are program counters, and a step runs one to
    the next place where the source gives up its locks or awaits.  Between two
    steps the other tasks and the environment may run.  A call that waits is
    polled and stays where it is.  [tokio::sync::Notify] is a class with the
    documented behaviour for one waiting task as laws. *)

From S2P Require Import Prelude.

(** [Sh]: the shared state, [C]: program counters, [R]: results. *)
Class Program (Sh C R : Type) := {
  (** [elapsed]: whether the timer of a timed wait has expired. *)
  task_step : bool -> C -> Sh -> Sh * (C + R);
  (** What the application and the core call. *)
  user_call : C -> bool;
  handler_call : C -> bool;
  (** Where a call of the application awaits, and may be dropped. *)
  awaiting : C -> bool;
  (** What dropping it there releases. *)
  cancel : C -> Sh -> Sh;
  (** What else changes the state. *)
  environment : Sh -> Sh -> Prop;
}.

Record system (Sh C R : Type) := mkSystem {
  shared : Sh;
  user : option C;
  handlers : list C;
  history : list R;
}.
Arguments mkSystem {Sh C R} _ _ _ _.
Arguments shared {Sh C R} _.
Arguments user {Sh C R} _.
Arguments handlers {Sh C R} _.
Arguments history {Sh C R} _.

Section Tasks.
Context `{Program Sh C R}.
Implicit Types (s : Sh) (c : C) (h : list R).

(** One task of the application, which makes one call after the other and may
    drop one that waits, and any number of handlers. *)
Inductive sys_step : system Sh C R -> system Sh C R -> Prop :=
  | step_start s hs h c :
      user_call c = true -> sys_step (mkSystem s None hs h) (mkSystem s (Some c) hs h)
  | step_user elapsed s c hs h s' c' :
      task_step elapsed c s = (s', inl c') -> sys_step (mkSystem s (Some c) hs h) (mkSystem s' (Some c') hs h)
  | step_return elapsed s c hs h s' out :
      task_step elapsed c s = (s', inr out) -> sys_step (mkSystem s (Some c) hs h) (mkSystem s' None hs (h ++ [out]))
  | step_cancel s c hs h :
      awaiting c = true -> sys_step (mkSystem s (Some c) hs h) (mkSystem (cancel c s) None hs h)
  | step_spawn s u hs h c :
      handler_call c = true -> sys_step (mkSystem s u hs h) (mkSystem s u (c :: hs) h)
  | step_handler elapsed s u hs1 c hs2 h s' c' :
      task_step elapsed c s = (s', inl c') ->
      sys_step (mkSystem s u (hs1 ++ c :: hs2) h) (mkSystem s' u (hs1 ++ c' :: hs2) h)
  | step_handled elapsed s u hs1 c hs2 h s' out :
      task_step elapsed c s = (s', inr out) ->
      sys_step (mkSystem s u (hs1 ++ c :: hs2) h) (mkSystem s' u (hs1 ++ hs2) h)
  | step_environment s u hs h s' :
      environment s s' -> sys_step (mkSystem s u hs h) (mkSystem s' u hs h).

Definition start s : system Sh C R := mkSystem s None [] [].

(** ** Invariants *)

(** An invariant of the state, the call of the application and its results, that
    each kind of step preserves. *)
Record preserved (handles : C -> bool) (I : option C -> Sh -> list R -> Prop) : Prop := {
  pres_handler c : handler_call c = true -> handles c = true;
  pres_start s h c : user_call c = true -> I None s h -> I (Some c) s h;
  pres_user elapsed c s h s' c' : task_step elapsed c s = (s', inl c') -> I (Some c) s h -> I (Some c') s' h;
  pres_return elapsed c s h s' out : task_step elapsed c s = (s', inr out) -> I (Some c) s h -> I None s' (h ++ [out]);
  pres_cancel c s h : awaiting c = true -> I (Some c) s h -> I None (cancel c s) h;
  pres_handles elapsed c s s' c' : task_step elapsed c s = (s', inl c') -> handles c = true -> handles c' = true;
  pres_handled elapsed c s u h s' r : task_step elapsed c s = (s', r) -> handles c = true -> I u s h -> I u s' h;
  pres_environment s s' u h : environment s s' -> I u s h -> I u s' h;
}.

Lemma reachable_invariant handles I s0 sys :
  preserved handles I -> I None s0 [] -> rtc sys_step (start s0) sys -> I (user sys) (shared sys) (history sys).
Proof.
  intros HP H0 Hreach.
  enough (Forall (fun c => handles c = true) (handlers sys) /\ I (user sys) (shared sys) (history sys)) by tauto.
  revert sys Hreach. apply rtc_ind_r; [by split|]. intros sys1 sys2 _ Hstep [Hhs HI].
  destruct Hstep as [s hs h c Hc|el s c hs h s' c' E|el s c hs h s' out E|s c hs h Hc|s u hs h c Hc
    |el s u hs1 c hs2 h s' c' E|el s u hs1 c hs2 h s' out E|s u hs h s' E]; cbn in *.
  - split; [done|]. by eapply pres_start.
  - split; [done|]. by eapply pres_user.
  - split; [done|]. by eapply pres_return.
  - split; [done|]. by eapply pres_cancel.
  - split; [|done]. constructor; [by eapply pres_handler|done].
  - apply Forall_app in Hhs as [Hhs1 Hhs2]. inv Hhs2. split; [|by eapply pres_handled].
    apply Forall_app. split; [done|]. constructor; [by eapply pres_handles|done].
  - apply Forall_app in Hhs as [Hhs1 Hhs2]. inv Hhs2. split; [by apply Forall_app|]. by eapply pres_handled.
  - split; [done|]. by eapply pres_environment.
Qed.

(** ** Runs without interleaving *)

(** At most [fuel] steps of a call. *)
Fixpoint run_call (fuel : nat) c s : Sh * (C + R) :=
  match fuel with
  | O => (s, inl c)
  | S fuel =>
      match task_step false c s with
      | (s, inl c) => run_call fuel c s
      | r => r
      end
  end.

Lemma run_next n c s s' c' : task_step false c s = (s', inl c') -> run_call (S n) c s = run_call n c' s'.
Proof. intros E. cbn [run_call]. by rewrite E. Qed.

Lemma run_end n c s s' r : task_step false c s = (s', inr r) -> run_call (S n) c s = (s', inr r).
Proof. intros E. cbn [run_call]. by rewrite E. Qed.

(** Calls one after the other, each to its end or to where it waits; no call of
    the sockets takes more steps. *)
Fixpoint run_calls (cs : list C) s : Sh * list (C + R) :=
  match cs with
  | [] => (s, [])
  | c :: cs =>
      let '(s, r) := run_call 16 c s in
      let '(s, rs) := run_calls cs s in (s, r :: rs)
  end.

Lemma run_user_reach n c s s' out h :
  run_call n c s = (s', inr out) -> rtc sys_step (mkSystem s (Some c) [] h) (mkSystem s' None [] (h ++ [out])).
Proof.
  revert c s. induction n as [|n IH]; intros c s Hrun; [done|]. cbn [run_call] in Hrun.
  destruct (task_step false c s) as [s1 [c1|o]] eqn:E.
  - eapply rtc_l; [by eapply step_user|]. by apply IH.
  - injection Hrun as <- <-. apply rtc_once. by eapply step_return.
Qed.

Lemma run_handler_reach n c s s' out h :
  run_call n c s = (s', inr out) -> rtc sys_step (mkSystem s None [c] h) (mkSystem s' None [] h).
Proof.
  revert c s. induction n as [|n IH]; intros c s Hrun; [done|]. cbn [run_call] in Hrun.
  destruct (task_step false c s) as [s1 [c1|o]] eqn:E.
  - eapply rtc_l; [by apply (step_handler false _ _ [] c [])|]. by apply IH.
  - injection Hrun as <- <-. apply rtc_once. by apply (step_handled false _ _ [] c [] _ _ o).
Qed.

(** If all calls return: what the application sees of them. *)
Fixpoint returned (cs : list C) (rs : list (C + R)) : option (list R) :=
  match cs, rs with
  | c :: cs, inr out :: rs =>
      if user_call c then h ← returned cs rs; Some (out :: h)
      else if handler_call c then returned cs rs else None
  | [], [] => Some []
  | _, _ => None
  end.

(** Such runs are runs of the system. *)
Lemma run_calls_reach cs s s' rs h h' :
  run_calls cs s = (s', rs) -> returned cs rs = Some h' ->
  rtc sys_step (mkSystem s None [] h) (mkSystem s' None [] (h ++ h')).
Proof.
  revert s rs h h'. induction cs as [|c cs IH]; intros s rs h h' Hrun Hret.
  - injection Hrun as <- <-. injection Hret as <-. by rewrite app_nil_r.
  - cbn [run_calls] in Hrun. destruct (run_call 16 c s) as [s1 r] eqn:E1. destruct (run_calls cs s1) as [s2 rs'] eqn:E2.
    injection Hrun as <- <-. cbn [returned] in Hret. destruct r as [|out]; [done|].
    destruct (user_call c) eqn:Hu; [|destruct (handler_call c) eqn:Hc; [|done]].
    + destruct (returned cs rs') as [h1|] eqn:Hr; [|done]. injection Hret as <-.
      eapply rtc_l; [by apply step_start|]. etransitivity; [by eapply run_user_reach|].
      rewrite (cons_middle out h h1), app_assoc. by eapply IH.
    + eapply rtc_l; [by apply step_spawn|]. etransitivity; [by eapply run_handler_reach|]. by eapply IH.
Qed.

End Tasks.

(** ** [tokio::sync::Notify] *)

Class Notify := {
  notify : Type;
  notify_new : notify;
  notify_one : notify -> notify;
  notify_waiters : notify -> notify;
  (** A poll of the [notified()] future of the waiting task. *)
  poll_notified : notify -> notify * bool;
  drop_notified : notify -> notify;
}.

(** [permit]: a notification is there for the next poll; it outlives the task it
    was meant for.  [notify_waiters] reaches only a task that waits. *)
Class NotifyLaws `{Notify} := {
  permit : notify -> bool;
  waiting : notify -> bool;
  notify_new_spec : permit notify_new = false /\ waiting notify_new = false;
  notify_one_spec n : permit (notify_one n) = true /\ waiting (notify_one n) = waiting n;
  notify_waiters_idle n : waiting n = false -> notify_waiters n = n;
  notify_waiters_wakes n : waiting n = true -> (poll_notified (notify_waiters n)).2 = true;
  poll_notified_permit n : permit n = true ->
    (poll_notified n).2 = true /\ permit (poll_notified n).1 = false /\ waiting (poll_notified n).1 = false;
  poll_notified_none n : permit n = false ->
    (poll_notified n).2 = false /\ permit (poll_notified n).1 = false /\ waiting (poll_notified n).1 = true;
  drop_notified_spec n : permit (drop_notified n) = permit n /\ waiting (drop_notified n) = false;
}.

(** A notifier: the permit and whether a task waits. *)
Definition flag_notify : Notify := {|
  notify := bool * bool;
  notify_new := (false, false);
  notify_one n := (true, n.2);
  notify_waiters n := (n.1 || n.2, n.2);
  poll_notified n := if n.1 then ((false, false), true) else ((false, true), false);
  drop_notified n := (n.1, false);
|}.

Lemma flag_notify_laws : @NotifyLaws flag_notify.
Proof.
  refine (@Build_NotifyLaws flag_notify fst snd _ _ _ _ _ _ _); cbn; try done.
  - intros [p w]; cbn. intros ->. by rewrite orb_false_r.
  - intros [p w]; cbn. intros ->. by rewrite orb_true_r.
  - intros [p w]; cbn. by intros ->.
  - intros [p w]; cbn. by intros ->.
Defined.
