(* ===== verification/Runtime.v ===== *)
(** The runtime of the actors: events, the wait group, the drop guard that every
    actor holds, and the context that waits for all of them
    ([core/src/runtime/{system_events,waitgroup,latch,actor_drop_guard}.rs],
    [core/src/context.rs]).

    Counters are 64-bit atomics.  A method is one step per atomic access it makes,
    with the steps of other tasks in between.  Mailboxes and interfaces are named
    by the handle of their actor.  The event bus is the list of what was published;
    delivery to the subscribers is the business of the actors that read it. *)

From S2P Require Import Prelude Error Tasks.

(** ** Events *)

Inductive ActorType := ASocketCore | AListener | AAcceptLoop | ASession | APipeReader | AConnecter | AContextListener.

#[export] Instance ActorType_eq_dec : EqDecision ActorType.
Proof. solve_decision. Defined.

Inductive ConnectionInteractionModel := ViaSca (sca_mailbox sca_handle_id : Z) | ViaUringFd (fd : Z).

Inductive SystemEvent :=
  | ContextTerminating
  | SocketClosing (socket_id : Z)
  | ActorStarted (handle_id : Z) (actor_type : ActorType) (parent_id : option Z)
  | ActorStopping (handle_id : Z) (actor_type : ActorType) (parent_id : option Z) (endpoint_uri : option string)
      (error : option ZmqError)
  | NewConnectionEstablished (parent_core_id : Z) (endpoint_uri target_endpoint_uri : string)
      (connection_iface : option Z) (interaction_model : ConnectionInteractionModel) (managing_actor_task_id : option Z)
  | PeerIdentityEstablished (parent_core_id connection_identifier : Z) (peer_identity peer_socket_type : option bytes)
  | ConnectionAttemptFailed (parent_core_id : Z) (target_endpoint_uri : string) (error : ZmqError)
  | InprocBindingRequest (target_inproc_name connector_uri : string) (connector_pipe_write_id connector_pipe_read_id : Z)
      (reply_tx : Z)
  | InprocPipePeerClosed (target_inproc_name : string) (closed_by_connector_pipe_read_id : Z).

(** What [broadcast::Receiver::recv] yields of them. *)
Inductive EventResult := Event (event : SystemEvent) | EventsLagged | EventsClosed.

(** ** Wait group *)

Record WaitGroup `{Notify} := mkWaitGroup { count : Z; notify_on_zero : notify }.

Module WaitGroup.
Section WaitGroup.
Context `{Notify}.

Definition new : WaitGroup := mkWaitGroup _ 0 notify_new.

Definition add (delta : Z) (g : WaitGroup) : WaitGroup :=
  if delta =? 0 then g else mkWaitGroup _ (wrapU 64 (count g + delta)) (notify_on_zero g).

Definition done (g : WaitGroup) : WaitGroup * result unit :=
  let old_count := count g in
  let g := mkWaitGroup _ (wrapU 64 (count g - 1)) (notify_on_zero g) in
  if old_count =? 0 then (mkWaitGroup _ (wrapU 64 (count g + 1)) (notify_on_zero g), Panic)
  else if old_count =? 1 then (mkWaitGroup _ (count g) (notify_waiters (notify_on_zero g)), Ok tt)
  else (g, Ok tt).

Definition get_count (g : WaitGroup) : Z := count g.

(** [wait]: the fast path, then a poll of the notification and a look at the
    counter for each turn of the loop. *)
Inductive waiter := WaitFast | WaitNotified | WaitCheck.

Definition wait_step (p : waiter) (g : WaitGroup) : WaitGroup * (waiter + unit) :=
  match p with
  | WaitFast => (g, if count g =? 0 then inr tt else inl WaitNotified)
  | WaitNotified =>
      let '(n, woken) := poll_notified (notify_on_zero g) in
      (mkWaitGroup _ (count g) n, inl (if woken : bool then WaitCheck else WaitNotified))
  | WaitCheck => (g, if count g =? 0 then inr tt else inl WaitNotified)
  end.

End WaitGroup.
End WaitGroup.

(** ** Latch *)

Record CountDownLatch `{Notify} := mkLatch { latch_count : Z; latch_notify : notify }.

Module CountDownLatch.
Section CountDownLatch.
Context `{Notify}.

Definition new (count : Z) : CountDownLatch :=
  mkLatch _ count (if count =? 0 then notify_one notify_new else notify_new).

Definition count_down (l : CountDownLatch) : CountDownLatch :=
  mkLatch _ (wrapU 64 (latch_count l - 1))
    (if latch_count l =? 1 then notify_waiters (latch_notify l) else latch_notify l).

Definition await_step (p : WaitGroup.waiter) (l : CountDownLatch) : CountDownLatch * (WaitGroup.waiter + unit) :=
  match p with
  | WaitGroup.WaitFast | WaitGroup.WaitCheck => (l, if latch_count l =? 0 then inr tt else inl WaitGroup.WaitNotified)
  | WaitGroup.WaitNotified =>
      let '(n, woken) := poll_notified (latch_notify l) in
      (mkLatch _ (latch_count l) n, inl (if woken : bool then WaitGroup.WaitCheck else WaitGroup.WaitNotified))
  end.

Definition get_count (l : CountDownLatch) : Z := latch_count l.

End CountDownLatch.
End CountDownLatch.

(** ** Context *)

Record Context `{Notify} := mkContext {
  next_handle : Z;
  sockets : gmap Z Z;                  (** handle to command mailbox *)
  inproc_registry : gmap string Z;     (** name to [binder_core_id] *)
  event_bus : list SystemEvent;
  actor_wait_group : WaitGroup;
  shutdown_initiated : bool;
  actor_mailbox_capacity : Z;
}.

#[export] Instance Context_eta `{Notify} : Eta Context := fun c =>
  mkContext _ (next_handle c) (sockets c) (inproc_registry c) (event_bus c) (actor_wait_group c)
    (shutdown_initiated c) (actor_mailbox_capacity c).

Abbreviation DEFAULT_MAILBOX_CAPACITY := (512)%Z.

Module Context.
Section Context.
Context `{Notify}.
Implicit Types c : Context.

Definition with_capacity (actor_mailbox_capacity : option Z) : Context :=
  let capacity := default DEFAULT_MAILBOX_CAPACITY ((fun n => Z.max n 1) <$> actor_mailbox_capacity) in
  mkContext _ 1 ∅ ∅ [] WaitGroup.new false capacity.

Definition new : Context := with_capacity None.

Definition fresh_handle c : Context * Z := (c <| next_handle := wrapU 64 (next_handle c + 1) |>, next_handle c).

Definition publish (event : SystemEvent) c : Context := c <| event_bus := event_bus c ++ [event] |>.

Definition register_socket (handle command_sender : Z) c : Context :=
  c <| sockets := <[handle := command_sender]> (sockets c) |>.

Definition unregister_socket (handle : Z) c : Context := c <| sockets := delete handle (sockets c) |>.

Definition get_socket_command_sender (handle : Z) c : option Z := sockets c !! handle.

Definition register_inproc (name : string) (binder_core_id : Z) c : Context * result unit :=
  if bool_decide (is_Some (inproc_registry c !! name)) then (c, Err (AddrInUse (format "inproc://{}" [name])))
  else (c <| inproc_registry := <[name := binder_core_id]> (inproc_registry c) |>, Ok tt).

Definition unregister_inproc (name : string) c : Context := c <| inproc_registry := delete name (inproc_registry c) |>.

Definition lookup_inproc (name : string) c : option Z := inproc_registry c !! name.

Definition shutdown c : Context :=
  if shutdown_initiated c then c else publish ContextTerminating (c <| shutdown_initiated := true |>).

(** [publish_actor_started]: the event, then the counter. *)
Definition publish_started (handle : Z) (ty : ActorType) (parent : option Z) c : Context :=
  publish (ActorStarted handle ty parent) c.
Definition count_started c : Context := c <| actor_wait_group := WaitGroup.add 1 (actor_wait_group c) |>.

(** [publish_actor_stopping]: the event, the look at the counter, and [done]. *)
Definition publish_stopping (handle : Z) (ty : ActorType) (parent : option Z) (uri : option string)
    (error : option ZmqError) c : Context :=
  publish (ActorStopping handle ty parent uri error) c.
Definition may_count_stopping c : bool := 0 <? WaitGroup.get_count (actor_wait_group c).
Definition count_stopping c : Context * result unit :=
  let '(g, r) := WaitGroup.done (actor_wait_group c) in (c <| actor_wait_group := g |>, r).

(** [wait_for_termination]: [elapsed] says whether its ten seconds are over. *)
Definition wait_step (elapsed : bool) (p : WaitGroup.waiter) c : Context * (WaitGroup.waiter + bool) :=
  let '(g, r) := WaitGroup.wait_step p (actor_wait_group c) in
  (c <| actor_wait_group := g |>,
   match r with
   | inr tt => inr true
   | inl p => if elapsed then inr false else inl p
   end).

End Context.
End Context.

(** ** Drop guard *)

Record ActorDropGuard := mkGuard {
  guard_handle : Z;
  guard_type : ActorType;
  guard_parent : option Z;
  guard_uri : option string;
  stopped_normally : bool;
  guard_error : option ZmqError;
}.

#[export] Instance ActorDropGuard_eta : Eta ActorDropGuard := fun g =>
  mkGuard (guard_handle g) (guard_type g) (guard_parent g) (guard_uri g) (stopped_normally g) (guard_error g).

Module ActorDropGuard.

Definition new (handle : Z) (ty : ActorType) (uri : option string) (parent : option Z) : ActorDropGuard :=
  mkGuard handle ty parent uri false None.
Definition set_error (error : ZmqError) (g : ActorDropGuard) : ActorDropGuard := g <| guard_error := Some error |>.
Definition waive (g : ActorDropGuard) : ActorDropGuard := g <| stopped_normally := true |>.

(** The error a guard reports when it is dropped. *)
Definition drop_error (g : ActorDropGuard) : option ZmqError :=
  if stopped_normally g then None
  else match guard_error g with
       | Some e => Some e
       | None => Some (Internal "Actor task cancelled/aborted")
       end.

End ActorDropGuard.

(** ** Actors and the context *)

(** A spawned task creates its guard when it is first polled ([Starting] and
    [Running]), and drops it when it ends. *)
Inductive task :=
  | Spawned (g : ActorDropGuard)
  | Starting (g : ActorDropGuard)
  | Live (g : ActorDropGuard)
  | Dropping (g : ActorDropGuard)
  | Counting (g : ActorDropGuard).

Record actors `{Notify} := mkActors {
  ctx : Context;
  tasks : list task;
  term_call : option (WaitGroup.waiter + bool);
  panicked : bool;
}.

Section Actors.
Context `{NotifyLaws}.

Inductive actors_step : actors -> actors -> Prop :=
  | actor_spawn c ts w p handle ty uri parent :
      zlen ts < 2 ^ 64 - 1 ->
      actors_step (mkActors _ c ts w p) (mkActors _ c (Spawned (ActorDropGuard.new handle ty uri parent) :: ts) w p)
  | actor_publish c ts1 g ts2 w p :
      actors_step (mkActors _ c (ts1 ++ Spawned g :: ts2) w p)
        (mkActors _ (Context.publish_started (guard_handle g) (guard_type g) (guard_parent g) c) (ts1 ++ Starting g :: ts2) w p)
  | actor_count c ts1 g ts2 w p :
      actors_step (mkActors _ c (ts1 ++ Starting g :: ts2) w p) (mkActors _ (Context.count_started c) (ts1 ++ Live g :: ts2) w p)
  | actor_error c ts1 g ts2 w p e :
      actors_step (mkActors _ c (ts1 ++ Live g :: ts2) w p) (mkActors _ c (ts1 ++ Live (ActorDropGuard.set_error e g) :: ts2) w p)
  | actor_waive c ts1 g ts2 w p :
      actors_step (mkActors _ c (ts1 ++ Live g :: ts2) w p) (mkActors _ c (ts1 ++ Live (ActorDropGuard.waive g) :: ts2) w p)
  | actor_drop c ts1 g ts2 w p :
      actors_step (mkActors _ c (ts1 ++ Live g :: ts2) w p)
        (mkActors _ (Context.publish_stopping (guard_handle g) (guard_type g) (guard_parent g) (guard_uri g)
                     (ActorDropGuard.drop_error g) c) (ts1 ++ Dropping g :: ts2) w p)
  | actor_check c ts1 g ts2 w p :
      actors_step (mkActors _ c (ts1 ++ Dropping g :: ts2) w p)
        (mkActors _ c (ts1 ++ (if Context.may_count_stopping c then [Counting g] else []) ++ ts2) w p)
  | actor_done c ts1 g ts2 w p c' r :
      Context.count_stopping c = (c', r) ->
      actors_step (mkActors _ c (ts1 ++ Counting g :: ts2) w p)
        (mkActors _ c' (ts1 ++ ts2) w (p || bool_decide (r <> Ok tt)))
  | actor_shutdown c ts w p : actors_step (mkActors _ c ts w p) (mkActors _ (Context.shutdown c) ts w p)
  | actor_term c ts p : actors_step (mkActors _ c ts None p) (mkActors _ c ts (Some (inl WaitGroup.WaitFast)) p)
  | actor_wait elapsed c ts q p c' r :
      Context.wait_step elapsed q c = (c', r) ->
      actors_step (mkActors _ c ts (Some (inl q)) p) (mkActors _ c' ts (Some r) p).

Definition no_actors : actors := mkActors _ Context.new [] None false.

(** Does the wait group count the task? *)
Definition counted (t : task) : bool := match t with Live _ | Dropping _ | Counting _ => true | _ => false end.
Definition live (ts : list task) : Z := zlen (filter (fun t => counted t = true) ts).

Lemma live_app ts1 ts2 : live (ts1 ++ ts2) = live ts1 + live ts2.
Proof. unfold live. by rewrite filter_app, zlen_app. Qed.

Lemma live_cons t ts : live (t :: ts) = (if counted t then 1 else 0) + live ts.
Proof. unfold live. rewrite filter_cons. destruct (counted t) eqn:E; cbn [decide].
  - rewrite decide_True by done. by rewrite zlen_cons.
  - rewrite decide_False by congruence. done. Qed.

Lemma live_bound ts : 0 <= live ts <= zlen ts.
Proof.
  unfold live. split; [apply zlen_nonneg|]. unfold zlen. pose proof (length_filter (fun t => counted t = true) ts). lia.
Qed.

Definition balanced (a : actors) : Prop :=
  count (actor_wait_group (ctx a)) = live (tasks a) /\ zlen (tasks a) < 2 ^ 64 /\ panicked a = false.

Lemma done_spec g :
  0 < count g < 2 ^ 64 -> (WaitGroup.done g).2 = Ok tt /\ count (WaitGroup.done g).1 = count g - 1.
Proof.
  intros Hc. unfold WaitGroup.done. destruct (Z.eqb_spec (count g) 0); [lia|].
  assert (Hw : wrapU 64 (count g - 1) = count g - 1) by (unfold wrapU; rewrite Z.mod_small; lia).
  destruct (count g =? 1); cbn; by rewrite Hw.
Qed.

Lemma wait_step_count q g : count (WaitGroup.wait_step q g).1 = count g.
Proof. destruct q; cbn; [done| |done]. by destruct (poll_notified _). Qed.

Lemma balanced_step a a' : actors_step a a' -> balanced a -> balanced a'.
Proof.
  intros Hs (Hc & Hl & Hp). destruct Hs; unfold balanced in *; cbn [ctx tasks panicked] in *;
    rewrite ?live_app, ?live_cons, ?zlen_app, ?zlen_cons in *; cbn [counted] in *.
  - split_and!; [lia|lia|done].
  - by split_and!.
  - pose proof (live_bound ts1). pose proof (live_bound ts2). split_and!; [|lia|done].
    cbn. unfold wrapU. rewrite Z.mod_small; lia.
  - by split_and!.
  - by split_and!.
  - by split_and!.
  - unfold Context.may_count_stopping, WaitGroup.get_count.
    pose proof (live_bound ts1). pose proof (live_bound ts2).
    rewrite (proj2 (Z.ltb_lt _ _)) by lia. change (live [Counting g]) with 1. change (zlen [Counting g]) with 1. split_and!; [lia..|done].
  - pose proof (live_bound ts1). pose proof (live_bound ts2).
    destruct (done_spec (actor_wait_group c)) as [Hr Hn]; [lia|].
    match goal with Hd : Context.count_stopping _ = _ |- _ => unfold Context.count_stopping in Hd;
      destruct (WaitGroup.done _) as [g' r']; injection Hd as <- <- end.
    cbn in *. subst r'. split_and!; [lia|lia|]. rewrite bool_decide_false by (by intros []). by rewrite orb_false_r.
  - unfold Context.shutdown. by destruct (shutdown_initiated c).
  - done.
  - match goal with Hd : Context.wait_step _ _ _ = _ |- _ => unfold Context.wait_step in Hd;
      pose proof (wait_step_count q (actor_wait_group c)) as Hw;
      destruct (WaitGroup.wait_step _ _) as [g' r']; injection Hd as <- <- end.
    cbn in *. split_and!; [lia|lia|done].
Qed.

Lemma balanced_reachable a : rtc actors_step no_actors a -> balanced a.
Proof.
  intros Hr. refine (rtc_invariant actors_step balanced _ _ Hr _ _); [done|].
  intros a1 a2 Hb Hs. by eapply balanced_step.
Qed.

Lemma live_none ts : live ts = 0 <-> Forall (fun t => counted t = false) ts.
Proof.
  induction ts as [|t ts IH]; [done|]. rewrite live_cons, Forall_cons. pose proof (live_bound ts).
  destruct (counted t); [split; [lia|by intros [? _]]|]. rewrite <- IH. split; [intros ?; split; [done|lia]|intros []; lia].
Qed.

End Actors.

(** ** Properties *)

(** C27: [Context::term] waits for every actor.  However actors are spawned, start,
    fail and stop, and other tasks shut the context down: the counter of the wait
    group is the number of actors that hold a guard, no [done] panics, and when the
    wait ends before its ten seconds are over no actor holds a guard any more;
    conversely, with none left, a wait that looks at the counter ends. *)
Theorem term_waits_for_actors (HN : Notify) (HL : NotifyLaws) (a : actors) (elapsed : bool) (q : WaitGroup.waiter) :
  rtc actors_step no_actors a -> term_call a = Some (inl q) ->
  panicked a = false /\
  WaitGroup.get_count (actor_wait_group (ctx a)) = live (tasks a) /\
  ((Context.wait_step elapsed q (ctx a)).2 = inr true -> Forall (fun t => counted t = false) (tasks a)) /\
  (Forall (fun t => counted t = false) (tasks a) -> q <> WaitGroup.WaitNotified ->
   (Context.wait_step elapsed q (ctx a)).2 = inr true).
Proof.
  intros (Hc & Hl & Hp)%balanced_reachable _. split_and!; [done..| |].
  - rewrite <- live_none, <- Hc. unfold Context.wait_step.
    destruct q; cbn; [|destruct (poll_notified _) as [? []]; by destruct elapsed|];
      destruct (Z.eqb_spec (count (actor_wait_group (ctx a))) 0); [done|by destruct elapsed|done|by destruct elapsed].
  - rewrite <- live_none, <- Hc. intros Hz Hq. unfold Context.wait_step. destruct q; cbn; [|done|]; by rewrite Hz.
Qed.

Section Runs.
#[local] Existing Instance flag_notify.
#[local] Existing Instance flag_notify_laws.

Definition one_guard : ActorDropGuard := ActorDropGuard.new 7 ASession None (Some 1).

(** One actor runs when the wait looks at the counter. *)
Definition one_live : actors :=
  mkActors _ (Context.count_started (Context.publish_started 7 ASession (Some 1) Context.new)) [Live one_guard] None false.

Lemma one_live_reachable : rtc actors_step no_actors one_live.
Proof.
  eapply rtc_l; [apply (actor_spawn _ _ _ _ 7 ASession None (Some 1)); done|].
  eapply rtc_l; [apply (actor_publish _ [] _ [])|]. eapply rtc_l; [apply (actor_count _ [] _ [])|]. apply rtc_refl.
Qed.

Lemma term_waits_for_actors_witness :
  let a := mkActors _ (ctx one_live) [Live one_guard] (Some (inl WaitGroup.WaitFast)) false in
  rtc actors_step no_actors a /\ WaitGroup.get_count (actor_wait_group (ctx a)) = 1.
Proof.
  assert (Hr : rtc actors_step no_actors (mkActors _ (ctx one_live) [Live one_guard] (Some (inl WaitGroup.WaitFast)) false)).
  { eapply rtc_r; [apply one_live_reachable|]. apply actor_term. }
  split; [exact Hr|].
  destruct (term_waits_for_actors _ _ _ false WaitGroup.WaitFast Hr eq_refl) as (_ & Hc & _). exact Hc.
Defined.

(** A lost wakeup: the actor stops after the wait has looked at the counter and
    before it listens; [notify_waiters] reaches nobody, and the wait sits out its
    ten seconds with no actor left. *)
Lemma term_lost_wakeup :
  exists a, rtc actors_step no_actors a /\ tasks a = [] /\ term_call a = Some (inl WaitGroup.WaitNotified) /\
    count (actor_wait_group (ctx a)) = 0 /\
    let '(c, r) := Context.wait_step false WaitGroup.WaitNotified (ctx a) in
    r = inl WaitGroup.WaitNotified /\ Context.wait_step false WaitGroup.WaitNotified c = (c, inl WaitGroup.WaitNotified) /\
    (Context.wait_step true WaitGroup.WaitNotified c).2 = inr false.
Proof.
  eexists. split.
  - eapply (transitivity (R := rtc actors_step)); [apply one_live_reachable|].
    eapply rtc_l; [apply actor_term|]. eapply rtc_l; [apply (actor_wait false); reflexivity|].
    eapply rtc_l; [apply (actor_drop _ [] _ [])|]. eapply rtc_l; [apply (actor_check _ [] _ [])|].
    eapply rtc_l; [apply (actor_done _ [] _ []); reflexivity|]. apply rtc_refl.
  - vm_compute. done.
Qed.

(** A task that was spawned and not yet polled is not waited for. *)
Lemma term_misses_spawned :
  exists a, rtc actors_step no_actors a /\ tasks a = [Spawned one_guard] /\ term_call a = Some (inr true).
Proof.
  eexists. split.
  - eapply rtc_l; [apply (actor_spawn _ _ _ _ 7 ASession None (Some 1)); done|].
    eapply rtc_l; [apply actor_term|]. eapply rtc_l; [apply (actor_wait false); reflexivity|]. apply rtc_refl.
  - done.
Qed.

End Runs.
