(* ===== verification/Session.v ===== *)
(** The session of a connection ([core/src/sessionx/{actor,pipe_manager,regulator,states,iface}.rs]):
    the actor that runs the protocol handler, feeds the socket and takes its
    messages.

    The actor is a procedure over its state and the world of the handler.  One turn
    of its loop is [iteration].  [select!] is given what the other channels hold
    when it is decided ([Ready]): the future of the network is polled on what has
    arrived until then, unless an arm before it is ready at once; when it has not
    ended it is dropped with the state it has reached, and the first arm that is
    ready, in the order of the source, runs to its end.  The socket is a class with
    the one operation the actor calls; the channel to the actor is the crate fibre;
    the throttle, which at most yields to other tasks, is left out. *)

From S2P Require Import Prelude Error Utf8 Message Codec Command Framer Greeting Mechanism Plain Options.
From S2P Require Import Curve Noise Security Io Handler Handshake Queue Tasks Runtime.

(** ** Parts *)

Record CorePipeManagerXState `{Fibre} := mkPipes {
  rx_from_core : option (chan (list Msg));
  core_pipe_read_id_for_incoming_routing : option Z;
  is_attached : bool;
}.

Module CorePipeManagerX.
Section CorePipeManagerX.
Context `{Fibre}.

Definition new : CorePipeManagerXState := mkPipes _ None None false.

Definition attach (rx : chan (list Msg)) (routing : Z) (p : CorePipeManagerXState) : CorePipeManagerXState :=
  if is_attached p then p else mkPipes _ (Some rx) (Some routing) true.

(** A poll: [None] as long as it waits. *)
Definition recv_from_core (p : CorePipeManagerXState) : CorePipeManagerXState * option (option (list Msg)) :=
  match rx_from_core p with
  | Some rx =>
      let '(rx, r) := try_recv rx in
      (mkPipes _ (Some rx) (core_pipe_read_id_for_incoming_routing p) (is_attached p),
       match r with Received msgs => Some (Some msgs) | RecvEmpty => None | RecvDisconnected => Some None end)
  | None => (p, Some None)
  end.

Definition detach_and_clear_pipes (p : CorePipeManagerXState) : CorePipeManagerXState := mkPipes _ None None false.

End CorePipeManagerX.
End CorePipeManagerX.

Record SessionRegulator := mkRegulator { started_at : Z; min_lifespan : Duration }.

Module SessionRegulator.

Definition new (min_lifespan : Duration) (now : Z) : SessionRegulator := mkRegulator now min_lifespan.

(** How long a session that ends [now] is kept waiting. *)
Definition enforce_min_lifespan (now : Z) (r : SessionRegulator) : Duration :=
  let uptime := Z.max 0 (now - started_at r) in
  if uptime <? min_lifespan r then min_lifespan r - uptime else 0.

End SessionRegulator.

(** [tokio::time::interval_at] with [MissedTickBehavior::Delay]: the time of the
    next tick after one that was due at the first time and seen at the second. *)
Class Interval := next_tick : Z -> Z -> Duration -> Z.

(** What the actor calls of its socket ([ISocket]); the call returns. *)
Class SocketLogic (L : Type) := logic_handle_pipe_event : Z -> Msg -> L -> L * result unit.

(** Events for the monitor; durations are in nanoseconds. *)
Inductive SocketEvent :=
  | Listening (endpoint : string)
  | BindFailed (endpoint error_msg : string)
  | Accepted (endpoint peer_addr : string)
  | AcceptFailed (endpoint error_msg : string)
  | Connected (endpoint peer_addr : string)
  | ConnectDelayed (endpoint error_msg : string)
  | ConnectRetried (endpoint : string) (interval : Duration)
  | ConnectFailed (endpoint error_msg : string)
  | Closed (endpoint : string)
  | Disconnected (endpoint : string)
  | HandshakeFailed (endpoint error_msg : string)
  | HandshakeSucceeded (endpoint : string).

(** Commands, without those of the io-uring feature.  The sending end of a reply or
    of a monitor is a name. *)
Inductive Command `{Fibre} :=
  | UserBind (endpoint : string) (reply_tx : Z)
  | UserConnect (endpoint : string) (reply_tx : Z)
  | UserDisconnect (endpoint : string) (reply_tx : Z)
  | UserUnbind (endpoint : string) (reply_tx : Z)
  | UserSend (msg : Msg)
  | UserRecv (reply_tx : Z)
  | UserSetOpt (option : Z) (value : bytes) (reply_tx : Z)
  | UserGetOpt (option : Z) (reply_tx : Z)
  | UserMonitor (monitor_tx reply_tx : Z)
  | UserClose (reply_tx : Z)
  | Stop
  | PipeMessageReceived (pipe_id : Z) (msg : Msg)
  | PipeClosedByPeer (pipe_id : Z)
  | AttachPipe (rx_from_core tx_to_core : chan Msg) (pipe_read_id pipe_write_id : Z)
  | ScaInitializePipes (sca_handle_id : Z) (rx_from_core : chan (list Msg)) (core_pipe_read_id_for_incoming_routing : Z).

(** ** The actor *)

Record SessionConnectionActorX `{Fibre} `{Snow} (L : Type) := mkSession {
  handle : Z;
  current_phase : ConnectionPhaseX;
  parent_socket_id : Z;
  connected_endpoint_uri : string;
  monitor_tx : bool;
  zmtp_handler : ZmtpProtocolHandlerX;
  core_pipe_manager : CorePipeManagerXState;
  pending_peer_identity_from_handshake : option bytes;
  error_for_drop_guard : option ZmqError;
  ping_check_timer : option (Z * Duration);
  handshake_deadline : option Z;
  session_regulator : SessionRegulator;
  socket_logic : L;
  (** What it has told others: events, the monitor, and frames to the socket. *)
  published : list SystemEvent;
  monitored : list SocketEvent;
  delivered : list Msg;
  (** Not part of the actor: the messages it has taken from the core. *)
  transmitted : list (list Msg);
}.
Arguments mkSession {_ _ L} _ _ _ _ _ _ _ _ _ _ _ _ _ _ _ _ _.
Arguments handle {_ _ L} _.
Arguments current_phase {_ _ L} _.
Arguments parent_socket_id {_ _ L} _.
Arguments connected_endpoint_uri {_ _ L} _.
Arguments monitor_tx {_ _ L} _.
Arguments zmtp_handler {_ _ L} _.
Arguments core_pipe_manager {_ _ L} _.
Arguments pending_peer_identity_from_handshake {_ _ L} _.
Arguments error_for_drop_guard {_ _ L} _.
Arguments ping_check_timer {_ _ L} _.
Arguments handshake_deadline {_ _ L} _.
Arguments session_regulator {_ _ L} _.
Arguments socket_logic {_ _ L} _.
Arguments published {_ _ L} _.
Arguments monitored {_ _ L} _.
Arguments delivered {_ _ L} _.
Arguments transmitted {_ _ L} _.

#[export] Instance session_eta `{Fibre} `{Snow} {L} : Eta (SessionConnectionActorX L) := fun s =>
  mkSession (handle s) (current_phase s) (parent_socket_id s) (connected_endpoint_uri s) (monitor_tx s) (zmtp_handler s)
    (core_pipe_manager s) (pending_peer_identity_from_handshake s) (error_for_drop_guard s) (ping_check_timer s)
    (handshake_deadline s) (session_regulator s) (socket_logic s) (published s) (monitored s) (delivered s)
    (transmitted s).

(** What the other channels hold when [select!] is decided: a command ([Some None]
    when the mailbox is closed), an event or the error of the bus.  [r_polled]:
    the network was polled before; [r_now]: the time. *)
Inductive BusError := Lagged (n : Z) | BusClosed.

Record Ready `{Fibre} := mkReady {
  r_command : option (option Command);
  r_event : option (SystemEvent + BusError);
  r_polled : bool;
  r_now : Z;
}.

Inductive NetworkActionX := HandshakeProgress (p : ZmtpHandshakeProgressX) | DataFrame (m : option Msg).

Module Session.
Section Session.
Context `{HF : Fibre} `{HD : Dryoc} `{HS : Snow} {L : Type} `{HL : SocketLogic L} `{HI : Interval}.
Variable ephemeral : bytes.
Abbreviation session := (SessionConnectionActorX L).
Abbreviation M := (proc session).

(** [create_and_spawn], up to the spawn. *)
Definition create (handle parent_socket_id : Z) (config : ZmtpEngineConfig) (is_server : bool) (uri : string) (monitor : bool)
    (logic : L) (now : Z) : session :=
  let timer :=
    match cfg_heartbeat_ivl config with
    | Some ivl => if ivl =? 0 then None else Some (now + ivl, ivl)
    | None => None
    end in
  mkSession handle PHandshakeInProgress parent_socket_id uri monitor (Handler.new config is_server now)
    CorePipeManagerX.new None None timer ((fun d => now + d) <$> cfg_handshake_timeout config)
    (SessionRegulator.new (ms 1000) now) logic [] [] [] [].

Definition on_handler {A} (m : proc ZmtpProtocolHandlerX A) : M A := fun s w =>
  let '(r, h, w) := m (zmtp_handler s) w in (r, s <| zmtp_handler := h |>, w).

(** [match m.await]: an error is a value. *)
Definition attempt {A} (m : M A) : M (result A) := fun s w =>
  match m s w with
  | (Done a, s, w) => (Done (Ok a), s, w)
  | (Failed e, s, w) => (Done (Err e), s, w)
  | (Crashed, s, w) => (Crashed, s, w)
  | (Pending, s, w) => (Pending, s, w)
  end.

Definition or_error (e : ZmqError) (s : session) : session :=
  match error_for_drop_guard s with
  | Some _ => s
  | None => s <| error_for_drop_guard := Some e |>
  end.

Definition transition_to_shutdown_stream (accompanying_error : option ZmqError) : M unit :=
  modify (fun s =>
    match current_phase s with
    | PShuttingDownStream | PTerminating => s
    | _ =>
        let s := match accompanying_error with Some e => or_error e s | None => s end in
        s <| current_phase := PShuttingDownStream |>
    end).

Definition set_fatal_error (error : ZmqError) : M unit :=
  modify (or_error error);;
  _ ← attempt (on_handler Handler.initiate_stream_shutdown);
  transition_to_shutdown_stream None.

Definition perform_final_cleanup_actions : M unit :=
  s ← get;
  (if h_stream (zmtp_handler s) then _ ← attempt (on_handler Handler.initiate_stream_shutdown); mret tt else mret tt);;
  modify (fun s => s <| core_pipe_manager := CorePipeManagerX.detach_and_clear_pipes (core_pipe_manager s) |>
                     <| current_phase := PTerminating |>).

Definition perform_graceful_shutdown : M unit :=
  r ← attempt (on_handler Handler.initiate_stream_shutdown);
  match r with Err e => modify (or_error e) | _ => mret tt end;;
  perform_final_cleanup_actions.

Definition check_and_transition_to_operational : M unit :=
  s ← get;
  if bool_decide (current_phase s = PWaitingForPipes) && Handler.is_handshake_complete (zmtp_handler s)
     && is_attached (core_pipe_manager s) then
    let final_peer_identity := pending_peer_identity_from_handshake s in
    let peer_type := peer_socket_type (handshake_state (zmtp_handler s)) in
    modify (fun s => s <| current_phase := POperational |> <| pending_peer_identity_from_handshake := None |>);;
    match core_pipe_read_id_for_incoming_routing (core_pipe_manager s) with
    | Some routing_id =>
        modify (fun s => s <| published := published s ++
          [PeerIdentityEstablished (parent_socket_id s) routing_id final_peer_identity peer_type] |>);;
        modify (fun s => if monitor_tx s
                         then s <| monitored := monitored s ++ [HandshakeSucceeded (connected_endpoint_uri s)] |> else s)
    | None => set_fatal_error (Internal "Pipe routing ID missing post-attach")
    end
  else mret tt.

Definition process_command (command : Command) : M unit :=
  match command with
  | ScaInitializePipes sca_handle_id rx routing =>
      s ← get;
      if negb (handle s =? sca_handle_id) then mret tt
      else if is_attached (core_pipe_manager s) then mret tt
      else if bool_decide (current_phase s = PShuttingDownStream \/ current_phase s = PTerminating) then mret tt
      else
        modify (fun s => s <| core_pipe_manager := CorePipeManagerX.attach rx routing (core_pipe_manager s) |>);;
        if bool_decide (current_phase s = PWaitingForPipes) then check_and_transition_to_operational
        else if bool_decide (current_phase s = PHandshakeInProgress) && Handler.is_handshake_complete (zmtp_handler s) then
          modify (fun s => s <| current_phase := PWaitingForPipes |>);; check_and_transition_to_operational
        else mret tt
  | Stop => transition_to_shutdown_stream None
  | _ => mret tt
  end.

Definition process_system_event (event : SystemEvent) : M unit :=
  match event with
  | ContextTerminating => transition_to_shutdown_stream (Some (Internal "Context terminating"))
  | SocketClosing socket_id =>
      s ← get;
      if socket_id =? parent_socket_id s then transition_to_shutdown_stream (Some (Internal "Parent socket closing"))
      else mret tt
  | _ => mret tt
  end.

Definition finish_handshake : M unit :=
  s ← get;
  if Handler.is_handshake_complete (zmtp_handler s) then
    modify (fun s => s <| current_phase := PWaitingForPipes |> <| handshake_deadline := None |>);;
    check_and_transition_to_operational
  else mret tt.

Definition handle_handshake_progression (progress : ZmtpHandshakeProgressX) : M unit :=
  s ← get;
  if negb (bool_decide (current_phase s = PHandshakeInProgress)) then mret tt
  else match progress with
       | InProgress => finish_handshake
       | IdentityReady blob =>
           modify (fun s => s <| pending_peer_identity_from_handshake := Some blob |>);; finish_handshake
       | HandshakeCompleteX => finish_handshake
       | ProtocolErrorX text => set_fatal_error (ProtocolViolation text)
       | FatalErrorX e => set_fatal_error e
       end.

Definition handle_incoming_from_network (msg : Msg) : M unit :=
  s ← get;
  pipe_read_id ← lift (match core_pipe_read_id_for_incoming_routing (core_pipe_manager s) with Some id => Ok id | None => Panic end);
  if Msg.is_command msg then
    if Handler.is_v2_session (zmtp_handler s) then
      set_fatal_error (ProtocolViolation "received COMMAND-flagged frame on a ZMTP/2.0 session")
    else
      let '(h, r) := Handler.process_heartbeat_command msg (zmtp_handler s) in
      modify (fun s => s <| zmtp_handler := h |>);;
      match r with
      | Ok (Some pong_reply) =>
          r ← attempt (on_handler (Handler.write_data_msg pong_reply));
          match r with Err e => set_fatal_error e | _ => mret tt end
      | Ok None => mret tt
      | Err e => set_fatal_error e
      | Panic => lift Panic
      end
  else
    let '(l, r) := logic_handle_pipe_event pipe_read_id msg (socket_logic s) in
    modify (fun s => s <| socket_logic := l |> <| delivered := delivered s ++ [msg] |>);;
    match r with
    | Ok _ => mret tt
    | Err e => set_fatal_error e
    | Panic => lift Panic
    end.

(** ** The loop *)

Definition do_network_read_work (phase : ConnectionPhaseX) : proc ZmtpProtocolHandlerX NetworkActionX :=
  match phase with
  | PHandshakeInProgress => p ← Handshake.advance_handshake_step ephemeral; mret (HandshakeProgress p)
  | POperational => m ← Handler.read_data_frame; mret (DataFrame m)
  | _ => fun h w => (Pending, h, w)
  end.

(** [sleep_until]. *)
Definition due (deadline : option Z) (t : Z) : bool := match deadline with Some d => d <=? t | None => false end.

Definition pong_deadline (s : session) : option Z :=
  if bool_decide (current_phase s = POperational) && waiting_for_pong (heartbeat_state (zmtp_handler s))
  then Heartbeat.get_pong_deadline (heartbeat_state (zmtp_handler s)) else None.

Definition handshake_timeout (s : session) : option Z :=
  if bool_decide (current_phase s = PHandshakeInProgress) then handshake_deadline s else None.

Definition ping_tick (s : session) : option Z :=
  if bool_decide (current_phase s = POperational) then fst <$> ping_check_timer s else None.

(** The arms before the network, in their order. *)
Definition early_arm (r : Ready) (s : session) (t : Z) : option (M unit) :=
  match r_command r with
  | Some (Some command) => Some (process_command command)
  | Some None => Some (transition_to_shutdown_stream None)
  | None =>
  match r_event r with
  | Some (inl event) => Some (process_system_event event)
  | Some (inr (Lagged n)) => Some (set_fatal_error (Internal (format "System event lagged by {}" [pretty n])))
  | Some (inr BusClosed) => Some (set_fatal_error (Internal "System event channel closed"))
  | None =>
  if due (handshake_timeout s) t then Some (set_fatal_error Timeout)
  else if due (ping_tick s) t then
    Some (modify (fun s => s <| ping_check_timer :=
            (fun '(tick, period) => (next_tick tick t period, period)) <$> ping_check_timer s |>);;
          r ← attempt (on_handler Handler.try_send_ping);
          match r with Err e => set_fatal_error e | _ => mret tt end)
  else if due (pong_deadline s) t then
    Some (s ← get; t ← now;
          if Heartbeat.has_pong_timed_out t (heartbeat_state (zmtp_handler s)) then set_fatal_error Timeout else mret tt)
  else None
  end end.

Definition network_arm (action : result NetworkActionX) : M unit :=
  match action with
  | Ok (HandshakeProgress progress) => handle_handshake_progression progress
  | Ok (DataFrame (Some msg)) => handle_incoming_from_network msg
  | Ok (DataFrame None) => mret tt
  | Err ConnectionClosed => transition_to_shutdown_stream (Some ConnectionClosed)
  | Err e => set_fatal_error e
  | Panic => lift Panic
  end.

(** The last arm; when it waits too, the loop waits. *)
Definition core_arm : M unit := fun s w =>
  if bool_decide (current_phase s = POperational) && is_attached (core_pipe_manager s) then
    let '(p, r) := CorePipeManagerX.recv_from_core (core_pipe_manager s) in
    let s := s <| core_pipe_manager := p |> in
    match r with
    | None => (Pending, s, w)
    | Some (Some msgs) =>
        (r ← attempt (on_handler (Handler.write_data_msgs msgs));
         match r with Err e => set_fatal_error e | _ => mret tt end) (s <| transmitted := transmitted s ++ [msgs] |>) w
    | Some None => transition_to_shutdown_stream (Some ConnectionClosed) s w
    end
  else (Pending, s, w).

Definition network_enabled (s : session) : bool :=
  bool_decide (current_phase s = PHandshakeInProgress \/ current_phase s = POperational) && h_stream (zmtp_handler s).

Definition poll_network : M NetworkActionX := fun s w =>
  if network_enabled s then on_handler (do_network_read_work (current_phase s)) s w else (Pending, s, w).

Definition select (r : Ready) : M unit := fun s w =>
  match (if r_polled r then None else early_arm r s (w_now w)) with
  | Some arm => arm s w
  | None =>
      match poll_network s w with
      | (Done action, s, w) => network_arm (Ok action) s w
      | (Failed e, s, w) => network_arm (Err e) s w
      | (Crashed, s, w) => (Crashed, s, w)
      | (Pending, s, w) =>
          let w := w <| w_now := Z.max (w_now w) (r_now r) |> in
          match early_arm r s (w_now w) with
          | Some arm => arm s w
          | None => core_arm s w
          end
      end
  end.

Definition iteration (r : Ready) : M unit := fun s w =>
  match current_phase s with
  | PTerminating => (Done tt, s, w)
  | PShuttingDownStream => perform_graceful_shutdown s w
  | _ => select r s w
  end.

(** After the loop: the guard that is dropped, and the penalty. *)
Definition drop_guard (s : session) : ActorDropGuard :=
  let guard := ActorDropGuard.new (handle s) ASession (Some (connected_endpoint_uri s)) (Some (parent_socket_id s)) in
  match error_for_drop_guard s with
  | Some e => ActorDropGuard.set_error e guard
  | None => ActorDropGuard.waive guard
  end.

Definition penalty (now : Z) (s : session) : Duration :=
  match error_for_drop_guard s with
  | Some _ => SessionRegulator.enforce_min_lifespan now (session_regulator s)
  | None => 0
  end.

End Session.
End Session.

(** ** The interface of the connection *)

(** [ScaConnectionIface]: the sending end of the channel of an actor; [None] when
    the actor has dropped its end.  The timeout is in milliseconds; [elapsed] says
    whether it has passed while the channel was full. *)
Module ScaConnectionIface.
Section ScaConnectionIface.
Context `{Fibre}.

Definition send_multipart (elapsed : bool) (sndtimeo : option Z) (msgs : list Msg) (pipe : option (chan (list Msg))) :
    option (chan (list Msg)) * option (result unit) :=
  match pipe with
  | None => (None, Some (Err ConnectionClosed))
  | Some c =>
      let '(c, r) := try_send msgs c in
      (Some c,
       match r with
       | Sent => Some (Ok tt)
       | SendClosed => Some (Err ConnectionClosed)
       | SendFull =>
           if bool_decide (sndtimeo = Some 0) || elapsed then Some (Err ResourceLimitReached) else None
       end)
  end.

Definition send_message (elapsed : bool) (sndtimeo : option Z) (msg : Msg) (pipe : option (chan (list Msg))) :
    option (chan (list Msg)) * option (result unit) :=
  send_multipart elapsed sndtimeo [msg] pipe.

End ScaConnectionIface.
End ScaConnectionIface.
