(* ===== verification/SessionSafety.v ===== *)
(** What a session guarantees, whatever the network, the core, the socket and the
    other actors do.

    A [session_step] is one turn of the loop of the actor in an arbitrary world, with
    arbitrary commands and events at hand; between two turns other tasks put
    messages into its channel. *)

From S2P Require Import Prelude Error Utf8 Message Codec Command Framer Greeting Mechanism Plain Options.
From S2P Require Import Curve Noise Security Io Handler Handshake HandshakeSafety Queue Tasks Runtime Session.

#[local] Set Warnings "-clear-no-such-hyp".

Section SessionSafety.
Context `{HF : Fibre} `{HD : Dryoc} `{HS : Snow} {L : Type} `{HL : SocketLogic L} `{HI : Interval}.
Variable e : bytes.
Abbreviation session := (SessionConnectionActorX L).
Abbreviation handler := ZmtpProtocolHandlerX.

(** What the data phase does to the handler. *)
Inductive data_step : handler -> handler -> Prop :=
  | data_read h w r h' w' : Handler.read_data_frame h w = (r, h', w') -> data_step h h'
  | data_write h msgs w r h' w' : Handler.write_data_msgs msgs h w = (r, h', w') -> data_step h h'
  | data_ping h w r h' w' : Handler.try_send_ping h w = (r, h', w') -> data_step h h'
  | data_heartbeat h msg h' r : Handler.process_heartbeat_command msg h = (h', r) -> data_step h h'.

(** Other tasks put messages into the channel. *)
Definition fed (s s' : session) : Prop :=
  exists rx rx', rx_from_core (core_pipe_manager s) = Some rx /\
    s' = s <| core_pipe_manager := mkPipes _ (Some rx') (core_pipe_read_id_for_incoming_routing (core_pipe_manager s))
                (is_attached (core_pipe_manager s)) |>.

Inductive session_step : session -> session -> Prop :=
  | step_turn r s w s' w' : Session.iteration e r s w = (Done tt, s', w') -> session_step s s'
  | step_fed s s' : fed s s' -> session_step s s'.

(** ** Running the procedures *)

Lemma shutdown_done (h : handler) w :
  exists h' corks', Handler.initiate_stream_shutdown h w = (Done tt, h', w <| w_corks := corks' |>) /\ h_stream h' = false.
Proof.
  unfold Handler.initiate_stream_shutdown, mbind, proc_bind. cbn [modify get].
  assert (Hid : w = w <| w_corks := w_corks w |>) by by destruct w.
  destruct (h_stream _).
  - destruct (cork_info _) as [ci|] eqn:Eci; [|eexists _, _; split; [cbn; rewrite <- Hid; reflexivity|done]].
    destruct (is_corked ci); [|eexists _, _; split; [cbn; rewrite <- Hid; reflexivity|done]].
    unfold Handler.apply_cork_state. rewrite Eci.
    destruct (eqb _ _); [eexists _, _; split; [cbn; rewrite <- Hid; reflexivity|done]|].
    eexists _, (tail (w_corks w)). split; [cbn; reflexivity|done].
  - eexists _, _. split; [cbn; rewrite <- Hid; reflexivity|done].
Qed.

(** The state a session goes to when it shuts down. *)
Definition closing (error : option ZmqError) (s : session) : session :=
  match current_phase s with
  | PShuttingDownStream | PTerminating => s
  | _ => (match error with Some e => Session.or_error e s | None => s end) <| current_phase := PShuttingDownStream |>
  end.

Lemma transition_eq error (s : session) w :
  Session.transition_to_shutdown_stream error s w = (Done tt, closing error s, w).
Proof. done. Qed.

Lemma fatal_eq error (s : session) w :
  exists h' corks', Session.set_fatal_error error s w =
    (Done tt, closing None ((Session.or_error error s) <| zmtp_handler := h' |>), w <| w_corks := corks' |>) /\
    h_stream h' = false.
Proof.
  unfold Session.set_fatal_error, mbind, proc_bind. cbn [modify]. unfold Session.attempt, Session.on_handler.
  assert (Hh : zmtp_handler (Session.or_error error s) = zmtp_handler s)
    by (unfold Session.or_error; by destruct (error_for_drop_guard s)).
  rewrite Hh. destruct (shutdown_done (zmtp_handler s) w) as (h' & corks' & -> & Hst).
  exists h', corks'. by rewrite transition_eq.
Qed.

Lemma graceful_eq (s : session) w :
  exists h' corks', Session.perform_graceful_shutdown s w =
    (Done tt, s <| zmtp_handler := h' |> <| core_pipe_manager := CorePipeManagerX.new |> <| current_phase := PTerminating |>,
     w <| w_corks := corks' |>) /\ h_stream h' = false.
Proof.
  unfold Session.perform_graceful_shutdown, Session.perform_final_cleanup_actions, mbind, proc_bind.
  unfold Session.attempt, Session.on_handler.
  destruct (shutdown_done (zmtp_handler s) w) as (h' & corks' & -> & Hst). cbn [get mret proc_ret].
  exists h', corks'. cbn. by rewrite Hst.
Qed.

(** ** The invariant *)

Section Invariant.
Variable cfg : ZmtpEngineConfig.
Variable is_server : bool.
Variable t0 : Z.

(** A handler that has completed the handshake of this connection. *)
Definition established (h : handler) : Prop :=
  rtc (handshake_step e) (Handler.new cfg is_server t0) h /\ Handler.is_handshake_complete h = true.

Definition quiet (s : session) : Prop := published s = [] /\ delivered s = [].

Definition announced (s : session) (routing : Z) : Prop :=
  exists h0 identity, established h0 /\
    published s = [PeerIdentityEstablished (parent_socket_id s) routing identity (peer_socket_type (handshake_state h0))].

Definition session_inv (s : session) : Prop :=
  (is_attached (core_pipe_manager s) = true -> is_Some (core_pipe_read_id_for_incoming_routing (core_pipe_manager s))) /\
  match current_phase s with
  | PInitial => False
  | PHandshakeInProgress => quiet s /\ rtc (handshake_step e) (Handler.new cfg is_server t0) (zmtp_handler s)
  | PWaitingForPipes => quiet s /\ established (zmtp_handler s)
  | POperational =>
      is_attached (core_pipe_manager s) = true /\
      (exists routing, core_pipe_read_id_for_incoming_routing (core_pipe_manager s) = Some routing /\ announced s routing) /\
      exists h0, established h0 /\ rtc data_step h0 (zmtp_handler s)
  | PShuttingDownStream => quiet s \/ exists routing, announced s routing
  | PTerminating => (quiet s \/ exists routing, announced s routing) /\ h_stream (zmtp_handler s) = false /\
                    core_pipe_manager s = CorePipeManagerX.new
  end.

Definition active (s : session) : Prop := current_phase s <> PShuttingDownStream /\ current_phase s <> PTerminating.

(** What survives the end of the connection. *)
Definition past (s : session) : Prop :=
  (is_attached (core_pipe_manager s) = true -> is_Some (core_pipe_read_id_for_incoming_routing (core_pipe_manager s))) /\
  (quiet s \/ exists routing, announced s routing).

Lemma inv_past s : session_inv s -> past s.
Proof. unfold session_inv, past. destruct (current_phase s); naive_solver. Qed.

Lemma or_error_fields error (s : session) :
  let s' := Session.or_error error s in
  current_phase s' = current_phase s /\ published s' = published s /\ delivered s' = delivered s /\
  parent_socket_id s' = parent_socket_id s /\ core_pipe_manager s' = core_pipe_manager s.
Proof. unfold Session.or_error. by destruct (error_for_drop_guard s). Qed.

Lemma closing_inv error (s : session) : past s -> active s -> session_inv (closing error s).
Proof.
  intros [Ha Hp] [Hn1 Hn2]. unfold closing, session_inv.
  assert (Hf : forall s1 : session, core_pipe_manager s1 = core_pipe_manager s -> published s1 = published s ->
    delivered s1 = delivered s -> parent_socket_id s1 = parent_socket_id s ->
    (is_attached (core_pipe_manager s1) = true -> is_Some (core_pipe_read_id_for_incoming_routing (core_pipe_manager s1))) /\
    (quiet s1 \/ exists routing, announced s1 routing)).
  { intros s1 E1 E2 E3 E4. unfold quiet, announced in *. by rewrite E1, E2, E3, E4. }
  destruct (current_phase s); try done; apply Hf;
    destruct error as [er|]; try done; by destruct (or_error_fields er s) as (? & ? & ? & ? & ?).
Qed.

Lemma fatal_inv error (s : session) w r s' w' :
  past s -> active s -> Session.set_fatal_error error s w = (r, s', w') -> r = Done tt /\ session_inv s'.
Proof.
  intros Hp Ha. destruct (fatal_eq error s w) as (h' & corks' & -> & _). intros [= <- <- <-]. split; [done|].
  destruct (or_error_fields error s) as (E1 & E2 & E3 & E4 & E5).
  apply closing_inv; unfold past, quiet, announced, active in *; cbn; by rewrite ?E1, ?E2, ?E3, ?E4, ?E5.
Qed.

(** An arm keeps the invariant and never fails: errors are handled. *)
Definition keeps_inv (m : proc session unit) (s : session) : Prop :=
  forall w, match m s w with (Done _, s', _) => session_inv s' | (Failed _, _, _) => False | _ => True end.

Lemma keeps_fatal error s : past s -> active s -> keeps_inv (Session.set_fatal_error error) s.
Proof.
  intros Hp Ha w. destruct (Session.set_fatal_error error s w) as [[r s'] w'] eqn:E.
  by destruct (fatal_inv _ _ _ _ _ _ Hp Ha E) as [-> Hi].
Qed.

Lemma keeps_closing error s : past s -> active s -> keeps_inv (Session.transition_to_shutdown_stream error) s.
Proof. intros Hp Ha w. by apply closing_inv. Qed.

Lemma keeps_done s : session_inv s -> keeps_inv (mret tt) s.
Proof. by intros Hi w. Qed.

(** [match m.await { Err(e) => fatal, .. }] around an operation of the handler. *)
Lemma keeps_attempt {A} (m : proc handler A) s :
  past s -> active s ->
  (forall w r h' w', m (zmtp_handler s) w = (r, h', w') -> session_inv (s <| zmtp_handler := h' |>)) ->
  keeps_inv (r ← Session.attempt (Session.on_handler m);
             match r with Err e => Session.set_fatal_error e | _ => mret tt end) s.
Proof.
  intros Hp Ha Hm w. unfold mbind, proc_bind, Session.attempt, Session.on_handler.
  destruct (m (zmtp_handler s) w) as [[r h'] w'] eqn:E. specialize (Hm _ _ _ _ E).
  destruct r as [a|er| |]; try done. by apply keeps_fatal.
Qed.

Lemma inv_routing s :
  session_inv s -> is_attached (core_pipe_manager s) = true ->
  is_Some (core_pipe_read_id_for_incoming_routing (core_pipe_manager s)).
Proof. by intros [H _]. Qed.

Lemma keeps_operational s :
  session_inv s -> current_phase s = PWaitingForPipes -> keeps_inv Session.check_and_transition_to_operational s.
Proof.
  intros Hi Hp w. unfold Session.check_and_transition_to_operational, mbind, proc_bind. cbn [get]. rewrite Hp.
  pose proof Hi as [Ha Hq]. rewrite Hp in Hq. destruct Hq as [[Hpub Hdel] Hest]. pose proof Hest as [_ Hc]. rewrite Hc.
  rewrite bool_decide_true by done. cbn [andb]. destruct (is_attached (core_pipe_manager s)) eqn:Eatt; [|done].
  destruct (Ha eq_refl) as [routing Er]. rewrite Er. cbn [modify].
  assert (Hinv : forall s1 : session, current_phase s1 = POperational -> core_pipe_manager s1 = core_pipe_manager s ->
    zmtp_handler s1 = zmtp_handler s -> parent_socket_id s1 = parent_socket_id s ->
    published s1 = published s ++ [PeerIdentityEstablished (parent_socket_id s) routing
      (pending_peer_identity_from_handshake s) (peer_socket_type (handshake_state (zmtp_handler s)))] -> session_inv s1).
  { intros s1 E1 E2 E3 E4 E5. unfold session_inv. rewrite E1, E2, E3, Eatt. split; [by intros _; rewrite Er|].
    split; [done|]. split; [|by exists (zmtp_handler s)].
    exists routing. split; [done|]. exists (zmtp_handler s), (pending_peer_identity_from_handshake s).
    split; [done|]. by rewrite E5, E4, Hpub. }
  cbn. destruct (monitor_tx s); by apply Hinv.
Qed.

(** The fields the invariant is about. *)
Lemma inv_frame (s s' : session) :
  current_phase s' = current_phase s -> core_pipe_manager s' = core_pipe_manager s -> zmtp_handler s' = zmtp_handler s ->
  parent_socket_id s' = parent_socket_id s -> published s' = published s -> delivered s' = delivered s ->
  session_inv s -> session_inv s'.
Proof.
  intros E1 E2 E3 E4 E5 E6. unfold session_inv, quiet, announced. by rewrite E1, E2, E3, E4, E5, E6.
Qed.

Lemma session_keeps_command command s : session_inv s -> active s -> keeps_inv (Session.process_command command) s.
Proof.
  intros Hi Ha. destruct command as [| | | | | | | | | | | | | |id rx routing]; try (by apply keeps_done);
    [by apply keeps_closing; [apply inv_past|]|].
  intros w. unfold Session.process_command, mbind, proc_bind. cbn [get].
  destruct (negb _); [done|]. destruct (is_attached (core_pipe_manager s)) eqn:Eatt; [done|].
  destruct Ha as [Hn1 Hn2]. rewrite bool_decide_false by naive_solver. cbn [modify].
  set (s1 := s <| core_pipe_manager := _ |>).
  assert (Hi1 : session_inv s1).
  { subst s1. unfold session_inv, CorePipeManagerX.attach in *. rewrite Eatt. cbn.
    destruct Hi as [_ Hi]. split; [done|]. destruct (current_phase s); try done.
    rewrite Eatt in Hi. by destruct Hi. }
  destruct (bool_decide_reflect (current_phase s = PWaitingForPipes)) as [Ew|_]; [by apply keeps_operational|].
  destruct (bool_decide_reflect (current_phase s = PHandshakeInProgress)) as [Eh|_]; [|done]. cbn [andb].
  destruct (Handler.is_handshake_complete (zmtp_handler s)) eqn:Ec; [|done].
  apply keeps_operational; [|done]. unfold session_inv in *. destruct Hi1 as [Hr Hq]. split; [exact Hr|].
  replace (current_phase s1) with PHandshakeInProgress in Hq by done. cbn. by destruct Hq.
Qed.

Lemma keeps_event event s : session_inv s -> active s -> keeps_inv (Session.process_system_event event) s.
Proof.
  intros Hi Ha. pose proof (inv_past s Hi). destruct event; try by apply keeps_done.
  - by apply keeps_closing.
  - intros w. unfold Session.process_system_event, mbind, proc_bind. cbn [get].
    destruct (_ =? _); [by apply keeps_closing|by apply keeps_done].
Qed.

Lemma keeps_finish s :
  session_inv s -> current_phase s = PHandshakeInProgress -> keeps_inv Session.finish_handshake s.
Proof.
  intros Hi Hp w. unfold Session.finish_handshake, mbind, proc_bind. cbn [get].
  destruct (Handler.is_handshake_complete (zmtp_handler s)) eqn:Ec; [|done]. cbn [modify].
  apply keeps_operational; [|done]. unfold session_inv in *. rewrite Hp in Hi. destruct Hi as (? & ? & ?). by split_and!.
Qed.

Lemma keeps_progress p s :
  session_inv s -> active s -> keeps_inv (Session.handle_handshake_progression p) s.
Proof.
  intros Hi Ha w. pose proof (inv_past s Hi). unfold Session.handle_handshake_progression, mbind, proc_bind. cbn [get].
  destruct (bool_decide_reflect (current_phase s = PHandshakeInProgress)) as [Ep|]; [|done]. cbn [negb].
  destruct p as [|identity| |text|er]; [by apply keeps_finish| |by apply keeps_finish|by apply keeps_fatal..].
  cbn [modify]. by apply keeps_finish.
Qed.

(** In the data phase the handler may take any step of it. *)
Lemma inv_data s h' :
  session_inv s -> current_phase s = POperational -> data_step (zmtp_handler s) h' -> session_inv (s <| zmtp_handler := h' |>).
Proof.
  intros Hi Hp Hd. unfold session_inv in *. cbn. rewrite Hp in Hi |- *.
  destruct Hi as (Hr & Ha & Hann & h0 & He & Hsteps). split_and!; [done..|].
  exists h0. split; [done|]. by eapply rtc_r.
Qed.

Lemma keeps_incoming msg s :
  session_inv s -> current_phase s = POperational -> keeps_inv (Session.handle_incoming_from_network msg) s.
Proof.
  intros Hi Hp w. pose proof (inv_past s Hi) as Hpast.
  assert (Ha : active s) by (unfold active; by rewrite Hp).
  unfold Session.handle_incoming_from_network, mbind, proc_bind. cbn [get lift].
  destruct (inv_routing s Hi) as [routing Er].
  { destruct Hi as [_ Hi]. rewrite Hp in Hi. by destruct Hi. }
  rewrite Er. destruct (Msg.is_command msg).
  - destruct (Handler.is_v2_session _); [by apply keeps_fatal|].
    destruct (Handler.process_heartbeat_command msg (zmtp_handler s)) as [h r] eqn:Eh. cbn [modify].
    pose proof (inv_data s h Hi Hp (data_heartbeat _ _ _ _ Eh)) as Hi1.
    assert (Hp1 : current_phase (s <| zmtp_handler := h |>) = POperational) by done.
    pose proof (inv_past _ Hi1) as Hpast1.
    destruct r as [[pong|]|er|]; [|done|by apply keeps_fatal|done].
    apply (keeps_attempt (Handler.write_data_msg pong)); [done..|]. intros w1 r h1 w2 E.
    apply inv_data; [done..|]. unfold Handler.write_data_msg, mbind, proc_bind in E.
    destruct (Handler.write_data_msgs [pong] _ w1) as [[r' h'] w'] eqn:Ew.
    eapply data_write. destruct r'; injection E as <- <- <-; exact Ew.
  - destruct (logic_handle_pipe_event routing msg (socket_logic s)) as [l r]. cbn [modify].
    set (s1 := s <| socket_logic := l |> <| delivered := _ |>).
    assert (Hi1 : session_inv s1).
    { unfold session_inv in *. subst s1. cbn. rewrite Hp in Hi |- *. exact Hi. }
    pose proof (inv_past _ Hi1). destruct r as [[]|er|]; [done| |done]. by apply keeps_fatal.
Qed.

(** [active] and the invariant leave three phases. *)
Lemma early_keeps r s t arm : session_inv s -> active s -> Session.early_arm r s t = Some arm -> keeps_inv arm s.
Proof.
  intros Hi Ha. pose proof (inv_past s Hi) as Hp. unfold Session.early_arm.
  destruct (r_command r) as [[command|]|]; [intros [= <-]; by apply session_keeps_command|intros [= <-]; by apply keeps_closing|].
  destruct (r_event r) as [[event|[n|]]|];
    [intros [= <-]; by apply keeps_event|intros [= <-]; by apply keeps_fatal..|].
  destruct (Session.due (Session.handshake_timeout s) t); [intros [= <-]; by apply keeps_fatal|].
  destruct (Session.due (Session.ping_tick s) t) eqn:Et.
  - intros [= <-] w. set (s1 := s <| ping_check_timer := (fun '(tick, period) => (next_tick tick t period, period)) <$> ping_check_timer s |>).
    assert (Hop : current_phase s = POperational).
    { unfold Session.ping_tick in Et. by destruct (bool_decide_reflect (current_phase s = POperational)). }
    assert (Hi1 : session_inv s1) by by apply (inv_frame s).
    pose proof (inv_past _ Hi1). apply (keeps_attempt Handler.try_send_ping s1); [done..|].
    intros w1 r' h' w' E. apply inv_data; [done..|]. by eapply data_ping.
  - destruct (Session.due (Session.pong_deadline s) t); [|done]. intros [= <-] w.
    unfold mbind, proc_bind. cbn [get now]. destruct (Heartbeat.has_pong_timed_out _ _); [by apply keeps_fatal|done].
Qed.

Lemma core_keeps s : session_inv s -> active s -> keeps_inv Session.core_arm s.
Proof.
  intros Hi Ha w. unfold Session.core_arm.
  destruct (bool_decide_reflect (current_phase s = POperational)) as [Hop|]; [|done]. cbn [andb].
  destruct (is_attached _) eqn:Eatt; [|done].
  destruct (CorePipeManagerX.recv_from_core (core_pipe_manager s)) as [p r] eqn:Er.
  assert (Hpipe : is_attached p = true /\ core_pipe_read_id_for_incoming_routing p =
    core_pipe_read_id_for_incoming_routing (core_pipe_manager s)).
  { unfold CorePipeManagerX.recv_from_core in Er. destruct (rx_from_core _) as [rx|]; [|by simplify_eq].
    destruct (try_recv rx) as [rx' o]. by simplify_eq. }
  destruct Hpipe as [Hp1 Hp2]. set (s1 := s <| core_pipe_manager := p |>).
  assert (Hi1 : session_inv s1).
  { unfold session_inv in *. subst s1. cbn. rewrite Hop in Hi |- *. rewrite Hp1, Hp2.
    destruct Hi as (Hr & _ & Hann & Hdata). split_and!; [by intros _; apply Hr|done|exact Hann|exact Hdata]. }
  pose proof (inv_past _ Hi1) as Hpast. destruct r as [[msgs|]|]; [| |done].
  - assert (Hi2 : session_inv (s1 <| transmitted := transmitted s1 ++ [msgs] |>)) by by apply (inv_frame s1).
    apply (keeps_attempt (Handler.write_data_msgs msgs) (s1 <| transmitted := transmitted s1 ++ [msgs] |>));
      [by apply inv_past|done|].
    intros w1 r' h' w' E. apply inv_data; [done..|]. by eapply data_write.
  - by apply keeps_closing.
Qed.

(** Polling the network keeps the invariant, wherever it ends. *)
Lemma poll_inv s w r s' w' :
  session_inv s -> active s -> Session.poll_network e s w = (r, s', w') ->
  session_inv s' /\ current_phase s' = current_phase s /\
  (forall m, r = Done (DataFrame m) -> current_phase s = POperational).
Proof.
  intros Hi Ha. unfold Session.poll_network.
  destruct (Session.network_enabled s); [|by intros [= <- <- <-]].
  unfold Session.on_handler. destruct (Session.do_network_read_work e (current_phase s) (zmtp_handler s) w) as [[o h] w1] eqn:E.
  intros [= <- <- <-]. destruct (current_phase s) eqn:Ep; cbn [Session.do_network_read_work] in E;
    try (injection E as <- <- <-; split_and!; [by apply (inv_frame s)|done|done]).
  - unfold mbind, proc_bind in E.
    destruct (Handshake.advance_handshake_step e (zmtp_handler s) w) as [[o' h'] w2] eqn:Eh.
    assert (Hs : handshake_step e (zmtp_handler s) h') by by exists w, o', w2.
    assert (h = h' /\ forall m, o <> Done (DataFrame m)) as [-> Ho]
      by (destruct o'; injection E as <- <- <-; by split; [|intros m [=]]).
    split_and!; [|done|]; [|intros m Hm; by destruct (Ho m)].
    unfold session_inv in *. cbn. rewrite Ep in Hi |- *. destruct Hi as (? & ? & ?). split_and!; [done..|]. by eapply rtc_r.
  - unfold mbind, proc_bind in E.
    destruct (Handler.read_data_frame (zmtp_handler s) w) as [[o' h'] w2] eqn:Eh.
    assert (h = h') as -> by (by destruct o'; injection E as _ -> _).
    split_and!; [|done|done]. apply inv_data; [done..|]. by eapply data_read.
Qed.

Lemma select_keeps r s : session_inv s -> active s -> keeps_inv (Session.select e r) s.
Proof.
  intros Hi Ha w. unfold Session.select.
  destruct (if r_polled r then None else Session.early_arm r s (w_now w)) as [arm|] eqn:Ee.
  { destruct (r_polled r); [done|]. by apply (early_keeps _ _ _ _ Hi Ha Ee). }
  destruct (Session.poll_network e s w) as [[o s1] w1] eqn:Ep.
  destruct (poll_inv _ _ _ _ _ Hi Ha Ep) as (Hi1 & Hph & Hd).
  assert (Ha1 : active s1) by (unfold active; by rewrite Hph). pose proof (inv_past _ Hi1) as Hp1.
  destruct o as [action|er| |].
  - cbn [Session.network_arm]. destruct action as [p|[m|]]; [by apply keeps_progress| |by apply keeps_done].
    apply keeps_incoming; [done|]. rewrite Hph. by eapply Hd.
  - cbn [Session.network_arm]. destruct er; try by apply keeps_fatal. by apply keeps_closing.
  - done.
  - set (w2 := w1 <| w_now := _ |>). destruct (Session.early_arm r s1 (w_now w2)) as [arm|] eqn:Ee2.
    + by apply (early_keeps _ _ _ _ Hi1 Ha1 Ee2).
    + by apply core_keeps.
Qed.

Lemma iteration_keeps r s : session_inv s -> keeps_inv (Session.iteration e r) s.
Proof.
  intros Hi w. unfold Session.iteration. destruct (current_phase s) eqn:Ep;
    try (apply select_keeps; [done|unfold active; by rewrite Ep]).
  - destruct (graceful_eq s w) as (h' & corks' & -> & Hst). unfold session_inv in *. rewrite Ep in Hi. cbn.
    split; [done|]. split; [|done]. destruct Hi as [_ Hi]. exact Hi.
  - done.
Qed.

Lemma fed_keeps s s' : fed s s' -> session_inv s -> session_inv s'.
Proof.
  intros (rx & rx' & Erx & ->) Hi. unfold session_inv in *. cbn. destruct Hi as [Hr Hi]. split; [done|].
  destruct (current_phase s); try done. destruct Hi as (? & ? & Hn). rewrite Hn in Erx. done.
Qed.

Lemma reachable_session s0 s : session_inv s0 -> rtc session_step s0 s -> session_inv s.
Proof.
  intros H0 Hr. refine (rtc_invariant session_step session_inv _ _ Hr _ _); [done|].
  intros s1 s2 Hi Hs. destruct Hs as [r s1 w s2 w' E|s1 s2 Hf].
  - pose proof (iteration_keeps r s1 Hi w) as Hk. by rewrite E in Hk.
  - by eapply fed_keeps.
Qed.

Lemma create_inv hd parent uri mon (logic : L) : session_inv (Session.create hd parent cfg is_server uri mon logic t0).
Proof. split; [done|]. split; [done|apply rtc_refl]. Qed.

(** The error a session keeps: the first. *)
Definition first_error (error : ZmqError) (s : session) : option ZmqError :=
  match error_for_drop_guard s with Some e => Some e | None => Some error end.

Lemma poll_error (s : session) w r s' w' :
  Session.poll_network e s w = (r, s', w') ->
  error_for_drop_guard s' = error_for_drop_guard s /\ current_phase s' = current_phase s.
Proof.
  unfold Session.poll_network, Session.on_handler. destruct (Session.network_enabled s); [|by intros [= <- <- <-]].
  destruct (Session.do_network_read_work _ _ _ _) as [[? ?] ?]. by intros [= <- <- <-].
Qed.

(** A failed read ends the session with its error. *)
Lemma failed_read_ends r (s : session) w error s1 w1 :
  active s -> Session.poll_network e s w = (Failed error, s1, w1) ->
  (r_polled r = true \/ Session.early_arm r s (w_now w) = None) ->
  exists s' w', Session.iteration e r s w = (Done tt, s', w') /\ current_phase s' = PShuttingDownStream /\
    error_for_drop_guard s' = first_error error s.
Proof.
  intros [Hn1 Hn2] Hp Hr. destruct (poll_error _ _ _ _ _ Hp) as [Herr Hph].
  assert (Esel : Session.iteration e r s w = Session.network_arm (Err error) s1 w1).
  { assert (Hit : Session.iteration e r s w = Session.select e r s w)
      by (unfold Session.iteration; by destruct (current_phase s)).
    rewrite Hit. unfold Session.select.
    replace (if r_polled r then None else Session.early_arm r s (w_now w)) with (@None (proc session unit))
      by (destruct Hr as [-> | ->]; [done|by destruct (r_polled r)]).
    by rewrite Hp. }
  rewrite Esel.
  assert (Hcl : forall err (s2 : session), current_phase s2 = current_phase s -> current_phase (closing err s2) = PShuttingDownStream
    /\ error_for_drop_guard (closing err s2) = match err with Some er => first_error er s2 | None => error_for_drop_guard s2 end).
  { intros err s2 E2. unfold closing. rewrite E2. unfold first_error, Session.or_error.
    destruct (current_phase s); try done; destruct err; try done; split; try done; by destruct (error_for_drop_guard s2) eqn:?. }
  assert (Hfatal : exists s' w', Session.set_fatal_error error s1 w1 = (Done tt, s', w') /\ current_phase s' = PShuttingDownStream /\
    error_for_drop_guard s' = first_error error s).
  { destruct (fatal_eq error s1 w1) as (h' & corks' & -> & _). eexists _, _. split; [done|].
    destruct (Hcl None ((Session.or_error error s1) <| zmtp_handler := h' |>)) as [H1 H2].
    { cbn. destruct (or_error_fields error s1) as (-> & _). done. }
    split; [done|]. rewrite H2. cbn. unfold Session.or_error, first_error. rewrite <- Herr.
    by destruct (error_for_drop_guard s1) eqn:?. }
  destruct error; try exact Hfatal. cbn [Session.network_arm]. rewrite transition_eq. eexists _, _. split; [done|].
  destruct (Hcl (Some ConnectionClosed) s1 Hph) as [H1 H2]. split; [done|]. rewrite H2. unfold first_error. by rewrite Herr.
Qed.

End Invariant.
End SessionSafety.

(** ** Runs *)

Section Turns.
Context `{HF : Fibre} `{HD : Dryoc} `{HS : Snow} {L : Type} `{HL : SocketLogic L} `{HI : Interval}.
Variable e : bytes.

(** The turns that are done. *)
Fixpoint run_turns (rs : list Ready) (s : SessionConnectionActorX L) (w : World) : SessionConnectionActorX L * World :=
  match rs with
  | [] => (s, w)
  | r :: rs =>
      match Session.iteration e r s w with
      | (Done _, s', w') => run_turns rs s' w'
      | _ => (s, w)
      end
  end.

Lemma run_turns_reach rs s w : rtc (session_step e) s (run_turns rs s w).1.
Proof.
  revert s w. induction rs as [|r rs IH]; intros s w; [apply rtc_refl|]. cbn [run_turns].
  destruct (Session.iteration e r s w) as [[[[]|er| |] s'] w'] eqn:E; [|apply rtc_refl..].
  eapply rtc_l; [by eapply step_turn|apply IH].
Qed.

End Turns.

(** A PLAIN server that takes every frame. *)
Section Run.
#[local] Existing Instance list_fibre.
#[local] Existing Instance toy_dryoc.
#[local] Existing Instance toy_snow.
#[local] Instance taking : SocketLogic unit := fun _ _ l => (l, Ok tt).
#[local] Instance steady : Interval := fun tick _ period => tick + period.

Definition strict_plain : SocketOptions := plain_socket <| allow_zmtp2 := false |>.

Definition idle : Ready := mkReady _ None None true 0.
Definition attach_pipe : Ready := mkReady _ (Some (Some (ScaInitializePipes 7 (bounded_async 10) 3))) None false 0.

Definition plain_session : SessionConnectionActorX unit :=
  Session.create 7 1 (engine_config strict_plain) true "tcp://a" true tt 0.

Definition plain_inbox : list ReadEvent := [RData 0 (plain_peer_octets ++ wire (mkMsg (Some (bs "hi")) 0))].

Definition plain_run : SessionConnectionActorX unit :=
  (run_turns [] (attach_pipe :: replicate 7 idle) plain_session (mkWorld plain_inbox [] [] [] 0)).1.

Lemma plain_run_reach : rtc (session_step []) plain_session plain_run.
Proof. exact (run_turns_reach [] (attach_pipe :: replicate 7 idle) plain_session (mkWorld plain_inbox [] [] [] 0)). Qed.

Lemma plain_run_end : current_phase plain_run = POperational /\ delivered plain_run = [mkMsg (Some (bs "hi")) 0].
Proof. vm_compute. done. Qed.

(** A handshake step is not safe to drop.  An event that does not concern the
    session at all ends the [select!] in which it waits for the identity of a
    ZMTP 2.0 peer; the step starts again, takes the identity for the beginning
    of another greeting, and waits for the rest of it.  Without the event the
    handshake completes. *)
Definition v2_session : SessionConnectionActorX unit :=
  Session.create 7 1 (engine_config (plain_socket <| socket_type_name := "DEALER"%string |>)) true "tcp://a" true tt 0.

Definition v2_greeting : bytes := ZmtpV2Greeting.encode_full V2_SOCKET_TYPE_ROUTER [].
Definition v2_identity_frame : bytes := wire (Msg.from_vec (bs "x")).
Definition other_event : Ready := mkReady _ None (Some (inl (SocketClosing 99))) true 0.

Lemma event_breaks_v2_handshake :
  (let '(s, _) := run_turns [] [idle; idle; idle] v2_session
     (mkWorld [RData 0 v2_greeting; RData 0 v2_identity_frame] [] [] [] 0) in
   current_phase s = PWaitingForPipes) /\
  (let '(s, w) := run_turns [] [idle; idle; other_event] v2_session (mkWorld [RData 0 v2_greeting] [] [] [] 0) in
   let '(r, s', _) := Session.iteration [] idle s (w <| w_inbox := [RData 0 v2_identity_frame] |>) in
   r = Pending /\ current_phase s' = PHandshakeInProgress /\ network_read_buffer (zmtp_handler s') = v2_identity_frame).
Proof. vm_compute. done. Qed.

End Run.

(** ** Properties *)


(** C6: the life of a session.  In every reachable state the peer has been
    announced at most once, with the socket type of the completed handshake, and
    before any frame was handed over; in the operational phase it was announced
    under the pipe its frames are delivered to, so that handing over never
    panics.  A turn never fails: a failed read moves the session to its shutdown
    with the first error kept for the drop guard, and the next turn, whatever
    else happens, terminates it, with the stream closed and the pipe dropped. *)
Theorem session_lifecycle (HF : Fibre) (HD : Dryoc) (HS : Snow) (L : Type) (HL : SocketLogic L) (HI : Interval)
  (e : bytes) (cfg : ZmtpEngineConfig) (is_server : bool) (hd parent : Z) (uri : string) (mon : bool) (logic : L) (t0 : Z)
  (s : SessionConnectionActorX L) :
  rtc (session_step e) (Session.create hd parent cfg is_server uri mon logic t0) s ->
  (published s = [] /\ delivered s = [] \/
   exists h0 routing identity, established e cfg is_server t0 h0 /\ published s =
     [PeerIdentityEstablished (parent_socket_id s) routing identity (peer_socket_type (handshake_state h0))]) /\
  (current_phase s = POperational -> exists routing identity ty,
     core_pipe_read_id_for_incoming_routing (core_pipe_manager s) = Some routing /\
     published s = [PeerIdentityEstablished (parent_socket_id s) routing identity ty]) /\
  (current_phase s = PTerminating -> h_stream (zmtp_handler s) = false /\ core_pipe_manager s = CorePipeManagerX.new) /\
  (forall r w error s1 w1, active s -> Session.poll_network e s w = (Failed error, s1, w1) ->
     r_polled r = true \/ Session.early_arm r s (w_now w) = None ->
     exists s' w', Session.iteration e r s w = (Done tt, s', w') /\ current_phase s' = PShuttingDownStream /\
       error_for_drop_guard s' = first_error error s) /\
  (forall r w, current_phase s = PShuttingDownStream ->
     exists s' w', Session.iteration e r s w = (Done tt, s', w') /\ current_phase s' = PTerminating /\
       error_for_drop_guard s' = error_for_drop_guard s) /\
  (forall r w, match Session.iteration e r s w with (Failed _, _, _) => False | _ => True end).
Proof.
  intros Hr. apply (reachable_session e cfg is_server t0) in Hr; [|apply create_inv].
  pose proof (inv_past _ _ _ _ s Hr) as [_ Hpast]. split_and!.
  - destruct Hpast as [?|(routing & h0 & identity & He & Hp)]; [by left|right]. by exists h0, routing, identity.
  - intros Hp. destruct Hr as [_ Hr]. rewrite Hp in Hr.
    destruct Hr as (_ & (routing & Hro & h0 & identity & _ & Hpub) & _). by eexists routing, identity, _.
  - intros Hp. destruct Hr as [_ Hr]. rewrite Hp in Hr. by destruct Hr as (_ & ? & ?).
  - intros r w error s1 w1. apply failed_read_ends.
  - intros r w Hp. unfold Session.iteration. rewrite Hp. destruct (graceful_eq s w) as (h' & corks' & -> & _).
    by eexists _, _.
  - intros r w. pose proof (iteration_keeps e cfg is_server t0 r s Hr w) as Hk.
    by destruct (Session.iteration e r s w) as [[[]] ?].
Qed.


Lemma session_lifecycle_witness :
  exists routing identity ty, published plain_run = [PeerIdentityEstablished 1 routing identity ty] /\ routing = 3.
Proof.
  destruct (session_lifecycle list_fibre toy_dryoc toy_snow unit taking steady []
    (engine_config strict_plain) true 7 1 "tcp://a" true tt 0 plain_run plain_run_reach)
    as (_ & Hop & _).
  destruct Hop as (routing & identity & ty & Hr & Hp); [exact (proj1 plain_run_end)|].
  exists routing, identity, ty. split; [exact Hp|]. vm_compute in Hr. by injection Hr as <-.
Defined.
