(* ===== verification/Link.v ===== *)
(** Two sessions over one connection: what the core of one hands to its session,
    the session of the other hands to its socket.

    [link] relates the framer of a sender, the framer and the buffer of the
    receiver, the octets on the way and the frames that were written and not yet
    read; it is kept by every operation of either end.  A framer serves both
    directions; [DuplexPair] says that the directions of a cipher do not disturb
    each other. *)

From S2P Require Import Prelude Error Utf8 Message Codec Command Framer Greeting Mechanism Plain Options.
From S2P Require Import Curve Noise Security Io Handler Handshake HandshakeSafety HandshakeLive DataPhase Tasks Runtime.
From S2P Require Queue.
From S2P Require Import Session SessionSafety.

#[local] Set Warnings "-clear-no-such-hyp".

(** ** Both directions of a cipher *)

Class DuplexPair (C : Type) `{CipherPair C} := {
  dp_read s r ct s' o : cp_sync s r -> decrypt s ct = (s', o) -> cp_sync s' r;
  dp_write s r pt r' o : cp_sync s r -> encrypt r pt = (r', o) -> cp_sync s r';
  dp_commute r pt r1 o ct r2 p : encrypt r pt = (r1, o) -> decrypt r ct = (r2, Ok p) ->
    exists r3 o', decrypt r1 ct = (r3, Ok p) /\ encrypt r2 pt = (r3, o');
  dp_size s r pt s' ct : cp_sync s r -> encrypt s pt = (s', Ok ct) -> zlen ct <= zlen pt + 16;
}.

#[export] Instance passthrough_duplex : DuplexPair PassThroughDataCipher.
Proof.
  split; [done|done| |].
  - intros r pt [] o ct [] p _ E2. inv E2. by eexists _, _.
  - intros s r pt s' ct _ E. injection E as <-. lia.
Qed.

#[export] Instance curve_duplex `{DryocLaws} : DuplexPair CurveDataCipher.
Proof.
  split.
  - intros s r ct s' o [Hk Hn] E. cbn [decrypt curve_cipher] in E. unfold CurveDataCipher.decrypt in E.
    destruct (_ <? _); [by inv E|]. cbn zeta in E.
    destruct (mbind _ _) as [dec|er|] in E; inv E; by split.
  - intros s r pt r' o [Hk Hn] E. cbn [encrypt curve_cipher] in E. unfold CurveDataCipher.encrypt in E.
    destruct (crypto_box_detached_afternm _ _ _) as [mac c]. inv E. by split.
  - intros r pt r1 o ct r2 p E1 E2. cbn [encrypt decrypt curve_cipher] in *.
    unfold CurveDataCipher.encrypt in E1. unfold CurveDataCipher.decrypt in E2.
    destruct (crypto_box_detached_afternm _ _ _) as [mac c] eqn:Eb. inv E1.
    destruct (_ <? _) eqn:El; [done|]. cbn zeta in E2.
    destruct (mbind _ _) as [dec|er|] eqn:Eo in E2; inv E2.
    eexists _, _. unfold CurveDataCipher.decrypt, CurveDataCipher.encrypt. rewrite El. cbn zeta. cbn [recv_nonce_counter decode_key].
    split; [by setoid_rewrite Eo|]. cbn. cbn in Eb. by rewrite Eb.
  - intros s r pt s' ct _ E. cbn [encrypt curve_cipher] in E. unfold CurveDataCipher.encrypt in E.
    pose proof (detached_len pt (CurveDataCipher.construct_nonce (send_nonce_counter s)) (encode_key s)) as [H1 H2].
    destruct (crypto_box_detached_afternm _ _ _) as [mac c]. cbn in H1, H2. injection E as _ <-. rewrite zlen_app. lia.
Qed.

(** The two directions of a Noise transport have their own keys and counters. *)
Class SnowDuplex `{SnowXX} := {
  read_keeps_sending s r ct n s' o : transport_sync s r -> transport_read s ct n = (s', o) -> transport_sync s' r;
  write_keeps_receiving s r pt n r' o : transport_sync s r -> transport_write r pt n = (r', o) -> transport_sync s r';
  directions_commute r pt n r1 o ct k r2 p : transport_write r pt n = (r1, o) -> transport_read r ct k = (r2, inr p) ->
    exists r3 o', transport_read r1 ct k = (r3, inr p) /\ transport_write r2 pt n = (r3, o');
}.

#[export] Instance noise_duplex `{SnowDuplex} : DuplexPair NoiseDataCipher.
Proof.
  split.
  - intros s r ct s' o Hs E. cbn [decrypt noise_cipher] in E. unfold NoiseDataCipher.decrypt in E.
    destruct (_ <? _); [by inv E|]. destruct (transport_read _ _ _) as [ts o'] eqn:Er.
    assert (s' = mkNoiseCipher _ ts) as -> by (destruct o'; by inv E). exact (read_keeps_sending _ _ _ _ _ _ Hs Er).
  - intros s r pt r' o Hs E. cbn [encrypt noise_cipher] in E. unfold NoiseDataCipher.encrypt in E.
    destruct (_ <? _); [by inv E|]. destruct (transport_write _ _ _) as [ts o'] eqn:Er.
    assert (r' = mkNoiseCipher _ ts) as -> by (destruct o'; by inv E). exact (write_keeps_receiving _ _ _ _ _ _ Hs Er).
  - intros r pt r1 o ct r2 p E1 E2. cbn [encrypt decrypt noise_cipher] in *.
    unfold NoiseDataCipher.encrypt, NoiseDataCipher.decrypt in *.
    destruct (zlen ct <? _) eqn:E3; [done|]. destruct (transport_read _ _ _) as [ts [er|p']] eqn:Er in E2; [done|]. inv E2.
    destruct (_ <? zlen pt) eqn:E4.
    + inv E1. rewrite Er. by eexists _, _.
    + destruct (transport_write (nc_transport r) pt _) as [tw o'] eqn:Ew.
      destruct (directions_commute _ _ _ _ _ _ _ _ _ Ew Er) as (t3 & o3 & H3 & H4).
      assert (r1 = mkNoiseCipher _ tw) as -> by (destruct o'; by inv E1).
      cbn [nc_transport]. rewrite H3, H4. destruct o3; by eexists _, _.
  - intros s r pt s' ct Hs E. cbn [encrypt noise_cipher] in E. unfold NoiseDataCipher.encrypt in E.
    destruct (Z.ltb_spec (65535 - NoiseDataCipher.NOISE_TAG_LEN) (zlen pt)) as [|Hl]; [done|].
    destruct (transport_delivers _ _ pt Hs Hl) as (ts & tr & ct' & Ew & Hlen & _).
    change (zlen pt + NoiseDataCipher.NOISE_TAG_LEN) with (zlen pt + 16) in E. rewrite Ew in E. injection E as _ <-. lia.
Qed.

#[export] Instance dyn_duplex `{DryocLaws} `{SnowDuplex} : DuplexPair DynCipher.
Proof.
  split.
  - intros s r ct s' o Hs E. destruct s as [s|s|s], r as [r|r|r]; try done; cbn [decrypt dyn_cipher] in *;
      destruct (decrypt s ct) as [s1 o1] eqn:E1; inv E; exact (dp_read s r _ _ _ Hs E1).
  - intros s r pt r' o Hs E. destruct s as [s|s|s], r as [r|r|r]; try done; cbn [encrypt dyn_cipher] in *;
      destruct (encrypt r pt) as [r1 o1] eqn:E1; inv E; exact (dp_write s r _ _ _ Hs E1).
  - intros r pt r1 o ct r2 p E1 E2. destruct r as [r|r|r]; cbn [encrypt decrypt dyn_cipher] in *;
      destruct (encrypt r pt) as [r1' o1] eqn:Ee; destruct (decrypt r ct) as [r2' o2] eqn:Ed; injection E1 as <- <-; injection E2 as <- ->;
      destruct (dp_commute _ _ _ _ _ _ _ Ee Ed) as (r3 & o' & Hd' & He'); rewrite Hd', He'; by eexists _, _.
  - intros s r pt s' ct Hs E. destruct s as [s|s|s], r as [r|r|r]; try done; cbn [encrypt dyn_cipher] in *;
      destruct (encrypt s pt) as [s1 o1] eqn:E1; injection E as <- ->; exact (dp_size s r _ _ _ Hs E1).
Qed.

(** ** The link between two framers *)

Section Link.
Context `{HD : Dryoc} `{HS : Snow} `{HP : !CipherPair DynCipher} `{HDP : !DuplexPair DynCipher}.
Variable max : Z.
Abbreviation framer_t := (DynFramer DynCipher).

(** Ciphertexts on the way: the receiver decrypts them to the batches and is then
    synchronised with the sender. *)
Fixpoint flight (cts : list bytes) (batches : list (list Msg)) (r s : DynCipher) : Prop :=
  match cts, batches with
  | [], [] => cp_sync s r
  | ct :: cts, b :: batches => exists r', decrypt r ct = (r', Ok (concat (wire <$> b))) /\ flight cts batches r' s
  | _, _ => False
  end.

(** [fs] has written, [fr] with the buffer [net] has read: the octets [s] are on
    the way and the frames [ms] are still to come. *)
Definition link (fs fr : framer_t) (net s : bytes) (ms : list Msg) : Prop :=
  Forall (deliverable max) ms /\
  match fs, fr with
  | DynNull _, DynNull r => exists x, null_holds max r net x /\ x ++ s = concat (wire <$> ms)
  | DynLengthPrefixed fs, DynLengthPrefixed r =>
      exists ms0 batches cts, holds max r (concat (wire <$> ms0)) /\ flight cts batches (lp_cipher r) (lp_cipher fs) /\
        net ++ s = concat (secure_frame <$> cts) /\ ms = ms0 ++ concat batches /\ Forall (fun ct => zlen ct < 2 ^ 16) cts
  | _, _ => False
  end.

(** Octets arrive. *)
Lemma link_absorb fs fr net c s ms : link fs fr net (c ++ s) ms -> link fs fr (net ++ c) s ms.
Proof.
  intros [Hd Hl]. split; [done|]. destruct fs as [fs|fs], fr as [fr|fr]; try done.
  - destruct Hl as (x & (Hwf & Hm & <-) & E). exists (state_pending (mp_state (nf_parser fr)) ++ net ++ c).
    split; [done|]. by rewrite <- E, <- !app_assoc.
  - destruct Hl as (ms0 & batches & cts & Hh & Hf & E & -> & Hc). exists ms0, batches, cts.
    split_and!; [done|done| |done|done]. by rewrite <- app_assoc.
Qed.

(** A read yields the next frame, or nothing. *)
Definition read_ok (fs : framer_t) (ms : list Msg) (s : bytes) (o : framer_t * bytes * result (option Msg)) : Prop :=
  let '(fr', net', r) := o in
  match r with
  | Ok (Some m') => exists m ms', ms = m :: ms' /\ m' = norm_msg m /\ link fs fr' net' s ms'
  | Ok None => link fs fr' net' s ms /\ (s = [] -> ms = [])
  | _ => False
  end.

Lemma link_read_null fs fr net s ms :
  link (DynNull fs) (DynNull fr) net s ms -> read_ok (DynNull fs) ms s (try_read_msg (DynNull fr : framer_t) net).
Proof.
  intros [Hd (x & (Hwf & Hm & Hx) & E)]. cbn [try_read_msg dyn_framer null_framer]. unfold NullFramer.try_read_msg.
  rewrite <- Hm in Hwf. pose proof (parser_decode_post (nf_parser fr) net Hwf) as Hp. rewrite Hm, Hx in Hp.
  destruct (ZmtpManualParser.decode_from_buffer (nf_parser fr) net) as [[p b] r].
  destruct Hp as (Hm' & Hwf' & Hpost). unfold decode_post in Hpost. cbn.
  destruct (frames_cut max x s ms Hd E) as (ms1 & ms2 & rest & Hf & -> & Hr). rewrite frames_unfold in Hf.
  destruct (frame_spec (parser_limit max) x) as [|er r'|m r'] eqn:Ef.
  - injection Hf as _ <-. destruct Hpost as [-> Hp]. split.
    + split; [done|]. exists x. split; [by split_and!|done].
    + intros ->. rewrite app_nil_r in E. destruct (ms1 ++ ms2) as [|m ms]; [done|]. exfalso.
      apply Forall_cons in Hd as [[Hsz Hlim] _]. cbn [fmap list_fmap concat] in E. by rewrite E, frame_spec_wire in Ef.
  - done.
  - destruct (frames _ r') as [ms' o'] eqn:Er'. destruct ms1 as [|m1 ms1]; [done|]. cbn [fmap list_fmap] in Hf.
    injection Hf as -> Hms ->. destruct Hpost as (-> & Hp & ->). exists m1, (ms1 ++ ms2). split; [done|]. split; [done|].
    cbn [app] in Hd, E. apply Forall_cons in Hd as [[Hsz Hlim] Hd]. split; [done|].
    exists r'. split; [split_and!; cbn; [done..|by rewrite Hp]|].
    pose proof (frame_spec_app (parser_limit max) x s) as Ha. rewrite Ef in Ha.
    cbn [fmap list_fmap concat] in E. rewrite E, frame_spec_wire in Ha by done. by injection Ha as ->.
Qed.

Lemma flight_nil_inv batches r s : flight [] batches r s -> batches = [] /\ cp_sync s r.
Proof. by destruct batches. Qed.

Lemma flight_cons_inv ct cts batches r s :
  flight (ct :: cts) batches r s -> exists b batches' r', batches = b :: batches' /\
    decrypt r ct = (r', Ok (concat (wire <$> b))) /\ flight cts batches' r' s.
Proof. destruct batches as [|b batches]; [done|]. intros (r' & E & Hf). by exists b, batches, r'. Qed.

Lemma link_read_lp fs fr net s ms :
  link (DynLengthPrefixed fs) (DynLengthPrefixed fr) net s ms ->
  read_ok (DynLengthPrefixed fs) ms s (try_read_msg (DynLengthPrefixed fr) net).
Proof.
  intros [Hd (ms0 & batches & cts & Hh & Hf & E & Hms & Hc)].
  cbn [try_read_msg dyn_framer lp_framer]. unfold LengthPrefixedFramer.try_read_msg.
  assert (Hfuel : (length net <= length net)%nat) by done. revert Hfuel. generalize (length net) at 2 3 as fuel.
  intros fuel. revert fr net ms0 batches fuel Hh Hf E Hms.
  induction cts as [|ct cts IH]; intros fr net ms0 batches fuel Hh Hf E Hms Hfuel.
  - apply flight_nil_inv in Hf as [-> Hsync]. cbn in E. apply app_nil in E as [-> ->].
    destruct ms0 as [|m ms0].
    + destruct (loop_wait max fuel fr [] [] Hh (or_introl eq_refl) ltac:(done)) as (f' & -> & Hh' & Hc').
      cbn. split; [|by intros _; rewrite Hms]. split; [done|]. exists [], [], []. rewrite Hc'. by split_and!.
    + cbn [fmap list_fmap concat] in Hh. subst ms. apply Forall_cons in Hd as [[Hsz Hlim] Hd].
      destruct (loop_msg max fuel fr _ _ _ [] Hh (frame_spec_wire (parser_limit max) m _ Hsz Hlim)) as (f1 & -> & Hh1 & Hc1).
      exists m, (ms0 ++ concat []). split; [done|]. split; [done|]. split; [done|]. exists ms0, [], []. rewrite Hc1. by split_and!.
  - apply flight_cons_inv in Hf as (b & batches' & r' & -> & Hdec & Hf).
    apply Forall_cons in Hc as [Hct Hc]. destruct ms0 as [|m ms0].
    + cbn [fmap list_fmap concat] in E. apply app_eq_inv in E as [[y [-> Hy]]|[y [Hy ->]]].
      * (* the whole frame has arrived *)
        destruct fuel as [|fuel]; [unfold secure_frame in Hfuel; cbn in Hfuel; lia|].
        destruct (loop_frame max fuel fr ct y _ r' Hh Hct Hdec) as (f1 & -> & Hh1 & Hc1).
        apply (IH Hc f1 y b batches' fuel); [done|by rewrite Hc1|by symmetry|done|].
        unfold secure_frame in Hfuel. rewrite !length_app in Hfuel. cbn in Hfuel. lia.
      * destruct y as [|o y].
        { rewrite app_nil_r in Hy. subst net. destruct fuel as [|fuel]; [unfold secure_frame in Hfuel; cbn in Hfuel; lia|].
          destruct (loop_frame max fuel fr ct [] _ r' Hh Hct Hdec) as (f1 & Ef & Hh1 & Hc1). rewrite app_nil_r in Ef. rewrite Ef.
          apply (IH Hc f1 [] b batches' fuel); [done|by rewrite Hc1|done|done|cbn; lia]. }
        destruct (loop_wait max fuel fr net ct Hh) as (f' & -> & Hh' & Hc'); [right; by exists (o :: y)|done|].
        cbn. split; [|done]. split; [done|]. exists [], (b :: batches'), (ct :: cts). rewrite Hc'.
        split_and!; [done| |by cbn [fmap list_fmap concat]; rewrite Hy, <- app_assoc|done|by constructor]. by exists r'.
    + cbn [fmap list_fmap concat] in Hh. subst ms. apply Forall_cons in Hd as [[Hsz Hlim] Hd].
      destruct (loop_msg max fuel fr _ _ _ net Hh (frame_spec_wire (parser_limit max) m _ Hsz Hlim)) as (f1 & -> & Hh1 & Hc1).
      exists m, (ms0 ++ concat (b :: batches')). split; [done|]. split; [done|]. split; [done|].
      exists ms0, (b :: batches'), (ct :: cts). rewrite Hc1. split_and!; [done| |done|done|by constructor]. by exists r'.
Qed.

Lemma link_read fs fr net s ms : link fs fr net s ms -> read_ok fs ms s (try_read_msg fr net).
Proof.
  intros Hl. destruct fs as [fs|fs], fr as [fr|fr]; [by apply link_read_null|by destruct Hl..|by apply link_read_lp].
Qed.

(** The sender reads: its own direction is not disturbed. *)
Lemma flight_sender cts batches r s s' :
  (forall r, cp_sync s r -> cp_sync s' r) -> flight cts batches r s -> flight cts batches r s'.
Proof.
  intros Hs. revert batches r. induction cts as [|ct cts IH]; intros [|b batches] r; try done; [by apply Hs|].
  intros (r' & E & Hf). exists r'. split; [done|]. by apply IH.
Qed.

Lemma loop_sync fuel (f : LengthPrefixedFramer DynCipher) net r :
  cp_sync (lp_cipher f) r -> cp_sync (lp_cipher (LengthPrefixedFramer.try_read_loop fuel f net).1.1) r.
Proof.
  revert f net. induction fuel as [|fuel IH]; intros f net Hs; cbn [LengthPrefixedFramer.try_read_loop];
    destruct (ZmtpManualParser.decode_from_buffer _ _) as [[p dec] [[m|]|e|]]; try done;
    destruct (_ <? _); try done; destruct (get_uint 2 net) as [[len ?]|e|]; try done;
    destruct (_ <? _); try done; destruct (slice_from net 2 ≫= _) as [[ef net']|e|]; try done;
    cbn [lp_cipher]; destruct (decrypt (lp_cipher f) ef) as [c [pt|e|]] eqn:E; cbn; try by eapply dp_read.
  apply IH. by eapply dp_read.
Qed.

Lemma link_sender_reads fs fr net s ms net' :
  link fs fr net s ms -> link (try_read_msg fs net').1.1 fr net s ms.
Proof.
  intros [Hd Hl]. split; [done|]. destruct fs as [fs|fs], fr as [fr|fr]; try done; cbn [try_read_msg dyn_framer].
  - destruct (try_read_msg fs net') as [[? ?] ?]. exact Hl.
  - destruct Hl as (ms0 & batches & cts & Hh & Hf & E & -> & Hc).
    pose proof (loop_sync (length net') fs net') as Hs. cbn [try_read_msg lp_framer].
    unfold LengthPrefixedFramer.try_read_msg. destruct (LengthPrefixedFramer.try_read_loop _ _ _) as [[f' ?] ?]. cbn in *.
    exists ms0, batches, cts. split_and!; [done| |done..]. by eapply flight_sender.
Qed.

(** The receiver writes. *)
Lemma flight_receiver cts batches r s pt r' o :
  flight cts batches r s -> encrypt r pt = (r', o) -> flight cts batches r' s.
Proof.
  revert batches r r' o. induction cts as [|ct cts IH]; intros [|b batches] r r' o; try done.
  - intros Hs E. exact (dp_write _ _ _ _ _ Hs E).
  - intros (r2 & Ed & Hf) E. destruct (dp_commute _ _ _ _ _ _ _ E Ed) as (r3 & o' & Ed' & Ee').
    exists r3. split; [done|]. by eapply IH.
Qed.

Lemma link_receiver_writes fs fr net s ms msgs :
  link fs fr net s ms -> link fs (write_msg_multipart fr msgs).1 net s ms.
Proof.
  intros [Hd Hl]. split; [done|]. destruct fs as [fs|fs], fr as [fr|fr]; try done; cbn [write_msg_multipart dyn_framer].
  - destruct Hl as (ms0 & batches & cts & Hh & Hf & E & -> & Hc). rewrite lp_write_eq. cbn [fst].
    exists ms0, batches, cts. split_and!; [done| |done..]. cbn [lp_cipher].
    destruct (encrypt (lp_cipher fr) _) as [c o] eqn:Ee. by eapply flight_receiver.
Qed.

(** The sender writes. *)
Lemma flight_end cts batches r s : flight cts batches r s -> exists r', cp_sync s r'.
Proof.
  revert batches r. induction cts as [|ct cts IH]; intros [|b batches] r; try done; [by exists r|].
  intros (r' & _ & Hf). by eapply IH.
Qed.

Lemma flight_snoc cts batches r s b ct s' :
  flight cts batches r s -> encrypt s (concat (wire <$> b)) = (s', Ok ct) -> flight (cts ++ [ct]) (batches ++ [b]) r s'.
Proof.
  revert batches r. induction cts as [|ct' cts IH]; intros [|b' batches] r; try done.
  - intros Hs E. destruct (cp_decrypt _ _ _ _ _ Hs E) as (r' & Ed & Hs'). by exists r'.
  - intros (r' & Ed & Hf) E. exists r'. split; [done|]. by apply IH.
Qed.

(** Encrypted, the length of a batch is a 16-bit number. *)
Definition fits_frame (f : framer_t) (msgs : list Msg) : Prop :=
  match f with DynNull _ => True | DynLengthPrefixed _ => zlen (concat (wire <$> msgs)) + 16 < 2 ^ 16 end.

Lemma link_writes fs fr net s ms msgs fs' data :
  link fs fr net s ms -> Forall (deliverable max) msgs -> fits_frame fs msgs ->
  write_msg_multipart fs msgs = (fs', Ok data) -> link fs' fr net (s ++ data) (ms ++ msgs).
Proof.
  intros [Hd Hl] Hm Hfit Hw. split; [by apply Forall_app|].
  destruct fs as [fs|fs], fr as [fr|fr]; try done; cbn [write_msg_multipart dyn_framer] in Hw.
  - cbn [write_msg_multipart null_framer] in Hw. unfold NullFramer.write_msg_multipart in Hw.
    rewrite encode_msgs_wire in Hw. injection Hw as <- <-. destruct Hl as (x & Hx & E). exists x. split; [done|].
    by rewrite app_assoc, E, fmap_app, concat_app.
  - rewrite lp_write_eq in Hw. destruct (encrypt (lp_cipher fs) _) as [c [ct|e|]] eqn:Ee; cbn [fst snd mbind result_bind] in Hw;
      [|done|done]. injection Hw as <- <-.
    destruct Hl as (ms0 & batches & cts & Hh & Hf & E & -> & Hc). destruct (flight_end _ _ _ _ Hf) as [r' Hs].
    pose proof (dp_size _ _ _ _ _ Hs Ee) as Hsz. cbn in Hfit. pose proof (zlen_nonneg ct).
    assert (Hlen : zlen ct < 2 ^ 16) by lia. exists ms0, (batches ++ [msgs]), (cts ++ [ct]).
    change (u8 _ :: u8 _ :: ct) with (be_bytes 2 (wrapU 16 (zlen ct)) ++ ct).
    assert (wrapU 16 (zlen ct) = zlen ct) as -> by (apply Z.mod_small; lia).
    split_and!; [done|by eapply flight_snoc| | |by apply Forall_app; split; [|constructor]].
    + rewrite app_assoc, E, fmap_app, concat_app. cbn [fmap list_fmap concat]. by rewrite app_nil_r.
    + rewrite concat_app. cbn [concat]. by rewrite app_nil_r, app_assoc.
Qed.

(** Fresh framers. *)
Lemma link_fresh fs fr : channel max fs fr -> link fs fr [] [] [].
Proof.
  intros Hc. split; [done|]. destruct fs as [fs|fs], fr as [fr|fr]; try done; cbn in Hc.
  - subst fr. by exists [].
  - destruct Hc as (c & -> & Hs). by exists [], [], [].
Qed.

End Link.
