(* ===== verification/Pair.v ===== *)
(** Two sessions over one connection, from the core of one to the socket of the
    other.

    The system is two sessions ([Session.v]) and the octets on the way between them.
    A turn of a session takes octets from one wire, in pieces of any size, with
    failures at any time, and puts what it writes on the other; writes may fail or
    time out after any number of octets.  [dir] is the invariant of a direction: what
    was handed over, what is on its way and what may be lost make up what the
    session of the sender took from its core. *)

From S2P Require Import Prelude Error Utf8 Message Codec Command Framer Greeting Mechanism Plain Options.
From S2P Require Import Curve Noise Security Io Handler Handshake HandshakeSafety HandshakeLive DataPhase Tasks Runtime.
From S2P Require Queue.
From S2P Require Import Session SessionSafety Link.

#[local] Set Warnings "-clear-no-such-hyp".

(** ** Directions *)

Definition ping : Msg := ZmtpCommand.create_ping 0 [].
Definition pong : Msg := ZmtpCommand.create_pong [].

(** The data frames, as they arrive. *)
Definition payloads (ms : list Msg) : list Msg := norm_msg <$> filter (fun m => Msg.is_command m = false) ms.

(** What a session writes: data and heartbeats. *)
Definition regular (m : Msg) : Prop := Msg.is_command m = false \/ m = ping \/ m = pong.

Lemma norm_command m : Msg.is_command (norm_msg m) = Msg.is_command m.
Proof. unfold norm_msg. destruct (Msg.is_more m), (Msg.is_command m); reflexivity. Qed.

Lemma payloads_app l k : payloads (l ++ k) = payloads l ++ payloads k.
Proof. unfold payloads. by rewrite filter_app, fmap_app. Qed.

Lemma payloads_data l : Forall (fun m => Msg.is_command m = false) l -> payloads l = norm_msg <$> l.
Proof.
  unfold payloads. induction 1 as [|m l Hm _ IH]; [done|]. rewrite filter_cons_True by done. cbn [fmap list_fmap]. by rewrite IH.
Qed.

Section Views.
Context `{HD : Dryoc} `{HS : Snow} `{HP : !CipherPair DynCipher} `{HDP : !DuplexPair DynCipher}.
Abbreviation framer_t := (DynFramer DynCipher).

(** What the other end depends on. *)
Record view := mkView {
  v_run : bool;                        (** in the operational phase *)
  v_framer : framer_t;
  v_buffer : bytes;
  v_delivered : list Msg;
  v_transmitted : list (list Msg);
}.

Definition dir (max : Z) (X Y : view) (wire : bytes) : Prop :=
  if v_run Y then
    exists fs ms lost tail, link max fs (v_framer Y) (v_buffer Y) (wire ++ lost) ms /\ Forall regular ms /\
      v_delivered Y ++ payloads ms ++ tail = norm_msg <$> concat (v_transmitted X) /\
      (v_run X = true -> fs = v_framer X /\ lost = [] /\ tail = [])
  else v_delivered Y `prefix_of` (norm_msg <$> concat (v_transmitted X)).

Implicit Types (X Y : view) (w data : bytes) (msgs : list Msg) (t : list (list Msg)).

Lemma dir_prefix max X Y w : dir max X Y w -> v_delivered Y `prefix_of` (norm_msg <$> concat (v_transmitted X)).
Proof. unfold dir. destruct (v_run Y); [|done]. intros (fs & ms & lost & tail & _ & _ & <- & _). by eexists. Qed.

(** The receiver stops. *)
Lemma dir_receiver_stops max X Y w f b w' :
  dir max X Y w -> dir max X (mkView false f b (v_delivered Y) (v_transmitted Y)) w'.
Proof. intros Hd. by apply dir_prefix in Hd. Qed.

(** The sender stops; what it took last may never be sent. *)
Lemma dir_sender_stops max X Y w f b d t l :
  dir max X Y w -> norm_msg <$> concat t = (norm_msg <$> concat (v_transmitted X)) ++ l ->
  dir max (mkView false f b d t) Y w.
Proof.
  intros Hd Et. unfold dir in *. cbn [v_transmitted v_run]. rewrite Et. destruct (v_run Y).
  - destruct Hd as (fs & ms & lost & tail & Hl & Hr & <- & _). exists fs, ms, lost, (tail ++ l).
    split_and!; [done|done|by rewrite <- !app_assoc|done].
  - by apply prefix_app_r.
Qed.

(** The sender writes. *)
Lemma dir_writes max f b d t Y w msgs f' data b' d' t' :
  dir max (mkView true f b d t) Y w -> write_msg_multipart f msgs = (f', Ok data) -> fits_frame f msgs ->
  Forall (deliverable max) msgs -> Forall regular msgs ->
  norm_msg <$> concat t' = (norm_msg <$> concat t) ++ payloads msgs ->
  dir max (mkView true f' b' d' t') Y (w ++ data) /\
  forall n f'' , dir max (mkView false f'' b' d' t') Y (w ++ take n data).
Proof.
  intros Hd Hw Hfit Hdel Hreg Et. unfold dir in *. cbn [v_transmitted v_run v_framer] in *. rewrite Et.
  destruct (v_run Y); [|split; [by apply prefix_app_r|intros; by apply prefix_app_r]].
  destruct Hd as (fs & ms & lost & tail & Hl & Hr & <- & Heq). destruct (Heq eq_refl) as (-> & -> & ->).
  rewrite app_nil_r in Hl. pose proof (link_writes max _ _ _ _ _ _ _ _ Hl Hdel Hfit Hw) as Hl'.
  assert (Hr' : Forall regular (ms ++ msgs)) by by apply Forall_app.
  split.
  - exists f', (ms ++ msgs), [], []. rewrite payloads_app, !app_nil_r, app_assoc. by split_and!.
  - intros n f''. exists f', (ms ++ msgs), (drop n data), [].
    rewrite <- (app_assoc w), take_drop, payloads_app, !app_nil_r, app_assoc. by split_and!.
Qed.

(** What the sender took is all that counts. *)
Lemma dir_transmitted max r f b d t Y w b' d' t' :
  dir max (mkView r f b d t) Y w -> norm_msg <$> concat t' = norm_msg <$> concat t -> dir max (mkView r f b' d' t') Y w.
Proof. intros Hd Et. unfold dir in *. cbn [v_transmitted v_run v_framer] in *. by rewrite Et. Qed.

(** The receiver takes octets in and looks for a frame. *)
Lemma dir_absorb max X f b d t w c :
  dir max X (mkView true f b d t) (c ++ w) -> dir max X (mkView true f (b ++ c) d t) w.
Proof.
  unfold dir. cbn. intros (fs & ms & lost & tail & Hl & Hrest). exists fs, ms, lost, tail. split; [|done].
  rewrite <- app_assoc in Hl. by apply link_absorb.
Qed.

Definition read_dir (max : Z) X d t w (o : framer_t * bytes * result (option Msg)) : Prop :=
  let '(f, b, r) := o in
  match r with
  | Ok (Some m) =>
      dir max X (mkView true f b (d ++ if Msg.is_command m then [] else [m]) t) w /\
      (Msg.is_command m = true -> m = norm_msg ping \/ m = norm_msg pong)
  | Ok None => dir max X (mkView true f b d t) w
  | _ => False
  end.

Lemma dir_reads max X f b d t w : dir max X (mkView true f b d t) w -> read_dir max X d t w (try_read_msg f b).
Proof.
  unfold dir at 1. cbn [v_run v_framer v_buffer v_delivered v_transmitted]. intros (fs & ms & lost & tail & Hl & Hreg & Hd & Hrun).
  apply link_read in Hl. unfold read_ok in Hl. unfold read_dir.
  destruct (try_read_msg f b) as [[f' b'] [[m'|]|er|]]; try done.
  - destruct Hl as (m & ms' & -> & -> & Hl). apply Forall_cons in Hreg as [Hm Hreg]. rewrite norm_command. split.
    + exists fs, ms', lost, tail. split_and!; [done|done| |done]. cbn [v_delivered]. rewrite <- Hd. unfold payloads.
      destruct (Msg.is_command m) eqn:Ec.
      * rewrite filter_cons_False by by rewrite Ec. by rewrite app_nil_r.
      * rewrite filter_cons_True by done. cbn [fmap list_fmap]. by rewrite <- app_assoc.
    + intros Ec. destruct Hm as [Hm|[-> | ->]]; [by rewrite Hm in Ec|by left|by right].
  - destruct Hl as [Hl _]. by exists fs, ms, lost, tail.
Qed.

(** Nothing on the way and nothing to read: everything is there. *)
Lemma dir_drained max X f b d t :
  v_run X = true -> dir max X (mkView true f b d t) [] -> (try_read_msg f b).2 = Ok None ->
  d = norm_msg <$> concat (v_transmitted X).
Proof.
  intros Hrun Hd Hn. unfold dir in Hd. cbn in Hd. destruct Hd as (fs & ms & lost & tail & Hl & _ & <- & Heq).
  destruct (Heq Hrun) as (-> & -> & ->). apply link_read in Hl. destruct (try_read_msg f b) as [[f' b'] r].
  cbn in Hn. subst r. cbn in Hl. destruct Hl as [_ Hms]. rewrite (Hms eq_refl). cbn. by rewrite app_nil_r.
Qed.

(** The other direction of a framer. *)
Lemma dir_sender_reads max f b d t Y w b' d' net :
  dir max (mkView true f b d t) Y w -> dir max (mkView true (try_read_msg f net).1.1 b' d' t) Y w.
Proof.
  unfold dir. cbn. destruct (v_run Y); [|done]. intros (fs & ms & lost & tail & Hl & Hr & Hd & Heq).
  destruct (Heq eq_refl) as (-> & -> & ->). exists (try_read_msg f net).1.1, ms, [], [].
  split_and!; [by apply link_sender_reads|done..].
Qed.

Lemma dir_receiver_writes max X f b d t t' w msgs :
  dir max X (mkView true f b d t) w -> dir max X (mkView true (write_msg_multipart f msgs).1 b d t') w.
Proof.
  unfold dir. cbn. intros (fs & ms & lost & tail & Hl & Hrest). exists fs, ms, lost, tail. split; [|done].
  by apply link_receiver_writes.
Qed.

End Views.

(** ** A turn of one session *)

Definition is_encrypted {C} (f : DynFramer C) : bool := match f with DynNull _ => false | DynLengthPrefixed _ => true end.

(** Messages the peer can receive: no frame above its limit or marked as a command;
    encrypted, the message fits the 16-bit length. *)
Definition sendable (encrypted : bool) (max : Z) (msgs : list Msg) : Prop :=
  Forall (fun m => Msg.is_command m = false /\ deliverable max m) msgs /\
  (encrypted = true -> zlen (concat (wire <$> msgs)) + 16 < 2 ^ 16).

Definition no_stall (ev : WriteEvent) : Prop := match ev with WStall _ => False | _ => True end.

Lemma read_kind `{Dryoc} `{Snow} (f : DynFramer DynCipher) b : is_encrypted (try_read_msg f b).1.1 = is_encrypted f.
Proof. destruct f as [f|f]; cbn [try_read_msg dyn_framer]; by destruct (try_read_msg f b) as [[? ?] ?]. Qed.

Lemma write_kind `{Dryoc} `{Snow} (f : DynFramer DynCipher) msgs : is_encrypted (write_msg_multipart f msgs).1 = is_encrypted f.
Proof. destruct f as [f|f]; cbn [write_msg_multipart dyn_framer]; by destruct (write_msg_multipart f msgs) as [? ?]. Qed.

Section Turn.
Context `{HD : Dryoc} `{HS : Snow} `{HP : !CipherPair DynCipher} `{HDP : !DuplexPair DynCipher}.
Variable encrypted : bool.
Variables maxX maxY : Z.
Hypothesis Hping : deliverable maxY ping.
Hypothesis Hpong : deliverable maxY pong.
(** The peer, what it has not taken yet, and what is not part of the turn's inbox. *)
Variable Y : view.
Variables out rest : bytes.
Abbreviation handler := ZmtpProtocolHandlerX.

Definition pairing (X : view) (wout win : bytes) : Prop :=
  dir maxY X Y wout /\ dir maxX Y X win /\ (v_run X = true -> is_encrypted (v_framer X) = encrypted).

(** The session is running, with the handler [h]; or it is not. *)
Definition live (d : list Msg) (t : list (list Msg)) (h : handler) (w : World) : Prop :=
  pairing (mkView true (framer h) (network_read_buffer h) d t) (out ++ w_sent w) (inbox_bytes (w_inbox w) ++ rest).

Definition dead (d : list Msg) (t : list (list Msg)) (w : World) : Prop :=
  forall f b win, pairing (mkView false f b d t) (out ++ w_sent w) win.

Lemma live_dead d t h w : live d t h w -> dead d t w.
Proof.
  intros (H1 & H2 & _) f b win. split_and!; [|exact (dir_receiver_stops _ _ _ _ _ _ _ H2)|done].
  eapply (dir_sender_stops _ _ _ _ _ _ _ _ []); [exact H1|]. by rewrite app_nil_r.
Qed.

(** Only these parts of the handler and of the world matter. *)
Lemma live_frame d t h w h' w' :
  framer h' = framer h -> network_read_buffer h' = network_read_buffer h -> w_sent w' = w_sent w -> w_inbox w' = w_inbox w ->
  live d t h w -> live d t h' w'.
Proof. unfold live. by intros -> -> -> ->. Qed.

Lemma dead_frame d t w w' : w_sent w' = w_sent w -> dead d t w -> dead d t w'.
Proof. unfold dead. by intros ->. Qed.

(** Reading. *)
Definition arrived (m : Msg) : list Msg := if Msg.is_command m then [] else [m].

Lemma live_reads d t h w :
  live d t h w ->
  match Handler.frame_check h w with
  | (Done (Some m), h') => live (d ++ arrived m) t h' w /\ (Msg.is_command m = true -> m = norm_msg ping \/ m = norm_msg pong)
  | (Crashed, _) => False
  | (_, h') => live d t h' w
  end.
Proof.
  intros Hl. unfold Handler.frame_check. destruct (_ <? _); [done|]. destruct Hl as (H1 & H2 & H3).
  pose proof (dir_reads _ _ _ _ _ _ _ H2) as Hr.
  assert (Hk := read_kind (framer h) (network_read_buffer h)). specialize (H3 eq_refl). cbn [v_framer] in H3.
  pose proof (fun b' d' => dir_sender_reads _ _ _ _ _ _ _ b' d' (network_read_buffer h) H1) as Hs.
  destruct (try_read_msg (framer h) (network_read_buffer h)) as [[f b] r]. cbn [fst] in Hs, Hk. unfold read_dir in Hr.
  destruct r as [[m|]|er|]; try done; cbn [framer network_read_buffer].
  - destruct Hr as [Hr Hc]. split; [|done]. split_and!; [apply Hs|exact Hr|]. intros _. cbn. by rewrite Hk.
  - split_and!; [apply Hs|exact Hr|]. intros _. cbn. by rewrite Hk.
Qed.

Lemma live_events d t inbox h w :
  live d t h (w <| w_inbox := inbox |>) ->
  match read_events Handler.frame_check Handler.absorb None "data read" inbox h w with
  | (Done m, h', w') => live (d ++ arrived m) t h' w' /\ (Msg.is_command m = true -> m = norm_msg ping \/ m = norm_msg pong)
  | (Crashed, _, _) => False
  | (_, h', w') => live d t h' w'
  end.
Proof.
  assert (Hck : forall h w inbox, Handler.frame_check h (w <| w_inbox := inbox |>) = Handler.frame_check h w)
    by by intros h' [].
  revert h w. induction inbox as [|ev inbox IH]; intros h w Hl; cbn [read_events];
    pose proof (live_reads _ _ _ _ Hl) as Hr; rewrite Hck in Hr;
    destruct (Handler.frame_check h w) as [[[m|]|er| |] h']; try done; cbn [expired].
  destruct ev as [delay [|b c]|delay kind text]; [exact Hr| |exact Hr].
  apply IH. destruct Hr as (H1 & H2 & H3). split_and!; [exact H1| |exact H3].
  eapply dir_absorb. cbn in H2 |- *. rewrite app_assoc. exact H2.
Qed.

Lemma live_frames d t h w :
  live d t h w ->
  match Handler.read_data_frame h w with
  | (Done (Some m), h', w') => live (d ++ arrived m) t h' w' /\ (Msg.is_command m = true -> m = norm_msg ping \/ m = norm_msg pong)
  | (Done None, _, _) => False
  | (Crashed, _, _) => False
  | (_, h', w') => live d t h' w'
  end.
Proof.
  intros Hl. unfold Handler.read_data_frame, mbind, proc_bind, Handler.need_stream. cbn [get].
  destruct (h_stream h) eqn:Est; [|by unfold mbind, proc_bind; cbn; rewrite Est].
  unfold mbind, proc_bind. cbn [get]. rewrite Est. cbn [mret proc_ret]. unfold read_until.
  pose proof (live_events d t (w_inbox w) h w) as He.
  destruct (read_events _ _ _ _ _ _ _) as [[[m|er| |] h'] w']; apply He; by destruct w.
Qed.

(** Writing. *)
Definition adds (t t' : list (list Msg)) (msgs : list Msg) : Prop :=
  norm_msg <$> concat t' = (norm_msg <$> concat t) ++ payloads msgs.

Lemma live_stops d t h w t' msgs : live d t h w -> adds t t' msgs -> dead d t' w.
Proof.
  intros Hl Ha f b win. destruct (live_dead _ _ _ _ Hl f b win) as (H1 & H2 & _). split_and!; [|exact H2|done].
  eapply dir_sender_stops; [exact H1|exact Ha].
Qed.

(** What a session may write. *)
Definition writable (msgs : list Msg) : Prop :=
  Forall (deliverable maxY) msgs /\ Forall regular msgs /\ (encrypted = true -> zlen (concat (wire <$> msgs)) + 16 < 2 ^ 16).

Lemma sendable_writable msgs : sendable encrypted maxY msgs -> writable msgs /\ payloads msgs = norm_msg <$> msgs.
Proof.
  intros [Hm Hs]. split; [split_and!; [|  |done]; eapply Forall_impl; try done|apply payloads_data; eapply Forall_impl; try done];
    cbn; intros m [? ?]; [done|by left|done].
Qed.

Lemma heartbeat_writable : writable [ping] /\ writable [pong].
Proof.
  split; (split_and!; [by constructor|constructor; [|done]; right; by (left + right)|intros _; vm_compute; done]).
Qed.

Lemma live_written d t t' msgs h w f data (h' : handler) :
  live d t h w -> writable msgs -> adds t t' msgs -> write_msg_multipart (framer h) msgs = (f, Ok data) ->
  (forall w', w_sent w' = w_sent w ++ data -> w_inbox w' = w_inbox w -> framer h' = f ->
     network_read_buffer h' = network_read_buffer h -> live d t' h' w') /\
  (forall w' n, w_sent w' = w_sent w ++ take n data -> dead d t' w').
Proof.
  intros (H1 & H2 & H3) (Hdel & Hreg & Hsz) Ha Ew. specialize (H3 eq_refl). cbn [v_framer] in H3.
  assert (Hfit : fits_frame (framer h) msgs).
  { destruct (framer h); [done|]. apply Hsz. by rewrite <- H3. }
  destruct (dir_writes _ _ _ _ _ _ _ _ _ _ (network_read_buffer h) d t' H1 Ew Hfit Hdel Hreg Ha) as [Hok Hpart].
  pose proof (dir_receiver_writes _ _ _ _ _ _ t' _ msgs H2) as Hr. rewrite Ew in Hr.
  pose proof (write_kind (framer h) msgs) as Hk. rewrite Ew in Hk. cbn in Hr, Hk. split.
  - intros w' E1 E2 E3 E4. unfold live. rewrite E1, E2, E3, E4, app_assoc. split_and!; [exact Hok|exact Hr|].
    intros _. cbn. by rewrite Hk.
  - intros w' n E f' b win. rewrite E, app_assoc. split_and!; [apply Hpart| |done].
    exact (dir_receiver_stops _ _ _ _ f' b win H2).
Qed.

Lemma live_writes d t t' msgs h w :
  live d t h w -> Forall no_stall (w_writes w) -> writable msgs -> adds t t' msgs ->
  match Handler.write_data_msgs msgs h w with
  | (Done _, h', w') => live d t' h' w'
  | (Pending, _, _) => False
  | (_, _, w') => dead d t' w'
  end.
Proof.
  intros Hl Hst Hwr Ha. pose proof (live_stops _ _ _ _ _ _ Hl Ha) as Hdead.
  unfold Handler.write_data_msgs. destruct msgs as [|m msgs].
  { destruct Hl as (H1 & H2 & H3). split_and!; [|exact H2|exact H3]. eapply dir_transmitted; [exact H1|].
    unfold adds in Ha. cbn in Ha. by rewrite app_nil_r in Ha. }
  destruct (h_stream h) eqn:Es; [|by erewrite bind_failed by by apply stream_gone].
  erewrite bind_done by by apply stream_there. unfold mbind at 1, proc_bind at 1. cbn [get].
  destruct (write_msg_multipart (framer h) (m :: msgs)) as [f [data|er|]] eqn:Ew; [|exact Hdead..].
  unfold mbind at 1, proc_bind at 1. cbn [modify]. unfold mbind at 1, proc_bind at 1. cbn [lift]. destruct w as [inbox writes corks sent tm].
  destruct (cork_spec true (h <| framer := f |>) inbox writes corks sent tm) as (ci & corks1 & Ec).
  rewrite (bind_done _ _ _ _ _ _ _ Ec). unfold mbind at 1, proc_bind at 1, try_write. cbn [w_writes] in Hst |- *.
  destruct (default WOk (head writes)) as [|n kind text|n|n] eqn:Eev.
  - unfold mbind at 1, proc_bind at 1. unfold Handler.record_activity, mbind at 1, proc_bind at 1. cbn [now modify w_now].
    cbn. destruct (uncork_spec (Handler.activity tm (h <| framer := f |> <| cork_info := ci |>)) inbox (tail writes) corks1
      (sent ++ take (length data) data) tm) as (ci2 & corks2 & Eu).
    erewrite bind_done by exact Eu. cbn.
    eapply live_written; [exact Hl|exact Hwr|exact Ha|exact Ew|cbn; by rewrite firstn_all|done..].
  - unfold mbind at 1, proc_bind at 1. unfold Handler.record_activity, mbind at 1, proc_bind at 1. cbn [now modify w_now].
    cbn. destruct (uncork_spec (Handler.activity tm (h <| framer := f |> <| cork_info := ci |>)) inbox (tail writes) corks1
      (sent ++ take n data) tm) as (ci2 & corks2 & Eu).
    erewrite bind_done by exact Eu. cbn.
    eapply (live_written _ _ _ _ _ _ _ _ h); [exact Hl|exact Hwr|exact Ha|exact Ew|done].
  - cbn. eapply (live_written _ _ _ _ _ _ _ _ h); [exact Hl|exact Hwr|exact Ha|exact Ew|done].
  - destruct writes as [|ev writes]; [done|]. cbn in Eev. subst ev. by apply Forall_cons in Hst as [[] _].
Qed.

Lemma live_command d t m h w :
  live d t h w -> Forall no_stall (w_writes w) -> m = ping \/ m = pong ->
  match Handler.write_data_msg m h w with
  | (Done _, h', w') => live d t h' w'
  | (Pending, _, _) => False
  | (_, _, w') => dead d t w'
  end.
Proof.
  intros Hl Hst Hm. unfold Handler.write_data_msg, mbind, proc_bind.
  assert (Hwr : writable [m] /\ payloads [m] = []) by (destruct heartbeat_writable; by destruct Hm as [-> | ->]).
  destruct Hwr as [Hwr Hp]. pose proof (live_writes d t t [m] h w Hl Hst Hwr) as Hw. unfold adds in Hw. rewrite Hp, app_nil_r in Hw.
  specialize (Hw eq_refl). by destruct (Handler.write_data_msgs [m] h w) as [[[[]|er| |] h'] w'].
Qed.

Lemma live_ping d t h w :
  live d t h w -> Forall no_stall (w_writes w) ->
  match Handler.try_send_ping h w with
  | (Done _, h', w') => live d t h' w'
  | (Pending, _, _) => False
  | (_, _, w') => dead d t w'
  end.
Proof.
  intros Hl Hst. unfold Handler.try_send_ping, mbind, proc_bind. cbn [get]. destruct (Handler.is_v2_session h); [done|].
  cbn [now]. destruct (Heartbeat.should_send_ping _ _); [|done].
  pose proof (live_command d t ping h w Hl Hst (or_introl eq_refl)) as Hw. unfold ping in Hw.
  by destruct (Handler.write_data_msg _ h w) as [[[b|er| |] h'] w'].
Qed.

(** ... of the session *)
Context `{HF : Queue.Fibre} {HFL : Queue.FibreLaws} {L : Type} `{HL : SocketLogic L} `{HI : Interval}.
Variable e : bytes.
(** The messages its core has put into its channel. *)
Variable accepted : list (list Msg).
Abbreviation session := (SessionConnectionActorX L).

Definition queue_ok (s : session) : Prop :=
  is_attached (core_pipe_manager s) = true /\
  exists c, rx_from_core (core_pipe_manager s) = Some c /\ accepted = transmitted s ++ Queue.items c /\
    Forall (sendable encrypted maxY) (Queue.items c).

Definition running (s : session) (w : World) : Prop :=
  current_phase s = POperational /\ live (delivered s) (transmitted s) (zmtp_handler s) w /\ queue_ok s.

Definition stopped (s : session) (w : World) : Prop :=
  dead (delivered s) (transmitted s) w /\ transmitted s `prefix_of` accepted.

Definition shut (s : session) : Prop := current_phase s = PShuttingDownStream \/ current_phase s = PTerminating.

(** How a turn ends. *)
Definition good {A} (x : outcome A * session * World) : Prop :=
  match x with
  | (Done _, s, w) | (Pending, s, w) => running s w \/ shut s /\ stopped s w
  | (_, s, w) => stopped s w
  end.

Lemma running_stopped s w : running s w -> stopped s w.
Proof.
  intros (_ & Hl & _ & c & _ & Hacc & _). split; [by eapply live_dead|by eexists].
Qed.

Lemma stopped_frame (s s' : session) w w' :
  delivered s' = delivered s -> transmitted s' = transmitted s -> w_sent w' = w_sent w -> stopped s w -> stopped s' w'.
Proof. unfold stopped. intros -> -> E [Hd Hp]. split; [by eapply dead_frame|done]. Qed.

Lemma good_closing error s w :
  current_phase s = POperational -> stopped s w -> good (Session.transition_to_shutdown_stream error s w).
Proof.
  intros Hp Hs. rewrite transition_eq. right. unfold closing, shut. rewrite Hp. split; [by left|].
  eapply stopped_frame; [| |done|exact Hs]; destruct error; try done; unfold Session.or_error; by destruct (error_for_drop_guard s).
Qed.

Lemma good_fatal error s w :
  current_phase s = POperational -> stopped s w -> good (Session.set_fatal_error error s w).
Proof.
  intros Hp Hs. destruct (fatal_eq error s w) as (h' & corks' & -> & _). right. unfold closing, shut.
  destruct (or_error_fields error s) as (E1 & _). cbn. rewrite E1, Hp. split; [by left|].
  eapply stopped_frame; [| | |exact Hs]; try done; cbn; unfold Session.or_error; by destruct (error_for_drop_guard s).
Qed.

(** [match m.await { Err(e) => fatal, .. }] around an operation of the handler. *)
Lemma good_attempt {A} (m : proc handler A) s w :
  current_phase s = POperational ->
  match m (zmtp_handler s) w with
  | (Done _, h', w') => running (s <| zmtp_handler := h' |>) w'
  | (Pending, _, _) => False
  | (_, _, w') => stopped s w'
  end ->
  good ((r ← Session.attempt (Session.on_handler m);
         match r with Err e => Session.set_fatal_error e | _ => mret tt end) s w).
Proof.
  intros Hp Hm. unfold mbind, proc_bind, Session.attempt, Session.on_handler.
  destruct (m (zmtp_handler s) w) as [[r h'] w']. destruct r as [a|er| |]; [by left| |exact Hm|done].
  apply good_fatal; [done|]. by eapply stopped_frame; [| | |exact Hm].
Qed.

Lemma running_handler s w h' w' :
  running s w -> live (delivered s) (transmitted s) h' w' -> running (s <| zmtp_handler := h' |>) w'.
Proof. intros (Hp & _ & Hq) Hl. by split_and!. Qed.

Lemma good_early r s w t arm :
  running s w -> Forall no_stall (w_writes w) -> Session.early_arm r s t = Some arm -> good (arm s w).
Proof.
  intros Hrun Hst. pose proof (running_stopped _ _ Hrun) as Hs. pose proof Hrun as (Hp & Hl & Ha & Hq). unfold Session.early_arm.
  destruct (r_command r) as [[command|]|].
  { intros [= <-]. destruct command as [| | | | | | | | | | | | | |id rx routing]; try (left; exact Hrun); [by apply good_closing|].
    unfold Session.process_command, mbind, proc_bind. cbn [get]. destruct (negb _); [by left|]. rewrite Ha. by left. }
  { intros [= <-]. by apply good_closing. }
  destruct (r_event r) as [[event|[n|]]|]; [|intros [= <-]; by apply good_fatal..|].
  { intros [= <-]. destruct event; try (left; exact Hrun); [by apply good_closing|].
    unfold Session.process_system_event, mbind, proc_bind. cbn [get]. destruct (_ =? _); [by apply good_closing|by left]. }
  destruct (Session.due (Session.handshake_timeout s) t); [intros [= <-]; by apply good_fatal|].
  destruct (Session.due (Session.ping_tick s) t).
  - intros [= <-]. set (s1 := s <| ping_check_timer := (fun '(tick, period) => (next_tick tick t period, period)) <$> ping_check_timer s |>).
    change (good ((r ← Session.attempt (Session.on_handler Handler.try_send_ping);
      match r with Err e => Session.set_fatal_error e | _ => mret tt end) s1 w)).
    apply good_attempt; [done|]. pose proof (live_ping _ _ _ _ Hl Hst) as Hw. change (zmtp_handler s1) with (zmtp_handler s).
    destruct (Handler.try_send_ping (zmtp_handler s) w) as [[[[]|er| |] h'] w']; try done; (split; [exact Hw|apply Hs]).
  - destruct (Session.due (Session.pong_deadline s) t); [|done]. intros [= <-]. unfold mbind, proc_bind. cbn [get now].
    destruct (Heartbeat.has_pong_timed_out _ _); [by apply good_fatal|by left].
Qed.

Lemma good_core s w : running s w -> Forall no_stall (w_writes w) -> good (Session.core_arm s w).
Proof.
  intros Hrun Hst. pose proof Hrun as (Hp & Hl & Ha & c & Hc & Hacc & Hq). unfold Session.core_arm.
  rewrite bool_decide_true by done. rewrite Ha. cbn [andb]. unfold CorePipeManagerX.recv_from_core. rewrite Hc.
  destruct (Queue.items c) as [|msgs l] eqn:Ei.
  - rewrite (Queue.try_recv_empty c Ei).
    assert (Hrun' : running (s <| core_pipe_manager := mkPipes _ (Some c) (core_pipe_read_id_for_incoming_routing (core_pipe_manager s))
      (is_attached (core_pipe_manager s)) |>) w) by (split; [done|split; [exact Hl|split; [done|exists c; by rewrite Ei]]]).
    destruct (Queue.closed c); [|by left]. apply good_closing; [done|by apply running_stopped].
  - destruct (Queue.try_recv_item msgs c l Ei) as (E1 & E2 & _ & _). destruct (Queue.try_recv c) as [c' o]. cbn in E1, E2. subst o.
    apply Forall_cons in Hq as [Hm Hq]. destruct (sendable_writable _ Hm) as [Hwr Hpay].
    set (s1 := s <| core_pipe_manager := _ |>). set (s2 := s1 <| transmitted := transmitted s1 ++ [msgs] |>).
    apply good_attempt; [done|]. change (zmtp_handler s2) with (zmtp_handler s).
    assert (Hadd : adds (transmitted s) (transmitted s ++ [msgs]) msgs).
    { unfold adds. rewrite Hpay, concat_app, fmap_app. cbn [concat]. by rewrite app_nil_r. }
    assert (Hacc2 : accepted = transmitted s2 ++ l) by (cbn; by rewrite Hacc, <- app_assoc).
    pose proof (live_writes _ _ _ _ _ _ Hl Hst Hwr Hadd) as Hw.
    destruct (Handler.write_data_msgs msgs (zmtp_handler s) w) as [[[[]|er| |] h'] w']; try done.
    + split; [done|]. split; [exact Hw|]. split; [done|]. exists c'. rewrite E2. by split_and!.
    + split; [exact Hw|by exists l].
    + split; [exact Hw|by exists l].
Qed.

Lemma good_incoming m s w :
  current_phase s = POperational -> queue_ok s -> Forall no_stall (w_writes w) ->
  live (delivered s ++ arrived m) (transmitted s) (zmtp_handler s) w ->
  (Msg.is_command m = true -> m = norm_msg ping \/ m = norm_msg pong) -> good (Session.handle_incoming_from_network m s w).
Proof.
  intros Hp Hq Hst Hl Hm. pose proof Hq as (_ & c & _ & Hacc & _).
  unfold Session.handle_incoming_from_network, mbind, proc_bind. cbn [get lift]. unfold arrived in Hl.
  destruct (core_pipe_read_id_for_incoming_routing (core_pipe_manager s)) as [routing|].
  2:{ split; [|by eexists]. apply live_dead in Hl. intros f b win. destruct (Hl f b win) as (H1 & H2 & H3).
      split_and!; [exact H1| |done]. cbn in H2 |- *. unfold dir in *. cbn in *. etrans; [|exact H2]. by eexists. }
  destruct (Msg.is_command m) eqn:Ec.
  - rewrite app_nil_r in Hl. assert (Hrun : running s w) by by split_and!.
    destruct (Handler.is_v2_session _); [apply good_fatal; [done|by apply running_stopped]|].
    destruct (Hm eq_refl) as [-> | ->].
    + change (Handler.process_heartbeat_command (norm_msg ping) (zmtp_handler s)) with (zmtp_handler s, Ok (Some pong)).
      cbn [modify]. apply (good_attempt (Handler.write_data_msg pong)); [done|]. cbn [zmtp_handler].
      pose proof (live_command _ _ pong _ _ Hl Hst (or_intror eq_refl)) as Hw. unfold good.
      change (zmtp_handler (s <| zmtp_handler := zmtp_handler s |>)) with (zmtp_handler s).
      destruct (Handler.write_data_msg pong (zmtp_handler s) w) as [[[[]|er| |] h'] w']; try done;
        (split; [exact Hw|by eexists]).
    + change (Handler.process_heartbeat_command (norm_msg pong) (zmtp_handler s)) with
        ((zmtp_handler s) <| heartbeat_state := Heartbeat.pong_received (heartbeat_state (zmtp_handler s)) |>, Ok (@None Msg)).
      left. by split_and!.
  - destruct (logic_handle_pipe_event routing m (socket_logic s)) as [l r]. cbn [modify].
    set (s1 := s <| socket_logic := l |> <| delivered := _ |>).
    assert (Hrun : running s1 w) by by split_and!.
    destruct r as [[]|er|]; [by left| |by apply running_stopped]. apply good_fatal; [done|by apply running_stopped].
Qed.

Lemma events_writes inbox (h : handler) w :
  w_writes (read_events Handler.frame_check Handler.absorb None "data read" inbox h w).2 = w_writes w.
Proof.
  revert h w. induction inbox as [|ev inbox IH]; intros h w; cbn [read_events];
    destruct (Handler.frame_check h w) as [[[m|]|er| |] h']; try done; cbn [expired].
  destruct ev as [delay [|b c]|delay kind text]; [done| |done]. by rewrite IH.
Qed.

Lemma frame_writes (h : handler) w : w_writes (Handler.read_data_frame h w).2 = w_writes w.
Proof.
  unfold Handler.read_data_frame. destruct (h_stream h) eqn:Es; [|by erewrite bind_failed by by apply stream_gone].
  erewrite bind_done by by apply stream_there. unfold mbind, proc_bind, read_until.
  pose proof (events_writes (w_inbox w) h w) as Hw. by destruct (read_events _ _ _ _ _ _ _) as [[[m|er| |] h'] w'].
Qed.

Lemma good_select r s w : running s w -> Forall no_stall (w_writes w) -> good (Session.select e r s w).
Proof.
  intros Hrun Hst. unfold Session.select.
  destruct (if r_polled r then None else Session.early_arm r s (w_now w)) as [arm|] eqn:Ee.
  { destruct (r_polled r); [done|]. by eapply good_early. }
  assert (Hlate : forall s1 w1, running s1 w1 -> Forall no_stall (w_writes w1) ->
    let w2 := w1 <| w_now := Z.max (w_now w1) (r_now r) |> in
    good (match Session.early_arm r s1 (w_now w2) with Some arm => arm s1 w2 | None => Session.core_arm s1 w2 end)).
  { intros s1 w1 Hrun1 Hst1 w2. destruct (Session.early_arm r s1 (w_now w2)) as [arm|] eqn:Ea; [by eapply good_early|by apply good_core]. }
  unfold Session.poll_network. destruct (Session.network_enabled s); [|by apply Hlate].
  pose proof Hrun as (Hp & Hl & Hq). rewrite Hp. unfold Session.on_handler, Session.do_network_read_work, mbind, proc_bind.
  pose proof (live_frames _ _ _ _ Hl) as Hf. pose proof (frame_writes (zmtp_handler s) w) as Hw.
  destruct (Handler.read_data_frame (zmtp_handler s) w) as [[[[m|]|er| |] h'] w']; try done; cbn [snd] in Hw; rewrite <- Hw in Hst.
  - destruct Hf as [Hf Hm]. by apply good_incoming.
  - assert (Hs : stopped (s <| zmtp_handler := h' |>) w') by (apply running_stopped; by split_and!).
    cbn [Session.network_arm]. destruct er; try by apply good_fatal. by apply good_closing.
  - apply Hlate; [|done]. by split_and!.
Qed.

(** A session that runs ends its turn running or shut, and a session that is shut
    stays shut. *)
Lemma good_iteration r s w :
  running s w \/ shut s /\ stopped s w -> Forall no_stall (w_writes w) -> good (Session.iteration e r s w).
Proof.
  intros [Hrun|[Hsh Hs]] Hst; unfold Session.iteration.
  - pose proof Hrun as [-> _]. by apply good_select.
  - destruct Hsh as [-> | Ep].
    + destruct (graceful_eq s w) as (h' & corks' & -> & _). right. split; [by right|]. by eapply stopped_frame; [| | |exact Hs].
    + rewrite Ep. right. split; [by right|done].
Qed.

End Turn.

(** ** Two sessions *)

Section Pair.
Context `{HD : Dryoc} `{HS : Snow} `{HP : !CipherPair DynCipher} `{HDP : !DuplexPair DynCipher}.
Context `{HF : Queue.Fibre} {HFL : Queue.FibreLaws} `{HI : Interval}.

Record node (L : Type) := mkNode {
  n_session : SessionConnectionActorX L;
  n_alive : bool;                      (** its task has not panicked *)
  n_accepted : list (list Msg);        (** what its core has put into its channel *)
}.
#[global] Arguments mkNode {L} _ _ _.
#[global] Arguments n_session {L} _.
#[global] Arguments n_alive {L} _.
#[global] Arguments n_accepted {L} _.

Definition ongoing {A} (o : outcome A) : bool := match o with Done _ | Pending => true | _ => false end.

Section Node.
Context {L : Type} {HL : SocketLogic L}.
Variable encrypted : bool.
Variable max_peer : Z.
Variable e : bytes.

(** A node with the octets it has written and those written to it. *)
Inductive node_step : node L * bytes * bytes -> node L * bytes * bytes -> Prop :=
  | node_turn s acc r w o s' w' wout rest :
      Session.iteration e r s w = (o, s', w') -> w_sent w = [] -> Forall no_stall (w_writes w) ->
      node_step (mkNode s true acc, wout, inbox_bytes (w_inbox w) ++ rest)
                (mkNode s' (ongoing o) acc, wout ++ w_sent w', inbox_bytes (w_inbox w') ++ rest)
  | node_fed s alive acc elapsed sndtimeo msgs c c' r wout win :
      rx_from_core (core_pipe_manager s) = Some c -> sendable encrypted max_peer msgs ->
      ScaConnectionIface.send_multipart elapsed sndtimeo msgs (Some c) = (Some c', r) ->
      node_step (mkNode s alive acc, wout, win)
                (mkNode (s <| core_pipe_manager := mkPipes _ (Some c')
                            (core_pipe_read_id_for_incoming_routing (core_pipe_manager s)) (is_attached (core_pipe_manager s)) |>)
                   alive (match r with Some (Ok _) => acc ++ [msgs] | _ => acc end), wout, win).

Definition node_running (n : node L) : bool := n_alive n && bool_decide (current_phase (n_session n) = POperational).

Definition view_of (n : node L) : view :=
  mkView (node_running n) (framer (zmtp_handler (n_session n))) (network_read_buffer (zmtp_handler (n_session n)))
    (delivered (n_session n)) (transmitted (n_session n)).

Definition node_ok (n : node L) : Prop :=
  (if node_running n
   then is_encrypted (framer (zmtp_handler (n_session n))) = encrypted /\ queue_ok encrypted max_peer (n_accepted n) (n_session n)
   else n_alive n = true -> shut (n_session n)) /\
  transmitted (n_session n) `prefix_of` n_accepted n.

Lemma send_items elapsed sndtimeo (msgs : list Msg) c c' r :
  ScaConnectionIface.send_multipart elapsed sndtimeo msgs (Some c) = (Some c', r) ->
  Queue.items c' = Queue.items c ++ match r with Some (Ok _) => [msgs] | _ => [] end.
Proof.
  unfold ScaConnectionIface.send_multipart. destruct (Queue.closed c) eqn:Ec.
  - rewrite Queue.try_send_closed by done. intros [= <- <-]. by rewrite app_nil_r.
  - destruct (Z.ltb_spec (zlen (Queue.items c)) (Queue.capacity c)) as [Hlt|Hge].
    + destruct (Queue.try_send_room msgs c Ec Hlt) as (E1 & E2 & _). destruct (Queue.try_send msgs c) as [c1 o]. cbn in E1, E2.
      subst o. by intros [= <- <-].
    + rewrite Queue.try_send_full by done. intros [= <- <-].
      destruct (_ || _); by rewrite app_nil_r.
Qed.

Lemma node_keeps max_own Y n wout win n' wout' win' :
  deliverable max_peer ping -> deliverable max_peer pong ->
  node_step (n, wout, win) (n', wout', win') -> node_ok n ->
  dir max_peer (view_of n) Y wout -> dir max_own Y (view_of n) win ->
  node_ok n' /\ dir max_peer (view_of n') Y wout' /\ dir max_own Y (view_of n') win'.
Proof.
  intros Hping Hpong Hstep [Hok Hpre] H1 H2.
  inversion Hstep as [s acc r w o s' w' ? rest Hit Hsent Hst|s alive acc elapsed sndtimeo msgs c c' r ? ? Hc Hm Hsend]; subst.
  - assert (Hs : running encrypted max_own max_peer Y wout rest acc s w \/
                 shut s /\ stopped encrypted max_own max_peer Y wout acc s w).
    { unfold node_running, view_of, node_running in *. cbn in *.
      destruct (bool_decide_reflect (current_phase s = POperational)) as [Hp|Hp].
      - left. destruct Hok as [Henc Hq]. split; [done|]. split; [|done]. unfold live. rewrite Hsent, app_nil_r. by split_and!.
      - right. split; [by apply Hok|]. split; [|done]. intros f b wi. rewrite Hsent, app_nil_r.
        split_and!; [|exact (dir_receiver_stops _ _ _ _ f b wi H2)|done].
        eapply (dir_sender_stops _ _ _ _ _ _ _ _ []); [exact H1|]. by rewrite app_nil_r. }
    pose proof (good_iteration encrypted max_own max_peer Hping Hpong Y wout rest e acc r s w Hs Hst) as Hg. rewrite Hit in Hg.
    assert (Hrun : running encrypted max_own max_peer Y wout rest acc s' w' ->
      node_ok (mkNode s' true acc) /\ dir max_peer (view_of (mkNode s' true acc)) Y (wout ++ w_sent w') /\
      dir max_own Y (view_of (mkNode s' true acc)) (inbox_bytes (w_inbox w') ++ rest)).
    { intros Hr. pose proof (running_stopped _ _ _ _ _ _ _ _ _ Hr) as [_ Hpre'].
      destruct Hr as (Hp & (D1 & D2 & D3) & Hq). unfold node_ok, view_of, node_running. cbn. rewrite bool_decide_true by done.
      split; [|done]. split; [|done]. split; [by apply D3|done]. }
    assert (Hstop : forall alive', (alive' = true -> shut s') -> stopped encrypted max_own max_peer Y wout acc s' w' ->
      node_ok (mkNode s' alive' acc) /\ dir max_peer (view_of (mkNode s' alive' acc)) Y (wout ++ w_sent w') /\
      dir max_own Y (view_of (mkNode s' alive' acc)) (inbox_bytes (w_inbox w') ++ rest)).
    { intros alive' Hal [Hd Hpre']. destruct (Hd (framer (zmtp_handler s')) (network_read_buffer (zmtp_handler s'))
        (inbox_bytes (w_inbox w') ++ rest)) as (D1 & D2 & _).
      assert (Hnr : alive' && bool_decide (current_phase s' = POperational) = false).
      { destruct alive'; [|done]. destruct (Hal eq_refl) as [-> | ->]; done. }
      unfold node_ok, view_of, node_running. cbn. rewrite Hnr. by split_and!. }
    destruct o as [a|er| |]; cbn [ongoing]; [|by apply Hstop..|]; (destruct Hg as [Hg|[Hsh Hg]]; [by apply Hrun|by apply Hstop]).
  - split; [|split; [exact H1|exact H2]]. apply send_items in Hsend. split; cbn in *.
    + unfold node_running in *. cbn in *. destruct (alive && _); [|done]. destruct Hok as (Henc & Ha & c0 & Hc0 & Hacc & Hq).
      rewrite Hc in Hc0. injection Hc0 as <-. split; [done|]. split; [done|]. exists c'. split; [done|]. rewrite Hsend.
      destruct r as [[[]| |]|]; rewrite ?app_nil_r; try by split. split; [by rewrite Hacc, app_assoc|]. apply Forall_app. by split; [|constructor].
    + destruct r as [[[]| |]|]; [by apply prefix_app_r|done..].
Qed.

End Node.

(** ** The pair *)

Section System.
Context {LA LB : Type} {HLA : SocketLogic LA} {HLB : SocketLogic LB}.
Variable encrypted : bool.
Variables maxA maxB : Z.
Variables eA eB : bytes.

Definition pair_state : Type := node LA * node LB * bytes * bytes.

Inductive pair_step : pair_state -> pair_state -> Prop :=
  | step_a a b ab ba a' ab' ba' :
      node_step encrypted maxB eA (a, ab, ba) (a', ab', ba') -> pair_step (a, b, ab, ba) (a', b, ab', ba')
  | step_b a b ab ba b' ab' ba' :
      node_step encrypted maxA eB (b, ba, ab) (b', ba', ab') -> pair_step (a, b, ab, ba) (a, b', ab', ba').

Definition pair_inv (p : pair_state) : Prop :=
  let '(a, b, ab, ba) := p in
  node_ok encrypted maxB a /\ node_ok encrypted maxA b /\
  dir maxB (view_of a) (view_of b) ab /\ dir maxA (view_of b) (view_of a) ba.

(** An operational session that has not transmitted or received anything. *)
Definition fresh_session {L} (s : SessionConnectionActorX L) : Prop :=
  current_phase s = POperational /\ is_attached (core_pipe_manager s) = true /\
  (exists c, rx_from_core (core_pipe_manager s) = Some c /\ Queue.items c = []) /\
  network_read_buffer (zmtp_handler s) = [] /\ delivered s = [] /\ transmitted s = [].

Definition connected (a : SessionConnectionActorX LA) (b : SessionConnectionActorX LB) : Prop :=
  fresh_session a /\ fresh_session b /\ is_encrypted (framer (zmtp_handler a)) = encrypted /\
  channel maxB (framer (zmtp_handler a)) (framer (zmtp_handler b)) /\
  channel maxA (framer (zmtp_handler b)) (framer (zmtp_handler a)).

Lemma channel_kind max (f g : DynFramer DynCipher) : channel max f g -> is_encrypted g = is_encrypted f.
Proof. by destruct f, g. Qed.

Lemma fresh_ok {L} max (s : SessionConnectionActorX L) :
  fresh_session s -> is_encrypted (framer (zmtp_handler s)) = encrypted -> node_ok encrypted max (mkNode s true []).
Proof.
  intros (Hp & Ha & (c & Hc & Hi) & _ & _ & Ht) He. split; [|cbn; by rewrite Ht].
  unfold node_running. cbn. rewrite bool_decide_true by done. split; [done|]. split; [done|]. exists c. by rewrite Hi, Ht.
Qed.

Lemma fresh_dir {L L'} max (s : SessionConnectionActorX L) (s' : SessionConnectionActorX L') :
  fresh_session s -> fresh_session s' -> channel max (framer (zmtp_handler s)) (framer (zmtp_handler s')) ->
  dir max (view_of (mkNode s true [])) (view_of (mkNode s' true [])) [].
Proof.
  intros (Hp & _ & _ & _ & _ & Ht) (Hp' & _ & _ & Hb & Hd & _) Hc. unfold dir, view_of, node_running. cbn.
  rewrite (bool_decide_true (current_phase s' = _)) by done. rewrite Ht, Hb, Hd.
  exists (framer (zmtp_handler s)), [], [], []. split; [by apply link_fresh|done].
Qed.

Lemma connected_inv a b : connected a b -> pair_inv (mkNode a true [], mkNode b true [], [], []).
Proof.
  intros (Ha & Hb & He & Hab & Hba). pose proof (channel_kind _ _ _ Hab) as Hk.
  split_and!; [by apply fresh_ok|apply fresh_ok; [done|congruence]|by apply fresh_dir..].
Qed.

Lemma reachable_pair p q :
  deliverable maxA ping -> deliverable maxA pong -> deliverable maxB ping -> deliverable maxB pong ->
  pair_inv p -> rtc pair_step p q -> pair_inv q.
Proof.
  intros H1 H2 H3 H4 Hp Hr. refine (rtc_invariant pair_step pair_inv _ _ Hr Hp _).
  intros x y Hi Hs. inversion Hs as [a b ab ba a' ab' ba' Hn|a b ab ba b' ab' ba' Hn]; subst.
  - destruct Hi as (Na & Nb & Dab & Dba). destruct (node_keeps _ _ _ _ _ _ _ _ _ _ _ H3 H4 Hn Na Dab Dba) as (? & ? & ?). by split_and!.
  - destruct Hi as (Na & Nb & Dab & Dba). destruct (node_keeps _ _ _ _ _ _ _ _ _ _ _ H1 H2 Hn Nb Dba Dab) as (? & ? & ?). by split_and!.
Qed.

(** A sender with nothing left and a receiver that waits. *)
Definition drained {L} (s : SessionConnectionActorX L) : Prop :=
  (CorePipeManagerX.recv_from_core (core_pipe_manager s)).2 = None.

Definition waiting {L} (s : SessionConnectionActorX L) : Prop :=
  exists t h w, Handler.read_data_frame (zmtp_handler s) (mkWorld [] [] [] [] t) = (Pending, h, w).

Lemma waiting_reads {L} (s : SessionConnectionActorX L) :
  waiting s -> (try_read_msg (framer (zmtp_handler s)) (network_read_buffer (zmtp_handler s))).2 = Ok None.
Proof.
  intros (t & h & w & E). unfold Handler.read_data_frame in E.
  destruct (h_stream (zmtp_handler s)) eqn:Es; [|by erewrite bind_failed in E by by apply stream_gone].
  erewrite bind_done in E by by apply stream_there. unfold mbind, proc_bind, read_until in E. cbn [w_inbox read_events] in E.
  unfold Handler.frame_check in E. destruct (_ <? _); [done|].
  destruct (try_read_msg _ _) as [[f b] [[m|]|er|]]; try done.
Qed.

Lemma drained_all {L} max (n : node L) :
  node_ok encrypted max n -> node_running n = true -> drained (n_session n) -> transmitted (n_session n) = n_accepted n.
Proof.
  intros [Hok _] Hr Hd. rewrite Hr in Hok. destruct Hok as (_ & _ & c & Hc & Hacc & _). unfold drained, CorePipeManagerX.recv_from_core in Hd.
  rewrite Hc in Hd. rewrite Hacc. destruct (Queue.items c) as [|m l] eqn:Ei; [by rewrite app_nil_r|].
  destruct (Queue.try_recv_item m c l Ei) as (E & _). destruct (Queue.try_recv c) as [c' o]. cbn in E, Hd. by subst o.
Qed.

(** One direction, in terms of what the core handed over. *)
Lemma direction_delivers {L L'} max max' (X : node L) (Y : node L') w :
  node_ok encrypted max X -> dir max' (view_of X) (view_of Y) w ->
  delivered (n_session Y) `prefix_of` (norm_msg <$> concat (n_accepted X)) /\
  (node_running X = true -> node_running Y = true -> w = [] -> drained (n_session X) -> waiting (n_session Y) ->
   delivered (n_session Y) = norm_msg <$> concat (n_accepted X)).
Proof.
  intros Hok Hd. split.
  - apply dir_prefix in Hd. etrans; [exact Hd|]. destruct Hok as [_ [l ->]]. cbn. rewrite concat_app, fmap_app. by eexists.
  - intros HX HY -> Hdr Hw. rewrite <- (drained_all max X Hok HX Hdr). unfold view_of in Hd at 2. rewrite HY in Hd.
    by apply (dir_drained max' (view_of X) _ _ _ _ HX Hd), waiting_reads.
Qed.

End System.
End Pair.

(** ** Properties *)


Section Run.
#[local] Existing Instance Queue.list_fibre.
#[local] Existing Instance toy_dryoc.
#[local] Existing Instance toy_snow.
#[local] Existing Instance taking.
#[local] Existing Instance steady.
#[local] Existing Instance toy_laws.
#[local] Existing Instance toy_xx.
#[local] Instance toy_duplex : @SnowDuplex toy_snow toy_xx.
Proof. split; [done|done|]. intros [] pt n [] o ct k [] p E1 E2. cbn in *. by eexists _, _. Qed.
#[local] Existing Instance Queue.list_fibre_laws.

(** Two sockets without security complete their handshakes: what one writes, the
    other reads. *)
Definition null_session (is_server : bool) : SessionConnectionActorX unit :=
  Session.create 7 1 (engine_config (default_options <| socket_type_name := "DEALER"%string |>)) is_server "tcp://a" true tt 0.

Definition shake (is_server : bool) (inbox : bytes) : SessionConnectionActorX unit * World :=
  run_turns [] (attach_pipe :: replicate 6 idle) (null_session is_server) (mkWorld [RData 0 inbox] [] [] [] 0).

Definition octets (is_server : bool) (inbox : bytes) : bytes := w_sent (shake is_server inbox).2.

(** The octets of the server, found by running both in turn. *)
Fixpoint exchange (n : nat) (inbox : bytes) : bytes :=
  match n with O => inbox | S n => exchange n (octets true (octets false inbox)) end.

Definition end_a : SessionConnectionActorX unit := (shake false (exchange 3 [])).1.
Definition end_b : SessionConnectionActorX unit := (shake true (octets false (exchange 3 []))).1.

(** The core of the first hands a message over, its session sends it, the other
    session reads it. *)
Definition hello : list Msg := [mkMsg (Some (bs "hello")) 1; mkMsg None 0].

Definition full_pipe : Queue.chan (list Msg) := (Queue.try_send hello (Queue.bounded_async 10)).1.

Definition fed_a : SessionConnectionActorX unit :=
  end_a <| core_pipe_manager := mkPipes _ (Some full_pipe) (core_pipe_read_id_for_incoming_routing (core_pipe_manager end_a))
             (is_attached (core_pipe_manager end_a)) |>.

Definition turn_a := Session.iteration [] idle fed_a (mkWorld [] [] [] [] 0).
Definition turn_b1 := Session.iteration [] idle end_b (mkWorld [RData 0 (w_sent turn_a.2)] [] [] [] 0).
Definition turn_b2 := Session.iteration [] idle turn_b1.1.2 (mkWorld [] [] [] [] 0).

Definition node_a : node unit := mkNode turn_a.1.2 true [hello].
Definition node_b : node unit := mkNode turn_b2.1.2 true [].

Lemma hello_run :
  rtc (pair_step false (-1) (-1) [] []) (mkNode end_a true [], mkNode end_b true [], [], [])
    (node_a, node_b, [], []).
Proof.
  eapply rtc_l.
  { apply step_a. apply (node_fed false (-1) [] end_a true [] false None hello (Queue.bounded_async 10) full_pipe (Some (Ok tt)) [] []).
    - vm_compute. reflexivity.
    - split; [repeat constructor; vm_compute; done|done].
    - vm_compute. reflexivity. }
  eapply rtc_l.
  { apply step_a. apply (node_turn false (-1) [] fed_a [hello] idle (mkWorld [] [] [] [] 0) (Done tt) turn_a.1.2 turn_a.2 [] []);
      [vm_compute; reflexivity|done|by constructor]. }
  eapply rtc_l.
  { apply step_b. apply (node_turn false (-1) [] end_b [] idle (mkWorld [RData 0 (w_sent turn_a.2)] [] [] [] 0) (Done tt)
      turn_b1.1.2 turn_b1.2 [] []); [vm_compute; reflexivity|done|by constructor]. }
  eapply rtc_l; [|apply rtc_refl].
  apply step_b. apply (node_turn false (-1) [] turn_b1.1.2 [] idle (mkWorld [] [] [] [] 0) (Done tt)
      turn_b2.1.2 turn_b2.2 [] []); [vm_compute; reflexivity|done|by constructor].
Qed.

Lemma hello_connected : connected false (-1) (-1) end_a end_b.
Proof.
  assert (Hc : forall s, current_phase s = POperational -> is_attached (core_pipe_manager s) = true ->
    rx_from_core (core_pipe_manager s) = Some (Queue.bounded_async 10) -> network_read_buffer (zmtp_handler s) = [] ->
    delivered s = [] -> transmitted s = [] -> fresh_session (L := unit) s)
    by (intros s ? ? Hr ? ? ?; split_and!; try done; by eexists).
  split_and!; [apply Hc; vm_compute; reflexivity|apply Hc; vm_compute; reflexivity|vm_compute; reflexivity..].
Qed.

Lemma hello_ends : node_running node_a = true /\ node_running node_b = true /\ drained (n_session node_a).
Proof. vm_compute. by split_and!. Qed.

Lemma pending_of {H A} (x : outcome A * H * World) : x.1.1 = Pending -> exists h w, x = (Pending, h, w).
Proof. destruct x as [[o h] w]. cbn. intros ->. by exists h, w. Qed.

Lemma hello_waiting : waiting (n_session node_b).
Proof. exists 0. apply pending_of. vm_compute. reflexivity. Qed.

End Run.

