(* ===== verification/Uring.v ===== *)
(** The connection handler of the io_uring backend
    ([core/src/io_uring_backend/{zmtp_handler,connection_handler}.rs] and
    [worker/multishot_reader.rs]): ZMTP as a state machine that the worker of the
    ring drives with completions.

    A method runs over the handler, the I/O it requests ([HandlerIoOps]) and the
    events it sends to its socket.  What the worker lends to a call, the clock
    included, is [UringWorkerInterface]; a call takes no time.  The channel to the
    socket is unbounded: sending fails only when it is closed.  The loops of
    [process_buffered_reads] take a fuel, and a method whose fuel is used up is
    [Pending]; [UringReads.uring_returns] shows that some fuel is always enough.  The
    [io::Error] of an [errno] is the section variable [os_error]. *)

From S2P Require Import Prelude Error Utf8 Message Codec Command Framer Greeting Mechanism Plain Options.
From S2P Require Import Curve Noise Security Io Handler Handshake.

Module Uring.

(** ** Types *)

Inductive ZmtpHandlerPhase :=
| Initial
| SendSignature | WaitPeerRevision
| SendV3Tail | WaitV3Greeting
| SendV2Tail | V2GreetingExchange | V2SendIdentity | V2WaitIdentity
| SecurityExchange
| ReadyClientSend | ReadyClientWaitServer | ReadyServerWaitClient | ReadyServerSend
| DataPhase
| Error | Closing | Closed.

#[export] Instance ZmtpHandlerPhase_eq_dec : EqDecision ZmtpHandlerPhase.
Proof. solve_decision. Defined.

(** [RawFd], [u16] and [UserData] are numbers. *)
Abbreviation RawFd := Z (only parsing).
Abbreviation UserData := Z (only parsing).
Abbreviation HANDLER_INTERNAL_SEND_OP_UD := (0)%Z.
Abbreviation ZC_SEND_THRESHOLD := (1024)%Z.
Abbreviation EAGAIN := (11)%Z.

Inductive HandlerSqeBlueprint :=
| RequestSend (data : bytes) (send_op_flags : Z) (originating_app_op_ud : UserData)
| RequestSendZeroCopy (data_to_send : bytes) (send_op_flags : Z) (originating_app_op_ud : UserData)
| RequestClose
| RequestNewRingReadMultishot (fd : RawFd) (bgid : Z)
| RequestNewAsyncCancel (fd : RawFd) (target_user_data : UserData)
| RequestSetCork (enable : bool).

#[export] Instance HandlerSqeBlueprint_eq_dec : EqDecision HandlerSqeBlueprint.
Proof. solve_decision. Defined.

Record HandlerIoOps := mkOps {
  sqe_blueprints : list HandlerSqeBlueprint;
  initiate_close_due_to_error : bool;
}.

#[export] Instance ops_eta : Eta HandlerIoOps := fun o =>
  mkOps (sqe_blueprints o) (initiate_close_due_to_error o).

Abbreviation no_ops := (mkOps [] false).

Inductive HandlerUpstreamEvent :=
| Data (msg : Msg)
| HandshakeComplete (peer_identity : option Blob)
| EventError (error : ZmqError).

(** [UringWorkerInterface], with whether the channel to the socket is open and
    the time of the call. *)
Record UringWorkerInterface := mkInterface {
  upstream_open : bool;
  default_bgid_for_handler_use : option Z;
  current_external_op_ud : UserData;
  instant_now : Z;
}.

(** What [downcast_arc] finds in an [Arc<dyn Any>]. *)
Inductive AppData :=
| AppParts (parts : list Msg)
| AppMsg (msg : Msg)
| AppUnknown.

(** *** [MultishotReader] *)

Record MultishotReader := mkReader {
  reader_fd : RawFd;
  buffer_group_id : Z;
  active_op_user_data : option UserData;
  reader_is_active : bool;
  cancel_op_user_data : option UserData;
}.

#[export] Instance reader_eta : Eta MultishotReader := fun r =>
  mkReader (reader_fd r) (buffer_group_id r) (active_op_user_data r) (reader_is_active r) (cancel_op_user_data r).

(** A completion: user data, result, and the flags as [buffer_select] and
    [IOURING_CQE_F_MORE] read them. *)
Record Cqe := mkCqe {
  cqe_user_data : UserData;
  cqe_result : Z;
  buffer_select : option Z;
  cqe_more : bool;
}.

Module Reader.

Definition new (fd : RawFd) (bgid : Z) : MultishotReader := mkReader fd bgid None false None.

Definition prepare_recv_multi_intent (r : MultishotReader) : option HandlerSqeBlueprint :=
  if reader_is_active r || bool_decide (is_Some (cancel_op_user_data r)) then None
  else Some (RequestNewRingReadMultishot (reader_fd r) (buffer_group_id r)).

Definition mark_operation_submitted (ud : UserData) (r : MultishotReader) : MultishotReader :=
  r <| active_op_user_data := Some ud |> <| reader_is_active := true |> <| cancel_op_user_data := None |>.

Definition prepare_cancel_intent (r : MultishotReader) : option HandlerSqeBlueprint :=
  if negb (reader_is_active r) || bool_decide (is_Some (cancel_op_user_data r)) then None
  else RequestNewAsyncCancel (reader_fd r) <$> active_op_user_data r.

Definition mark_cancellation_submitted (cancel_ud : UserData) (r : MultishotReader) : MultishotReader :=
  r <| cancel_op_user_data := Some cancel_ud |>.

Definition is_active (r : MultishotReader) : bool :=
  reader_is_active r && negb (bool_decide (is_Some (cancel_op_user_data r))).

Definition matches_cqe_user_data (ud : UserData) (r : MultishotReader) : bool :=
  bool_decide (active_op_user_data r = Some ud) || bool_decide (cancel_op_user_data r = Some ud).

(** The operation in the kernel is over. *)
Definition ended (r : MultishotReader) : MultishotReader :=
  r <| active_op_user_data := None |> <| reader_is_active := false |>.

End Reader.

(** *** [ZmtpUringHandler] *)

Section Handler.
Context `{HD : Dryoc} `{HS : Snow}.
Variable ephemeral : bytes.
Variable os_error : Z -> ZmqError.

Record ZmtpUringHandler := mkUring {
  fd : RawFd;
  zmtp_config : ZmtpEngineConfig;
  is_server : bool;
  phase : ZmtpHandlerPhase;
  greeting_buffer : bytes;
  network_read_accumulator : bytes;
  security_mechanism : option DynMechanism;
  framer : DynFramer DynCipher;
  last_activity_time : Z;
  last_ping_sent_time : option Z;
  waiting_for_pong : bool;
  heartbeat_ivl : option Duration;
  heartbeat_timeout_duration : Duration;
  outgoing_app_messages : list (Msg * UserData);
  outgoing_multipart_app_messages : list (list Msg * UserData);
  handshake_timeout : Duration;
  handshake_timeout_deadline : Z;
  peer_identity_from_security : option Blob;
  peer_identity_from_ready : option Blob;
  final_peer_identity : option Blob;
  last_sent_was_ping : bool;
  multishot_reader : option MultishotReader;
  negotiated_version : option NegotiatedVersion;
}.

#[export] Instance uring_eta : Eta ZmtpUringHandler := fun h =>
  mkUring (fd h) (zmtp_config h) (is_server h) (phase h) (greeting_buffer h) (network_read_accumulator h)
    (security_mechanism h) (framer h) (last_activity_time h) (last_ping_sent_time h) (waiting_for_pong h)
    (heartbeat_ivl h) (heartbeat_timeout_duration h) (outgoing_app_messages h)
    (outgoing_multipart_app_messages h) (handshake_timeout h) (handshake_timeout_deadline h)
    (peer_identity_from_security h) (peer_identity_from_ready h) (final_peer_identity h)
    (last_sent_was_ping h) (multishot_reader h) (negotiated_version h).

(** [Duration::MAX], in nanoseconds. *)
Abbreviation DURATION_MAX := ((2 ^ 64 - 1) * 1000000000 + 999999999)%Z.

Definition new (fd : RawFd) (config : ZmtpEngineConfig) (is_server : bool) (now : Z) : ZmtpUringHandler :=
  let handshake_timeout_duration := default (secs 30) (cfg_handshake_timeout config) in
  let heartbeat_timeout_val :=
    match cfg_heartbeat_timeout config with
    | Some t => t
    | None => match cfg_heartbeat_ivl config with Some ivl => Z.min (ivl * 2) DURATION_MAX | None => secs 30 end
    end in
  mkUring fd config is_server Initial [] [] None (DynNull (NullFramer.new (cfg_max_msg_size config)))
    now None false (cfg_heartbeat_ivl config) heartbeat_timeout_val [] []
    handshake_timeout_duration (now + handshake_timeout_duration) None None None false None None.

(** ** Methods run over the handler, the operations and the events *)

Record UState := mkUState {
  u_handler : ZmtpUringHandler;
  u_ops : HandlerIoOps;
  u_events : list HandlerUpstreamEvent;
}.

Definition U (A : Type) : Type := UState -> outcome A * UState.

#[export] Instance U_ret : MRet U := fun A a s => (Done a, s).
#[export] Instance U_bind : MBind U := fun A B k m s =>
  match m s with
  | (Done a, s) => k a s
  | (Failed e, s) => (Failed e, s)
  | (Crashed, s) => (Crashed, s)
  | (Pending, s) => (Pending, s)
  end.

Definition self : U ZmtpUringHandler := fun s => (Done (u_handler s), s).
Definition set (f : ZmtpUringHandler -> ZmtpUringHandler) : U unit := fun s =>
  (Done tt, mkUState (f (u_handler s)) (u_ops s) (u_events s)).
Definition throw {A} (e : ZmqError) : U A := fun s => (Failed e, s).
(** [r?]. *)
Definition try {A} (r : result A) : U A := fun s =>
  (match r with Ok a => Done a | Err e => Failed e | Panic => Crashed end, s).
(** The error as a value, for the callers that look at it. *)
Definition catch {A} (m : U A) : U (result A) := fun s =>
  match m s with
  | (Done a, s) => (Done (Ok a), s)
  | (Failed e, s) => (Done (Err e), s)
  | (Crashed, s) => (Crashed, s)
  | (Pending, s) => (Pending, s)
  end.
Definition set_ops (f : HandlerIoOps -> HandlerIoOps) : U unit := fun s =>
  (Done tt, mkUState (u_handler s) (f (u_ops s)) (u_events s)).
Definition push (bp : HandlerSqeBlueprint) : U unit :=
  set_ops (fun o => o <| sqe_blueprints := sqe_blueprints o ++ [bp] |>).

(** What is lent to the call. *)
Variable interface : UringWorkerInterface.

(** [upstream_event_tx.try_send(..)]: was it taken? *)
Definition try_send (ev : HandlerUpstreamEvent) : U bool := fun s =>
  if upstream_open interface
  then (Done true, mkUState (u_handler s) (u_ops s) (u_events s ++ [ev]))
  else (Done false, s).

Definition set_phase (p : ZmtpHandlerPhase) : U unit := set (fun h => h <| phase := p |>).

Definition transition_to_error (error : ZmqError) : U unit :=
  h ← self;
  if bool_decide (phase h = Error \/ phase h = Closed) then mret tt
  else
    set_phase Error;;
    set_ops (fun o => o <| initiate_close_due_to_error := true |>
      <| sqe_blueprints := if bool_decide (RequestClose ∈ sqe_blueprints o) then sqe_blueprints o
                           else sqe_blueprints o ++ [RequestClose] |>);;
    if bool_decide (phase h = DataPhase) then mret tt
    else _ ← try_send (EventError error); mret tt.

(** [self.transition_to_error(ops, err.clone(), interface); return Err(err)]. *)
Definition fatal {A} (error : ZmqError) : U A := transition_to_error error;; throw error.

(** [match r { Ok(a) => a, Err(e) => .. fatal }]. *)
Definition or_fatal {A} (r : result A) : U A :=
  match r with Ok a => mret a | Err e => fatal e | Panic => try Panic end.

Definition ready_properties (config : ZmtpEngineConfig) : gmap bytes bytes :=
  let props : gmap bytes bytes := {[bs "Socket-Type" := bs (cfg_socket_type_name config)]} in
  match cfg_routing_id config with
  | Some id_blob =>
      if negb (Blob.is_empty id_blob) && (zlen id_blob <=? 255) then <[bs "Identity" := id_blob]> props else props
  | None => props
  end.

Definition build_ready_properties (h : ZmtpUringHandler) : list (bytes * bytes) :=
  map_to_list (ready_properties (zmtp_config h)).

Definition signal_upstream_handshake_complete : U unit :=
  set (fun h => h <| final_peer_identity :=
    match peer_identity_from_ready h with Some id => Some id | None => peer_identity_from_security h end |>);;
  h ← self;
  sent ← try_send (HandshakeComplete (final_peer_identity h));
  if (sent : bool) then mret tt else throw (Internal "Failed to signal handshake completion").

(** The framer's operations. *)
Definition read_msg : U (result (option Msg)) :=
  h ← self;
  let '(f, acc, r) := try_read_msg (framer h) (network_read_accumulator h) in
  set (fun h => h <| framer := f |> <| network_read_accumulator := acc |>);; mret r.

Definition write_msgs (msgs : list Msg) : U (result bytes) :=
  h ← self;
  let '(f, r) := write_msg_multipart (framer h) msgs in
  set (fun h => h <| framer := f |>);; mret r.

(** [let wire = self.framer.write_msg_multipart(vec![msg])?; push(RequestSend ..)]. *)
Definition send_command (msg : Msg) : U unit :=
  r ← write_msgs [msg];
  wire_data ← try r;
  push (RequestSend wire_data 0 HANDLER_INTERNAL_SEND_OP_UD).

(** ** [process_buffered_reads]

    An arm of the phase loop ends the loop ([None]) or goes on, saying whether it
    made progress. *)

(** Move up to [n] octets in all into the greeting buffer. *)
Definition fill_greeting (n : Z) : U unit :=
  h ← self;
  let needed := Z.max 0 (n - zlen (greeting_buffer h)) in
  let can_take := Z.min needed (zlen (network_read_accumulator h)) in
  '(front, rest) ← try (split_to (network_read_accumulator h) can_take);
  set (fun h => h <| greeting_buffer := greeting_buffer h ++ front |> <| network_read_accumulator := rest |>).

Abbreviation PEEK_LEN := (SIGNATURE_LENGTH + 1).

Definition wait_peer_revision : U (option bool) :=
  fill_greeting PEEK_LEN;;
  h ← self;
  if zlen (greeting_buffer h) <? PEEK_LEN then mret None
  else
    head ← try (slice_to (greeting_buffer h) PEEK_LEN);
    peer_revision ← or_fatal (peek_revision head);
    if bool_decide (peer_revision = ZmtpV2Greeting.REVISION) then
      if negb (cfg_allow_zmtp2 (zmtp_config h))
      then fatal (ProtocolViolation "peer advertised ZMTP/2.0 but allow_zmtp2 is disabled")
      else
        stype_byte ← or_fatal (ok_or (socket_type_code (cfg_socket_type_name (zmtp_config h)))
          (ProtocolViolation (format "no ZMTP/2.0 socket-type byte for socket type {}"
             [debug_str (cfg_socket_type_name (zmtp_config h))])));
        push (RequestSend [stype_byte] 0 HANDLER_INTERNAL_SEND_OP_UD);;
        set (fun h => h <| negotiated_version := Some V2 |> <| phase := SendV2Tail |>);;
        mret (Some true)
    else if byteZ GREETING_VERSION_MAJOR_BYTE <=? byteZ peer_revision then
      let mech := determine_own_greeting_mechanism (is_server h) (zmtp_config h) in
      push (RequestSend (encode_v3_tail_post_major mech (is_server h) []) 0 HANDLER_INTERNAL_SEND_OP_UD);;
      set_phase SendV3Tail;;
      mret (Some true)
    else fatal (ProtocolViolation (format "Unsupported ZMTP revision {} (only 0x01 and 0x03+ are supported)"
                  [hex04 peer_revision])).

Definition wait_v3_greeting : U (option bool) :=
  h0 ← self;
  fill_greeting GREETING_LENGTH;;
  h ← self;
  if zlen (greeting_buffer h) <? GREETING_LENGTH then mret None
  else
    let '(buf, r) := ZmtpGreeting.decode (greeting_buffer h) in
    set (fun h => h <| greeting_buffer := buf |>);;
    decoded ← or_fatal r;
    match decoded with
    | Some peer_greeting =>
        if eqb (is_server h) (g_as_server peer_greeting)
        then fatal (SecurityError "Role mismatch in greeting")
        else
          set (fun h => h <| negotiated_version := Some (V3 (g_version peer_greeting).2) |>);;
          m ← try (negotiate_security_mechanism ephemeral (is_server h) (zmtp_config h) peer_greeting);
          set (fun h => h <| security_mechanism := Some m |> <| phase := SecurityExchange |>);;
          mret (Some true)
    | None => mret (Some (zlen (greeting_buffer h0) <? zlen (greeting_buffer h)))
    end.

Definition v2_greeting_exchange : U (option bool) :=
  fill_greeting V2_GREETING_LENGTH;;
  h ← self;
  if zlen (greeting_buffer h) <? V2_GREETING_LENGTH then mret None
  else
    peer_stype ← try (index (greeting_buffer h) 11);
    '(_, rest) ← try (split_to (greeting_buffer h) V2_GREETING_LENGTH);
    set (fun h => h <| greeting_buffer := rest |>);;
    _ ← or_fatal (Handshake.validate_v2_socket_type_compat (cfg_socket_type_name (zmtp_config h)) peer_stype);
    push (RequestSend [Byte.x00; Byte.x00] 0 HANDLER_INTERNAL_SEND_OP_UD);;
    set_phase V2SendIdentity;;
    mret (Some true).

Definition v2_identity (identity_msg : Msg) : result bytes :=
  if Msg.is_command identity_msg
  then Err (ProtocolViolation "ZMTP/2.0 identity frame had COMMAND flag set")
  else if MsgFlags.contains (Msg.flags identity_msg) MsgFlags.MORE
  then Err (ProtocolViolation "ZMTP/2.0 identity frame had MORE flag set")
  else if 255 <? zlen (default [] (Msg.data identity_msg))
  then Err (ProtocolViolation "ZMTP/2.0 identity frame exceeded 255 bytes")
  else Ok (default [] (Msg.data identity_msg)).

(** The phases that wait for one frame. *)
Definition with_frame (k : Msg -> U (option bool)) : U (option bool) :=
  h ← self;
  if bool_decide (network_read_accumulator h = []) then mret None
  else
    r ← read_msg;
    frame ← or_fatal r;
    match frame with Some msg => k msg | None => mret None end.

Definition v2_wait_identity : U (option bool) :=
  with_frame (fun identity_msg =>
    id_bytes ← or_fatal (v2_identity identity_msg);
    set (fun h => if bool_decide (id_bytes = []) then h else h <| peer_identity_from_ready := Some id_bytes |>);;
    set_phase DataPhase;;
    signal_upstream_handshake_complete;;
    mret (Some true)).

(** An operation of the mechanism. *)
Definition with_mechanism {A} (op : DynMechanism -> DynMechanism * result A) : U A :=
  h ← self;
  m ← try (unwrap (security_mechanism h));
  let '(m, r) := op m in
  set (fun h => h <| security_mechanism := Some m |>);;
  try r.

(** [if let Some(token) = sec_mech_ref.produce_token()? { .. push }]. *)
Definition produce_and_send : U bool :=
  token ← with_mechanism (produce_token DynCipher);
  match token with
  | Some t => send_command (Msg.set_flags MsgFlags.COMMAND (Msg.from_vec t));; mret true
  | None => mret false
  end.

(** Process the peer's token: was there one, and what was wrong with it? *)
Definition process_peer_token : U (bool * option string) :=
  h ← self;
  if bool_decide (network_read_accumulator h = []) then mret (false, None)
  else
    r ← read_msg;
    match r with
    | Ok (Some token_msg) =>
        if negb (Msg.is_command token_msg) then mret (true, Some "Expected ZMTP COMMAND for security token"%string)
        else
          _ ← with_mechanism (fun m => process_token DynCipher m (default [] (Msg.data token_msg)));
          _ ← produce_and_send;
          mret (true, None)
    | Ok None => mret (false, None)
    | Err e => mret (false, Some (format "Failed to parse ZMTP frame for security token: {}" [display e]))
    | Panic => try Panic
    end.

(** The transition once the mechanism is complete. *)
Definition leave_security_exchange : U unit :=
  h ← self;
  taken_mechanism ← try (unwrap (security_mechanism h));
  set (fun h => h <| security_mechanism := None |>);;
  match into_framer DynCipher taken_mechanism (cfg_max_msg_size (zmtp_config h)) with
  | Ok (new_framer, peer_id_opt) =>
      set (fun h => h <| framer := new_framer |>
        <| peer_identity_from_security :=
             match peer_identity_from_security h with Some id => Some id | None => peer_id_opt end |>)
  | Err e => transition_to_error e;; throw (Internal "Failed to create framer from mechanism")
  | Panic => try Panic
  end;;
  set_phase (if is_server h then ReadyServerWaitClient else ReadyClientSend);;
  if is_server h then mret tt else send_command (ZmtpReady.create_msg (build_ready_properties h)).

Definition security_exchange : U (option bool) :=
  h ← self;
  match security_mechanism h with
  | None => fatal (InvalidState "CRITICAL: Security mechanism is None while in SecurityExchange phase.")
  | Some m =>
      if is_complete DynCipher m then leave_security_exchange;; mret (Some true)
      else
        produced ← produce_and_send;
        '(processed, reason) ← process_peer_token;
        h ← self;
        m ← try (unwrap (security_mechanism h));
        let complete := is_complete DynCipher m in
        let reason :=
          match reason with
          | Some text => Some text
          | None => if negb complete && is_error DynCipher m
                    then Some (default "Unknown security error from mechanism"%string (error_reason DynCipher m))
                    else None
          end in
        match reason with
        | Some text => fatal (SecurityError text)
        | None =>
            if complete then leave_security_exchange;; mret (Some true)
            else if negb (produced || processed) && bool_decide (network_read_accumulator h = []) then mret None
            else mret (Some (produced || processed))
        end
  end.

(** A READY with the peer's identity. *)
Definition expect_ready (text : string) (msg : Msg) : U unit :=
  cmd ← try (ZmtpCommand.parse msg);
  match cmd with
  | Some (Ready ready_data) =>
      set (fun h => match properties ready_data !! bs "Identity" with
                    | Some id => h <| peer_identity_from_ready := Some id |>
                    | None => h
                    end)
  | _ => fatal (ProtocolViolation text)
  end.

Definition ready_server_wait_client : U (option bool) :=
  with_frame (fun msg =>
    expect_ready "S: Expected READY from client, got other/unparseable" msg;;
    h ← self;
    send_command (ZmtpReady.create_msg (build_ready_properties h));;
    set_phase ReadyServerSend;;
    mret (Some true)).

Definition ready_client_wait_server : U (option bool) :=
  with_frame (fun msg =>
    expect_ready "C: Expected READY from server, got other/unparseable" msg;;
    set_phase DataPhase;;
    signal_upstream_handshake_complete;;
    mret (Some true)).

(** A frame of the data phase. *)
Definition data_frame (msg : Msg) : U unit :=
  set (fun h => h <| last_activity_time := instant_now interface |>);;
  h ← self;
  if Msg.is_command msg then
    if match negotiated_version h with Some v => is_v2 v | None => false end
    then fatal (ProtocolViolation "received COMMAND-flagged frame on a ZMTP/2.0 session")
    else
      cmd ← try (ZmtpCommand.parse msg);
      match cmd with
      | Some (Ping context) => send_command (ZmtpCommand.create_pong context)
      | Some (Pong _) => set (fun h => h <| waiting_for_pong := false |> <| last_ping_sent_time := None |>)
      | Some CmdError => fatal (ProtocolViolation "Peer sent ZMTP ERROR command")
      | _ => mret tt
      end
  else
    sent ← try_send (Data msg);
    if (sent : bool) then mret tt else fatal (Internal "Upstream channel error for ZMTP data").

Definition still_running {A} : U A := fun s => (Pending, s).

Fixpoint data_phase (fuel : nat) (progress : bool) : U (option bool) :=
  r ← read_msg;
  frame ← or_fatal r;
  match frame with
  | None => mret (Some progress)
  | Some msg =>
      data_frame msg;;
      match fuel with O => still_running | S fuel => data_phase fuel true end
  end.

Definition phase_arm (fuel : nat) (p : ZmtpHandlerPhase) : U (option bool) :=
  match p with
  | Initial => fatal (InvalidState "ZmtpHandler in Initial phase during data processing")
  | SendSignature | SendV3Tail | SendV2Tail | V2SendIdentity | ReadyClientSend | ReadyServerSend => mret None
  | WaitPeerRevision => wait_peer_revision
  | WaitV3Greeting => wait_v3_greeting
  | V2GreetingExchange => v2_greeting_exchange
  | V2WaitIdentity => v2_wait_identity
  | SecurityExchange => security_exchange
  | ReadyServerWaitClient => ready_server_wait_client
  | ReadyClientWaitServer => ready_client_wait_server
  | DataPhase => data_phase fuel false
  | Closing | Error | Closed => mret None
  end.

(** Is the handshake deadline over? *)
Definition handshake_expired (h : ZmtpUringHandler) : bool :=
  (handshake_timeout_deadline h <? instant_now interface) &&
  negb (bool_decide (phase h = DataPhase \/ phase h = Error \/ phase h = Closed)).

Fixpoint phase_loop (fuel : nat) (made_progress : bool) : U bool :=
  h ← self;
  if handshake_expired h then fatal Timeout
  else
    step ← phase_arm fuel (phase h);
    match step with
    | None => mret made_progress
    | Some progress =>
        h' ← self;
        if (zlen (greeting_buffer h') =? zlen (greeting_buffer h)) &&
           (zlen (network_read_accumulator h') =? zlen (network_read_accumulator h)) && negb progress
        then mret (made_progress || progress)
        else match fuel with
             | O => still_running
             | S fuel => phase_loop fuel (made_progress || progress)
             end
    end.

Definition process_buffered_reads (fuel : nat) : U bool := phase_loop fuel false.

(** The callers: an error that has not led to the error phase does now;
    [transition_to_error] does nothing in the error phase. *)
Definition process_or_error (fuel : nat) : U unit :=
  r ← catch (process_buffered_reads fuel);
  match r with Err e => transition_to_error e | _ => mret tt end.

(** ** Application messages *)

Definition prepare_logical_frames_for_app_msg (h : ZmtpUringHandler) (app_msg : Msg) : list Msg :=
  let name := cfg_socket_type_name (zmtp_config h) in
  let frames := if bool_decide (name = "REQ" \/ name = "DEALER") then [Msg.set_flags MsgFlags.MORE Msg.new] else [] in
  frames ++ [Msg.set_flags (Z.land (Msg.flags app_msg) (Z.lnot MsgFlags.MORE)) app_msg].

Definition add_send_blueprints_for_wire_bytes (final_wire_bytes : bytes) (ud : UserData) : U unit :=
  h ← self;
  if bool_decide (final_wire_bytes = []) then mret tt
  else if cfg_use_send_zerocopy (zmtp_config h) && (ZC_SEND_THRESHOLD <? zlen final_wire_bytes)
  then push (RequestSendZeroCopy final_wire_bytes 0 ud)
  else push (RequestSend final_wire_bytes 0 ud).

Definition is_closing_or_closed (h : ZmtpUringHandler) : bool :=
  bool_decide (phase h = Closing \/ phase h = Closed \/ phase h = Error).

(** The next queued message, multipart messages first: [true] when there was one. *)
Definition send_next_queued : U bool :=
  h ← self;
  match outgoing_multipart_app_messages h with
  | (parts, ud) :: rest =>
      set (fun h => h <| outgoing_multipart_app_messages := rest |>);;
      r ← write_msgs parts;
      match r with
      | Ok wire_bytes => add_send_blueprints_for_wire_bytes wire_bytes ud
      | Err e => set (fun h => h <| outgoing_multipart_app_messages := (parts, ud) :: rest |>);; transition_to_error e
      | Panic => try Panic
      end;;
      mret true
  | [] =>
      match outgoing_app_messages h with
      | (msg, ud) :: rest =>
          set (fun h => h <| outgoing_app_messages := rest |>);;
          r ← write_msgs (prepare_logical_frames_for_app_msg h msg);
          match r with
          | Ok wire_bytes => add_send_blueprints_for_wire_bytes wire_bytes ud
          | Err e => set (fun h => h <| outgoing_app_messages := (msg, ud) :: rest |>);; transition_to_error e
          | Panic => try Panic
          end;;
          mret true
      | [] => mret false
      end
  end.

(** ** [impl UringConnectionHandler] *)

Definition connection_ready : U unit :=
  set (fun h => h <| last_activity_time := instant_now interface |>
    <| handshake_timeout_deadline := instant_now interface + handshake_timeout h |>);;
  set (fun h =>
    if cfg_use_recv_multishot (zmtp_config h) then
      match default_bgid_for_handler_use interface with
      | Some bgid => h <| multishot_reader := Some (Reader.new (fd h) bgid) |>
      | None => h
      end
    else h);;
  push (RequestSend (encode_signature [] ++ [GREETING_VERSION_MAJOR_BYTE]) 0 HANDLER_INTERNAL_SEND_OP_UD);;
  set_phase SendSignature.

Definition process_ring_read_data (fuel : nat) (buffer_slice : bytes) : U unit :=
  set (fun h => h <| last_activity_time := instant_now interface |>);;
  h ← self;
  if bool_decide (buffer_slice = []) && negb (bool_decide (phase h = Closed \/ phase h = Error)) then
    transition_to_error ConnectionClosed;;
    if bool_decide (phase h = DataPhase) then _ ← try_send (EventError ConnectionClosed); mret tt else mret tt
  else
    set (fun h => h <| network_read_accumulator := network_read_accumulator h ++ buffer_slice |>);;
    process_or_error fuel.

(** The phase a send acknowledgement leads to, for the phases that wait for one. *)
Definition acknowledged (p : ZmtpHandlerPhase) : ZmtpHandlerPhase :=
  match p with
  | SendSignature => WaitPeerRevision
  | SendV3Tail => WaitV3Greeting
  | SendV2Tail => V2GreetingExchange
  | V2SendIdentity => V2WaitIdentity
  | ReadyClientSend => ReadyClientWaitServer
  | _ => p
  end.

(** [if let Err(e) = signal..() { self.transition_to_error(..); return ops }]:
    [true] when the method goes on. *)
Definition signal_or_error : U bool :=
  r ← catch signal_upstream_handshake_complete;
  match r with Err e => transition_to_error e;; mret false | _ => mret true end.

(** The [match] over the phase; [true] when the method goes on. *)
Definition advance_on_ack : U bool :=
  h ← self;
  match phase h with
  | ReadyServerSend => set_phase DataPhase;; signal_or_error
  | DataPhase =>
      set (fun h => if last_sent_was_ping h
        then h <| waiting_for_pong := true |> <| last_ping_sent_time := Some (last_activity_time h) |>
               <| last_sent_was_ping := false |>
        else h);;
      _ ← send_next_queued;
      h ← self;
      mret (bool_decide (phase h = DataPhase))
  | p => set_phase (acknowledged p);; mret true
  end.

Definition handle_internal_sqe_completion (fuel : nat) (cqe_result : Z) : U unit :=
  set (fun h => h <| last_activity_time := instant_now interface |>);;
  if (cqe_result <? 0) && negb (- cqe_result =? EAGAIN) then transition_to_error (os_error (- cqe_result))
  else
    h ← self;
    go_on ← advance_on_ack;
    h' ← self;
    if go_on && negb (bool_decide (phase h' = phase h)) &&
       (negb (bool_decide (greeting_buffer h' = [])) || negb (bool_decide (network_read_accumulator h' = [])))
    then process_or_error fuel
    else mret tt.

(** The heartbeat, when nothing else is to be sent. *)
Definition heartbeat : U unit :=
  h ← self;
  if waiting_for_pong h then
    match last_ping_sent_time h with
    | Some ping_sent_at =>
        if heartbeat_timeout_duration h <? Heartbeat.duration_since (instant_now interface) ping_sent_at
        then transition_to_error Timeout else mret tt
    | None => mret tt
    end
  else
    match heartbeat_ivl h with
    | Some ivl =>
        if negb (match negotiated_version h with Some v => is_v2 v | None => false end) &&
           (ivl <=? Heartbeat.duration_since (instant_now interface) (last_activity_time h))
        then
          r ← write_msgs [ZmtpCommand.create_ping 0 (bs "hb_ping")];
          match r with
          | Ok ping_wire_bytes =>
              push (RequestSend ping_wire_bytes 0 HANDLER_INTERNAL_SEND_OP_UD);;
              set (fun h => h <| last_sent_was_ping := true |>)
          | Err e => transition_to_error e
          | Panic => try Panic
          end
        else mret tt
    | None => mret tt
    end.

Definition prepare_sqes : U unit :=
  h ← self;
  if handshake_expired h then transition_to_error Timeout
  else
    let read :=
      match multishot_reader h with
      | Some reader => if negb (Reader.is_active reader) then Reader.prepare_recv_multi_intent reader else None
      | None => None
      end in
    match read with
    | Some blueprint => push blueprint
    | None =>
        if bool_decide (phase h = DataPhase) then
          sent ← send_next_queued;
          if (sent : bool) then mret tt else heartbeat
        else mret tt
    end.

(** Send now, or behind what is queued. *)
Definition send_or_queue (h : ZmtpUringHandler) (frames : list Msg) (queue : U unit) : U unit :=
  let ud := current_external_op_ud interface in
  if bool_decide (phase h = DataPhase /\ outgoing_app_messages h = [] /\ outgoing_multipart_app_messages h = []) then
    r ← write_msgs frames;
    match r with
    | Ok wire_bytes => add_send_blueprints_for_wire_bytes wire_bytes ud
    | Err _ => queue
    | Panic => try Panic
    end
  else queue.

Definition handle_outgoing_app_data (data : AppData) : U unit :=
  let ud := current_external_op_ud interface in
  h ← self;
  match data with
  | AppParts parts =>
      send_or_queue h parts
        (set (fun h => h <| outgoing_multipart_app_messages := outgoing_multipart_app_messages h ++ [(parts, ud)] |>))
  | AppMsg msg =>
      send_or_queue h (prepare_logical_frames_for_app_msg h msg)
        (set (fun h => h <| outgoing_app_messages := outgoing_app_messages h ++ [(msg, ud)] |>))
  | AppUnknown => mret tt
  end.

Definition close_initiated : U unit :=
  set (fun h => if is_closing_or_closed h then h
    else h <| phase := Closing |> <| outgoing_app_messages := [] |> <| outgoing_multipart_app_messages := [] |>).

Definition fd_has_been_closed : U unit := set_phase Closed.

(** [MultishotReader::process_cqe]: the reader, and what the handler does with the
    octets.  [borrow] is the buffer the kernel filled, unless it cannot be
    borrowed.  The result says whether the operation's entry is to be cleaned up. *)
Definition process_cqe (fuel : nat) (cqe : Cqe) (borrow : Z -> Z -> option bytes) (r : MultishotReader)
  : U (MultishotReader * bool) :=
  let error_close r := set_ops (fun o => o <| initiate_close_due_to_error := true |>);; mret (Reader.ended r, true) in
  if bool_decide (Some (cqe_user_data cqe) = active_op_user_data r) then
    let r := r <| reader_is_active := true |> in
    if cqe_result cqe <? 0 then error_close r
    else
      match buffer_select cqe with
      | None => error_close r
      | Some buffer_id =>
          let finished :=
            if negb (cqe_more cqe) || (cqe_result cqe =? 0) then mret (Reader.ended r, true) else mret (r, false) in
          if 0 <? cqe_result cqe then
            match borrow buffer_id (cqe_result cqe) with
            | Some borrowed_buffer => process_ring_read_data fuel borrowed_buffer;; finished
            | None => error_close r
            end
          else process_ring_read_data fuel [];; finished
      end
  else if bool_decide (Some (cqe_user_data cqe) = cancel_op_user_data r)
  then mret (Reader.ended r <| cancel_op_user_data := None |>, true)
  else throw (Internal "MultishotReader::process_cqe called with non-matching UserData").

(** [None] when the completion is not for the reader; the reader is out of the
    handler while its completion is processed, and back afterwards however that
    ends. *)
Definition delegate_cqe_to_multishot_reader (fuel : nat) (cqe : Cqe) (borrow : Z -> Z -> option bytes)
  : U (option (result bool)) :=
  h ← self;
  match multishot_reader h with
  | Some reader =>
      if Reader.matches_cqe_user_data (cqe_user_data cqe) reader then
        set (fun h => h <| multishot_reader := None |>);;
        r ← catch (process_cqe fuel cqe borrow reader);
        match r with
        | Ok (reader, cleanup) => set (fun h => h <| multishot_reader := Some reader |>);; mret (Some (Ok cleanup))
        | Err e => set (fun h => h <| multishot_reader := Some reader |>);; mret (Some (Err e))
        | Panic => try Panic
        end
      else mret None
  | None => mret None
  end.

Definition inform_multishot_reader_op_submitted (op_user_data : UserData) (is_cancel_op : bool)
  (target_op_data_if_cancel : option UserData) : U unit :=
  set (fun h =>
    match multishot_reader h with
    | Some reader =>
        if is_cancel_op then
          match target_op_data_if_cancel with
          | Some _ => h <| multishot_reader := Some (Reader.mark_cancellation_submitted op_user_data reader) |>
          | None => h
          end
        else h <| multishot_reader := Some (Reader.mark_operation_submitted op_user_data reader) |>
    | None => h
    end).

End Handler.
End Uring.
