(* ===== verification/UringSafety.v ===== *)
(** What the handler of the io_uring backend tells its socket, and when.

    The worker may call the methods of a handler ([Uring.v]) in any order: with
    octets, completions and application messages of any kind, at any time.  One
    [uring_step] is a call that returns; a handler is reachable when a sequence of
    calls leads to it from [connection_ready].  The invariant is proved with Hoare
    rules for the monad of the methods, procedure by procedure. *)

From S2P Require Import Prelude Error Utf8 Message Codec Command Framer Greeting Mechanism Plain Options.
From S2P Require Import Curve Noise Security Io Handler Handshake HandshakeSafety Uring.
Import Uring.

#[local] Set Warnings "-clear-no-such-hyp".

(** ** Hoare rules *)

Section Hoare.
Context `{HD : Dryoc} `{HS : Snow}.
Implicit Types P R : UState -> Prop.

(** A value satisfies [Q], an error leaves a state in [R]. *)
Definition uhoare {A} P (m : U A) (Q : A -> UState -> Prop) R : Prop :=
  forall s, P s -> match m s with (Done a, s') => Q a s' | (Failed _, s') => R s' | _ => True end.

Lemma uhoare_bind {A B} P (m : U A) (k : A -> U B) Q R S :
  uhoare P m Q R -> (forall a, uhoare (Q a) (k a) S R) -> uhoare P (m ≫= k) S R.
Proof.
  intros Hm Hk s Hp. specialize (Hm s Hp). unfold mbind, U_bind.
  destruct (m s) as [[a|e| |] s']; try done. by apply Hk.
Qed.

Lemma uhoare_conseq {A} P P' (m : U A) (Q Q' : A -> UState -> Prop) R R' :
  uhoare P m Q R -> (forall s, P' s -> P s) -> (forall a s, Q a s -> Q' a s) -> (forall s, R s -> R' s) ->
  uhoare P' m Q' R'.
Proof.
  intros Hm Hp Hq Hr s Hp'. specialize (Hm s (Hp s Hp')). destruct (m s) as [[a|e| |] s']; auto.
Qed.

(** The state read by [self] is the state. *)
Lemma uhoare_self {A} P (k : ZmtpUringHandler -> U A) Q R :
  (forall h, uhoare (fun s => u_handler s = h /\ P s) (k h) Q R) -> uhoare P (h ← self; k h) Q R.
Proof. intros Hk s Hp. unfold mbind, U_bind. cbn. by apply Hk. Qed.

Lemma uhoare_ret {A} P (a : A) (Q : A -> UState -> Prop) R : (forall s, P s -> Q a s) -> uhoare P (mret a) Q R.
Proof. intros Hq s Hp. by apply Hq. Qed.

Lemma uhoare_set P f (Q : unit -> UState -> Prop) R :
  (forall s, P s -> Q tt (mkUState (f (u_handler s)) (u_ops s) (u_events s))) -> uhoare P (set f) Q R.
Proof. intros Hq s Hp. by apply Hq. Qed.

Lemma uhoare_throw {A} P e (Q : A -> UState -> Prop) R : (forall s, P s -> R s) -> uhoare P (throw e) Q R.
Proof. intros Hr s Hp. by apply Hr. Qed.

Lemma uhoare_try {A} P (r : result A) (Q : A -> UState -> Prop) R :
  (forall a s, r = Ok a -> P s -> Q a s) -> (forall s, P s -> R s) -> uhoare P (try r) Q R.
Proof. intros Hq Hr s Hp. unfold try. destruct r; [by apply Hq|by apply Hr|done]. Qed.

(** The framer's operations, on the state. *)
Definition with_handler (s : UState) (h : ZmtpUringHandler) : UState := mkUState h (u_ops s) (u_events s).

Lemma read_msg_eq s :
  read_msg s = let '(f, acc, r) := try_read_msg (framer (u_handler s)) (network_read_accumulator (u_handler s)) in
    (Done r, with_handler s ((u_handler s) <| framer := f |> <| network_read_accumulator := acc |>)).
Proof. unfold read_msg, mbind, U_bind, self. by destruct (try_read_msg _ _) as [[f acc] r]. Qed.

Lemma write_msgs_eq msgs s :
  write_msgs msgs s = let '(f, r) := write_msg_multipart (framer (u_handler s)) msgs in
    (Done r, with_handler s ((u_handler s) <| framer := f |>)).
Proof. unfold write_msgs, mbind, U_bind, self. by destruct (write_msg_multipart _ _) as [f r]. Qed.

Lemma uhoare_catch {A} P (m : U A) (Q : result A -> UState -> Prop) R :
  uhoare P m (fun a => Q (Ok a)) (fun s => forall e, Q (Err e) s) -> uhoare P (catch m) Q R.
Proof. intros Hm s Hp. specialize (Hm s Hp). unfold catch. destruct (m s) as [[a|e| |] s']; [exact Hm|apply Hm|done|done]. Qed.

End Hoare.

(** ** The invariant *)

Section Invariant.
Context `{HD : Dryoc} `{HS : Snow}.
Variable ephemeral : bytes.
Variable os_error : Z -> ZmqError.
Variable cfg : ZmtpEngineConfig.
Variable srv : bool.

(** What the data phase does to a framer. *)
Inductive framer_step : DynFramer DynCipher -> DynFramer DynCipher -> Prop :=
| fs_read f net : framer_step f (try_read_msg f net).1.1
| fs_write f msgs : framer_step f (write_msg_multipart f msgs).1.

(** The framer was made by a completed mechanism and used since. *)
Definition made (h : ZmtpUringHandler) : Prop :=
  exists m f id, derived ephemeral cfg srv m /\ is_complete DynCipher m = true /\
    into_framer DynCipher m (cfg_max_msg_size cfg) = Ok (f, id) /\ rtc framer_step f (framer h).

Definition v2_phase (p : ZmtpHandlerPhase) : bool :=
  bool_decide (p = SendV2Tail \/ p = V2GreetingExchange \/ p = V2SendIdentity \/ p = V2WaitIdentity).

(** After the security handshake. *)
Definition late (p : ZmtpHandlerPhase) : bool :=
  bool_decide (p = ReadyClientSend \/ p = ReadyClientWaitServer \/ p = ReadyServerWaitClient \/
               p = ReadyServerSend \/ p = DataPhase).

(** The phases of the handshake. *)
Definition early (p : ZmtpHandlerPhase) : bool :=
  negb (bool_decide (p = DataPhase \/ p = Closing \/ p = Error \/ p = Closed)).

Definition announced (evs : list HandlerUpstreamEvent) : Prop := exists id tl, evs = HandshakeComplete id :: tl.

(** The handshake and the messages after it, or nothing. *)
Definition traffic (evs : list HandlerUpstreamEvent) : Prop :=
  evs = [] \/ exists id msgs, evs = HandshakeComplete id :: (Data <$> msgs).

Definition log_ok (p : ZmtpHandlerPhase) (evs : list HandlerUpstreamEvent) : Prop :=
  match p with
  | DataPhase => exists id msgs, evs = HandshakeComplete id :: (Data <$> msgs)
  | Closing => traffic evs
  | Error | Closed => traffic evs \/ exists evs0 e, evs = evs0 ++ [EventError e] /\ traffic evs0
  | _ => evs = []
  end.

Definition base (s : UState) : Prop :=
  let h := u_handler s in
  zmtp_config h = cfg /\ is_server h = srv /\
  (forall m, security_mechanism h = Some m -> derived ephemeral cfg srv m) /\
  (v2_phase (phase h) = true -> cfg_allow_zmtp2 cfg = true) /\
  (late (phase h) = true \/ announced (u_events s) -> cfg_allow_zmtp2 cfg = false -> made h).

Definition inv (s : UState) : Prop := base s /\ log_ok (phase (u_handler s)) (u_events s).

(** ... or the handshake is over and could not be announced. *)
Definition winv (s : UState) : Prop :=
  base s /\ (log_ok (phase (u_handler s)) (u_events s) \/ phase (u_handler s) = DataPhase /\ u_events s = []).

(** In a given phase. *)
Definition at_phase (p : ZmtpHandlerPhase) (s : UState) : Prop := inv s /\ phase (u_handler s) = p.

(** Only these fields matter, and the framer up to its use. *)
Definition core (h : ZmtpUringHandler) : ZmtpEngineConfig * bool * ZmtpHandlerPhase * option DynMechanism :=
  (zmtp_config h, is_server h, phase h, security_mechanism h).

Class Stable (P : UState -> Prop) := {
  stable s s' : core (u_handler s') = core (u_handler s) -> u_events s' = u_events s ->
    rtc framer_step (framer (u_handler s)) (framer (u_handler s')) -> P s -> P s';
  stable_weak s : P s -> winv s;
}.

Lemma made_step h h' : rtc framer_step (framer h) (framer h') -> made h -> made h'.
Proof. intros Hf (m & f & id & ? & ? & ? & Hr). exists m, f, id. split_and!; [done..|by etrans]. Qed.

Lemma base_stable s s' :
  core (u_handler s') = core (u_handler s) -> u_events s' = u_events s ->
  rtc framer_step (framer (u_handler s)) (framer (u_handler s')) -> base s -> base s'.
Proof.
  intros Hc He Hf (H1 & H2 & H3 & H4 & H5). unfold core in Hc. injection Hc as E1 E2 E3 E4.
  unfold base. rewrite E1, E2, E3, E4, He. split_and!; [done..|]. intros Hl Ha. eapply made_step; [exact Hf|]. by apply H5.
Qed.

#[export] Instance winv_stable : Stable winv.
Proof.
  split; [|done]. intros s s' Hc He Hf [Hb Hl]. split; [by eapply base_stable|].
  unfold core in Hc. injection Hc as _ _ E3 _. by rewrite E3, He.
Qed.
#[export] Instance inv_stable : Stable inv.
Proof.
  split; [|by intros s [? ?]; split; [|left]]. intros s s' Hc He Hf [Hb Hl]. split; [by eapply base_stable|].
  unfold core in Hc. injection Hc as _ _ E3 _. by rewrite E3, He.
Qed.
#[export] Instance at_stable p : Stable (at_phase p).
Proof.
  split; [|intros s [? ?]; by apply (stable_weak (P := inv))]. intros s s' Hc He Hf [Hi Hp].
  split; [by eapply (stable (P := inv))|]. unfold core in Hc. injection Hc as _ _ E3 _. by rewrite E3.
Qed.

(** A procedure that keeps a predicate, or fails. *)
Definition keeps {A} (P : UState -> Prop) (m : U A) : Prop := uhoare P m (fun _ => P) winv.

Lemma ukeeps_bind {A B} P (m : U A) (k : A -> U B) : keeps P m -> (forall a, keeps P (k a)) -> keeps P (m ≫= k).
Proof. intros Hm Hk. by eapply uhoare_bind. Qed.

Lemma ukeeps_ret {A} P (a : A) : keeps P (mret a).
Proof. by apply uhoare_ret. Qed.

Lemma keeps_self {A} P (k : ZmtpUringHandler -> U A) : (forall h, keeps P (k h)) -> keeps P (h ← self; k h).
Proof. intros Hk. apply uhoare_self. intros h. eapply uhoare_conseq; [apply (Hk h)|by intros s []|done..]. Qed.

Section Keeps.
Context {P : UState -> Prop} `{!Stable P}.

Lemma keeps_try {A} (r : result A) : keeps P (try r).
Proof. apply uhoare_try; [done|apply stable_weak]. Qed.

Lemma keeps_set f : (forall h, core (f h) = core h /\ framer (f h) = framer h) -> keeps P (set f).
Proof.
  intros Hf. apply uhoare_set. intros s Hp. destruct (Hf (u_handler s)) as [Hc Hfr].
  eapply stable; [exact Hc|done| |exact Hp]. cbn. by rewrite Hfr.
Qed.

Lemma keeps_ops f : keeps P (set_ops f).
Proof. intros s Hp. exact (stable s (mkUState (u_handler s) _ (u_events s)) eq_refl eq_refl (rtc_refl _ _) Hp). Qed.

Lemma ukeeps_read : keeps P read_msg.
Proof.
  intros s Hp. rewrite read_msg_eq. pose proof (fs_read (framer (u_handler s)) (network_read_accumulator (u_handler s))) as Hs.
  destruct (try_read_msg _ _) as [[f acc] r]. refine (stable s _ _ _ _ Hp); [done|done|by apply rtc_once].
Qed.

Lemma ukeeps_write msgs : keeps P (write_msgs msgs).
Proof.
  intros s Hp. rewrite write_msgs_eq. pose proof (fs_write (framer (u_handler s)) msgs) as Hs.
  destruct (write_msg_multipart _ _) as [f r]. refine (stable s _ _ _ _ Hp); [done|done|by apply rtc_once].
Qed.

Lemma ukeeps_command msg : keeps P (send_command msg).
Proof.
  apply ukeeps_bind; [apply ukeeps_write|]. intros r. apply ukeeps_bind; [apply keeps_try|]. intros b. apply keeps_ops.
Qed.

End Keeps.

(** Moving on: the framer stays, what is claimed later was so before. *)
Lemma base_goto s h' ops' evs' :
  base s -> zmtp_config h' = zmtp_config (u_handler s) -> is_server h' = is_server (u_handler s) ->
  framer h' = framer (u_handler s) -> (forall m, security_mechanism h' = Some m -> derived ephemeral cfg srv m) ->
  (v2_phase (phase h') = true -> cfg_allow_zmtp2 cfg = true) ->
  (late (phase h') = true -> late (phase (u_handler s)) = true \/ v2_phase (phase (u_handler s)) = true) ->
  (announced evs' -> announced (u_events s) \/ late (phase (u_handler s)) = true \/ v2_phase (phase (u_handler s)) = true) ->
  base (mkUState h' ops' evs').
Proof.
  intros (H1 & H2 & H3 & H4 & H5) E1 E2 E3 Hm Hv Hl Ha. unfold base. cbn [u_handler u_events]. rewrite E1, E2.
  split_and!; [done|done|exact Hm|by auto|].
  assert (Hmade : late (phase (u_handler s)) = true \/ announced (u_events s) -> cfg_allow_zmtp2 cfg = false -> made h').
  { intros Hx Hc. destruct (H5 Hx Hc) as (m & f & id & ? & ? & ? & ?). exists m, f, id. by rewrite E3. }
  intros [Hx|Hx] Hc.
  - destruct (Hl Hx) as [?|Hy]; [by apply Hmade; [left|]|]. by rewrite (H4 Hy) in Hc.
  - destruct (Ha Hx) as [?|[?|Hy]]; [by apply Hmade; [right|]|by apply Hmade; [left|]|]. by rewrite (H4 Hy) in Hc.
Qed.

Lemma announced_snoc evs e : announced (evs ++ [EventError e]) -> announced evs.
Proof. intros (id & tl & E). destruct evs as [|ev evs]; [done|]. injection E as -> _. by exists id, evs. Qed.

Lemma log_early p evs : early p = true -> log_ok p evs <-> evs = [].
Proof. by destruct p. Qed.

Lemma log_traffic p evs : early p = true \/ p = DataPhase \/ p = Closing -> log_ok p evs -> traffic evs.
Proof. intros Hp Hl. destruct p; try (by left); [by right|by destruct Hp as [|[]]|exact Hl|by destruct Hp as [|[]]]. Qed.

Variable interface : UringWorkerInterface.

Definition over (s : UState) : Prop := inv s /\ (phase (u_handler s) = Error \/ phase (u_handler s) = Closed).

Lemma error_spec e R : uhoare winv (transition_to_error interface e) (fun _ => over) R.
Proof.
  intros s [Hb Hl]. unfold transition_to_error, mbind, U_bind, self. case_bool_decide as Hp.
  { cbn. split; [|done]. split; [done|]. destruct Hl as [|[Hd _]]; [done|]. by destruct Hp as [Hp|Hp]; rewrite Hp in Hd. }
  assert (Ht : traffic (u_events s)).
  { destruct Hl as [Hl|[_ Hl]]; [|by left]. eapply log_traffic; [|exact Hl].
    destruct (phase (u_handler s)); naive_solver. }
  unfold set_phase, set, set_ops. cbn [u_handler u_ops u_events].
  assert (Hbase : forall evs' ops', (announced evs' -> announced (u_events s)) ->
    base (mkUState ((u_handler s) <| phase := Error |>) ops' evs')).
  { intros evs' ops' Ha. eapply base_goto; try done; [by apply Hb|by auto]. }
  case_bool_decide.
  - split; [|by left]. split; [by apply Hbase|]. by left.
  - unfold try_send. destruct (upstream_open interface).
    + split; [|by left]. split; [apply Hbase; apply announced_snoc|]. right. by eexists _, _.
    + split; [|by left]. split; [by apply Hbase|]. by left.
Qed.

Lemma over_inv s : over s -> inv s.
Proof. by intros []. Qed.

Lemma fatal_spec {A} P e (Q : A -> UState -> Prop) : (forall s, P s -> winv s) -> uhoare P (fatal interface e) Q winv.
Proof.
  intros Hp. eapply (uhoare_bind _ _ _ (fun _ => over)); [by eapply uhoare_conseq; [apply (error_spec e winv)|..]|]. intros _. apply uhoare_throw.
  intros s [? _]. by apply (stable_weak (P := inv)).
Qed.

Lemma ukeeps_fatal {A} P `{!Stable P} e : keeps (A := A) P (fatal interface e).
Proof. apply fatal_spec. apply stable_weak. Qed.

Lemma keeps_or_fatal {A} P `{!Stable P} (r : result A) : keeps P (or_fatal interface r).
Proof. destruct r; [apply ukeeps_ret|by apply ukeeps_fatal|by apply keeps_try]. Qed.

Lemma ukeeps_fill P `{!Stable P} n : keeps P (fill_greeting n).
Proof.
  apply keeps_self. intros h. apply ukeeps_bind; [by apply keeps_try|]. intros [front rest]. by apply keeps_set.
Qed.

Lemma at_early p s : early p = true -> at_phase p s -> u_events s = [].
Proof. intros He [[_ Hl] Hp]. rewrite Hp in Hl. by apply (log_early p). Qed.

(** Within the handshake. *)
Lemma goto_spec p p' f :
  early p = true -> early p' = true -> (v2_phase p' = true -> v2_phase p = true \/ cfg_allow_zmtp2 cfg = true) ->
  (late p' = true -> late p = true) ->
  (forall h, zmtp_config (f h) = zmtp_config h /\ is_server (f h) = is_server h /\ framer (f h) = framer h /\
     security_mechanism (f h) = security_mechanism h /\ phase (f h) = p') ->
  uhoare (at_phase p) (set f) (fun _ => at_phase p') winv.
Proof.
  intros He He' Hv Hl Hf. apply uhoare_set. intros s Hs. pose proof (at_early p s He Hs) as Hev.
  destruct Hs as [[Hb _] Hp]. destruct (Hf (u_handler s)) as (F1 & F2 & F3 & F4 & F5).
  split; [|done]. split; [|cbn; rewrite Hev, F5; by apply log_early].
  eapply base_goto; try done; rewrite ?F4, ?F5; [by apply Hb| | |by auto].
  - intros [Hx|?]%Hv; [|done]. destruct Hb as (_ & _ & _ & Hb & _). rewrite Hp in Hb. by apply Hb.
  - rewrite Hp. auto.
Qed.

(** What [self] reads is configured as the handler was. *)
Lemma uhoare_config {A} P `{!Stable P} (k : ZmtpUringHandler -> U A) Q :
  (forall h, zmtp_config h = cfg -> is_server h = srv -> uhoare P (k h) Q winv) -> uhoare P (h ← self; k h) Q winv.
Proof.
  intros Hk. apply uhoare_self. intros h s [Eh Hp]. destruct (stable_weak s Hp) as [(H1 & H2 & _) _].
  rewrite Eh in H1, H2. by apply Hk.
Qed.

(** An arm of the phase loop. *)
Definition arm (p : ZmtpHandlerPhase) (m : U (option bool)) : Prop := uhoare (at_phase p) m (fun _ => inv) winv.

Lemma at_inv p s : at_phase p s -> inv s.
Proof. by intros []. Qed.

Lemma inv_weak s : inv s -> winv s.
Proof. apply (stable_weak (P := inv)). Qed.

Lemma keeps_then {A B} P (m : U A) (k : A -> U B) Q :
  keeps P m -> (forall a, uhoare P (k a) Q winv) -> uhoare P (m ≫= k) Q winv.
Proof. intros Hm Hk. by eapply uhoare_bind. Qed.

Lemma arm_wait p a : uhoare (at_phase p) (mret (a : option bool)) (fun _ => inv) winv.
Proof. apply uhoare_ret, at_inv. Qed.

(** [goto], then a result. *)
Lemma arm_goto p p' f (a : option bool) :
  early p = true -> early p' = true -> (v2_phase p' = true -> v2_phase p = true \/ cfg_allow_zmtp2 cfg = true) ->
  (late p' = true -> late p = true) ->
  (forall h, zmtp_config (f h) = zmtp_config h /\ is_server (f h) = is_server h /\ framer (f h) = framer h /\
     security_mechanism (f h) = security_mechanism h /\ phase (f h) = p') ->
  arm p (set f;; mret a).
Proof. intros. apply (uhoare_bind _ _ _ (fun _ => at_phase p')); [by apply (goto_spec p p')|]. intros _. apply arm_wait. Qed.

Lemma arm_revision : arm WaitPeerRevision (wait_peer_revision interface).
Proof.
  apply keeps_then; [apply ukeeps_fill; apply _|]. intros _. apply uhoare_config; [apply _|]. intros h Hc Hsv.
  destruct (_ <? _); [apply arm_wait|]. apply keeps_then; [apply keeps_try|]. intros head.
  apply keeps_then; [apply keeps_or_fatal; apply _|]. intros rev. case_bool_decide.
  - destruct (cfg_allow_zmtp2 (zmtp_config h)) eqn:Ha; cbn [negb]; [|apply fatal_spec, stable_weak].
    rewrite Hc in Ha. apply keeps_then; [apply keeps_or_fatal; apply _|]. intros b.
    apply keeps_then; [apply keeps_ops|]. intros _. by apply (arm_goto _ SendV2Tail); auto.
  - destruct (_ <=? _); [|apply fatal_spec, stable_weak].
    apply keeps_then; [apply keeps_ops|]. intros _. by apply (arm_goto _ SendV3Tail).
Qed.

Lemma arm_greeting : arm WaitV3Greeting (wait_v3_greeting ephemeral interface).
Proof.
  apply uhoare_config; [apply _|]. intros h0 _ _. apply keeps_then; [apply ukeeps_fill; apply _|]. intros _.
  apply uhoare_config; [apply _|]. intros h Hc Hsv. destruct (_ <? _); [apply arm_wait|].
  destruct (ZmtpGreeting.decode _) as [buf r]. apply keeps_then; [by apply keeps_set|]. intros _.
  apply keeps_then; [apply keeps_or_fatal; apply _|]. intros [pg|]; [|apply arm_wait].
  destruct (eqb _ _); [apply fatal_spec, stable_weak|]. apply keeps_then; [by apply keeps_set|]. intros _.
  rewrite Hc, Hsv. eapply (uhoare_bind _ _ _ (fun m s => derived ephemeral cfg srv m /\ at_phase WaitV3Greeting s)).
  { apply uhoare_try; [|apply stable_weak]. intros m s E Hs. split; [|done]. by exists pg, m. }
  intros m. eapply (uhoare_bind _ _ _ (fun _ => inv)); [|intros _; by apply uhoare_ret].
  apply uhoare_set. intros s [Hm Hs]. pose proof (at_early WaitV3Greeting s eq_refl Hs) as Hev. destruct Hs as [[Hb _] Hp].
  split; [|exact Hev]. eapply base_goto; try done; [by intros ? [= <-]|cbn; by auto].
Qed.

Lemma arm_v2_greeting : arm V2GreetingExchange (v2_greeting_exchange interface).
Proof.
  apply keeps_then; [apply ukeeps_fill; apply _|]. intros _. apply uhoare_config; [apply _|]. intros h Hc Hsv.
  destruct (_ <? _); [apply arm_wait|]. apply keeps_then; [apply keeps_try|]. intros b.
  apply keeps_then; [apply keeps_try|]. intros [x rest]. apply keeps_then; [by apply keeps_set|]. intros _.
  apply keeps_then; [apply keeps_or_fatal; apply _|]. intros _. apply keeps_then; [apply keeps_ops|]. intros _.
  apply (arm_goto _ V2SendIdentity); auto.
Qed.

Lemma arm_frame p k : (forall msg, arm p (k msg)) -> arm p (with_frame interface k).
Proof.
  intros Hk. apply uhoare_config; [apply _|]. intros h Hc Hsv. case_bool_decide; [apply arm_wait|].
  apply keeps_then; [apply ukeeps_read|]. intros r. apply keeps_then; [apply keeps_or_fatal; apply _|].
  intros [msg|]; [apply Hk|apply arm_wait].
Qed.

(** The end of the handshake: the data phase, then the announcement. *)
Lemma complete_spec p :
  early p = true -> (late p = true \/ v2_phase p = true) ->
  uhoare (at_phase p) (set_phase DataPhase;; signal_upstream_handshake_complete interface) (fun _ => at_phase DataPhase) winv.
Proof.
  intros He Hl s Hs. pose proof (at_early p s He Hs) as Hev. destruct Hs as [[Hb _] Hp].
  assert (Hbase : forall h' ops evs, core h' = core ((u_handler s) <| phase := DataPhase |>) -> framer h' = framer (u_handler s) ->
    base (mkUState h' ops evs)).
  { intros h' ops evs Hc Hf. unfold core in Hc. injection Hc as E1 E2 E3 E4. eapply base_goto; try done; rewrite ?E3, ?E4, ?Hp; auto; [by apply Hb|done]. }
  unfold signal_upstream_handshake_complete, mbind, U_bind, set_phase, set, self, try_send. cbn [u_handler u_ops u_events].
  rewrite Hev. destruct (upstream_open interface); cbn.
  - split; [|done]. split; [by apply Hbase|]. by exists (match peer_identity_from_ready (u_handler s) with Some id => Some id
      | None => peer_identity_from_security (u_handler s) end), [].
  - split; [by apply Hbase|]. by right.
Qed.

Lemma arm_complete p : early p = true -> (late p = true \/ v2_phase p = true) ->
  arm p (set_phase DataPhase;; signal_upstream_handshake_complete interface;; mret (Some true)).
Proof.
  intros He Hl s Hs. pose proof (complete_spec p He Hl s Hs) as Hc. unfold mbind, U_bind in *.
  destruct (set_phase DataPhase s) as [[[]|?| |] s1]; try done.
  destruct (signal_upstream_handshake_complete interface s1) as [[[]|?| |] s2]; try done. exact (at_inv _ _ Hc).
Qed.

Lemma arm_identity : arm V2WaitIdentity (v2_wait_identity interface).
Proof.
  apply arm_frame. intros msg. apply keeps_then; [apply keeps_or_fatal; apply _|]. intros id.
  apply keeps_then; [apply keeps_set; intros h; by case_bool_decide|]. intros _.
  by apply arm_complete; [|right].
Qed.

Lemma keeps_expect p text msg : keeps (at_phase p) (expect_ready interface text msg).
Proof.
  apply ukeeps_bind; [apply keeps_try|]. intros [[| |data| |]|]; try (apply ukeeps_fatal; apply _).
  apply keeps_set. intros h. by destruct (properties data !! _).
Qed.

Lemma arm_server_ready : arm ReadyServerWaitClient (ready_server_wait_client interface).
Proof.
  apply arm_frame. intros msg. apply keeps_then; [apply keeps_expect|]. intros _. apply uhoare_config; [apply _|]. intros h _ _.
  apply keeps_then; [apply ukeeps_command|]. intros _. by apply (arm_goto _ ReadyServerSend).
Qed.

Lemma arm_client_ready : arm ReadyClientWaitServer (ready_client_wait_server interface).
Proof.
  apply arm_frame. intros msg. apply keeps_then; [apply keeps_expect|]. intros _. by apply arm_complete; [|left].
Qed.

(** The security exchange. *)
Lemma ukeeps_mechanism {A} p (op : DynMechanism -> DynMechanism * result A) :
  (forall m, mech_step m (op m).1) -> keeps (at_phase p) (with_mechanism op).
Proof.
  intros Hop. apply uhoare_self. intros h.
  eapply (uhoare_bind _ _ _ (fun m s => derived ephemeral cfg srv m /\ at_phase p s)).
  { apply uhoare_try; [|by intros s [_ [? ?]]; apply inv_weak]. intros m s E [Eh Hs]. split; [|done].
    destruct Hs as [[(_ & _ & Hm & _) _] _]. apply Hm. rewrite Eh. by destruct (security_mechanism h); inv E. }
  intros m. specialize (Hop m). destruct (op m) as [m' r]. cbn [fst] in Hop.
  apply (uhoare_bind _ _ _ (fun _ => at_phase p)); [|intros _; apply keeps_try].
  apply uhoare_set. intros s [(g & m0 & Hg & Hr) [[(H1 & H2 & H3 & H4 & H5) Hl] Hp]]. split; [|done]. split; [|exact Hl].
  split_and!; [done|done| |done|exact H5]. intros m1 [= <-]. exists g, m0. split; [done|by eapply rtc_r].
Qed.

Lemma keeps_produce p : keeps (at_phase p) produce_and_send.
Proof.
  apply ukeeps_bind; [apply ukeeps_mechanism, ms_produce|]. intros [t|]; [|apply ukeeps_ret].
  apply ukeeps_bind; [apply ukeeps_command|]. intros _. apply ukeeps_ret.
Qed.

Lemma keeps_process p : keeps (at_phase p) process_peer_token.
Proof.
  apply keeps_self. intros h. case_bool_decide; [apply ukeeps_ret|]. apply ukeeps_bind; [apply ukeeps_read|].
  intros [[msg|]|e|]; [|apply ukeeps_ret|apply ukeeps_ret|apply keeps_try]. destruct (negb _); [apply ukeeps_ret|].
  apply ukeeps_bind; [apply ukeeps_mechanism; intros m; apply ms_process|]. intros _.
  apply ukeeps_bind; [apply keeps_produce|]. intros _. apply ukeeps_ret.
Qed.

Lemma leave_spec :
  uhoare (fun s => at_phase SecurityExchange s /\ exists m, security_mechanism (u_handler s) = Some m /\ is_complete DynCipher m = true)
    (leave_security_exchange interface) (fun _ => inv) winv.
Proof.
  intros s [Hs (m & Em & Hm)]. unfold leave_security_exchange. unfold mbind at 1, U_bind at 1, self. cbv beta.
  unfold mbind at 1, U_bind at 1, try. rewrite Em. cbn [unwrap]. unfold mbind at 1, U_bind at 1, set at 1.
  pose proof (at_early SecurityExchange s eq_refl Hs) as Hev. destruct Hs as [[Hb _] Hp].
  assert (Hcs : zmtp_config (u_handler s) = cfg /\ is_server (u_handler s) = srv) by (by destruct Hb as (? & ? & _)).
  destruct Hcs as [Hcfg Hsv]. rewrite Hcfg, Hsv.
  assert (Hnone : winv (with_handler s ((u_handler s) <| security_mechanism := None |>))).
  { split; [|left; cbn; rewrite Hp, Hev; done]. eapply base_goto; try done; cbn; rewrite ?Hp; by auto. }
  destruct (into_framer DynCipher m (cfg_max_msg_size cfg)) as [[f id]|er|] eqn:Ef.
  - set (p' := if srv then ReadyServerWaitClient else ReadyClientSend).
    unfold mbind at 1, U_bind at 1, Uring.set. unfold mbind at 1, U_bind at 1, set_phase, Uring.set. cbn [u_handler u_ops u_events].
    match goal with |- match ?k ?s' with _ => _ end => assert (Hat : at_phase p' s') end.
    { split; [|done]. split; [|cbn; rewrite Hev; subst p'; by destruct srv].
      destruct Hb as (H1 & H2 & H3 & H4 & H5). split_and!; [done|done|done|by subst p'; destruct srv|].
      intros _ _. exists m, f, id. split_and!; [by apply H3|done|done|apply rtc_refl]. }
    match goal with |- match ?k ?s' with _ => _ end => assert (Hk : uhoare (at_phase p') k (fun _ => inv) winv) end.
    { destruct srv; [apply uhoare_ret, at_inv|]. eapply uhoare_conseq; [apply (ukeeps_command (P := at_phase p'))|done|intros a; apply at_inv|done]. }
    exact (Hk _ Hat).
  - unfold mbind at 1, U_bind at 1. unfold mbind at 1, U_bind at 1. pose proof (error_spec er winv _ Hnone) as He. unfold with_handler in He.
    destruct (transition_to_error interface er _) as [[[]|e| |] s']; try done. destruct He as [? _]. by apply inv_weak.
  - done.
Qed.

Lemma arm_security : arm SecurityExchange (security_exchange interface).
Proof.
  apply uhoare_self. intros h. destruct (security_mechanism h) as [m|] eqn:Em.
  2:{ apply fatal_spec. intros s [_ [? ?]]. by apply inv_weak. }
  assert (Hleave : forall m h a, security_mechanism h = Some m -> is_complete DynCipher m = true ->
    uhoare (fun s => u_handler s = h /\ at_phase SecurityExchange s) (leave_security_exchange interface;; mret (a : option bool)) (fun _ => inv) winv).
  { intros m1 h1 a E1 Ec. apply (uhoare_bind _ _ _ (fun _ => inv)); [|intros _; by apply uhoare_ret].
    eapply uhoare_conseq; [apply leave_spec| |done..]. intros s [<- Hs]. split; [done|]. by exists m1. }
  destruct (is_complete DynCipher m) eqn:Ec; [by apply (Hleave m)|].
  apply (uhoare_conseq (at_phase SecurityExchange) _ _ (fun _ => inv) _ winv); [|by intros s []|done..].
  apply keeps_then; [apply keeps_produce|]. intros produced. apply keeps_then; [apply keeps_process|]. intros [processed reason].
  apply uhoare_self. intros h1. destruct (security_mechanism h1) as [m1|] eqn:Em1; [|by intros s _].
  apply (uhoare_bind _ _ _ (fun m s => m = m1 /\ u_handler s = h1 /\ at_phase SecurityExchange s)).
  { apply uhoare_try; [by intros m2 s [= <-] Hs|]. intros s [_ [? ?]]. by apply inv_weak. }
  intros m2 s (-> & Hs). revert s Hs. cbn zeta.
  destruct (match reason with Some _ => _ | None => _ end) as [text|].
  { apply fatal_spec. intros s [_ [? ?]]. by apply inv_weak. }
  destruct (is_complete DynCipher m1) eqn:Ec1; [by apply (Hleave m1)|].
  destruct (_ && _); intros s [_ Hs]; exact (at_inv _ _ Hs).
Qed.

(** The data phase. *)
Lemma keeps_frame msg : keeps (at_phase DataPhase) (data_frame interface msg).
Proof.
  apply ukeeps_bind; [by apply keeps_set|]. intros _. apply keeps_self. intros h. destruct (Msg.is_command msg).
  - destruct (match negotiated_version h with Some v => _ | None => _ end); [apply ukeeps_fatal; apply _|].
    apply ukeeps_bind; [apply keeps_try|]. intros [[ctx|ctx|data| |body]|]; try apply ukeeps_ret.
    + apply ukeeps_command.
    + by apply keeps_set.
    + apply ukeeps_fatal; apply _.
  - intros s Hs. unfold mbind, U_bind, try_send. destruct (upstream_open interface).
    + destruct Hs as [[Hb Hl] Hp]. split; [|done]. rewrite Hp in Hl. destruct Hl as (id & msgs & Hev). split.
      * eapply base_goto; try done; cbn; rewrite ?Hp; try done; [by apply Hb|by left|]. intros _. left. by exists id, (Data <$> msgs).
      * cbn. rewrite Hp, Hev. exists id, (msgs ++ [msg]). by rewrite fmap_app.
    + exact (ukeeps_fatal (at_phase DataPhase) _ s Hs).
Qed.

Lemma arm_data fuel progress : arm DataPhase (data_phase interface fuel progress).
Proof.
  revert progress. induction fuel as [|fuel IH]; intros progress; cbn [data_phase];
    (apply keeps_then; [apply ukeeps_read|]; intros r); (apply keeps_then; [apply keeps_or_fatal; apply _|]);
    (intros [msg|]; [|apply arm_wait]); (apply keeps_then; [apply keeps_frame|]; intros _); [by intros s _|apply IH].
Qed.

Lemma arm_spec fuel p : arm p (phase_arm ephemeral interface fuel p).
Proof.
  destruct p; cbn [phase_arm]; try apply arm_wait.
  - apply fatal_spec, stable_weak.
  - apply arm_revision.
  - apply arm_greeting.
  - apply arm_v2_greeting.
  - apply arm_identity.
  - apply arm_security.
  - apply arm_client_ready.
  - apply arm_server_ready.
  - apply arm_data.
Qed.

Lemma uloop_spec fuel made : uhoare inv (phase_loop ephemeral interface fuel made) (fun _ => inv) winv.
Proof.
  revert made. induction fuel as [|fuel IH]; intros made; cbn [phase_loop]; apply uhoare_self; intros h;
    (destruct (handshake_expired interface h); [apply fatal_spec; intros s [_ ?]; by apply inv_weak|]);
    (apply (uhoare_bind _ _ _ (fun _ => inv));
     [eapply uhoare_conseq; [apply arm_spec|by intros s [<- Hs]|done..]|]);
    (intros [progress|]; [|by apply uhoare_ret]); apply keeps_self; intros h'; (destruct (_ && _); [by apply uhoare_ret|]).
  - by intros s _.
  - apply IH.
Qed.

(** The callers turn every error into the error phase. *)
Lemma process_or_error_spec fuel R : uhoare inv (process_or_error ephemeral interface fuel) (fun _ => inv) R.
Proof.
  apply (uhoare_bind _ _ _ (fun r s => match r with Err _ => winv s | _ => inv s end)).
  { apply uhoare_catch. eapply uhoare_conseq; [apply uloop_spec|done..]. }
  intros [b|e|]; [by apply uhoare_ret| |by apply uhoare_ret].
  eapply uhoare_conseq; [apply (error_spec e R)|done|by intros _ s []|done].
Qed.

(** The methods. *)
Lemma keeps_error e : keeps inv (transition_to_error interface e).
Proof. eapply uhoare_conseq; [apply (error_spec e winv)|apply inv_weak|by intros _ s []|done]. Qed.

Lemma keeps_blueprints wire ud : keeps inv (add_send_blueprints_for_wire_bytes wire ud).
Proof.
  apply keeps_self. intros h. case_bool_decide; [apply ukeeps_ret|]. destruct (_ && _); apply keeps_ops.
Qed.

Lemma keeps_next : keeps inv (send_next_queued interface).
Proof.
  apply keeps_self. intros h. destruct (outgoing_multipart_app_messages h) as [|[parts ud] rest];
    [destruct (outgoing_app_messages h) as [|[msg ud] rest]; [apply ukeeps_ret|]|];
    (apply ukeeps_bind; [by apply keeps_set|]; intros _); (apply ukeeps_bind; [apply ukeeps_write|]; intros r);
    (apply ukeeps_bind; [|intros _; apply ukeeps_ret]);
    (destruct r as [wire|e|]; [apply keeps_blueprints| |apply keeps_try]);
    (apply ukeeps_bind; [by apply keeps_set|]; intros _; apply keeps_error).
Qed.

Lemma keeps_heartbeat : keeps inv (heartbeat interface).
Proof.
  apply keeps_self. intros h. destruct (waiting_for_pong h).
  - destruct (last_ping_sent_time h); [|apply ukeeps_ret]. destruct (_ <? _); [apply keeps_error|apply ukeeps_ret].
  - destruct (heartbeat_ivl h); [|apply ukeeps_ret]. destruct (_ && _); [|apply ukeeps_ret].
    apply ukeeps_bind; [apply ukeeps_write|]. intros [wire|e|]; [|apply keeps_error|apply keeps_try].
    apply ukeeps_bind; [apply keeps_ops|]. intros _. by apply keeps_set.
Qed.

Lemma keeps_prepare : keeps inv (prepare_sqes interface).
Proof.
  apply keeps_self. intros h. destruct (handshake_expired _ _); [apply keeps_error|]. cbn zeta.
  destruct (match multishot_reader h with Some _ => _ | None => _ end); [apply keeps_ops|].
  case_bool_decide; [|apply ukeeps_ret]. apply ukeeps_bind; [apply keeps_next|]. intros [|]; [apply ukeeps_ret|apply keeps_heartbeat].
Qed.

Lemma keeps_app_data data : keeps inv (handle_outgoing_app_data interface data).
Proof.
  assert (Hsend : forall h frames q, keeps inv q -> keeps inv (send_or_queue interface h frames q)).
  { intros h frames q Hq. unfold send_or_queue. cbn zeta. case_bool_decide; [|exact Hq].
    apply ukeeps_bind; [apply ukeeps_write|]. intros [wire|e|]; [apply keeps_blueprints|exact Hq|apply keeps_try]. }
  apply keeps_self. intros h. destruct data; [apply Hsend; by apply keeps_set..|apply ukeeps_ret].
Qed.

(** An acknowledgement in a phase that is not the server's last, or the data phase. *)
Lemma keeps_acknowledged p : p <> ReadyServerSend -> p <> DataPhase ->
  uhoare (at_phase p) (set_phase (acknowledged p)) (fun _ => inv) winv.
Proof.
  intros Hp Hp'. destruct (early p) eqn:He.
  - apply (uhoare_conseq (at_phase p) _ _ (fun _ => at_phase (acknowledged p)) _ winv); [|done|intros _; apply at_inv|done].
    apply goto_spec; [done|by destruct p|by destruct p; auto|by destruct p|done].
  - assert (acknowledged p = p) as -> by (by destruct p). apply uhoare_set. intros s [[Hb Hl] Ep]. subst p.
    split; [|exact Hl]. eapply base_goto; try done; cbn; auto; apply Hb.
Qed.

Lemma keeps_ack : keeps inv (advance_on_ack interface).
Proof.
  apply uhoare_self. intros h. apply (uhoare_conseq (at_phase (phase h)) _ _ (fun _ => inv) _ winv);
    [|by intros s [<- Hs]|done..].
  destruct (phase h) eqn:Ep.
  15:{ apply keeps_then; [apply keeps_set; intros h'; by destruct (last_sent_was_ping h')|]. intros _.
    apply (uhoare_conseq inv _ _ (fun _ => inv) _ winv); [|apply at_inv|done..]. apply ukeeps_bind; [apply keeps_next|]. intros _.
    apply keeps_self. intros h'. apply ukeeps_ret. }
  14:{ intros s Hs. pose proof (complete_spec ReadyServerSend eq_refl (or_introl eq_refl) s Hs) as Hc.
    unfold signal_or_error. unfold mbind, U_bind in *. destruct (set_phase DataPhase s) as [[[]|?| |] s1]; try done. unfold catch.
    destruct (signal_upstream_handshake_complete interface s1) as [[[]|e| |] s2]; try done; [exact (at_inv _ _ Hc)|].
    pose proof (error_spec e winv s2 Hc) as He. unfold mbind, U_bind in He |- *.
    by destruct (transition_to_error interface e s2) as [[[]|?| |] s3]; [destruct He|..]. }
  all: (apply (uhoare_bind _ _ _ (fun _ => inv)); [by apply keeps_acknowledged|intros _; by apply uhoare_ret]).
Qed.

Lemma keeps_completion fuel res : keeps inv (handle_internal_sqe_completion ephemeral os_error interface fuel res).
Proof.
  apply ukeeps_bind; [by apply keeps_set|]. intros _. destruct (_ && _); [apply keeps_error|].
  apply keeps_self. intros h. apply ukeeps_bind; [apply keeps_ack|]. intros b. apply keeps_self. intros h'.
  destruct (_ && _); [apply process_or_error_spec|apply ukeeps_ret].
Qed.

Lemma eof_spec R : uhoare (at_phase DataPhase)
  (transition_to_error interface ConnectionClosed;; (_ ← try_send interface (EventError ConnectionClosed); mret tt))
  (fun _ => inv) R.
Proof.
  intros s [[Hb Hl] Hp]. rewrite Hp in Hl.
  unfold transition_to_error, mbind, U_bind, self, set_phase, set, set_ops. rewrite Hp. cbn [u_handler u_ops u_events].
  rewrite bool_decide_false by naive_solver. rewrite bool_decide_true by done. cbn [mret U_ret].
  assert (Hbase : forall evs' ops', (announced evs' -> announced (u_events s)) ->
    base (mkUState ((u_handler s) <| phase := Error |>) ops' evs')).
  { intros evs' ops' Ha. eapply base_goto; try done; [by apply Hb|by auto]. }
  unfold try_send. destruct (upstream_open interface); (split; [apply Hbase|]); [apply announced_snoc| |done|].
  - right. exists (u_events s), ConnectionClosed. split; [done|by right].
  - by left; right.
Qed.

Lemma ring_read_spec fuel data R : uhoare inv (process_ring_read_data ephemeral interface fuel data) (fun _ => inv) R.
Proof.
  assert (Hset : forall f, (forall h, core (f h) = core h /\ framer (f h) = framer h) -> uhoare inv (set f) (fun _ => inv) R).
  { intros f Hf s Hs. exact (keeps_set f Hf s Hs). }
  apply (uhoare_bind _ _ _ (fun _ => inv)); [by apply Hset|]. intros _. apply uhoare_self. intros h. destruct (_ && _).
  - case_bool_decide as Hp.
    + eapply uhoare_conseq; [apply (eof_spec R)| |done..]. intros s [<- Hs]. by split.
    + apply (uhoare_bind _ _ _ (fun _ => inv)); [|intros _; by apply uhoare_ret].
      eapply uhoare_conseq; [apply (error_spec _ R)| |by intros _ s []|done]. intros s [_ Hs]. by apply inv_weak.
  - apply (uhoare_bind _ _ _ (fun _ => inv)); [|intros _; apply process_or_error_spec].
    eapply uhoare_conseq; [by apply Hset|by intros s []|done..].
Qed.

(** The completion of a read that is the reader's. *)
Lemma cqe_spec fuel cqe borrow r R :
  Reader.matches_cqe_user_data (cqe_user_data cqe) r = true ->
  uhoare inv (process_cqe ephemeral interface fuel cqe borrow r) (fun _ => inv) R.
Proof.
  intros Hm. unfold process_cqe. cbn zeta.
  assert (Hclose : forall a : MultishotReader * bool,
    uhoare inv (set_ops (fun o => o <| initiate_close_due_to_error := true |>);; mret a) (fun _ => inv) R).
  { intros a s Hs. exact (keeps_ops _ s Hs). }
  assert (Hread : forall data (b : bool) x y, uhoare inv
    (process_ring_read_data ephemeral interface fuel data;; if b then mret (x : MultishotReader * bool) else mret y) (fun _ => inv) R).
  { intros data b x y. apply (uhoare_bind _ _ _ (fun _ => inv)); [apply ring_read_spec|]. intros _. destruct b; by apply uhoare_ret. }
  case_bool_decide as E1.
  - destruct (_ <? _); [apply Hclose|]. destruct (buffer_select cqe) as [bid|]; [|apply Hclose].
    destruct (0 <? _); [destruct (borrow bid _); [|apply Hclose]|]; apply Hread.
  - case_bool_decide as E2; [by apply uhoare_ret|]. unfold Reader.matches_cqe_user_data in Hm.
    rewrite !bool_decide_false in Hm by congruence. done.
Qed.

Lemma keeps_delegate fuel cqe borrow : keeps inv (delegate_cqe_to_multishot_reader ephemeral interface fuel cqe borrow).
Proof.
  apply keeps_self. intros h. destruct (multishot_reader h) as [r|]; [|apply ukeeps_ret].
  destruct (Reader.matches_cqe_user_data _ _) eqn:Em; [|apply ukeeps_ret]. apply ukeeps_bind; [by apply keeps_set|]. intros _.
  apply ukeeps_bind.
  - apply uhoare_catch. eapply uhoare_conseq; [apply (cqe_spec fuel cqe borrow r (fun _ => False) Em)|done..].
  - intros [[r' c]|e|]; [..|apply keeps_try]; (apply ukeeps_bind; [by apply keeps_set|]; intros _; apply ukeeps_ret).
Qed.

(** ** Reachable handlers *)

(** A call of the worker. *)
Inductive uring_call :=
| CallRead (data : bytes)
| CallCompletion (cqe_result : Z)
| CallMultishot (cqe : Cqe) (borrow : Z -> Z -> option bytes)
| CallSubmitted (ud : UserData) (is_cancel : bool) (target : option UserData)
| CallPrepare
| CallSend (data : AppData)
| CallClose
| CallClosed.

Definition run_call (fuel : nat) (c : uring_call) : U unit :=
  match c with
  | CallRead data => process_ring_read_data ephemeral interface fuel data
  | CallCompletion res => handle_internal_sqe_completion ephemeral os_error interface fuel res
  | CallMultishot cqe borrow => _ ← delegate_cqe_to_multishot_reader ephemeral interface fuel cqe borrow; mret tt
  | CallSubmitted ud is_cancel target => inform_multishot_reader_op_submitted ud is_cancel target
  | CallPrepare => prepare_sqes interface
  | CallSend data => handle_outgoing_app_data interface data
  | CallClose => close_initiated
  | CallClosed => fd_has_been_closed
  end.

Lemma closing_base s p : (p = Closing \/ p = Closed) -> base s ->
  base (with_handler s ((u_handler s) <| phase := p |>)).
Proof. intros Hp Hb. destruct Hp as [-> | ->]; (eapply base_goto; try done; [by apply Hb|by auto]). Qed.

Lemma log_closing p evs : log_ok p evs -> p <> Closing -> p <> Closed -> p <> Error -> traffic evs.
Proof. intros Hl H1 H2 H3. eapply log_traffic; [|exact Hl]. destruct p; auto; done. Qed.

Lemma keeps_call fuel c : keeps inv (run_call fuel c).
Proof.
  destruct c as [data|res|cqe borrow|ud is_cancel target| |data| |]; cbn [run_call].
  - apply ring_read_spec.
  - apply keeps_completion.
  - apply ukeeps_bind; [apply keeps_delegate|]. intros _. apply ukeeps_ret.
  - apply keeps_set. intros h. by destruct (multishot_reader h), is_cancel, target.
  - apply keeps_prepare.
  - apply keeps_app_data.
  - apply uhoare_set. intros s [Hb Hl]. unfold is_closing_or_closed. case_bool_decide as Hp; [by split|].
    split; [exact (base_stable (with_handler s _) _ eq_refl eq_refl (rtc_refl _ _) (closing_base s Closing (or_introl eq_refl) Hb))|].
    cbn. eapply log_closing; [exact Hl|naive_solver..].
  - apply uhoare_set. intros s [Hb Hl]. split; [exact (closing_base s Closed (or_intror eq_refl) Hb)|].
    cbn. destruct (decide (phase (u_handler s) = Error \/ phase (u_handler s) = Closed)) as [[E|E]|Hn]; [by rewrite E in Hl..|].
    left. eapply log_traffic; [|exact Hl]. destruct (phase (u_handler s)); naive_solver.
Qed.

End Invariant.

(** One call that returns: the handler, and the events it has sent so far. *)
Inductive uring_step `{Dryoc} `{Snow} (e : bytes) (os : Z -> ZmqError)
  : ZmtpUringHandler * list HandlerUpstreamEvent -> ZmtpUringHandler * list HandlerUpstreamEvent -> Prop :=
| uring_called interface fuel c h evs s :
    run_call e os interface fuel c (mkUState h no_ops evs) = (Done tt, s) ->
    uring_step e os (h, evs) (u_handler s, u_events s).

(** A handler as [create_and_add_handler] leaves it. *)
Definition uring_start `{Dryoc} `{Snow} (fd : Z) (cfg : ZmtpEngineConfig) (is_server : bool) (t0 : Z)
  (interface : UringWorkerInterface) : ZmtpUringHandler :=
  u_handler (connection_ready interface (mkUState (new fd cfg is_server t0) no_ops [])).2.

Section Reachable.
Context `{HD : Dryoc} `{HS : Snow}.
Variable e : bytes.
Variable os : Z -> ZmqError.

Lemma start_inv fd cfg is_server t0 interface :
  inv e cfg is_server (mkUState (uring_start fd cfg is_server t0 interface) no_ops []).
Proof.
  unfold uring_start, connection_ready, mbind, U_bind, set, push, set_ops, set_phase. cbn [fst snd u_handler u_ops u_events].
  destruct (cfg_use_recv_multishot _), (default_bgid_for_handler_use interface);
    (split; [split_and!; [done..|intros [?|(? & ? & ?)]; done]|done]).
Qed.

Lemma uring_reachable fd cfg is_server t0 interface h evs :
  rtc (uring_step e os) (uring_start fd cfg is_server t0 interface, []) (h, evs) ->
  inv e cfg is_server (mkUState h no_ops evs).
Proof.
  intros Hr. refine (rtc_invariant (uring_step e os) (fun x => inv e cfg is_server (mkUState x.1 no_ops x.2)) _ _ Hr _ _).
  - apply start_inv.
  - intros [h1 evs1] [h2 evs2] Hi Hs. inv Hs as [iface fuel c h3 evs3 s E]. cbn [fst snd] in Hi.
    pose proof (keeps_call e os cfg is_server iface fuel c _ Hi) as Hk. rewrite E in Hk.
    refine (stable _ _ _ s (mkUState _ _ _) eq_refl eq_refl (rtc_refl _ _) Hk).
Qed.

End Reachable.

(** ** What the worker's calls amount to

    A completion with [EAGAIN], which the code takes for a read without data, counts
    as the acknowledgement of a send, and so does one for fewer octets than were to
    be sent. *)
Lemma acknowledgements_alike `{HD : Dryoc} `{HS : Snow} e os (interface : UringWorkerInterface) fuel (n m : Z) :
  (n = - EAGAIN \/ 0 <= n) -> (m = - EAGAIN \/ 0 <= m) ->
  run_call e os interface fuel (CallCompletion n) = run_call e os interface fuel (CallCompletion m).
Proof.
  assert (forall k, (k = - EAGAIN \/ 0 <= k) -> (k <? 0) && negb (- k =? EAGAIN) = false) as Hk
    by (intros k [-> | ?]; [done|]; by rewrite (proj2 (Z.ltb_ge _ _))).
  intros Hn Hm. cbn [run_call]. unfold handle_internal_sqe_completion. by rewrite !Hk.
Qed.

(** A handler that was told to close asks for nothing that closes the descriptor
    until the deadline of the handshake, however old, makes the next call report a
    timeout. *)
Lemma closing_times_out `{HD : Dryoc} `{HS : Snow} e os (interface : UringWorkerInterface) fuel (s : UState) :
  is_closing_or_closed (u_handler s) = false ->
  let s1 := (run_call e os interface fuel CallClose s).2 in
  let s2 := (run_call e os interface fuel CallPrepare (mkUState (u_handler s1) no_ops (u_events s1))).2 in
  if (handshake_timeout_deadline (u_handler s) <? instant_now interface)%Z
  then u_ops s2 = mkOps [RequestClose] true /\
       (upstream_open interface = true -> u_events s2 = u_events s ++ [EventError Timeout])
  else (RequestClose ∉ sqe_blueprints (u_ops s2)) /\ u_events s2 = u_events s.
Proof.
  intros Hc. cbn [run_call]. unfold close_initiated, set. rewrite Hc. cbn [snd].
  unfold prepare_sqes, mbind, U_bind, self, handshake_expired. cbn -[bool_decide].
  rewrite (bool_decide_eq_false_2 (Closing = DataPhase \/ _)) by (intros [?|[?|?]]; done). cbn [negb]. rewrite andb_true_r.
  destruct (_ <? _).
  - unfold transition_to_error, try_send, mbind, U_bind, set_phase, set, set_ops, self. cbn -[bool_decide].
    rewrite (bool_decide_eq_false_2 (_ \/ _)) by (intros [?|?]; done). cbn -[bool_decide].
    rewrite !bool_decide_eq_false_2 by (by inversion 1). cbn -[bool_decide].
    by destruct (upstream_open interface).
  - rewrite (bool_decide_eq_false_2 (Closing = DataPhase)) by done.
    destruct (multishot_reader (u_handler s)) as [r|]; cbn; [|by split; [apply not_elem_of_nil|]].
    destruct (Reader.is_active r); cbn; [by split; [apply not_elem_of_nil|]|].
    unfold Reader.prepare_recv_multi_intent. destruct (_ || _); cbn; (split; [|done]).
    + apply not_elem_of_nil.
    + by intros ?%list_elem_of_singleton.
Qed.

(** The events of a reachable handler. *)
Lemma uring_events `{HD : Dryoc} `{HS : Snow} e os fd cfg is_server t0 (interface : UringWorkerInterface) h evs :
  rtc (uring_step e os) (uring_start fd cfg is_server t0 interface, []) (h, evs) ->
  exists ann msgs errs, evs = (HandshakeComplete <$> ann) ++ (Data <$> msgs) ++ (EventError <$> errs) /\
    (length ann <= 1)%nat /\ (length errs <= 1)%nat /\ (ann = [] -> msgs = []) /\
    (errs <> [] -> phase h = Error \/ phase h = Closed).
Proof.
  intros Hrun. apply uring_reachable in Hrun as [_ Hl]. cbn in Hl.
  assert (Hcase : traffic evs \/ exists evs0 err, evs = evs0 ++ [EventError err] /\ traffic evs0 /\
    (phase h = Error \/ phase h = Closed)).
  { destruct (phase h) eqn:Ep; try (by left; left); [by left; right| |by left|];
      (destruct Hl as [?|(evs0 & err & ? & ?)]; [by left|right; exists evs0, err; auto]). }
  destruct Hcase as [[->|(id & msgs & ->)]|(evs0 & err & -> & Ht0 & Hp)].
  - exists [], [], []. split_and!; cbn; auto; done.
  - exists [id], msgs, []. split_and!; cbn; [by rewrite app_nil_r|auto..|done|done].
  - destruct Ht0 as [->|(id & msgs & ->)].
    + exists [], [], [err]. split_and!; cbn; auto.
    + exists [id], msgs, [err]. split_and!; cbn; auto; done.
Qed.

(** Its framer, once it has announced a peer or handed over a message. *)
Lemma uring_framer `{HD : Dryoc} `{HS : Snow} e os fd o is_server t0 (interface : UringWorkerInterface) h evs :
  allow_zmtp2 o = false -> rtc (uring_step e os) (uring_start fd (engine_config o) is_server t0 interface, []) (h, evs) ->
  Exists (fun ev => match ev with EventError _ => False | _ => True end) evs ->
  exists f, secured_framer o is_server f /\ rtc framer_step f (framer h).
Proof.
  intros Hv2 Hrun Htold. apply uring_reachable in Hrun as [(_ & _ & _ & _ & Hm) Hl]. cbn in Hm, Hl.
  assert (Ha : announced evs).
  { assert (Ht : forall evs, traffic evs -> Exists (fun ev => match ev with EventError _ => False | _ => True end) evs -> announced evs).
    { intros l [->|(id & msgs & ->)] Hx; [by apply Exists_nil in Hx|by eexists _, _]. }
    destruct (phase h); cbn [log_ok] in Hl; try (by subst evs; apply Exists_nil in Htold); try (by apply Ht; [|done]; right).
    all: try (by apply Ht).
    all: destruct Hl as [?|(evs0 & err & -> & H0)]; [by apply Ht|].
    all: apply Exists_app in Htold as [Hx|Hx]; [|by apply Exists_cons in Hx as [Hx|Hx]; [|apply Exists_nil in Hx]].
    all: destruct (Ht _ H0 Hx) as (id & tl & ->); by eexists _, _. }
  destruct (Hm (or_intror Ha) Hv2) as (m & f & id & Hd & Hc & Hi & Hr). exists f. split; [by eapply derived_secured|exact Hr].
Qed.

(** ** Properties *)

(** C8: what the io_uring handler tells its socket.  Whatever the ring delivers and
    whenever the worker calls, the events of a connection are the announcement of
    the peer, then its messages, then at most one error; without the announcement
    there are no messages; and an error is the last event of a handler in its error
    phase. *)
Theorem uring_reports (HD : Dryoc) (HS : Snow) (e : bytes) (os : Z -> ZmqError) (fd : Z) (cfg : ZmtpEngineConfig)
  (is_server : bool) (t0 : Z) (interface : UringWorkerInterface) (h : ZmtpUringHandler) (evs : list HandlerUpstreamEvent)
  (Hrun : rtc (uring_step e os) (uring_start fd cfg is_server t0 interface, []) (h, evs)) :
  exists ann msgs errs, evs = (HandshakeComplete <$> ann) ++ (Data <$> msgs) ++ (EventError <$> errs) /\
    (length ann <= 1)%nat /\ (length errs <= 1)%nat /\ (ann = [] -> msgs = []) /\
    (errs <> [] -> phase h = Error \/ phase h = Closed).
Proof. exact (uring_events e os fd cfg is_server t0 interface h evs Hrun). Qed.

(** The calls of a worker, one after the other. *)
Fixpoint run_calls `{Dryoc} `{Snow} (e : bytes) (os : Z -> ZmqError) (calls : list (UringWorkerInterface * uring_call))
  (x : ZmtpUringHandler * list HandlerUpstreamEvent) : ZmtpUringHandler * list HandlerUpstreamEvent :=
  match calls with
  | [] => x
  | (interface, c) :: calls =>
      let '(r, s) := run_call e os interface 20 c (mkUState x.1 no_ops x.2) in
      match r with Done _ => run_calls e os calls (u_handler s, u_events s) | _ => x end
  end.

Lemma run_calls_steps `{Dryoc} `{Snow} e os calls x : rtc (uring_step e os) x (run_calls e os calls x).
Proof.
  revert x. induction calls as [|[interface c] calls IH]; intros [h evs]; [apply rtc_refl|]. cbn [run_calls fst snd].
  destruct (run_call e os interface 20 c (mkUState h no_ops evs)) as [[[]|?| |] s] eqn:E; try apply rtc_refl.
  eapply rtc_l; [by econstructor|]. apply IH.
Qed.

(** A PLAIN server and a client that sends everything at once, and a message. *)
Definition quiet : UringWorkerInterface := mkInterface true None 0 0.
Definition strict_server : SocketOptions := plain_socket <| allow_zmtp2 := false |>.
Definition hello_frame : bytes := (ZmtpCodec.encode (Msg.from_vec (bs "hello")) []).1.

Definition plain_calls : list (UringWorkerInterface * uring_call) :=
  [(quiet, CallCompletion 11); (quiet, CallRead plain_peer_octets); (quiet, CallCompletion 53);
   (quiet, CallCompletion 8); (quiet, CallRead hello_frame); (quiet, CallRead [])].

Definition plain_server_run : ZmtpUringHandler (HS := toy_snow) * list HandlerUpstreamEvent :=
  run_calls (H := toy_dryoc) [] (fun _ => ConnectionClosed) plain_calls
    (uring_start (H := toy_dryoc) 7 (engine_config strict_server) true 0 quiet, []).

Lemma plain_server_events :
  plain_server_run.2 = [HandshakeComplete (Some (bs "u")); Data (mkMsg (Some (bs "hello")) 0); EventError ConnectionClosed].
Proof. vm_compute. reflexivity. Qed.

Lemma plain_server_reached :
  rtc (@uring_step toy_dryoc toy_snow [] (fun _ => ConnectionClosed))
    (uring_start (H := toy_dryoc) 7 (engine_config strict_server) true 0 quiet, []) (plain_server_run.1, plain_server_run.2).
Proof. rewrite <- surjective_pairing. apply run_calls_steps. Qed.

Lemma uring_reports_witness :
  exists ann msgs errs, plain_server_run.2 = (HandshakeComplete <$> ann) ++ (Data <$> msgs) ++ (EventError <$> errs) /\
    (errs <> [] -> phase plain_server_run.1 = Error \/ phase plain_server_run.1 = Closed).
Proof.
  destruct (uring_reports toy_dryoc toy_snow [] (fun _ => ConnectionClosed) 7 (engine_config strict_server) true 0 quiet
    plain_server_run.1 plain_server_run.2 plain_server_reached) as (ann & msgs & errs & E & _ & _ & _ & Hp).
  exists ann, msgs, errs. split; [exact E|exact Hp].
Defined.


