(* ===== verification/UringReads.v ===== *)
(** The loops of the io_uring handler end.

    A framer is done with a buffer after finitely many frames, whatever its
    cipher: the octets on the wire and then the decrypted ones get fewer
    ([read_weighs]).  A mechanism produces finitely many tokens between two tokens
    of its peer.  So every call of the worker returns, and more fuel changes
    nothing. *)

From S2P Require Import Prelude Error Utf8 Message Codec Command Framer Greeting Mechanism Plain Options.
From S2P Require Import Curve Noise Security Io Handler Handshake HandshakeSafety DataPhase Uring UringSafety.
Import Uring.

(** ** Framers *)

(** What a parser can still take out of a buffer. *)
Definition parser_weight (p : ZmtpManualParser) (src : bytes) : nat :=
  2 * length src + match mp_state p with ReadHeader => 0 | ReadBody _ => 1 end.

Definition lighter (a b : nat * nat) : Prop := (a.1 < b.1)%nat \/ a.1 = b.1 /\ (a.2 < b.2)%nat.

Lemma lighter_wf : well_founded lighter.
Proof.
  intros [a b]. revert b. induction a as [a IHa] using lt_wf_ind. intros b.
  induction b as [b IHb] using lt_wf_ind. constructor. intros [a' b'] [Hl|[Hl Hb]]; cbn in *; [by apply IHa|].
  subst. by apply IHb.
Qed.

(** A frame costs weight, and so does every octet. *)
Lemma body_weighs p flags size src :
  let '(p', src', r) := ZmtpManualParser.decode_body p flags size src in
  match r with
  | Ok (Some _) => (length src' <= length src)%nat /\ mp_state p' = ReadHeader
  | _ => src' = src /\ p' = p
  end.
Proof.
  unfold ZmtpManualParser.decode_body. destruct (_ <? _); [done|]. unfold split_to. destruct (_ && _); [|done].
  split; [|done]. rewrite length_drop. lia.
Qed.

Lemma parser_weighs p src :
  let '(p', src', r) := ZmtpManualParser.decode_from_buffer p src in
  match r with
  | Ok (Some _) => (parser_weight p' src' < parser_weight p src)%nat
  | Ok None => (length src' < length src)%nat /\ (parser_weight p' src' < parser_weight p src)%nat \/ src' = src /\ p' = p
  | _ => True
  end.
Proof.
  unfold ZmtpManualParser.decode_from_buffer, parser_weight. destruct (mp_state p) as [|hd] eqn:Ep.
  - destruct src as [|b t]; [by right|]. destruct (_ <? _); [by right|].
    match goal with |- context [match ?x with Ok _ => _ | _ => _ end] =>
      destruct x as [[[f n] s]|e|] eqn:E end; [|done..].
    assert (Hs : zlen s + 1 <= zlen (b :: t)).
    { apply bind_Ok in E as ([f' s1] & E1 & E). cbn in E1. apply Ok_inj in E1. simplify_eq.
      apply bind_Ok in E as ([n' s2] & E2 & E). apply Ok_inj in E. simplify_eq. rewrite zlen_cons.
      destruct (flag_set _ ZMTP_FLAG_LONG); [apply get_uint_shrinks in E2; lia|].
      apply bind_Ok in E2 as ([b' s3] & E2%get_u8_shrinks & E3). apply Ok_inj in E3. simplify_eq. lia. }
    unfold zlen in Hs. destruct (_ && _); [done|].
    pose proof (body_weighs (mkParser (ReadBody (mkHeader f n)) (max_msg_size p)) f n s) as Hb.
    destruct (ZmtpManualParser.decode_body _ _ _ _) as [[p' s'] [[m|]|er|]]; try done.
    + destruct Hb as [Hb ->]. lia.
    + destruct Hb as [-> ->]. left. cbn [mp_state]. lia.
  - pose proof (body_weighs p (h_flags hd) (h_size hd) src) as Hb.
    destruct (ZmtpManualParser.decode_body _ _ _ _) as [[p' s'] [[m|]|er|]]; try done.
    + destruct Hb as [Hb ->]. lia.
    + by right.
Qed.

Section Weight.
Context `{IDataCipher C}.

Definition weight (f : DynFramer C) (net : bytes) : nat * nat :=
  match f with
  | DynNull f => (parser_weight (nf_parser f) net, O)
  | DynLengthPrefixed f => (length net, parser_weight (lp_parser f) (lp_decrypted f))
  end.

(** A frame makes the framer and its buffer lighter; no frame leaves them as they
    are, or makes them lighter too. *)
Definition weighed (f : DynFramer C) (net : bytes) (o : DynFramer C * bytes * result (option Msg)) : Prop :=
  let '(f', net', r) := o in
  match r with
  | Ok (Some _) => lighter (weight f' net') (weight f net)
  | Ok None => lighter (weight f' net') (weight f net) \/ weight f' net' = weight f net /\ length net' = length net
  | _ => True
  end.

Lemma lp_weighs fuel (f : LengthPrefixedFramer C) net :
  let '(f', net', r) := LengthPrefixedFramer.try_read_loop fuel f net in
  weighed (DynLengthPrefixed f) net (DynLengthPrefixed f', net', r).
Proof.
  revert f net. induction fuel as [|fuel IH]; intros f net; cbn [LengthPrefixedFramer.try_read_loop];
    pose proof (parser_weighs (lp_parser f) (lp_decrypted f)) as Hp;
    destruct (ZmtpManualParser.decode_from_buffer _ _) as [[p dec] [[m|]|er|]]; try done; try (by right; split).
  all: assert (Hnone : weighed (DynLengthPrefixed f) net (DynLengthPrefixed (mkLPFramer (lp_cipher f) p dec), net, Ok None))
    by (destruct Hp as [[_ Hp]|[-> ->]]; [by left; right|by right]).
  all: destruct (_ <? _); [exact Hnone|]; destruct (get_uint 2 net) as [[len rest]|er|]; try done;
    destruct (_ <? _); [exact Hnone|]; destruct (slice_from net 2 ≫= _) as [[ef net1]|er|] eqn:E; try done;
    destruct (decrypt _ ef) as [c [pt|er|]]; try done.
  assert (Hl : (length net1 < length net)%nat).
  { apply bind_Ok in E as (n1 & E1 & E2%split_to_shrinks). unfold slice_from in E1. destruct (_ && _) eqn:Eb; [|done].
    injection E1 as <-. apply andb_prop in Eb as [_ Hb%Z.leb_le]. unfold zlen in *. rewrite length_drop in E2. lia. }
  specialize (IH (mkLPFramer c p (dec ++ pt)) net1).
  destruct (LengthPrefixedFramer.try_read_loop fuel _ net1) as [[f2 net2] [[m|]|er|]]; try done; cbn [weighed] in IH |- *.
  - unfold lighter in *. cbn in *. lia.
  - left. unfold lighter in *. cbn in *. destruct IH as [IH|[IH _]]; [lia|]. injection IH as IH _. lia.
Qed.

Lemma read_weighs (f : DynFramer C) net : weighed f net (try_read_msg f net).
Proof.
  destruct f as [f|f]; cbn [try_read_msg dyn_framer].
  - cbn [try_read_msg null_framer]. unfold NullFramer.try_read_msg. pose proof (parser_weighs (nf_parser f) net) as Hp.
    destruct (ZmtpManualParser.decode_from_buffer _ _) as [[p b] [[m|]|er|]]; cbn; try done; [by left|].
    destruct Hp as [[_ Hp]|[-> ->]]; [by left; left|by right].
  - pose proof (lp_weighs (length net) f net) as Hl. cbn [try_read_msg lp_framer]. unfold LengthPrefixedFramer.try_read_msg.
    by destruct (LengthPrefixedFramer.try_read_loop _ _ _) as [[? ?] ?].
Qed.

Lemma write_weighs (f : DynFramer C) msgs net : weight (write_msg_multipart f msgs).1 net = weight f net.
Proof.
  destruct f as [f|f]; cbn [write_msg_multipart dyn_framer].
  - cbn [write_msg_multipart null_framer]. unfold NullFramer.write_msg_multipart.
    by destruct (encode_msgs msgs []).
  - cbn [write_msg_multipart lp_framer]. unfold LengthPrefixedFramer.write_msg_multipart.
    destruct (encode_msgs msgs []); [|done|done]. by destruct (encrypt _ _).
Qed.

End Weight.

(** ** Mechanisms *)

(** [snow]: a handshake state that has written its message waits for the peer's. *)
Class SnowTurns `{Snow} := write_passes_turn hs payload n hs' msg :
  is_my_turn hs = true -> write_message hs payload n = (hs', inr msg) -> is_my_turn hs' = false.

Section Tokens.
Context `{HD : Dryoc} `{HS : Snow} `{HT : !SnowTurns}.

(** The tokens a mechanism can still produce without hearing from its peer. *)
Definition potential (m : DynMechanism) : nat :=
  match m with
  | MNull _ => 0
  | MPlain m => match state m with ClientSendHello | ServerSendWelcome => 1 | _ => 0 end
  | MCurve m =>
      match Curve.phase (cm_handshake m) with
      | ClientStart | ServerReadyToProduceWelcome | ClientReadyToProduceInitiate => 1
      | _ => 0
      end
  | MNoise m =>
      match pending_outgoing_handshake_msg m with Some _ => 1 | None => 0 end +
      match nx_state m with Some hs => if is_my_turn hs then 1 else 0 | None => 0 end
  end.

Definition spent (n : nat) (o : DynMechanism * result (option bytes)) : Prop :=
  match o.2 with
  | Ok (Some _) => (potential o.1 < n)%nat
  | Ok None => (potential o.1 <= n)%nat
  | _ => True
  end.

Lemma final_state m m' :
  NoiseXxMechanism.transition_to_final_state m = (m', None) ->
  nx_state m' = None /\ pending_outgoing_handshake_msg m' = pending_outgoing_handshake_msg m.
Proof.
  unfold NoiseXxMechanism.transition_to_final_state. destruct (nx_state m) as [hs|]; [|done].
  destruct (negb _); [done|]. destruct (get_remote_static hs) as [pk|]; [|done]. cbn zeta.
  assert (Hv : forall m0 t m1, NoiseXxMechanism.verify_peer m0 pk t = (m1, None) -> m1 = m0).
  { intros m0 t m1. unfold NoiseXxMechanism.verify_peer. repeat (case_match; try done); by intros [= <-]. }
  destruct (NoiseXxMechanism.verify_peer _ pk _) as [m1 [er|]] eqn:E1; [done|]. apply Hv in E1 as ->.
  destruct (NoiseXxMechanism.verify_peer _ pk _) as [m2 [er|]] eqn:E2; [done|]. apply Hv in E2 as ->.
  destruct (into_transport_mode hs); [done|]. by intros [= <-].
Qed.

Lemma noise_spends m : spent (potential (MNoise m)) (let '(m, r) := NoiseXxMechanism.produce_token m in (MNoise m, r)).
Proof.
  assert (Hnew : forall m, pending_outgoing_handshake_msg m = None ->
    spent (potential (MNoise m)) (let '(m, r) := NoiseXxMechanism.produce_new m in (MNoise m, r))).
  { intros m0 Hp. unfold NoiseXxMechanism.produce_new. destruct (nx_state m0) as [hs|] eqn:En; [|done].
    destruct (is_my_turn hs) eqn:Et; [|unfold spent; cbn; lia]. destruct (write_message hs [] 1024) as [hs' [er|msg]] eqn:Ew; [done|].
    pose proof (write_passes_turn _ _ _ _ _ Et Ew) as Ht. cbn zeta. destruct (_ && _).
    - destruct (NoiseXxMechanism.transition_to_final_state _) as [m1 [er|]] eqn:Ef; [done|].
      apply final_state in Ef as [E1 E2]. unfold spent, potential. cbn. cbn in E2. rewrite E1, E2, Hp, En, Et. lia.
    - unfold spent, potential. cbn. rewrite Hp, En, Et, Ht. lia. }
  unfold NoiseXxMechanism.produce_token. destruct (pending_outgoing_handshake_msg m) as [msg|] eqn:Ep.
  - cbn zeta. destruct (_ && _).
    + destruct (NoiseXxMechanism.transition_to_final_state _) as [m1 [er|]] eqn:Ef; [done|].
      apply final_state in Ef as [E1 E2]. unfold spent, potential. cbn. cbn in E2. rewrite E1, E2, Ep. lia.
    + unfold spent, potential. cbn. rewrite Ep. lia.
  - destruct (current_status m) eqn:Es; try (by unfold spent; cbn; lia); try exact (Hnew m Ep).
    cbn zeta. destruct (is_server_role _); [unfold spent; cbn; lia|].
    match goal with |- context [NoiseXxMechanism.produce_new ?m1] => exact (Hnew m1 Ep) end.
Qed.

Lemma produce_spends m : spent (potential m) (produce_token DynCipher m).
Proof.
  destruct m as [m|m|m|m]; cbn [produce_token dyn_mechanism].
  - unfold spent. cbn. lia.
  - cbn. unfold PlainMechanism.produce_token. destruct (state m) eqn:Es; unfold spent; cbn; rewrite ?Es; lia.
  - cbn. unfold CurveMechanism.produce_token. destruct (Curve.phase (cm_handshake m)) eqn:Es; try (unfold spent; cbn; rewrite Es; lia).
    + destruct (CurveHandshake.build_client_hello _); unfold spent; cbn; rewrite ?Es; try done; lia.
    + destruct (CurveHandshake.build_client_initiate _) as [h' [b|er|]]; unfold spent; cbn; rewrite ?Es; try done; lia.
    + destruct (CurveHandshake.build_server_welcome _); unfold spent; cbn; rewrite ?Es; try done; lia.
  - apply noise_spends.
Qed.

End Tokens.

(** ** Methods that return *)

Section Ends.
Context `{HD : Dryoc} `{HS : Snow} `{HT : !SnowTurns}.
Variable ephemeral : bytes.
Variable os_error : Z -> ZmqError.
Variable interface : UringWorkerInterface.

(** A procedure returns, and a value satisfies [Q]. *)
Definition wp {A} (m : U A) (s : UState) (Q : A -> UState -> Prop) : Prop :=
  match m s with (Done a, s') => Q a s' | (Pending, _) => False | _ => True end.

Lemma wp_bind {A B} (m : U A) (k : A -> U B) s Q : wp m s (fun a s' => wp (k a) s' Q) -> wp (m ≫= k) s Q.
Proof. unfold wp, mbind, U_bind. by destruct (m s) as [[a|er| |] s']. Qed.

Lemma wp_mono {A} (m : U A) s (Q Q' : A -> UState -> Prop) : wp m s Q -> (forall a s', Q a s' -> Q' a s') -> wp m s Q'.
Proof. unfold wp. destruct (m s) as [[a|er| |] s']; auto. Qed.

Lemma wp_self s (Q : ZmtpUringHandler -> UState -> Prop) : Q (u_handler s) s -> wp self s Q.
Proof. done. Qed.
Lemma wp_ret {A} (a : A) s (Q : A -> UState -> Prop) : Q a s -> wp (mret a) s Q.
Proof. done. Qed.
Lemma wp_set f s (Q : unit -> UState -> Prop) : Q tt (with_handler s (f (u_handler s))) -> wp (set f) s Q.
Proof. done. Qed.
Lemma wp_ops f s (Q : unit -> UState -> Prop) : Q tt (mkUState (u_handler s) (f (u_ops s)) (u_events s)) -> wp (set_ops f) s Q.
Proof. done. Qed.
Lemma wp_try {A} (r : result A) s (Q : A -> UState -> Prop) : (forall a, r = Ok a -> Q a s) -> wp (try r) s Q.
Proof. intros Hq. unfold wp, try. destruct r; [by apply Hq|done|done]. Qed.

Lemma wp_send ev s (Q : bool -> UState -> Prop) :
  (forall evs, Q true (mkUState (u_handler s) (u_ops s) evs)) -> Q false s -> wp (try_send interface ev) s Q.
Proof. intros H1 H2. unfold wp, try_send. by destruct (upstream_open interface). Qed.

(** An error leaves the queues, the buffers and the framer as they are. *)
Lemma wp_error er s (Q : unit -> UState -> Prop) :
  (forall p ops evs, Q tt (mkUState ((u_handler s) <| phase := p |>) ops evs)) -> wp (transition_to_error interface er) s Q.
Proof.
  intros Hq. unfold transition_to_error. apply wp_bind, wp_self. case_bool_decide.
  - apply wp_ret. specialize (Hq (phase (u_handler s)) (u_ops s) (u_events s)). destruct s as [[] ? ?]. exact Hq.
  - apply wp_bind, wp_set, wp_bind, wp_ops. case_bool_decide; [apply wp_ret, Hq|].
    apply wp_bind, wp_send; intros; apply wp_ret, Hq.
Qed.

Lemma wp_fatal {A} er s (Q : A -> UState -> Prop) : wp (fatal interface er) s Q.
Proof. apply wp_bind, wp_error. intros p ops evs. done. Qed.

Lemma wp_or_fatal {A} (r : result A) s (Q : A -> UState -> Prop) :
  (forall a, r = Ok a -> Q a s) -> wp (or_fatal interface r) s Q.
Proof. intros Hq. destruct r; [by apply Hq|apply wp_fatal|done]. Qed.

Lemma wp_read s (Q : result (option Msg) -> UState -> Prop) :
  (forall f acc r, weighed (framer (u_handler s)) (network_read_accumulator (u_handler s)) (f, acc, r) ->
     Q r (with_handler s ((u_handler s) <| framer := f |> <| network_read_accumulator := acc |>))) -> wp read_msg s Q.
Proof.
  intros Hq. unfold wp. rewrite read_msg_eq.
  pose proof (read_weighs (framer (u_handler s)) (network_read_accumulator (u_handler s))) as Hw.
  destruct (try_read_msg _ _) as [[f acc] r]. by apply Hq.
Qed.

Lemma wp_write msgs s (Q : result bytes -> UState -> Prop) :
  (forall f r, (forall net, weight f net = weight (framer (u_handler s)) net) ->
     Q r (with_handler s ((u_handler s) <| framer := f |>))) -> wp (write_msgs msgs) s Q.
Proof.
  intros Hq. unfold wp. rewrite write_msgs_eq. pose proof (write_weighs (framer (u_handler s)) msgs) as Hw.
  destruct (write_msg_multipart _ _) as [f r]. by apply Hq.
Qed.

Lemma wp_command msg s (Q : unit -> UState -> Prop) :
  (forall f ops, (forall net, weight f net = weight (framer (u_handler s)) net) ->
     Q tt (mkUState ((u_handler s) <| framer := f |>) ops (u_events s))) -> wp (send_command msg) s Q.
Proof.
  intros Hq. apply wp_bind, wp_write. intros f r Hw. apply wp_bind, wp_try. intros b _. apply wp_ops. by apply Hq.
Qed.

Lemma wp_mechanism {A} (op : DynMechanism -> DynMechanism * result A) s (Q : A -> UState -> Prop) :
  (forall m m' a, security_mechanism (u_handler s) = Some m -> op m = (m', Ok a) ->
     Q a (with_handler s ((u_handler s) <| security_mechanism := Some m' |>))) -> wp (with_mechanism op) s Q.
Proof.
  intros Hq. apply wp_bind, wp_self, wp_bind, wp_try. intros m Em. destruct (op m) as [m' r] eqn:Eo.
  apply wp_bind, wp_set, wp_try. intros a ->. apply (Hq m); [|done]. destruct (security_mechanism _); by inv Em.
Qed.

Lemma wp_fill n s (Q : unit -> UState -> Prop) :
  (forall g a, Q tt (with_handler s ((u_handler s) <| greeting_buffer := g |> <| network_read_accumulator := a |>))) ->
  wp (fill_greeting n) s Q.
Proof. intros Hq. apply wp_bind, wp_self, wp_bind, wp_try. intros [front rest] _. apply wp_set. apply Hq. Qed.

(** What an arm that goes on has done. *)
Definition goes (Q : UState -> Prop) (r : option bool) (s : UState) : Prop := is_Some r -> Q s.
Definition in_phase (p : ZmtpHandlerPhase) (s : UState) : Prop := phase (u_handler s) = p.

Lemma goes_none Q s : goes Q None s.
Proof. by intros [? [=]]. Qed.

Lemma revision_ends s :
  wp (wait_peer_revision interface) s (goes (fun s => in_phase SendV2Tail s \/ in_phase SendV3Tail s)).
Proof.
  apply wp_bind, wp_fill. intros g a. apply wp_bind, wp_self. destruct (_ <? _); [apply wp_ret, goes_none|].
  apply wp_bind, wp_try. intros head _. apply wp_bind, wp_or_fatal. intros rev _. case_bool_decide.
  - destruct (negb _); [apply wp_fatal|]. apply wp_bind, wp_or_fatal. intros b _.
    apply wp_bind, wp_ops, wp_bind, wp_set, wp_ret. intros _. by left.
  - destruct (_ <=? _); [|apply wp_fatal]. apply wp_bind, wp_ops, wp_bind, wp_set, wp_ret. intros _. by right.
Qed.

Lemma greeting_ends s :
  wp (wait_v3_greeting ephemeral interface) s (goes (in_phase SecurityExchange)).
Proof.
  apply wp_bind, wp_self, wp_bind, wp_fill. intros g a. apply wp_bind, wp_self.
  destruct (_ <? GREETING_LENGTH) eqn:El; [apply wp_ret, goes_none|].
  destruct (ZmtpGreeting.decode _) as [buf r] eqn:Ed. apply wp_bind, wp_set, wp_bind, wp_or_fatal. intros [pg|] ->.
  - destruct (eqb _ _); [apply wp_fatal|]. apply wp_bind, wp_set, wp_bind, wp_try. intros m _.
    by apply wp_bind, wp_set, wp_ret.
  - unfold ZmtpGreeting.decode in Ed. rewrite El in Ed. destruct (split_to _ _) as [[d b]|er|]; try done.
    by destruct (ZmtpGreeting.decode_data d).
Qed.

Lemma v2_greeting_ends s : wp (v2_greeting_exchange interface) s (goes (in_phase V2SendIdentity)).
Proof.
  apply wp_bind, wp_fill. intros g a. apply wp_bind, wp_self. destruct (_ <? _); [apply wp_ret, goes_none|].
  apply wp_bind, wp_try. intros b _. apply wp_bind, wp_try. intros [x rest] _. apply wp_bind, wp_set, wp_bind, wp_or_fatal. intros [] _.
  by apply wp_bind, wp_ops, wp_bind, wp_set, wp_ret.
Qed.

Lemma frame_ends k s Q :
  (forall msg s, wp (k msg) s (goes Q)) -> wp (with_frame interface k) s (goes Q).
Proof.
  intros Hk. apply wp_bind, wp_self. case_bool_decide; [apply wp_ret, goes_none|].
  apply wp_bind, wp_read. intros f acc r _. apply wp_bind, wp_or_fatal. intros [msg|] _; [apply Hk|apply wp_ret, goes_none].
Qed.

Lemma complete_ends s :
  wp (set_phase DataPhase;; signal_upstream_handshake_complete interface;; mret (Some true)) s (goes (in_phase DataPhase)).
Proof.
  apply wp_bind, wp_set, wp_bind, wp_bind, wp_set, wp_bind, wp_self, wp_bind, wp_send; [|done]. intros evs.
  by apply wp_ret, wp_ret.
Qed.

Lemma identity_ends s : wp (v2_wait_identity interface) s (goes (in_phase DataPhase)).
Proof.
  apply frame_ends. intros msg s'. apply wp_bind, wp_or_fatal. intros id _. apply wp_bind, wp_set. apply complete_ends.
Qed.

Lemma wp_expect text msg s (Q : unit -> UState -> Prop) :
  (forall id, Q tt (with_handler s ((u_handler s) <| peer_identity_from_ready := id |>))) -> Q tt s ->
  wp (expect_ready interface text msg) s Q.
Proof.
  intros H1 H2. apply wp_bind, wp_try. intros [[| |data| |]|] _; try apply wp_fatal. apply wp_set.
  destruct (properties data !! _) as [id|]; [apply (H1 (Some id))|]. by destruct s.
Qed.

Lemma server_ready_ends s : wp (ready_server_wait_client interface) s (goes (in_phase ReadyServerSend)).
Proof.
  apply frame_ends. intros msg s'.
  assert (Hk : forall s, wp (h ← self; send_command (ZmtpReady.create_msg (build_ready_properties h));; set_phase ReadyServerSend;; mret (Some true))
    s (goes (in_phase ReadyServerSend))).
  { intros s1. apply wp_bind, wp_self, wp_bind, wp_command. intros f ops _. by apply wp_bind, wp_set, wp_ret. }
  apply wp_bind, wp_expect; [intros id|]; apply Hk.
Qed.

Lemma client_ready_ends s : wp (ready_client_wait_server interface) s (goes (in_phase DataPhase)).
Proof. apply frame_ends. intros msg s'. apply wp_bind, wp_expect; [intros id|]; apply complete_ends. Qed.

(** *** The security exchange *)

Definition load (s : UState) : nat * nat := weight (framer (u_handler s)) (network_read_accumulator (u_handler s)).
Definition tokens (s : UState) : nat := match security_mechanism (u_handler s) with Some m => potential m | None => 0 end.
Definition buffers (s : UState) : nat * nat :=
  (length (greeting_buffer (u_handler s)), length (network_read_accumulator (u_handler s))).

(** Less to read, or as much and fewer tokens to produce. *)
Definition nearer (s s' : UState) : Prop := lighter (load s') (load s) \/ load s' = load s /\ (tokens s' < tokens s)%nat.

Lemma produce_ends s :
  wp produce_and_send s (fun b s' => in_phase (phase (u_handler s)) s' /\ load s' = load s /\ buffers s' = buffers s /\
    if b then (tokens s' < tokens s)%nat else (tokens s' <= tokens s)%nat).
Proof.
  apply wp_bind, wp_mechanism. intros m m' a Em Ep. pose proof (produce_spends m) as Hs. rewrite Ep in Hs. unfold spent in Hs. cbn in Hs.
  destruct a as [t|].
  - apply wp_bind, wp_command. intros f ops Hw. apply wp_ret. split_and!; [done| |done|].
    + unfold load. cbn. apply Hw.
    + unfold tokens. cbn. by rewrite Em.
  - apply wp_ret. split_and!; [done|done|done|]. unfold tokens. cbn. by rewrite Em.
Qed.

Lemma process_ends s :
  wp process_peer_token s (fun o s' => o.2 = None ->
    in_phase (phase (u_handler s)) s' /\ length (greeting_buffer (u_handler s')) = length (greeting_buffer (u_handler s)) /\
    if o.1 then lighter (load s') (load s)
    else lighter (load s') (load s) \/ load s' = load s /\ buffers s' = buffers s /\ tokens s' = tokens s).
Proof.
  apply wp_bind, wp_self. case_bool_decide; [apply wp_ret; intros _; split_and!; [done..|by right]|].
  apply wp_bind, wp_read. intros f acc r Hw. destruct r as [[msg|]|er|]; [| |by apply wp_ret|done].
  - destruct (negb _); [by apply wp_ret|]. apply wp_bind, wp_mechanism. intros m m' a Em Ep.
    apply wp_bind. eapply wp_mono; [apply produce_ends|]. cbn beta. intros b s' (Hp & Hl & Hb & _). apply wp_ret. intros _.
    injection Hb as Hb _. split_and!; [exact Hp|exact Hb|]. cbn [fst]. rewrite Hl. exact Hw.
  - apply wp_ret. intros _. split_and!; [done|done|]. cbn [fst]. destruct Hw as [Hw|[Hw Hl]]; [by left|].
    right. split_and!; [exact Hw|unfold buffers; cbn; by rewrite Hl|done].
Qed.

Definition ready_phase (s : UState) : Prop := in_phase ReadyServerWaitClient s \/ in_phase ReadyClientSend s.

Lemma leave_ends s (Q : unit -> UState -> Prop) :
  (forall s', ready_phase s' -> Q tt s') -> wp (leave_security_exchange interface) s Q.
Proof.
  intros Hq. apply wp_bind, wp_self, wp_bind, wp_try. intros m _. apply wp_bind, wp_set.
  assert (Hend : forall h s, wp (set_phase (if is_server h then ReadyServerWaitClient else ReadyClientSend);;
    if is_server h then mret tt else send_command (ZmtpReady.create_msg (build_ready_properties h))) s Q).
  { intros h s1. apply wp_bind, wp_set. destruct (is_server h); [apply wp_ret, Hq; by left|].
    apply wp_command. intros f ops _. apply Hq. by right. }
  destruct (into_framer _ _ _) as [[f id]|er|].
  - apply wp_bind, wp_set, Hend.
  - apply wp_bind, wp_bind, wp_error. intros p ops evs. done.
  - done.
Qed.

(** An arm that goes on in its phase has got nearer, or nothing has changed. *)
Definition closer (s : UState) (r : option bool) (s' : UState) : Prop :=
  match r with
  | None => True
  | Some progress =>
      ready_phase s' \/
      in_phase SecurityExchange s' /\ (nearer s s' \/ progress = false /\ buffers s' = buffers s)
  end.

Lemma security_ends s : in_phase SecurityExchange s -> wp (security_exchange interface) s (closer s).
Proof.
  intros Hp. apply wp_bind, wp_self. destruct (security_mechanism _) as [m|]; [|apply wp_fatal].
  destruct (is_complete DynCipher m).
  { apply wp_bind, leave_ends. intros s' Hs. apply wp_ret. by left. }
  apply wp_bind. eapply wp_mono; [apply produce_ends|]. cbn beta. intros produced s1 (P1 & L1 & B1 & T1).
  apply wp_bind. eapply wp_mono; [apply process_ends|]. cbn beta. intros [processed reason] s2 H2. cbn [fst snd] in H2.
  apply wp_bind, wp_self, wp_bind, wp_try. intros m2 _. cbn zeta.
  destruct reason as [text|]; [apply wp_fatal|]. destruct (H2 eq_refl) as (P2 & G2 & W2).
  destruct (negb _ && is_error _ _); [apply wp_fatal|].
  destruct (is_complete DynCipher m2); [apply wp_bind, leave_ends; intros s' Hs; apply wp_ret; by left|].
  destruct (_ && bool_decide _); [by apply wp_ret|]. apply wp_ret. right. unfold in_phase in *. split; [by rewrite P2, P1|].
  rewrite L1 in W2. destruct processed; [by left; left|].
  destruct W2 as [W2|(W2 & B2 & T2)]; [by left; left|]. destruct produced; [left; right; split; [done|lia]|].
  right. split; [done|]. by rewrite B2.
Qed.

(** ** Loops *)

(** With enough fuel the result is always the same. *)
Definition settles_to {A} (m : nat -> U A) (s : UState) (r : outcome A) (s' : UState) : Prop :=
  r <> Pending /\ exists n, forall fuel, (n <= fuel)%nat -> m fuel s = (r, s').
Definition settles {A} (m : nat -> U A) (s : UState) : Prop := exists r s', settles_to m s r s'.

Lemma wp_settles {A} (m : nat -> U A) (m0 : U A) s s0 Q :
  (forall fuel, m fuel s = m0 s0) -> wp m0 s0 Q ->
  exists r s', settles_to m s r s' /\ match r with Done a => Q a s' | _ => True end.
Proof.
  intros Hm Hw. unfold wp in Hw. destruct (m0 s0) as [r s'] eqn:E. exists r, s'. split.
  - split; [by destruct r|]. exists O. intros fuel _. by rewrite Hm.
  - by destruct r.
Qed.

Lemma settles_bind {A B} (m : nat -> U A) (k : nat -> A -> U B) s r s1 :
  settles_to m s r s1 ->
  match r with Done a => settles (fun fuel => k fuel a) s1 | _ => True end -> settles (fun fuel => m fuel ≫= k fuel) s.
Proof.
  intros [Hr [n Hn]] Hk.
  assert (Hfail : forall r' : outcome B, r' <> Pending -> (forall fuel, m fuel s = (r, s1) -> (m fuel ≫= k fuel) s = (r', s1)) ->
    settles (fun fuel => m fuel ≫= k fuel) s).
  { intros r' Hr' Hm. exists r', s1. split; [done|]. exists n. intros fuel Hf. by apply Hm, Hn. }
  destruct r as [a|er| |]; [|apply (Hfail (Failed er))|apply (Hfail Crashed)|done];
    try (by intros; unfold mbind, U_bind; match goal with E : m _ s = _ |- _ => rewrite E end); try done.
  destruct Hk as (r2 & s2 & Hr2 & n2 & Hn2). exists r2, s2. split; [done|]. exists (n `max` n2)%nat. intros fuel Hf.
  unfold mbind, U_bind. rewrite Hn by lia. apply Hn2. lia.
Qed.

Lemma ufatal_eq {A} er s : fatal (A := A) interface er s = (Failed er, (transition_to_error interface er s).2).
Proof.
  unfold fatal, mbind, U_bind, throw, transition_to_error, self. unfold mbind, U_bind. case_bool_decide; [done|].
  cbn. case_bool_decide; [done|]. unfold try_send. by destruct (upstream_open interface).
Qed.

Lemma frame_of_data_ends msg s :
  wp (data_frame interface msg) s (fun _ s' => in_phase (phase (u_handler s)) s' /\ load s' = load s /\ buffers s' = buffers s).
Proof.
  apply wp_bind, wp_set, wp_bind, wp_self. destruct (Msg.is_command msg).
  - destruct (match negotiated_version _ with Some v => _ | None => _ end); [apply wp_fatal|].
    apply wp_bind, wp_try. intros [[ctx|ctx|data| |body]|] _; try apply wp_fatal; try by apply wp_ret.
    + apply wp_command. intros f ops Hw. split_and!; [done| |done]. unfold load. cbn. apply Hw.
    + by apply wp_set.
  - apply wp_bind, wp_send; [intros evs; by apply wp_ret|apply wp_fatal].
Qed.

Definition after_data (progress : bool) (s : UState) (r : outcome (option bool)) (s' : UState) : Prop :=
  match r with
  | Done (Some p) => in_phase (phase (u_handler s)) s' /\
      (lighter (load s') (load s) \/ p = progress /\ load s' = load s /\ buffers s' = buffers s)
  | _ => True
  end.

Lemma lighter_trans a b c : lighter a b -> lighter b c -> lighter a c.
Proof. unfold lighter. lia. Qed.

Lemma data_settles s progress :
  exists r s', settles_to (fun fuel => data_phase interface fuel progress) s r s' /\ after_data progress s r s'.
Proof.
  remember (load s) as x eqn:Ex. revert s progress Ex. induction x as [x IH] using (well_founded_ind lighter_wf).
  intros s progress ->.
  pose proof (read_weighs (framer (u_handler s)) (network_read_accumulator (u_handler s))) as Hw.
  destruct (try_read_msg (framer (u_handler s)) (network_read_accumulator (u_handler s))) as [[f acc] r] eqn:Er.
  set (s1 := with_handler s ((u_handler s) <| framer := f |> <| network_read_accumulator := acc |>)).
  assert (Hrd : read_msg s = (Done r, s1)) by by rewrite read_msg_eq, Er.
  destruct r as [[msg|]|er|].
  - destruct (data_frame interface msg s1) as [x s2] eqn:Ef. pose proof (frame_of_data_ends msg s1) as Hf. unfold wp in Hf. rewrite Ef in Hf.
    assert (Hstep : forall fuel, data_phase interface (S fuel) progress s =
      match x with Done _ => data_phase interface fuel true s2 | Failed er => (Failed er, s2) | Crashed => (Crashed, s2) | Pending => (Pending, s2) end).
    { intros fuel. cbn [data_phase]. unfold mbind at 1, U_bind at 1. rewrite Hrd. cbn [or_fatal].
      unfold mbind at 1, U_bind at 1. cbn [mret U_ret]. unfold mbind, U_bind. rewrite Ef. by destruct x. }
    destruct x as [[]|er| |]; [|by eexists _, s2; split; [split; [|exists 1%nat; intros [|fuel] ?; [lia|apply Hstep]]|]..|done].
    destruct Hf as (Hp & Hl & Hb). assert (Hlt : lighter (load s2) (load s)) by (rewrite Hl; exact Hw).
    destruct (IH (load s2) Hlt s2 true eq_refl) as (r' & s' & [Hr' [n Hn]] & Ha). exists r', s'. split.
    + split; [done|]. exists (S n). intros [|fuel] Hfuel; [lia|]. rewrite Hstep. apply Hn. lia.
    + destruct r' as [[p|]|er| |]; try done. destruct Ha as [Hp' Ha]. split; [unfold in_phase in *; by rewrite Hp', Hp|].
      left. destruct Ha as [Ha|(_ & Ha & _)]; [by eapply lighter_trans|by rewrite Ha].
  - exists (Done (Some progress)), s1. split.
    + split; [done|]. exists O. intros fuel _. destruct fuel; cbn [data_phase]; unfold mbind at 1, U_bind at 1; by rewrite Hrd.
    + split; [done|]. destruct Hw as [Hw|[Hw Hl]]; [by left|]. right. split_and!; [done|exact Hw|]. unfold buffers. cbn. by rewrite Hl.
  - exists (Failed er), (transition_to_error interface er s1).2. split; [|done]. split; [done|]. exists O. intros fuel _.
    destruct fuel; cbn [data_phase]; unfold mbind at 1, U_bind at 1; rewrite Hrd; cbn [or_fatal];
      unfold mbind at 1, U_bind at 1; by rewrite ufatal_eq.
  - exists Crashed, s1. split; [|done]. split; [done|]. exists O. intros fuel _.
    destruct fuel; cbn [data_phase]; unfold mbind at 1, U_bind at 1; by rewrite Hrd.
Qed.

Definition loop_settles (s : UState) : Prop := forall made, settles (fun fuel => phase_loop ephemeral interface fuel made) s.

(** A round of the loop, then the rest. *)
Lemma loop_round s r s1 :
  settles_to (fun fuel => phase_arm ephemeral interface fuel (phase (u_handler s))) s r s1 ->
  (forall p, r = Done (Some p) -> p = false /\ buffers s1 = buffers s \/ loop_settles s1) -> loop_settles s.
Proof.
  intros [Hr [n Hn]] Hnext made.
  destruct (handshake_expired interface (u_handler s)) eqn:Ex.
  { exists (Failed Timeout), (transition_to_error interface Timeout s).2. split; [done|]. exists O. intros fuel _.
    destruct fuel; cbn [phase_loop]; unfold mbind at 1, U_bind at 1, self; by rewrite Ex, ufatal_eq. }
  assert (Hround : forall fuel, (n <= fuel)%nat -> phase_loop ephemeral interface fuel made s =
    match r with
    | Done None => (Done made, s1)
    | Done (Some p) =>
        if (zlen (greeting_buffer (u_handler s1)) =? zlen (greeting_buffer (u_handler s))) &&
           (zlen (network_read_accumulator (u_handler s1)) =? zlen (network_read_accumulator (u_handler s))) && negb p
        then (Done (made || p), s1)
        else match fuel with O => (Pending, s1) | S fuel => phase_loop ephemeral interface fuel (made || p) s1 end
    | Failed er => (Failed er, s1) | Crashed => (Crashed, s1) | Pending => (Pending, s1)
    end).
  { intros fuel Hf. specialize (Hn fuel Hf). destruct fuel; cbn [phase_loop]; unfold mbind at 1, U_bind at 1, self; rewrite Ex;
      unfold mbind at 1, U_bind at 1; rewrite Hn; destruct r as [[p|]|er| |]; try done;
      unfold mbind at 1, U_bind at 1; by destruct (_ && negb p). }
  assert (Hconst : forall r', r' <> Pending -> (forall fuel, (n <= fuel)%nat -> phase_loop ephemeral interface fuel made s = (r', s1)) ->
    settles (fun fuel => phase_loop ephemeral interface fuel made) s).
  { intros r' Hr' Hl. exists r', s1. split; [done|]. by exists n. }
  destruct r as [[p|]|er| |]; [|by apply (Hconst (Done made))|by apply (Hconst (Failed er))|by apply (Hconst Crashed)|done].
  destruct (_ && negb p) eqn:Es; [by apply (Hconst (Done (made || p)))|].
  destruct (Hnext p eq_refl) as [[-> Hb]|Hl].
  - exfalso. unfold buffers in Hb. injection Hb as H1 H2. unfold zlen in Es. rewrite H1, H2, !Z.eqb_refl in Es. done.
  - destruct (Hl (made || p)) as (r' & s' & Hr' & n' & Hn'). exists r', s'. split; [done|]. exists (S (n `max` n'))%nat.
    intros [|fuel] Hf; [lia|]. rewrite Hround by lia. apply Hn'. lia.
Qed.

(** An arm that needs no fuel. *)
Lemma prompt_round s (m : U (option bool)) Q :
  (forall fuel, phase_arm ephemeral interface fuel (phase (u_handler s)) = m) -> wp m s (goes Q) ->
  (forall s1, Q s1 -> loop_settles s1) -> loop_settles s.
Proof.
  intros Hm Hw Hq. destruct (wp_settles (fun fuel => phase_arm ephemeral interface fuel (phase (u_handler s))) m s s (goes Q))
    as (r & s1 & Hs & Hg); [intros fuel; by rewrite Hm|done|].
  apply (loop_round s r s1 Hs). intros p ->. right. apply Hq, Hg. by exists p.
Qed.

Lemma waiting_settles s :
  (forall fuel, phase_arm ephemeral interface fuel (phase (u_handler s)) = mret None) -> loop_settles s.
Proof. intros Hm. apply (prompt_round s _ (fun _ => False) Hm); [apply wp_ret, goes_none|done]. Qed.

Lemma data_loop_settles s : in_phase DataPhase s -> loop_settles s.
Proof.
  remember (load s) as x eqn:Ex. revert s Ex. induction x as [x IH] using (well_founded_ind lighter_wf). intros s -> Hp.
  destruct (data_settles s false) as (r & s1 & Hs & Ha). apply (loop_round s r s1); [by rewrite Hp|].
  intros p ->. destruct Ha as [Hp1 [Hl|(-> & _ & Hb)]]; [right|by left]. apply (IH _ Hl s1 eq_refl). unfold in_phase in *. by rewrite Hp1.
Qed.

Lemma security_loop_settles s : in_phase SecurityExchange s -> loop_settles s.
Proof.
  remember (load s) as x eqn:Ex. revert s Ex. induction x as [x IHx] using (well_founded_ind lighter_wf).
  intros s. remember (tokens s) as t eqn:Et. revert s Et. induction t as [t IHt] using lt_wf_ind. intros s -> -> Hp.
  destruct (wp_settles (fun fuel => phase_arm ephemeral interface fuel (phase (u_handler s))) (security_exchange interface) s s (closer s))
    as (r & s1 & Hs & Hc); [intros fuel; by rewrite Hp|by apply security_ends|].
  apply (loop_round s r s1 Hs). intros p ->. cbn [closer] in Hc. destruct Hc as [Hr|[Hp1 [[Hl|[Hl Ht]]|Hb]]]; [right|right|right|by left].
  - destruct Hr as [Hr|Hr]; [|by apply waiting_settles; rewrite Hr].
    apply (prompt_round s1 (ready_server_wait_client interface) (in_phase ReadyServerSend)); [by rewrite Hr|apply server_ready_ends|].
    intros s2 H2. by apply waiting_settles; rewrite H2.
  - by apply (IHx _ Hl s1).
  - by apply (IHt _ Ht s1).
Qed.

(** [process_buffered_reads] returns, in every phase. *)
Lemma reads_settle s : loop_settles s.
Proof.
  destruct (phase (u_handler s)) eqn:Ep; try (by apply waiting_settles; rewrite Ep).
  - by apply (prompt_round s (phase_arm ephemeral interface 0 Initial) (fun _ => False)); [rewrite Ep|apply wp_fatal|].
  - apply (prompt_round s (wait_peer_revision interface) (fun s => in_phase SendV2Tail s \/ in_phase SendV3Tail s));
      [by rewrite Ep|apply revision_ends|]. intros s1 [H1|H1]; by apply waiting_settles; rewrite H1.
  - apply (prompt_round s (wait_v3_greeting ephemeral interface) (in_phase SecurityExchange));
      [by rewrite Ep|apply greeting_ends|apply security_loop_settles].
  - apply (prompt_round s (v2_greeting_exchange interface) (in_phase V2SendIdentity));
      [by rewrite Ep|apply v2_greeting_ends|]. intros s1 H1. by apply waiting_settles; rewrite H1.
  - apply (prompt_round s (v2_wait_identity interface) (in_phase DataPhase)); [by rewrite Ep|apply identity_ends|apply data_loop_settles].
  - by apply security_loop_settles.
  - apply (prompt_round s (ready_client_wait_server interface) (in_phase DataPhase));
      [by rewrite Ep|apply client_ready_ends|apply data_loop_settles].
  - apply (prompt_round s (ready_server_wait_client interface) (in_phase ReadyServerSend));
      [by rewrite Ep|apply server_ready_ends|]. intros s1 H1. by apply waiting_settles; rewrite H1.
  - by apply data_loop_settles.
Qed.

(** ** Calls *)

Lemma settles_wp {A} (m : U A) s Q : wp m s Q -> settles (fun _ => m) s.
Proof. intros Hw. destruct (wp_settles (fun _ => m) m s s Q) as (r & s' & Hs & _); [done..|]. by exists r, s'. Qed.

Lemma settles_then {A B} (m : U A) (k : nat -> A -> U B) s :
  wp m s (fun a s' => settles (fun fuel => k fuel a) s') -> settles (fun fuel => m ≫= k fuel) s.
Proof.
  intros Hw. destruct (wp_settles (fun _ => m) m s s _ (fun _ => eq_refl) Hw) as (r & s' & Hs & Hk).
  exact (settles_bind _ k s r s' Hs Hk).
Qed.

Lemma settles_catch {A} (m : nat -> U A) s : settles m s -> exists r s', settles_to (fun fuel => catch (m fuel)) s r s'.
Proof.
  intros (r & s' & Hr & n & Hn).
  exists (match r with Done a => Done (Ok a) | Failed er => Done (Err er) | Crashed => Crashed | Pending => Pending end), s'.
  split; [by destruct r|]. exists n. intros fuel Hf. unfold catch. rewrite Hn by done. by destruct r.
Qed.

Lemma wp_catch {A} (m : U A) s (Q : result A -> UState -> Prop) :
  wp m s (fun a => Q (Ok a)) -> (forall er s', Q (Err er) s') -> wp (catch m) s Q.
Proof. unfold wp, catch. intros H1 H2. destruct (m s) as [[a|er| |] s']; auto. Qed.

(** Procedures without loops. *)
Ltac wp_any :=
  repeat (cbv beta;
    match goal with
    | |- wp (mbind _ _) _ _ => apply wp_bind
    | |- wp self _ _ => apply wp_self
    | |- wp (mret _) _ _ => apply wp_ret
    | |- wp (set _) _ _ => apply wp_set
    | |- wp (set_ops _) _ _ => apply wp_ops
    | |- wp (push _) _ _ => apply wp_ops
    | |- wp (set_phase _) _ _ => apply wp_set
    | |- wp (try _) _ _ => apply wp_try; intros ? _
    | |- wp (transition_to_error _ _) _ _ => apply wp_error; intros
    | |- wp (write_msgs _) _ _ => apply wp_write; intros ? ? _
    | |- wp (try_send _ _) _ _ => apply wp_send; intros
    | |- wp (match ?x with _ => _ end) _ _ => destruct x
    | |- True => exact I
    end).

Lemma next_ends s : wp (send_next_queued interface) s (fun _ _ => True).
Proof. unfold send_next_queued, add_send_blueprints_for_wire_bytes. wp_any. Qed.

Lemma ack_ends s : wp (advance_on_ack interface) s (fun _ _ => True).
Proof.
  unfold advance_on_ack, signal_or_error. apply wp_bind, wp_self.
  destruct (phase (u_handler s)); wp_any; [|eapply wp_mono; [apply next_ends|]; intros; wp_any].
  apply wp_catch; [unfold signal_upstream_handshake_complete; wp_any; done|intros; wp_any].
Qed.

Lemma process_or_error_settles s : settles (process_or_error ephemeral interface) s.
Proof.
  destruct (settles_catch _ s (reads_settle s false)) as (r & s1 & Hs).
  refine (settles_bind (fun fuel => catch (process_buffered_reads ephemeral interface fuel)) _ s r s1 Hs _).
  destruct r as [[b|er|]| | |]; try done; apply (settles_wp _ _ (fun _ _ => True)); wp_any.
Qed.

Lemma ring_read_settles data s : settles (fun fuel => process_ring_read_data ephemeral interface fuel data) s.
Proof.
  apply (settles_then (set _) (fun fuel _ => _)), wp_set. apply (settles_then self (fun fuel h => _)), wp_self.
  destruct (_ && _); [apply (settles_wp _ _ (fun _ _ => True)); wp_any|].
  apply (settles_then (set _) (fun fuel _ => _)), wp_set. apply process_or_error_settles.
Qed.

Lemma completion_settles res s : settles (fun fuel => handle_internal_sqe_completion ephemeral os_error interface fuel res) s.
Proof.
  apply (settles_then (set _) (fun fuel _ => _)), wp_set. destruct (_ && _); [apply (settles_wp _ _ (fun _ _ => True)); wp_any|].
  apply (settles_then self (fun fuel h => _)), wp_self. apply (settles_then (advance_on_ack _) (fun fuel b => _)).
  eapply wp_mono; [apply ack_ends|]. intros b s' _. apply (settles_then self (fun fuel h => _)), wp_self.
  destruct (_ && _); [apply process_or_error_settles|]. apply (settles_wp _ _ (fun _ _ => True)). wp_any.
Qed.

Lemma cqe_settles cqe borrow r s : settles (fun fuel => process_cqe ephemeral interface fuel cqe borrow r) s.
Proof.
  assert (Hread : forall data (b : bool) (x y : MultishotReader * bool) s,
    settles (fun fuel => process_ring_read_data ephemeral interface fuel data;; if b then mret x else mret y) s).
  { intros data b x y s1. destruct (ring_read_settles data s1) as (r' & s2 & Hs).
    refine (settles_bind _ (fun _ _ => if b then mret x else mret y) s1 r' s2 Hs _). destruct r' as [[]| | |]; try done.
    apply (settles_wp _ _ (fun _ _ => True)). wp_any. }
  unfold process_cqe. cbn zeta. case_bool_decide.
  - destruct (_ <? _); [apply (settles_wp _ _ (fun _ _ => True)); wp_any|].
    destruct (buffer_select cqe) as [bid|]; [|apply (settles_wp _ _ (fun _ _ => True)); wp_any].
    destruct (0 <? _); [destruct (borrow bid _)|]; try apply Hread. apply (settles_wp _ _ (fun _ _ => True)); wp_any.
  - apply (settles_wp _ _ (fun _ _ => True)). case_bool_decide; [by apply wp_ret|done].
Qed.

Lemma call_settles c s : settles (fun fuel => run_call ephemeral os_error interface fuel c) s.
Proof.
  destruct c as [data|res|cqe borrow|ud is_cancel target| |data| |]; cbn [run_call].
  - apply ring_read_settles.
  - apply completion_settles.
  - assert (Hd : settles (fun fuel => delegate_cqe_to_multishot_reader ephemeral interface fuel cqe borrow) s).
    { apply (settles_then self (fun fuel h => _)), wp_self. destruct (multishot_reader _) as [r|]; [|apply (settles_wp _ _ (fun _ _ => True)); wp_any].
      destruct (Reader.matches_cqe_user_data _ _); [|apply (settles_wp _ _ (fun _ _ => True)); wp_any].
      apply (settles_then (set _) (fun fuel _ => _)), wp_set.
      match goal with |- settles _ ?s1 => destruct (settles_catch _ s1 (cqe_settles cqe borrow r s1)) as (r' & s2 & Hs) end.
      refine (settles_bind _ (fun fuel x => _) _ r' s2 Hs _). destruct r' as [[[r1 c1]|er|]| | |]; try done;
        apply (settles_wp _ _ (fun _ _ => True)); wp_any. }
    destruct Hd as (r & s1 & Hs). refine (settles_bind _ (fun _ _ => mret tt) _ r s1 Hs _).
    destruct r as [[b|]| | |]; try done; apply (settles_wp _ _ (fun _ _ => True)); wp_any.
  - apply (settles_wp _ _ (fun _ _ => True)). unfold inform_multishot_reader_op_submitted. wp_any.
  - apply (settles_wp _ _ (fun _ _ => True)). unfold prepare_sqes, heartbeat. apply wp_bind, wp_self.
    destruct (handshake_expired _ _); [wp_any|]. cbn zeta. destruct (match multishot_reader _ with Some _ => _ | None => _ end); [wp_any|].
    case_bool_decide; [|wp_any]. apply wp_bind. eapply wp_mono; [apply next_ends|]. intros; wp_any.
  - apply (settles_wp _ _ (fun _ _ => True)). unfold handle_outgoing_app_data, send_or_queue, add_send_blueprints_for_wire_bytes. wp_any.
  - apply (settles_wp _ _ (fun _ _ => True)). unfold close_initiated. wp_any.
  - apply (settles_wp _ _ (fun _ _ => True)). unfold fd_has_been_closed. wp_any.
Qed.

(** No method returns an error. *)
Definition calm {A} (m : U A) : Prop := forall s, match m s with (Failed _, _) => False | _ => True end.

Lemma calm_bind {A B} (m : U A) (k : A -> U B) : calm m -> (forall a, calm (k a)) -> calm (m ≫= k).
Proof. intros Hm Hk s. specialize (Hm s). unfold mbind, U_bind. destruct (m s) as [[a|er| |] s']; try done. apply Hk. Qed.

Lemma calm_read : calm read_msg.
Proof. intros s. rewrite read_msg_eq. by destruct (try_read_msg _ _) as [[f acc] r]. Qed.

Lemma calm_write msgs : calm (write_msgs msgs).
Proof. intros s. rewrite write_msgs_eq. by destruct (write_msg_multipart _ _) as [f r]. Qed.

Lemma calm_error er : calm (transition_to_error interface er).
Proof.
  intros s. unfold transition_to_error, mbind, U_bind, self. case_bool_decide; [done|]. cbn. case_bool_decide; [done|].
  unfold try_send. by destruct (upstream_open interface).
Qed.

Lemma calm_catch {A} (m : U A) : calm (catch m).
Proof. intros s. unfold catch. by destruct (m s) as [[a|er| |] s']. Qed.

Lemma calm_send ev : calm (try_send interface ev).
Proof. intros s. unfold try_send. by destruct (upstream_open interface). Qed.

Ltac calm_any :=
  repeat (cbv beta;
    match goal with
    | |- calm (mbind _ _) => apply calm_bind; [|intros ?]
    | |- calm (write_msgs _) => apply calm_write
    | |- calm (transition_to_error _ _) => apply calm_error
    | |- calm (catch _) => apply calm_catch
    | |- calm (try_send _ _) => apply calm_send
    | |- calm (match ?x with _ => _ end) => destruct x
    | |- calm (let _ := _ in _) => cbv zeta
    | |- calm _ => by intros ?
    end).

Lemma calm_ring_read fuel data : calm (process_ring_read_data ephemeral interface fuel data).
Proof. unfold process_ring_read_data, process_or_error. calm_any. Qed.

Lemma calm_call fuel c : calm (run_call ephemeral os_error interface fuel c).
Proof.
  destruct c; cbn [run_call]; [apply calm_ring_read| | | | | | |];
    unfold handle_internal_sqe_completion, advance_on_ack, signal_or_error, process_or_error, delegate_cqe_to_multishot_reader,
      inform_multishot_reader_op_submitted, prepare_sqes, heartbeat, handle_outgoing_app_data, send_or_queue, send_next_queued,
      add_send_blueprints_for_wire_bytes, close_initiated, fd_has_been_closed; calm_any.
Qed.

End Ends.

(** ** Properties *)

(** C20: every call of the worker to an io_uring handler returns.  In every phase and
    every state, with every content of the buffers, for every cipher and every peer:
    reading what is buffered comes to an end, whatever phases it runs through, and
    with enough fuel the call returns (unless it panics) with a result that more
    fuel does not change. *)
Theorem uring_returns (HD : Dryoc) (HS : Snow) (HT : SnowTurns) (e : bytes) (os : Z -> ZmqError)
  (interface : UringWorkerInterface) (c : uring_call) (s : UState) :
  exists r s', (r = Done tt \/ r = Crashed) /\
    exists n, forall fuel, (n <= fuel)%nat -> run_call e os interface fuel c s = (r, s').
Proof.
  destruct (call_settles e os interface c s) as (r & s' & Hr & n & Hn). exists r, s'. split; [|by exists n].
  pose proof (calm_call e os interface n c s) as Hc. rewrite (Hn n) in Hc by done.
  destruct r as [[]|er| |]; [by left|done|by right|done].
Qed.

Lemma toy_turns : @SnowTurns toy_snow.
Proof.
  intros hs payload n hs' msg Ht E. injection E as <- _. cbn [is_my_turn toy_snow ty_initiator ty_n] in *.
  apply eqb_prop in Ht. rewrite Ht, Nat.even_succ, <- Nat.negb_even. by destruct (Nat.even (ty_n hs)).
Qed.

(** The client's octets, all at once, to a server that has sent its signature. *)
Lemma uring_returns_witness :
  let s := mkUState (uring_start (H := toy_dryoc) (H0 := toy_snow) 7 (engine_config strict_server) true 0 quiet) no_ops [] in
  exists r s', (r = Done tt \/ r = Crashed) /\
    exists n, forall fuel, (n <= fuel)%nat ->
      run_call (HD := toy_dryoc) [] (fun _ => ConnectionClosed) quiet fuel (CallRead plain_peer_octets) s = (r, s').
Proof.
  intros s. exact (uring_returns toy_dryoc toy_snow toy_turns [] (fun _ => ConnectionClosed) quiet (CallRead plain_peer_octets) s).
Defined.
