(* ===== verification/Worker.v ===== *)
(** The worker of the io_uring backend
    ([core/src/io_uring_backend/worker/*.rs], [ops.rs], [send_buffer_pool.rs] and
    [core/src/uring/global_state.rs]): one thread that owns the ring, the handlers of
    the connections, the work they have asked for and the operations in the kernel.

    A turn of [run_worker_loop] is a function of the worker and of what the turn
    finds ([Round]): requests, messages of the application, completions, the results
    of system calls, the clock and the iteration order of hash maps; a turn takes no
    time.  Handlers are known by the class [UringConnectionHandler] only, which
    [WorkerHandlers] instantiates with the ZMTP handler.  What a turn does to other
    tasks, and what the handlers ask for, is a trace.  A turn that panics is [None].

    Left out are the setting up of the thread and of the ring, the socket addresses
    of C, and the builder of [sqe_builder.rs], which nothing calls.  [WorkerFlow],
    [WorkerBuffers] and [WorkerReplies] have theorems for any class of handlers,
    [WorkerHandlers] has those with ZMTP handlers. *)

From S2P Require Import Prelude Error Message Options Uring.
Import Uring(HandlerSqeBlueprint(..), HandlerIoOps(..), sqe_blueprints, initiate_close_due_to_error,
  HandlerUpstreamEvent(..), UringWorkerInterface(..), Cqe(..), cqe_user_data, cqe_result, buffer_select, cqe_more).

Module Worker.

Abbreviation RawFd := Z (only parsing).
Abbreviation UserData := Z (only parsing).

(** ** Requests and answers ([ops.rs]) *)

Inductive ProtocolConfig := Zmtp (config : ZmtpEngineConfig).

(** A reply channel is a number, an address a string. *)
Inductive UringOpRequest :=
| Nop (user_data : UserData) (reply_tx : Z)
| InitializeBufferRing (user_data : UserData) (bgid num_buffers buffer_capacity : Z) (reply_tx : Z)
| RegisterRawBuffers (user_data : UserData) (buffers : list bytes) (reply_tx : Z)
| Listen (user_data : UserData) (addr : string) (protocol_handler_factory_id : string)
    (protocol_config : ProtocolConfig) (reply_tx : Z)
| Connect (user_data : UserData) (target_addr : string) (protocol_handler_factory_id : string)
    (protocol_config : ProtocolConfig) (reply_tx : Z)
| RegisterExternalFd (user_data : UserData) (fd : RawFd) (protocol_handler_factory_id : string)
    (protocol_config : ProtocolConfig) (is_server_role : bool) (reply_tx : Z) (mpsc_rx_for_worker : Z)
| StartFdReadLoop (user_data : UserData) (fd : RawFd) (reply_tx : Z)
| ShutdownConnectionHandler (user_data : UserData) (fd : RawFd) (reply_tx : Z).

Definition get_user_data_ref (r : UringOpRequest) : UserData :=
  match r with
  | Nop ud _ | InitializeBufferRing ud _ _ _ _ | RegisterRawBuffers ud _ _ | Listen ud _ _ _ _
  | Connect ud _ _ _ _ | RegisterExternalFd ud _ _ _ _ _ _ | StartFdReadLoop ud _ _
  | ShutdownConnectionHandler ud _ _ => ud
  end.

Definition op_name_str (r : UringOpRequest) : string :=
  match r with
  | Nop _ _ => "Nop"
  | InitializeBufferRing _ _ _ _ _ => "InitializeBufferRing"
  | RegisterRawBuffers _ _ _ => "RegisterRawBuffers"
  | Listen _ _ _ _ _ => "Listen"
  | Connect _ _ _ _ _ => "Connect"
  | RegisterExternalFd _ _ _ _ _ _ _ => "RegisterExternalFd"
  | StartFdReadLoop _ _ _ => "StartFdReadLoop"
  | ShutdownConnectionHandler _ _ _ => "ShutdownConnectionHandler"
  end.

Definition get_reply_tx_ref (r : UringOpRequest) : Z :=
  match r with
  | Nop _ tx | InitializeBufferRing _ _ _ _ tx | RegisterRawBuffers _ _ tx | Listen _ _ _ _ tx
  | Connect _ _ _ _ tx | RegisterExternalFd _ _ _ _ _ tx _ | StartFdReadLoop _ _ tx
  | ShutdownConnectionHandler _ _ tx => tx
  end.

Inductive UringOpCompletion :=
| NopSuccess (user_data : UserData)
| InitializeBufferRingSuccess (user_data : UserData) (bgid : Z)
| RegisterRawBuffersSuccess (user_data : UserData)
| ListenSuccess (user_data : UserData) (listener_fd : RawFd) (actual_addr : string)
| ConnectSuccess (user_data : UserData) (connected_fd : RawFd) (peer_addr local_addr : string)
| RegisterExternalFdSuccess (user_data : UserData) (fd : RawFd)
| StartFdReadLoopAck (user_data : UserData) (fd : RawFd)
| SendDataViaHandlerAck (user_data : UserData) (fd : RawFd)
| ShutdownConnectionHandlerComplete (user_data : UserData) (fd : RawFd)
| OpError (user_data : UserData) (op_name : string) (error : ZmqError).

(** ** Operations in flight *)

Inductive InternalOpType :=
| Accept | RingRead | Send | CloseFd | GenericHandlerOp | EventFdPoll | RingReadMultishot | AsyncCancel | SendZeroCopy.

#[export] Instance InternalOpType_eq_dec : EqDecision InternalOpType.
Proof. solve_decision. Defined.

Inductive InternalOpPayload :=
| PayloadNone
| SendBuffer (buffer : bytes) (app_op_ud : option UserData) (app_op_name : option string)
| CancelTarget (target_user_data : UserData)
| SendZeroCopyPayload (send_buf_id : Z) (app_op_ud : UserData) (app_op_name : string).

Record InternalOpDetails := mkDetails { op_fd : RawFd; op_type : InternalOpType; payload : InternalOpPayload }.

Record InternalOpTracker := mkInternal {
  op_to_details : gmap UserData InternalOpDetails;
  next_id : UserData;
}.

Module InternalOps.

Abbreviation FIRST_ID := (1000000000)%Z.

Definition new : InternalOpTracker := mkInternal ∅ FIRST_ID.

Definition new_op_id (fd : RawFd) (ty : InternalOpType) (p : InternalOpPayload) (t : InternalOpTracker)
  : InternalOpTracker * UserData :=
  let id := next_id t in
  let next := wrapU 64 (id + 1) in
  (mkInternal (<[id := mkDetails fd ty p]> (op_to_details t)) (if next =? 0 then FIRST_ID else next), id).

Definition take_op_details (ud : UserData) (t : InternalOpTracker) : InternalOpTracker :=
  mkInternal (delete ud (op_to_details t)) (next_id t).

Definition is_empty (t : InternalOpTracker) : bool := bool_decide (op_to_details t = ∅).

Definition has_pending_read_op (fd : RawFd) (t : InternalOpTracker) : bool :=
  existsb (fun d => (op_fd d =? fd) && bool_decide (op_type d = RingRead \/ op_type d = RingReadMultishot))
    (map_to_list (op_to_details t)).*2.

End InternalOps.

(** [multipart_state] is [None] everywhere. *)
Record ExternalOpContext := mkExternal {
  reply_tx : Z;
  op_name : string;
  protocol_handler_factory_id : option string;
  protocol_config : option ProtocolConfig;
  fd_created_for_connect_op : option RawFd;
  listener_fd : option RawFd;
  target_fd_for_shutdown : option RawFd;
}.

(** [ExternalOpTracker]: [in_flight]; its own identifiers are not used. *)
Abbreviation ExternalOpTracker := (gmap UserData ExternalOpContext).

Module ExternalOps.

(** The first operation in the order of the map; the caller takes them all. *)
Definition take_op_if_shutdown_for_fd (fd_to_check : RawFd) (t : ExternalOpTracker)
  : option (UserData * ExternalOpContext) :=
  find (fun '(_, ctx) => bool_decide (op_name ctx = "ShutdownConnectionHandler" /\
                                      target_fd_for_shutdown ctx = Some fd_to_check)) (map_to_list t).

End ExternalOps.

(** ** Buffers for sends without a copy ([send_buffer_pool.rs]) *)

Record SendBufferSlot := mkSlot { slot_id : Z; buffer : bytes; in_kernel_use : bool }.

Record SendBufferPool := mkPool { pool : list SendBufferSlot; free_ids : list Z }.

Module Pool.

(** The identifiers are [u16]. *)
Definition new (count capacity_per_buffer : nat) : SendBufferPool :=
  if bool_decide (count = 0%nat \/ capacity_per_buffer = 0%nat) then mkPool [] []
  else
    let ids := (fun i => wrapU 16 (Z.of_nat i)) <$> seq 0 count in
    mkPool ((fun id => mkSlot id (replicate capacity_per_buffer Byte.x00) false) <$> ids) ids.

(** The pool, and the identifier and the length of what was copied; [None] when the
    index is out of bounds. *)
Definition acquire_and_prep_buffer (data_to_copy : bytes) (p : SendBufferPool)
  : option (SendBufferPool * option (Z * Z)) :=
  if bool_decide (data_to_copy = []) then Some (p, None)
  else if bool_decide (pool p = []) then Some (p, None)
  else
    match free_ids p with
    | [] => Some (p, None)
    | buffer_id :: rest =>
        slot ← pool p !! Z.to_nat buffer_id;
        if zlen (buffer slot) <? zlen data_to_copy then Some (p, None)
        else
          let slot := mkSlot (slot_id slot) (data_to_copy ++ drop (length data_to_copy) (buffer slot)) true in
          Some (mkPool (<[Z.to_nat buffer_id := slot]> (pool p)) rest, Some (buffer_id, wrapU 32 (zlen data_to_copy)))
    end.

Definition release_buffer (id : Z) (p : SendBufferPool) : SendBufferPool :=
  match list_find (fun s => slot_id s = id) (pool p) with
  | Some (slot_index, slot) =>
      let free := if bool_decide (id ∈ free_ids p) then free_ids p else free_ids p ++ [id] in
      mkPool (<[slot_index := mkSlot (slot_id slot) (buffer slot) false]> (pool p)) free
  | None => p
  end.

End Pool.

(** ** The submission queue *)

(** Entries; addresses of memory are the octets or the buffer they point to. *)
Inductive SqeOp :=
| OpNop
| OpConnect (fd : RawFd) (addr : string)
| OpSetCork (fd : RawFd) (enable : bool)
| OpSend (fd : RawFd) (data : bytes) (len flags : Z)
| OpSendZc (fd : RawFd) (buffer_id len flags : Z)
| OpClose (fd : RawFd)
| OpRecvMulti (fd : RawFd) (bgid : Z)
| OpAsyncCancel (target : UserData)
| OpRead (fd : RawFd) (bgid : Z)
| OpAccept (fd : RawFd).

Record Sqe := mkSqe { sqe_op : SqeOp; sqe_user_data : UserData }.

(** The octets an entry points to. *)
Definition octets_of (p : option SendBufferPool) (op : SqeOp) : bytes :=
  match op with
  | OpSend _ data len _ => take (Z.to_nat len) data
  | OpSendZc _ id len _ =>
      match p ≫= fun p => pool p !! Z.to_nat id with Some slot => take (Z.to_nat len) (buffer slot) | None => [] end
  | _ => []
  end.

(** ** The poller of the event descriptor ([eventfd_poller.rs]) *)

Record EventFdPoller := mkPoller {
  event_fd_raw : RawFd;
  current_poll_user_data : UserData;
  is_poll_submitted : bool;
}.

Module Poller.

Definition new_with_fd (fd : RawFd) (t : InternalOpTracker) : EventFdPoller * InternalOpTracker :=
  let '(t, ud) := InternalOps.new_op_id fd EventFdPoll PayloadNone t in (mkPoller fd ud false, t).

Definition handle_cqe_if_matches (ud : UserData) (is_shutting_down : bool) (p : EventFdPoller) (t : InternalOpTracker)
  : EventFdPoller * InternalOpTracker * bool :=
  if ud =? current_poll_user_data p then
    if is_shutting_down then (mkPoller (event_fd_raw p) (current_poll_user_data p) false, t, true)
    else let '(t, ud) := InternalOps.new_op_id (event_fd_raw p) EventFdPoll PayloadNone t in
         (mkPoller (event_fd_raw p) ud false, t, true)
  else (p, t, false).

End Poller.

(** ** Handlers ([connection_handler.rs], [handler_manager.rs]) *)

(** What a method gives back: the handler, the I/O it asks for and the events it has
    sent; [None] when it panics. *)
Abbreviation called H := (option (H * HandlerIoOps * list HandlerUpstreamEvent)).

Class UringConnectionHandler (H : Type) := {
  connection_ready : UringWorkerInterface -> H -> called H;
  process_ring_read_data : bytes -> UringWorkerInterface -> H -> called H;
  handle_internal_sqe_completion : Z -> UringWorkerInterface -> H -> called H;
  prepare_sqes : UringWorkerInterface -> H -> called H;
  handle_outgoing_app_data : list Msg -> UringWorkerInterface -> H -> called H;
  close_initiated : UringWorkerInterface -> H -> called H;
  fd_has_been_closed : H -> H;
  delegate_cqe_to_multishot_reader : Cqe -> (Z -> Z -> option bytes) -> UringWorkerInterface -> H ->
    option (H * list HandlerUpstreamEvent * option (result (HandlerIoOps * bool)));
  inform_multishot_reader_op_submitted : UserData -> bool -> option UserData -> H -> H;
}.

(** [ProtocolHandlerFactory::create_handler], at a time. *)
Abbreviation Factory H := (RawFd -> ProtocolConfig -> bool -> Z -> string + H).

(** ** The worker ([worker/mod.rs]) *)

Record FdWork := mkWork { atomic_batches : list (list HandlerSqeBlueprint); app_data : list (list Msg) }.

#[export] Instance work_eta : Eta FdWork := fun x => mkWork (atomic_batches x) (app_data x).

Abbreviation no_work := (mkWork [] []).

Inductive WorkerState := Running | Draining | CleaningUp | Stopped.

#[export] Instance WorkerState_eq_dec : EqDecision WorkerState.
Proof. solve_decision. Defined.

(** What the worker does to others, and what the handlers ask of it. *)
Inductive effect :=
| Queued (entry : Sqe) (octets : bytes)
| Asked (fd : RawFd) (blueprints : list HandlerSqeBlueprint)
| Upstream (fd : RawFd) (event : HandlerUpstreamEvent)
| Replied (reply_tx : Z) (r : result UringOpCompletion)
| ClosedFd (fd : RawFd)
| Mailed (mailbox : Z) (fd : RawFd) (error : ZmqError)
| DroppedUpstream.

Section Worker.
Context {H : Type} `{HC : UringConnectionHandler H}.

(** The ring is its submission queue with its size.  Of the buffer ring only whether
    there is one matters.  [fd_to_mailbox] is the global map of the descriptors'
    sockets, [kernel_poll_timeout_duration] (ms) a variable of the loop. *)
Record UringWorker := mkWorker {
  state : WorkerState;
  ring_entries : Z;
  sq : list Sqe;
  work_map : gmap RawFd FdWork;
  buffer_manager : option Z;
  handlers : gmap RawFd H;
  factories : gmap string (Factory H);
  listener_metadata : gmap RawFd (string * ProtocolConfig);
  external_op_tracker : ExternalOpTracker;
  internal_op_tracker : InternalOpTracker;
  default_buffer_ring_group_id_val : option Z;
  fds_needing_close_initiated_pass : list RawFd;
  event_fd_poller : EventFdPoller;
  send_buffer_pool : option SendBufferPool;
  fd_to_mpsc_rx : gmap RawFd Z;
  cfg_send_zerocopy_enabled : bool;
  fd_to_mailbox : gmap RawFd Z;
  kernel_poll_timeout_duration : Z;
  loop_result : option (result unit);
  trace : list effect;
}.

#[export] Instance worker_eta : Eta UringWorker := fun w =>
  mkWorker (state w) (ring_entries w) (sq w) (work_map w) (buffer_manager w) (handlers w) (factories w)
    (listener_metadata w) (external_op_tracker w) (internal_op_tracker w) (default_buffer_ring_group_id_val w)
    (fds_needing_close_initiated_pass w) (event_fd_poller w) (send_buffer_pool w) (fd_to_mpsc_rx w)
    (cfg_send_zerocopy_enabled w) (fd_to_mailbox w) (kernel_poll_timeout_duration w) (loop_result w) (trace w).

(** A completion, with its [IORING_CQE_F_NOTIF] flag and what borrowing its buffer
    yields. *)
Record Completion := mkCompletion { cqe : Cqe; cqe_notify : bool; borrow : Z -> Z -> option bytes }.

(** [ETIME], [EINTR], [EBUSY] and the other errors are told apart. *)
Inductive SubmitResult :=
| Submitted (count : nat) | SubmitTimedOut | SubmitInterrupted | SubmitBusy | SubmitFailed (e : ZmqError).

(** What one turn finds. *)
Record Round := mkRound {
  now : Z;
  upstream_open : bool;
  op_rx_closed : bool;
  requests : list UringOpRequest;
  received : Z -> list (list Msg);
  hash_order : list Z -> list Z;
  new_buffer_ring : Z -> option ZmqError;
  socket : UserData -> Z;
  last_os_error : ZmqError;
  os_error : Z -> ZmqError;
  peer_local_addr : RawFd -> option (string * string);
  cq_empty : bool;
  submit : SubmitResult;
  completions : list Completion;
  mailbox_open : Z -> bool;
}.

(** ** The start ([spawn_with_config]) *)

Record UringConfig := mkUringConfig {
  config_ring_entries : Z;
  default_send_zerocopy : bool;
  default_recv_multishot : bool;
  default_recv_buffer_count : nat;
  default_recv_buffer_size : nat;
  default_send_buffer_count : nat;
  default_send_buffer_size : nat;
}.

(** [sq_entries]: the size the kernel gives the ring; [registered]: the kernel took the
    send buffers; [ring_built]: there is a buffer ring. *)
Definition spawn_with_config (config : UringConfig) (sq_entries : Z) (fs : gmap string (Factory H)) (event_fd : RawFd)
  (registered ring_built : bool) : UringWorker :=
  let '(poller, tracker) := Poller.new_with_fd event_fd InternalOps.new in
  let send_pool :=
    if default_send_zerocopy config && bool_decide (0 < default_send_buffer_count config)%nat &&
       bool_decide (0 < default_send_buffer_size config)%nat && registered
    then Some (Pool.new (default_send_buffer_count config) (default_send_buffer_size config)) else None in
  let ring :=
    if bool_decide (0 < default_recv_buffer_count config)%nat && bool_decide (0 < default_recv_buffer_size config)%nat &&
       ring_built then Some 0 else None in
  mkWorker Running sq_entries [] ∅ ring ∅ fs ∅ ∅ tracker ring [] poller send_pool ∅
    (bool_decide (is_Some send_pool)) ∅ 1 None [].

(** ** Code over the worker *)

Definition W (A : Type) : Type := UringWorker -> option (A * UringWorker).

#[export] Instance W_ret : MRet W := fun A a w => Some (a, w).
#[export] Instance W_bind : MBind W := fun A B k m w =>
  match m w with Some (a, w) => k a w | None => None end.

Definition get : W UringWorker := fun w => Some (w, w).
Definition modify (f : UringWorker -> UringWorker) : W unit := fun w => Some (tt, f w).
Definition panic {A} : W A := fun _ => None.
(** [.expect(..)]. *)
Definition expect {A} (o : option A) : W A := match o with Some a => mret a | None => panic end.
Definition emit (e : effect) : W unit := modify (fun w => w <| trace := trace w ++ [e] |>).

Definition for_each {A} (f : A -> W unit) : list A -> W unit :=
  fix go l := match l with [] => mret tt | a :: l => f a;; go l end.

Variable env : Round.

Definition keys {A} (m : gmap Z A) : list Z := hash_order env (map_to_list m).*1.

Definition interface (ud : UserData) (w : UringWorker) : UringWorkerInterface :=
  mkInterface (upstream_open env) (default_buffer_ring_group_id_val w) ud (now env).

(** [self.handler_manager.get_mut(fd)] and a call of a method. *)
Definition call (fd : RawFd) (ud : UserData) (m : UringWorkerInterface -> H -> called H) : W (option HandlerIoOps) :=
  w ← get;
  match handlers w !! fd with
  | None => mret None
  | Some h =>
      '(h, ops, events) ← expect (m (interface ud w) h);
      modify (fun w => w <| handlers := <[fd := h]> (handlers w) |>
        <| trace := trace w ++ (Upstream fd <$> events) ++ [Asked fd (sqe_blueprints ops)] |>);;
      mret (Some ops)
  end.

Definition needs_close (fd : RawFd) : W unit :=
  modify (fun w => w <| fds_needing_close_initiated_pass := fds_needing_close_initiated_pass w ++ [fd] |>).

(** [work_map.entry(fd).or_default().atomic_batches.push_back(batch)]. *)
Definition push_batch (fd : RawFd) (batch : list HandlerSqeBlueprint) : W unit :=
  modify (fun w =>
    let work := default no_work (work_map w !! fd) in
    w <| work_map := <[fd := work <| atomic_batches := atomic_batches work ++ [batch] |>]> (work_map w) |>).

Definition reply (tx : Z) (r : UringOpCompletion) : W unit := emit (Replied tx (Ok r)).

(** *** [handler_manager.rs] *)

Definition create_and_add_handler (fd : RawFd) (factory_id : string) (config : ProtocolConfig) (is_server : bool)
  (ud : UserData) : W (string + HandlerIoOps) :=
  w ← get;
  if bool_decide (is_Some (handlers w !! fd)) then
    mret (inl (format "HandlerManager: Handler for FD {} already exists. Cannot create new one with factory '{}'."
                 [pretty fd; factory_id]))
  else
    match factories w !! factory_id with
    | None => mret (inl (format "HandlerManager: ProtocolHandlerFactory '{}' not found for FD {}." [factory_id; pretty fd]))
    | Some create_handler =>
        match create_handler fd config is_server (now env) with
        | inl e => mret (inl e)
        | inr h =>
            '(h, ops, events) ← expect (connection_ready (interface ud w) h);
            modify (fun w => w <| handlers := <[fd := h]> (handlers w) |>
              <| trace := trace w ++ (Upstream fd <$> events) ++ [Asked fd (sqe_blueprints ops)] |>);;
            mret (inr ops)
        end
    end.

(** Handlers that ask for something. *)
Fixpoint prepare_handlers (fds : list RawFd) : W (list (RawFd * HandlerIoOps)) :=
  match fds with
  | [] => mret []
  | fd :: fds =>
      r ← call fd 0 prepare_sqes;
      rest ← prepare_handlers fds;
      mret (match r with
            | Some ops => if negb (bool_decide (sqe_blueprints ops = [])) || initiate_close_due_to_error ops
                          then (fd, ops) :: rest else rest
            | None => rest
            end)
  end.

Definition prepare_all_handler_io_ops : W (list (RawFd * HandlerIoOps)) :=
  w ← get; prepare_handlers (keys (handlers w)).

(** *** [process_handler_blueprints] *)

Definition is_full (w : UringWorker) : bool := ring_entries w <=? zlen (sq w).

(** [sq.push(&entry)]: was there room? *)
Definition push (entry : Sqe) : W bool :=
  w ← get;
  if is_full w then mret false
  else
    modify (fun w => w <| sq := sq w ++ [entry] |>
      <| trace := trace w ++ [Queued entry (octets_of (send_buffer_pool w) (sqe_op entry))] |>);;
    mret true.

Definition new_op_id (fd : RawFd) (ty : InternalOpType) (p : InternalOpPayload) : W UserData :=
  w ← get;
  let '(t, ud) := InternalOps.new_op_id fd ty p (internal_op_tracker w) in
  modify (fun w => w <| internal_op_tracker := t |>);; mret ud.

Definition take_op_details (ud : UserData) : W unit :=
  modify (fun w => w <| internal_op_tracker := InternalOps.take_op_details ud (internal_op_tracker w) |>).

(** A new entry for an operation; a failed push leaves no trace of it. *)
Definition queue_op (fd : RawFd) (ty : InternalOpType) (p : InternalOpPayload) (op : SqeOp) : W (option UserData) :=
  ud ← new_op_id fd ty p;
  pushed ← push (mkSqe op ud);
  if (pushed : bool) then mret (Some ud) else take_op_details ud;; mret None.

Definition app_op_name_of (ud : UserData) (unknown : string) : W string :=
  w ← get; mret (match external_op_tracker w !! ud with Some ctx => op_name ctx | None => unknown end).

(** The buffer of a send without a copy, if the worker has one for it. *)
Definition acquire_buffer (data : bytes) : W (option (Z * Z)) :=
  w ← get;
  match (if cfg_send_zerocopy_enabled w then send_buffer_pool w else None) with
  | Some p =>
      '(p, r) ← expect (Pool.acquire_and_prep_buffer data p);
      modify (fun w => w <| send_buffer_pool := Some p |>);; mret r
  | None => mret None
  end.

Definition inform_handler (fd : RawFd) (ud : UserData) (is_cancel : bool) (target : option UserData) : W unit :=
  modify (fun w => w <| handlers := alter (inform_multishot_reader_op_submitted ud is_cancel target) fd (handlers w) |>).

(** One blueprint: [false] when there was no room for its entry. *)
Definition process_blueprint (fd : RawFd) (bp : HandlerSqeBlueprint) : W bool :=
  let queued (m : W (option UserData)) := r ← m; mret (bool_decide (is_Some r)) in
  match bp with
  | RequestSetCork enable => queued (queue_op fd GenericHandlerOp PayloadNone (OpSetCork fd enable))
  | RequestSend data flags ud =>
      name ← app_op_name_of ud "UnknownAppOpSend";
      queued (queue_op fd Send (SendBuffer data (Some ud) (Some name)) (OpSend fd data (wrapU 32 (zlen data)) flags))
  | RequestSendZeroCopy data flags ud =>
      acquired ← acquire_buffer data;
      match acquired with
      | Some (id, len) =>
          name ← app_op_name_of ud "UnknownAppOpSendZC";
          queued (queue_op fd SendZeroCopy (SendZeroCopyPayload id ud name) (OpSendZc fd id len flags))
      | None =>
          name ← app_op_name_of ud "UnknownAppOpSendFallback";
          queued (queue_op fd Send (SendBuffer data (Some ud) (Some name)) (OpSend fd data (wrapU 32 (zlen data)) flags))
      end
  | RequestClose => queued (queue_op fd CloseFd PayloadNone (OpClose fd))
  | RequestNewRingReadMultishot fd' bgid =>
      if fd' =? fd then
        r ← queue_op fd RingReadMultishot PayloadNone (OpRecvMulti fd bgid);
        match r with Some ud => inform_handler fd ud false None;; mret true | None => mret false end
      else mret true
  | RequestNewAsyncCancel fd' target =>
      if fd' =? fd then
        r ← queue_op fd AsyncCancel (CancelTarget target) (OpAsyncCancel target);
        match r with Some ud => inform_handler fd ud true (Some target);; mret true | None => mret false end
      else mret true
  end.

(** [Some] with the blueprints that were not processed. *)
Fixpoint process_handler_blueprints (fd : RawFd) (blueprints : list HandlerSqeBlueprint)
  : W (option (list HandlerSqeBlueprint)) :=
  match blueprints with
  | [] => mret None
  | bp :: rest =>
      w ← get;
      if is_full w then mret (Some blueprints)
      else
        queued ← process_blueprint fd bp;
        if (queued : bool) then process_handler_blueprints fd rest else mret (Some blueprints)
  end.

(** *** [process_external_op_request] *)

Definition add_op (ud : UserData) (ctx : ExternalOpContext) : W unit :=
  modify (fun w => w <| external_op_tracker := <[ud := ctx]> (external_op_tracker w) |>).

Definition take_op (ud : UserData) : W (option ExternalOpContext) :=
  w ← get;
  modify (fun w => w <| external_op_tracker := delete ud (external_op_tracker w) |>);;
  mret (external_op_tracker w !! ud).

(** An entry for an external operation, or the answer that there is no room. *)
Definition queue_external (ud : UserData) (ctx : ExternalOpContext) (op : SqeOp) (cleanup : W unit) : W unit :=
  add_op ud ctx;;
  pushed ← push (mkSqe op ud);
  if (pushed : bool) then mret tt
  else
    _ ← take_op ud; cleanup;; reply (reply_tx ctx) (OpError ud (op_name ctx) ResourceLimitReached).

Definition close_fd (fd : RawFd) : W unit := emit (ClosedFd fd).

(** The blueprints of a new handler, as one batch. *)
Definition push_initial (fd : RawFd) (ops : HandlerIoOps) : W unit :=
  (if bool_decide (sqe_blueprints ops = []) then mret tt else push_batch fd (sqe_blueprints ops));;
  if initiate_close_due_to_error ops then needs_close fd else mret tt.

Definition register_external_fd (ud : UserData) (fd : RawFd) (factory_id : string) (config : ProtocolConfig)
  (is_server_role : bool) (tx mpsc_rx : Z) (name : string) : W unit :=
  add_op ud (mkExternal tx name (Some factory_id) (Some config) None None (Some fd));;
  modify (fun w => w <| fd_to_mpsc_rx := <[fd := mpsc_rx]> (fd_to_mpsc_rx w) |>);;
  r ← create_and_add_handler fd factory_id config is_server_role ud;
  match r with
  | inr initial_ops =>
      push_initial fd initial_ops;;
      ctx ← take_op ud;
      match ctx with Some ctx => reply (reply_tx ctx) (RegisterExternalFdSuccess ud fd) | None => mret tt end
  | inl err_msg =>
      modify (fun w => w <| fd_to_mpsc_rx := delete fd (fd_to_mpsc_rx w) |>);;
      ctx ← take_op ud;
      match ctx with Some ctx => reply (reply_tx ctx) (OpError ud name (Internal err_msg)) | None => mret tt end
  end.

(** A [Listen] goes no further than creating a socket. *)
Definition process_external_op_request (request : UringOpRequest) : W unit :=
  let name := op_name_str request in
  w ← get;
  match request with
  | InitializeBufferRing ud bgid _ _ tx =>
      if bool_decide (is_Some (buffer_manager w))
      then reply tx (OpError ud name (InvalidState "Buffer ring already initialized"))
      else match new_buffer_ring env bgid with
           | None =>
               modify (fun w => w <| buffer_manager := Some bgid |>
                 <| default_buffer_ring_group_id_val :=
                      match default_buffer_ring_group_id_val w with Some id => Some id | None => Some bgid end |>);;
               reply tx (InitializeBufferRingSuccess ud bgid)
           | Some e => reply tx (OpError ud name e)
           end
  | RegisterRawBuffers ud _ tx => reply tx (RegisterRawBuffersSuccess ud)
  | Listen ud _ _ _ tx => if socket env ud <? 0 then reply tx (OpError ud name (last_os_error env)) else mret tt
  | Connect ud addr factory_id config tx =>
      if is_full w then reply tx (OpError ud name ResourceLimitReached)
      else
        let fd := socket env ud in
        if fd <? 0 then reply tx (OpError ud "ConnectSocketCreate" (last_os_error env))
        else queue_external ud (mkExternal tx name (Some factory_id) (Some config) (Some fd) None None)
               (OpConnect fd addr) (close_fd fd)
  | Nop ud tx =>
      if is_full w then reply tx (OpError ud name ResourceLimitReached)
      else queue_external ud (mkExternal tx name None None None None None) OpNop (mret tt)
  | RegisterExternalFd ud fd factory_id config is_server_role tx mpsc_rx =>
      register_external_fd ud fd factory_id config is_server_role tx mpsc_rx name
  | StartFdReadLoop ud fd tx =>
      if bool_decide (is_Some (handlers w !! fd)) then reply tx (StartFdReadLoopAck ud fd)
      else reply tx (OpError ud name (InvalidArgument (format "FD {} not managed" [pretty fd])))
  | ShutdownConnectionHandler ud fd tx =>
      add_op ud (mkExternal tx name None None None None (Some fd));;
      needs_close fd
  end.

(** *** [process_all_cqes]

    The processing of a completion gives the work it generates. *)

Abbreviation work_list := (list (RawFd * list HandlerSqeBlueprint)).

(** What a handler asked for after a completion. *)
Definition collect (fd : RawFd) (ops : HandlerIoOps) : W work_list :=
  (if initiate_close_due_to_error ops then needs_close fd else mret tt);;
  mret (if bool_decide (sqe_blueprints ops = []) then [] else [(fd, sqe_blueprints ops)]).

Definition collect_call (fd : RawFd) (ud : UserData) (m : UringWorkerInterface -> H -> called H) : W work_list :=
  r ← call fd ud m;
  match r with Some ops => collect fd ops | None => mret [] end.

Abbreviation dummy_socket_addr := "[::]:0".

Definition connect_completed (ud : UserData) (ctx : ExternalOpContext) : W (UringOpCompletion * work_list) :=
  connected_fd ← expect (fd_created_for_connect_op ctx);
  let '(peer_addr, local_addr) := default (dummy_socket_addr, dummy_socket_addr) (peer_local_addr env connected_fd) in
  match protocol_handler_factory_id ctx with
  | Some factory_id =>
      config ← expect (protocol_config ctx);
      r ← create_and_add_handler connected_fd factory_id config false ud;
      match r with
      | inr initial_ops =>
          work ← collect connected_fd initial_ops;
          mret (ConnectSuccess ud connected_fd peer_addr local_addr, work)
      | inl err_msg => close_fd connected_fd;; mret (OpError ud (op_name ctx) (Internal err_msg), [])
      end
  | None => mret (OpError ud (op_name ctx) (Internal "Connect factory_id missing"), [])
  end.

Definition external_completed (ud : UserData) (res : Z) (ctx : ExternalOpContext) : W work_list :=
  '(completion, work) ←
    (if res <? 0 then
       match fd_created_for_connect_op ctx with
       | Some fd => if bool_decide (op_name ctx = "Connect") then close_fd fd else mret tt
       | None => mret tt
       end;;
       mret (OpError ud (op_name ctx) (os_error env (- res)), [])
     else if bool_decide (op_name ctx = "Connect") then connect_completed ud ctx
     else if bool_decide (op_name ctx = "Nop") then mret (NopSuccess ud, [])
     else if bool_decide (op_name ctx = "RegisterRawBuffers") then mret (RegisterRawBuffersSuccess ud, [])
     else mret (OpError ud (op_name ctx) (Internal (format "Unhandled external op: {}" [op_name ctx])), []));
  reply (reply_tx ctx) completion;;
  mret work.

(** The multishot reader of the handler takes the completion, if it is for it:
    whether it did, whether more completions follow, and the work. *)
Definition delegate (d : InternalOpDetails) (c : Completion) : W (bool * bool * work_list) :=
  w ← get;
  let fd := op_fd d in
  let ud := cqe_user_data (cqe c) in
  match handlers w !! fd with
  | None => mret (false, false, [])
  | Some h =>
      _ ← expect (buffer_manager w);
      '(h, events, r) ← expect (delegate_cqe_to_multishot_reader (cqe c) (borrow c) (interface ud w) h);
      modify (fun w => w <| handlers := <[fd := h]> (handlers w) |> <| trace := trace w ++ (Upstream fd <$> events) |>);;
      match r with
      | None => mret (false, false, [])
      | Some (Ok (ops, cleanup)) =>
          emit (Asked fd (sqe_blueprints ops));;
          work ← collect fd ops;
          (if (cleanup : bool) then take_op_details ud else mret tt);;
          mret (true, negb cleanup && bool_decide (op_type d = RingReadMultishot), work)
      | Some (Err _) => needs_close fd;; take_op_details ud;; mret (true, false, [])
      | Some Panic => panic
      end
  end.

Definition accept_completed (shutting_down : bool) (listener : RawFd) (res : Z) : W work_list :=
  if res <? 0 then mret []
  else
    w ← get;
    work ←
      match listener_metadata w !! listener with
      | Some (factory_id, config) =>
          r ← create_and_add_handler res factory_id config true 0;
          match r with inr ops => collect res ops | inl _ => close_fd res;; mret [] end
      | None => close_fd res;; mret []
      end;
    (if shutting_down then mret tt
     else r ← queue_op listener Accept PayloadNone (OpAccept listener);
          match r with Some _ => mret tt | None => needs_close listener end);;
    mret work.

(** [while let Some(..) = take_op_if_shutdown_for_fd(fd)]: at most one round per
    operation in flight. *)
Fixpoint acknowledge_shutdowns (fuel : nat) (fd : RawFd) : W unit :=
  w ← get;
  match fuel, ExternalOps.take_op_if_shutdown_for_fd fd (external_op_tracker w) with
  | S fuel, Some (ud, ctx) =>
      _ ← take_op ud;
      reply (reply_tx ctx) (ShutdownConnectionHandlerComplete ud fd);;
      acknowledge_shutdowns fuel fd
  | _, _ => mret tt
  end.

Definition close_completed (fd : RawFd) (res : Z) : W work_list :=
  if res <? 0 then mret []
  else
    modify (fun w => w <| fd_to_mpsc_rx := delete fd (fd_to_mpsc_rx w) |>);;
    w ← get;
    acknowledge_shutdowns (size (external_op_tracker w)) fd;;
    modify (fun w => w <| listener_metadata := delete fd (listener_metadata w) |> <| handlers := delete fd (handlers w) |>);;
    w ← get;
    match fd_to_mailbox w !! fd with
    | Some mailbox => if mailbox_open env mailbox then emit (Mailed mailbox fd ConnectionClosed) else mret tt
    | None => mret tt
    end;;
    modify (fun w => w <| fd_to_mailbox := delete fd (fd_to_mailbox w) |>);;
    mret [].

Definition send_completed (d : InternalOpDetails) (ud : UserData) (res : Z) : W work_list :=
  match payload d with
  | SendZeroCopyPayload id _ _ =>
      if bool_decide (op_type d = SendZeroCopy)
      then modify (fun w => w <| send_buffer_pool := Pool.release_buffer id <$> send_buffer_pool w |>) else mret tt
  | _ => mret tt
  end;;
  let app_op_ud :=
    match payload d with
    | SendBuffer _ (Some ud) (Some _) | SendZeroCopyPayload _ ud _ => ud
    | _ => 0
    end in
  if app_op_ud =? 0 then collect_call (op_fd d) ud (handle_internal_sqe_completion res) else mret [].

Definition read_completed (d : InternalOpDetails) (c : Completion) : W work_list :=
  w ← get;
  let fd := op_fd d in
  let ud := cqe_user_data (cqe c) in
  let res := cqe_result (cqe c) in
  match buffer_select (cqe c), handlers w !! fd with
  | Some bid, Some _ =>
      if bool_decide (op_type d = RingRead) && (0 <=? res) then
        match buffer_manager w ≫= fun _ => borrow c bid res with
        | Some borrowed_buf => collect_call fd ud (process_ring_read_data borrowed_buf)
        | None => needs_close fd;; collect fd (mkOps [] true)
        end
      else collect_call fd ud (handle_internal_sqe_completion res)
  | _, _ => collect_call fd ud (handle_internal_sqe_completion res)
  end.

Definition final_processing (shutting_down : bool) (d : InternalOpDetails) (c : Completion) : W work_list :=
  let ud := cqe_user_data (cqe c) in
  let res := cqe_result (cqe c) in
  match op_type d with
  | Accept => accept_completed shutting_down (op_fd d) res
  | CloseFd => close_completed (op_fd d) res
  | Send | SendZeroCopy => send_completed d ud res
  | RingRead | GenericHandlerOp => read_completed d c
  | EventFdPoll | RingReadMultishot | AsyncCancel => mret []
  end.

(** An internal operation: a send without a copy whose notification is to come and a
    multishot read that goes on stay in the tracker. *)
Definition internal_completed (shutting_down : bool) (c : Completion) : W work_list :=
  w ← get;
  let ud := cqe_user_data (cqe c) in
  let res := cqe_result (cqe c) in
  match op_to_details (internal_op_tracker w) !! ud with
  | None => mret []
  | Some d =>
      let zc_pending := bool_decide (op_type d = SendZeroCopy) && negb (cqe_notify c) && (0 <=? res) in
      let more := bool_decide (op_type d = RingReadMultishot) && (0 <=? res) && cqe_more (cqe c) in
      '(delegated, goes_on, work) ←
        (if bool_decide (op_type d = RingReadMultishot \/ op_type d = AsyncCancel)
         then delegate d c else mret (false, false, []));
      if zc_pending || more || goes_on || delegated then mret work
      else take_op_details ud;; final_processing shutting_down d c
  end.

Definition process_cqe (shutting_down : bool) (c : Completion) : W work_list :=
  w ← get;
  let ud := cqe_user_data (cqe c) in
  let '(poller, t, handled) :=
    Poller.handle_cqe_if_matches ud shutting_down (event_fd_poller w) (internal_op_tracker w) in
  modify (fun w => w <| event_fd_poller := poller |> <| internal_op_tracker := t |>);;
  if handled then take_op_details ud;; mret []
  else
    ctx ← take_op ud;
    match ctx with
    | Some ctx => external_completed ud (cqe_result (cqe c)) ctx
    | None => internal_completed shutting_down c
    end.

Fixpoint process_all_cqes (shutting_down : bool) (cqes : list Completion) : W work_list :=
  match cqes with
  | [] => mret []
  | c :: cqes =>
      work ← process_cqe shutting_down c;
      rest ← process_all_cqes shutting_down cqes;
      mret (work ++ rest)
  end.

(** *** [run_worker_loop] *)

Abbreviation KERNEL_POLL_INITIAL := (1)%Z.
Abbreviation KERNEL_POLL_MAX_DURATION := (128)%Z.
Abbreviation MAX_BATCHES_PER_ITERATION := (64)%nat.

(** 1b: messages of the application; were there any? *)
Definition drain_app_data : W bool :=
  w ← get;
  for_each (fun fd =>
    w ← get;
    match received env <$> fd_to_mpsc_rx w !! fd with
    | Some (m :: ms) =>
        modify (fun w =>
          let work := default no_work (work_map w !! fd) in
          w <| work_map := <[fd := work <| app_data := app_data work ++ (m :: ms) |>]> (work_map w) |>)
    | _ => mret tt
    end) (keys (fd_to_mpsc_rx w));;
  mret (existsb (fun rx => negb (bool_decide (received env rx = []))) (map_to_list (fd_to_mpsc_rx w)).*2).

(** 1c: periodic work; was there any? *)
Definition poll_handlers : W bool :=
  handler_ops_list ← prepare_all_handler_io_ops;
  for_each (fun '(fd, ops) =>
    (if bool_decide (sqe_blueprints ops = []) then mret tt else push_batch fd (sqe_blueprints ops));;
    w ← get;
    if initiate_close_due_to_error ops && negb (bool_decide (fd ∈ fds_needing_close_initiated_pass w))
    then needs_close fd else mret tt) handler_ops_list;;
  mret (negb (bool_decide (handler_ops_list = []))).

(** 1d: nothing is flagged while the pass runs. *)
Definition close_pass : W bool :=
  w ← get;
  let fds := fds_needing_close_initiated_pass w in
  modify (fun w => w <| fds_needing_close_initiated_pass := [] |>);;
  for_each (fun fd =>
    r ← call fd 0 close_initiated;
    match r with
    | Some ops => if bool_decide (sqe_blueprints ops = []) then mret tt else push_batch fd (sqe_blueprints ops)
    | None => mret tt
    end) fds;;
  mret (negb (bool_decide (fds = []))).

Definition gather_work : W bool :=
  w ← get;
  for_each process_external_op_request (requests env);;
  app_data_came ← drain_app_data;
  periodic ← poll_handlers;
  closing ← close_pass;
  mret (negb (bool_decide (work_map w = ∅)) || negb (bool_decide (requests env = [])) || app_data_came ||
        periodic || closing).

(** Phase 2: the messages for a handler become batches. *)
Fixpoint convert_app_data (fd : RawFd) (msgs : list (list Msg)) (batches : list (list HandlerSqeBlueprint))
  : W (list (list HandlerSqeBlueprint)) :=
  match msgs with
  | [] => mret batches
  | msg_parts :: msgs =>
      r ← call fd 0 (handle_outgoing_app_data msg_parts);
      convert_app_data fd msgs
        (match r with
         | Some ops => if bool_decide (sqe_blueprints ops = []) then batches else batches ++ [sqe_blueprints ops]
         | None => batches
         end)
  end.

(** The batches that are left, the number processed so far, and whether to stop. *)
Fixpoint submit_batches (fd : RawFd) (batches : list (list HandlerSqeBlueprint)) (processed : nat)
  : W (list (list HandlerSqeBlueprint) * nat * bool) :=
  match batches with
  | [] => mret ([], processed, false)
  | batch :: rest =>
      w ← get;
      if bool_decide (MAX_BATCHES_PER_ITERATION <= processed)%nat || is_full w
      then mret (batch :: rest, processed, true)
      else
        r ← process_handler_blueprints fd batch;
        match r with
        | Some returned_batch => mret (returned_batch :: rest, processed, true)
        | None => submit_batches fd rest (S processed)
        end
  end.

Fixpoint process_work_map (fds_with_work : list RawFd) (processed : nat) : W unit :=
  match fds_with_work with
  | [] => mret tt
  | fd :: fds =>
      w ← get;
      if bool_decide (MAX_BATCHES_PER_ITERATION <= processed)%nat || is_full w then mret tt
      else
        let work := default no_work (work_map w !! fd) in
        modify (fun w => w <| work_map := delete fd (work_map w) |>);;
        '(batches, msgs) ←
          (if bool_decide (is_Some (handlers w !! fd))
           then batches ← convert_app_data fd (app_data work) (atomic_batches work); mret (batches, [])
           else mret (atomic_batches work, app_data work));
        '(rest, processed, stop) ← submit_batches fd batches processed;
        (if bool_decide (msgs = [] /\ rest = []) then mret tt
         else modify (fun w => w <| work_map := <[fd := mkWork rest msgs]> (work_map w) |>));;
        if (stop : bool) then mret tt else process_work_map fds processed
  end.

(** Phase 3: a read for every descriptor that has none. *)
Fixpoint ensure_reads (fds : list RawFd) : W unit :=
  match fds with
  | [] => mret tt
  | fd :: fds =>
      w ← get;
      if InternalOps.has_pending_read_op fd (internal_op_tracker w) then ensure_reads fds
      else if is_full w then mret tt
      else
        match default_buffer_ring_group_id_val w with
        | Some bgid =>
            r ← queue_op fd RingRead PayloadNone (OpRead fd bgid);
            match r with Some _ => ensure_reads fds | None => mret tt end
        | None => ensure_reads fds
        end
  end.

(** [submit()]: the kernel takes entries off the queue. *)
Definition submitted (count : nat) : W unit := modify (fun w => w <| sq := drop count (sq w) |>).

(** Phases 4 and 5: the number of entries submitted, or an error that ends the loop. *)
Definition submit_and_idle (work_was_available : bool) : W (result nat) :=
  w ← get;
  let needs_wait := negb work_was_available && (zlen (sq w) =? 0) && cq_empty env in
  if (0 <? zlen (sq w)) || needs_wait then
    match submit env with
    | Submitted count => submitted count;; mret (Ok count)
    | SubmitTimedOut | SubmitInterrupted | SubmitBusy => mret (Ok 0%nat)
    | SubmitFailed e => mret (Err e)
    end
  else mret (Ok 0%nat).

Definition running_turn : W unit :=
  available ← gather_work;
  w ← get;
  process_work_map (keys (work_map w)) 0;;
  w ← get;
  ensure_reads (keys (handlers w));;
  r ← submit_and_idle available;
  match r with
  | Ok count =>
      newly_generated_work ← process_all_cqes false (completions env);
      for_each (fun '(fd, blueprints) => push_batch fd blueprints) newly_generated_work;;
      let available := available || negb (bool_decide (newly_generated_work = [])) in
      modify (fun w => w <| kernel_poll_timeout_duration :=
        if bool_decide (count = 0%nat) && bool_decide (completions env = []) && negb available
        then Z.min (kernel_poll_timeout_duration w * 2) KERNEL_POLL_MAX_DURATION else KERNEL_POLL_INITIAL |>)
  | Err e => modify (fun w => w <| loop_result := Some (Err e) |>)
  | Panic => panic
  end.

(** Cancels go out until the queue is full. *)
Fixpoint cancel_ops (uds : list UserData) : W unit :=
  match uds with
  | [] => mret tt
  | ud :: uds => w ← get; if is_full w then mret tt else _ ← push (mkSqe (OpAsyncCancel ud) 0); cancel_ops uds
  end.

Definition transition_to_draining : W unit :=
  modify (fun w => w <| state := Draining |>);;
  emit DroppedUpstream;;
  w ← get;
  cancel_ops (keys (op_to_details (internal_op_tracker w)));;
  match submit env with Submitted count => submitted count | _ => mret tt end.

Definition draining_turn : W unit :=
  _ ← process_all_cqes true (completions env);
  w ← get;
  if InternalOps.is_empty (internal_op_tracker w) && bool_decide (external_op_tracker w = ∅)
  then modify (fun w => w <| state := CleaningUp |>)
  else
    match submit env with
    | Submitted count => submitted count
    | SubmitTimedOut => modify (fun w => w <| state := CleaningUp |>)
    | SubmitInterrupted => mret tt
    | SubmitBusy | SubmitFailed _ => modify (fun w => w <| state := Stopped |>)
    end.

Definition cleaning_turn : W unit := modify (fun w => w <| buffer_manager := None |> <| state := Stopped |>).

(** After the loop: whoever still waits is told. *)
Definition after_loop : W unit :=
  w ← get;
  modify (fun w => w <| external_op_tracker := ∅ |>
    <| trace := trace w ++ ((fun ctx => Replied (reply_tx ctx) (Err (Internal "UringWorker shutting down"))) <$>
                            (map_to_list (external_op_tracker w)).*2) |>
    <| loop_result := Some (Ok tt) |>).

Definition turn : W unit :=
  w ← get;
  match state w with
  | Running => if op_rx_closed env then transition_to_draining else running_turn
  | Draining => draining_turn
  | CleaningUp => cleaning_turn
  | Stopped => after_loop
  end.

End Worker.
Arguments UringWorker H : clear implicits.
Arguments W H : clear implicits.

(** ** The task that passes the events of handlers on ([global_state.rs]) *)

Inductive CoreCommand :=
| UringFdMessage (fd : RawFd) (msg : Msg)
| UringFdHandshakeComplete (fd : RawFd) (peer_identity : option Blob)
| UringFdError (fd : RawFd) (error : ZmqError).

Definition register_uring_fd_socket_core_mailbox (fd : RawFd) (mailbox : Z) (m : gmap RawFd Z) : gmap RawFd Z :=
  <[fd := mailbox]> m.

Definition unregister_uring_fd_socket_core_mailbox (fd : RawFd) (m : gmap RawFd Z) : gmap RawFd Z := delete fd m.

(** One event: the map, and the command with the mailbox it goes to.  [accepts] says
    which mailboxes still take commands. *)
Definition upstream_turn (accepts : Z -> bool) (fd : RawFd) (event : HandlerUpstreamEvent) (m : gmap RawFd Z)
  : gmap RawFd Z * option (Z * CoreCommand) :=
  match m !! fd with
  | Some mailbox =>
      let command :=
        match event with
        | Data msg => UringFdMessage fd msg
        | HandshakeComplete peer_identity => UringFdHandshakeComplete fd peer_identity
        | EventError error => UringFdError fd error
        end in
      if accepts mailbox then (m, Some (mailbox, command)) else (delete fd m, None)
  | None => (m, None)
  end.

End Worker.
