(* ===== verification/WorkerLogic.v ===== *)
(** Hoare rules for the code of the io_uring worker ([Worker.v]), its runs, and the
    rule for the loop: what calls of handlers, blueprints, completions and reads keep,
    the phases of a turn keep. *)

From S2P Require Import Prelude Error Message Options Uring Worker.
Import Uring(HandlerSqeBlueprint(..), HandlerIoOps(..), sqe_blueprints, initiate_close_due_to_error,
  HandlerUpstreamEvent(..), UringWorkerInterface(..), Cqe(..), cqe_user_data, cqe_result, buffer_select, cqe_more).
Import Worker.

(** ** Hoare rules *)

Section Rules.
Context {H : Type} `{HC : UringConnectionHandler H}.
Implicit Types P : UringWorker H -> Prop.

(** Code that returns leaves a state in [Q]. *)
Definition whoare {A} P (m : W H A) (Q : A -> UringWorker H -> Prop) : Prop :=
  forall w, P w -> match m w with Some (a, w') => Q a w' | None => True end.

Lemma whoare_bind {A B} P (m : W H A) (k : A -> W H B) Q R :
  whoare P m Q -> (forall a, whoare (Q a) (k a) R) -> whoare P (m ≫= k) R.
Proof.
  intros Hm Hk w Hp. specialize (Hm w Hp). unfold mbind, W_bind. destruct (m w) as [[a w']|]; [|done]. by apply Hk.
Qed.

Lemma whoare_conseq {A} P P' (m : W H A) (Q Q' : A -> UringWorker H -> Prop) :
  whoare P m Q -> (forall w, P' w -> P w) -> (forall a w, Q a w -> Q' a w) -> whoare P' m Q'.
Proof. intros Hm Hp Hq w Hp'. specialize (Hm w (Hp w Hp')). destruct (m w) as [[a w']|]; auto. Qed.

Lemma whoare_ret {A} P (a : A) (Q : A -> UringWorker H -> Prop) : (forall w, P w -> Q a w) -> whoare P (mret a) Q.
Proof. intros Hq w Hp. by apply Hq. Qed.

(** What [get] reads is the state. *)
Lemma whoare_get {A} P (k : UringWorker H -> W H A) Q :
  (forall w0, whoare (fun w => w = w0 /\ P w) (k w0) Q) -> whoare P (w ← get; k w) Q.
Proof. intros Hk w Hp. unfold mbind, W_bind, get. by apply Hk. Qed.

Lemma whoare_read {A} P (k : UringWorker H -> W H A) Q : (forall w0, whoare P (k w0) Q) -> whoare P (w ← get; k w) Q.
Proof. intros Hk. apply whoare_get. intros w0 w [_ Hp]. by apply Hk. Qed.

Lemma whoare_modify P f (Q : unit -> UringWorker H -> Prop) : (forall w, P w -> Q tt (f w)) -> whoare P (modify f) Q.
Proof. intros Hq w Hp. by apply Hq. Qed.

Lemma whoare_expect {A} P (o : option A) (Q : A -> UringWorker H -> Prop) :
  (forall a w, o = Some a -> P w -> Q a w) -> whoare P (expect o) Q.
Proof. intros Hq w Hp. destruct o; [by apply Hq|done]. Qed.

Lemma whoare_panic {A} P (Q : A -> UringWorker H -> Prop) : whoare P panic Q.
Proof. done. Qed.

(** A condition that is not about the state. *)
Lemma whoare_pure {A} (φ : Prop) P (m : W H A) Q : (φ -> whoare P m Q) -> whoare (fun w => φ /\ P w) m Q.
Proof. intros Hm w [Hφ Hp]. by apply Hm. Qed.

(** An invariant that depends on the elements to come. *)
Lemma whoare_for_each {A} (P : list A -> UringWorker H -> Prop) (f : A -> W H unit) :
  (forall a l, whoare (P (a :: l)) (f a) (fun _ => P l)) -> forall l, whoare (P l) (for_each f l) (fun _ => P []).
Proof.
  intros Hf l. induction l as [|a l IH]; cbn [for_each]; [by apply whoare_ret|].
  by eapply whoare_bind; [apply Hf|].
Qed.

(** Code that keeps a predicate. *)
Definition wkeeps P {A} (m : W H A) : Prop := whoare P m (fun _ => P).

Lemma wkeeps_bind P {A B} (m : W H A) (k : A -> W H B) : wkeeps P m -> (forall a, wkeeps P (k a)) -> wkeeps P (m ≫= k).
Proof. intros Hm Hk. by eapply whoare_bind. Qed.

Lemma wkeeps_get P {A} (k : UringWorker H -> W H A) : (forall w0, wkeeps P (k w0)) -> wkeeps P (w ← get; k w).
Proof. intros Hk w Hp. unfold mbind, W_bind, get. by apply Hk. Qed.

Lemma wkeeps_for_each P {A} (f : A -> W H unit) l : (forall a, wkeeps P (f a)) -> wkeeps P (for_each f l).
Proof. intros Hf. apply (whoare_for_each (fun _ => P)). intros a _. apply Hf. Qed.

End Rules.

(** A triple whose conditions are the same predicate. *)
Ltac to_keeps := lazymatch goal with |- whoare _ ?m (fun _ => ?Q) => change (wkeeps Q m) end.

(** The first part of the code keeps the precondition. *)
Ltac keep_then := lazymatch goal with |- whoare ?P _ _ => apply (whoare_bind _ _ _ (fun _ => P)); [to_keeps|intros ?] end.

(** Decompose code; [leaf] deals with what changes the state. *)
Ltac wkeeps_walk leaf :=
  repeat first
    [ progress (intros; cbv beta zeta)
    | leaf
    | apply whoare_panic
    | match goal with
      | |- wkeeps _ (get ≫= _) => apply wkeeps_get
      | |- wkeeps _ (mret _) => apply whoare_ret; intros; assumption
      | |- wkeeps _ (expect _) => apply whoare_expect; intros; assumption
      | |- wkeeps _ (_ ≫= _) => apply wkeeps_bind
      | |- wkeeps _ (for_each _ _) => apply wkeeps_for_each
      | |- wkeeps _ (match ?x with _ => _ end) => destruct x
      | |- wkeeps _ (let '(_, _) := ?x in _) => destruct x
      end ].

(** ** The phases of a turn *)

(** What the work map, the queues of descriptors and the submission queue are not
    part of. *)
Definition core {H} (w : UringWorker H) :=
  (state w, handlers w, factories w, listener_metadata w, external_op_tracker w, internal_op_tracker w, event_fd_poller w,
   send_buffer_pool w, loop_result w, trace w).

(** The methods the worker calls by the number of a descriptor. *)
Inductive handler_method `{UringConnectionHandler H} : (UringWorkerInterface -> H -> called H) -> Prop :=
| method_read data : handler_method (process_ring_read_data data)
| method_completion res : handler_method (handle_internal_sqe_completion res)
| method_prepare : handler_method prepare_sqes
| method_send parts : handler_method (handle_outgoing_app_data parts)
| method_close : handler_method close_initiated.

Section Phases.
Context {H : Type} `{HC : UringConnectionHandler H}.
Variable env : Round.
Variable I : UringWorker H -> Prop.
Hypothesis I_core : forall w w', core w' = core w -> I w -> I w'.
Hypothesis I_call : forall fd ud m, handler_method m -> wkeeps I (call env fd ud m).
Hypothesis I_blueprint : forall fd bp, wkeeps I (process_blueprint fd bp).
Hypothesis I_cqe : forall shutting_down c, wkeeps I (process_cqe env shutting_down c).
Hypothesis I_read : forall fd bgid, wkeeps I (queue_op fd RingRead PayloadNone (OpRead fd bgid)).
Hypothesis I_cancel : forall ud, wkeeps I (push (mkSqe (OpAsyncCancel ud) 0)).

Ltac core_leaf := idtac;
  match goal with |- wkeeps I (modify _) => apply whoare_modify; intros; eapply I_core; [|eassumption]; reflexivity end.

Lemma phase_prepare fds : wkeeps I (prepare_handlers env fds).
Proof. induction fds as [|fd fds IH]; cbn [prepare_handlers]; wkeeps_walk ltac:(first [apply I_call; constructor | apply IH]). Qed.

Lemma phase_poll : wkeeps I (poll_handlers env).
Proof.
  unfold poll_handlers, prepare_all_handler_io_ops, push_batch, needs_close.
  wkeeps_walk ltac:(first [core_leaf | apply phase_prepare]).
Qed.

Lemma phase_drain : wkeeps I (drain_app_data env).
Proof. unfold drain_app_data. wkeeps_walk ltac:(core_leaf). Qed.

Lemma phase_close_pass : wkeeps I (close_pass env).
Proof. unfold close_pass, push_batch. wkeeps_walk ltac:(first [core_leaf | apply I_call; constructor]). Qed.

Lemma phase_blueprints fd bps : wkeeps I (process_handler_blueprints fd bps).
Proof.
  induction bps as [|bp bps IH]; cbn [process_handler_blueprints]; wkeeps_walk ltac:(first [apply I_blueprint | apply IH]).
Qed.

Lemma phase_submit_batches fd batches n : wkeeps I (submit_batches fd batches n).
Proof.
  revert n. induction batches as [|b bs IH]; intros n; cbn [submit_batches];
    wkeeps_walk ltac:(first [apply phase_blueprints | apply IH]).
Qed.

Lemma phase_convert fd msgs batches : wkeeps I (convert_app_data env fd msgs batches).
Proof.
  revert batches. induction msgs as [|m msgs IH]; intros batches; cbn [convert_app_data];
    wkeeps_walk ltac:(first [apply I_call; constructor | apply IH]).
Qed.

Lemma phase_work_map fds n : wkeeps I (process_work_map env fds n).
Proof.
  revert n. induction fds as [|fd fds IH]; intros n; cbn [process_work_map];
    wkeeps_walk ltac:(first [core_leaf | apply phase_convert | apply phase_submit_batches | apply IH]).
Qed.

Lemma phase_ensure_reads fds : wkeeps I (ensure_reads fds).
Proof. induction fds as [|fd fds IH]; cbn [ensure_reads]; wkeeps_walk ltac:(first [apply IH | apply I_read]). Qed.

Lemma phase_all_cqes shutting_down cqes : wkeeps I (process_all_cqes env shutting_down cqes).
Proof.
  induction cqes as [|c cqes IH]; cbn [process_all_cqes]; wkeeps_walk ltac:(first [apply I_cqe | apply IH]).
Qed.

Lemma phase_cancel uds : wkeeps I (cancel_ops uds).
Proof. induction uds as [|ud uds IH]; cbn [cancel_ops]; wkeeps_walk ltac:(first [apply I_cancel | apply IH]). Qed.

(** A turn of the running worker, when requests lead from [P] to [I]. *)
Lemma phase_running (P Q : UringWorker H -> Prop) :
  whoare P (for_each (process_external_op_request env) (requests env)) (fun _ => I) ->
  (forall w, I w -> Q w) -> (forall w e, I w -> Q (w <| loop_result := Some (Err e) |>)) ->
  whoare P (running_turn env) (fun _ => Q).
Proof.
  intros Hr Hq He. unfold running_turn, gather_work. apply (whoare_bind _ _ _ (fun _ => I)).
  { apply whoare_read. intros w0. eapply (whoare_bind _ _ _ (fun _ => I)); [exact Hr|]. intros _. to_keeps.
    wkeeps_walk ltac:(first [apply phase_drain | apply phase_poll | apply phase_close_pass]). }
  intros available. apply whoare_read. intros w0. keep_then; [apply phase_work_map|].
  apply whoare_read. intros w1. keep_then; [apply phase_ensure_reads|].
  keep_then; [unfold submit_and_idle, submitted; wkeeps_walk ltac:(core_leaf)|].
  match goal with |- whoare _ (match ?r with _ => _ end) _ => destruct r as [count|e|] end; [|apply whoare_modify; intros w Hi; by apply He|apply whoare_panic].
  keep_then; [apply phase_all_cqes|]. apply (whoare_conseq I _ _ (fun _ => I)); [|done|auto].
  to_keeps. unfold push_batch. wkeeps_walk ltac:(core_leaf).
Qed.

End Phases.

(** ** Runs *)

(** The requests a turn takes. *)
Definition taken {H} (env : Round) (w : UringWorker H) : list UringOpRequest :=
  if bool_decide (state w = Running) && negb (op_rx_closed env) then requests env else [].

(** A turn of the loop, or another task that registers descriptors; with the requests
    taken so far. *)
Inductive worker_step `{UringConnectionHandler H} :
  UringWorker H * list UringOpRequest -> UringWorker H * list UringOpRequest -> Prop :=
| worker_turned env w w' rs :
    loop_result w = None -> turn env w = Some (tt, w') -> worker_step (w, rs) (w', rs ++ taken env w)
| worker_mailboxes m w rs : worker_step (w, rs) (w <| fd_to_mailbox := m |>, rs).

(** A turn, by the state of the worker. *)
Lemma turn_rule `{HC : UringConnectionHandler H} env (P : UringWorker H -> Prop) (Q : list UringOpRequest -> UringWorker H -> Prop)
  (w w' : UringWorker H) :
  P w -> turn env w = Some (tt, w') ->
  (taken env w = requests env -> whoare P (running_turn env) (fun _ => Q (requests env))) ->
  whoare P (transition_to_draining env) (fun _ => Q []) -> whoare P (draining_turn env) (fun _ => Q []) ->
  whoare P cleaning_turn (fun _ => Q []) -> whoare P after_loop (fun _ => Q []) -> Q (taken env w) w'.
Proof.
  intros Hp Ht H1 H2 H3 H4 H5. unfold taken, turn, get, mbind, W_bind in *.
  destruct (state w); [destruct (op_rx_closed env)|..]; cbn in *;
    rewrite ?(bool_decide_eq_true_2 (Running = Running)), ?bool_decide_eq_false_2, ?andb_false_r in * by done; cbn in *.
  - specialize (H2 w Hp). by rewrite Ht in H2.
  - specialize (H1 eq_refl w Hp). by rewrite Ht in H1.
  - specialize (H3 w Hp). by rewrite Ht in H3.
  - specialize (H4 w Hp). by rewrite Ht in H4.
  - specialize (H5 w Hp). by rewrite Ht in H5.
Qed.
