(* ===== verification/WorkerFlow.v ===== *)
(** The worker of the io_uring backend submits what the handlers ask for, in order.

    The work map is a queue per descriptor: whatever the budget of a turn, a full
    submission queue, the order of the hash maps, completions and requests do, the
    sends the worker has queued for a descriptor and those it still has in its map
    are, in order, those the handlers of the descriptor have asked for. *)

From S2P Require Import Prelude Error Message Options Uring Worker WorkerLogic.
Import Uring(HandlerSqeBlueprint(..), HandlerIoOps(..), sqe_blueprints, initiate_close_due_to_error,
  HandlerUpstreamEvent(..), UringWorkerInterface(..), Cqe(..), cqe_user_data, cqe_result, buffer_select, cqe_more).
Import Worker.

(** ** Sends asked for, queued and pending *)

(** The octets of a send, of which the kernel is given 32 bits of the length. *)
Definition clip (data : bytes) : bytes := take (Z.to_nat (wrapU 32 (zlen data))) data.

Definition send_of (bp : HandlerSqeBlueprint) : list bytes :=
  match bp with RequestSend data _ _ | RequestSendZeroCopy data _ _ => [clip data] | _ => [] end.

Definition sends (bps : list HandlerSqeBlueprint) : list bytes := concat (send_of <$> bps).

(** What an effect says of the sends of a descriptor. *)
Definition asked_by (fd : Z) (e : effect) : list bytes :=
  match e with Asked f bps => if f =? fd then sends bps else [] | _ => [] end.

Definition queued_by (fd : Z) (e : effect) : list bytes :=
  match e with
  | Queued (mkSqe (OpSend f _ _ _) _) octets | Queued (mkSqe (OpSendZc f _ _ _) _) octets =>
      if f =? fd then [octets] else []
  | _ => []
  end.

Definition asked (fd : Z) (tr : list effect) : list bytes := concat (asked_by fd <$> tr).
Definition queued (fd : Z) (tr : list effect) : list bytes := concat (queued_by fd <$> tr).

(** The sends of a list of work. *)
Definition local (l : list (Z * list HandlerSqeBlueprint)) (fd : Z) : list bytes :=
  concat ((fun '(f, bps) => if f =? fd then sends bps else []) <$> l).

Section Pending.
Context {H : Type}.

Definition pending (w : UringWorker H) (fd : Z) : list bytes :=
  concat (sends <$> atomic_batches (default no_work (work_map w !! fd))).

(** Everything asked for is queued, in the map, or in the list [l]. *)
Definition flow (l : list (Z * list HandlerSqeBlueprint)) (w : UringWorker H) : Prop :=
  forall fd, asked fd (trace w) = queued fd (trace w) ++ pending w fd ++ local l fd.

End Pending.

#[global] Arguments asked : simpl never.
#[global] Arguments queued : simpl never.
#[global] Arguments sends : simpl never.
#[global] Arguments local : simpl never.

Lemma clip_small data : zlen data < 2 ^ 32 -> clip data = data.
Proof.
  intros Hl. unfold clip, wrapU. rewrite Z.mod_small by (pose proof (zlen_nonneg data); lia).
  unfold zlen. rewrite Nat2Z.id. by rewrite firstn_all.
Qed.

Lemma sends_app bps1 bps2 : sends (bps1 ++ bps2) = sends bps1 ++ sends bps2.
Proof. unfold sends. by rewrite fmap_app, concat_app. Qed.

Lemma asked_app fd tr1 tr2 : asked fd (tr1 ++ tr2) = asked fd tr1 ++ asked fd tr2.
Proof. unfold asked. by rewrite fmap_app, concat_app. Qed.

Lemma queued_app fd tr1 tr2 : queued fd (tr1 ++ tr2) = queued fd tr1 ++ queued fd tr2.
Proof. unfold queued. by rewrite fmap_app, concat_app. Qed.

Lemma local_app l1 l2 fd : local (l1 ++ l2) fd = local l1 fd ++ local l2 fd.
Proof. unfold local. by rewrite fmap_app, concat_app. Qed.

Lemma local_nil fd : local [] fd = [].
Proof. done. Qed.

Lemma local_cons f bps l fd : local ((f, bps) :: l) fd = (if f =? fd then sends bps else []) ++ local l fd.
Proof. done. Qed.

Lemma asked_upstream fd f events : asked fd (Upstream f <$> events) = [].
Proof. induction events as [|e es IH]; [done|]. apply IH. Qed.

Lemma queued_upstream fd f events : queued fd (Upstream f <$> events) = [].
Proof. induction events as [|e es IH]; [done|]. apply IH. Qed.

Lemma asked_one fd f bps : asked fd [Asked f bps] = if f =? fd then sends bps else [].
Proof. unfold asked. cbn. by rewrite app_nil_r. Qed.

(** Batches of one descriptor. *)
Lemma local_batches f batches fd :
  local ((fun b => (f, b)) <$> batches) fd = if f =? fd then concat (sends <$> batches) else [].
Proof.
  induction batches as [|b bs IH]; [by destruct (f =? fd)|]. cbn [fmap list_fmap]. rewrite local_cons, IH.
  by destruct (f =? fd).
Qed.

Section Flow.
Context {H : Type} `{HC : UringConnectionHandler H}.
Implicit Types w : UringWorker H.
Implicit Types l : list (Z * list HandlerSqeBlueprint).

(** Changes that are not about sends. *)
Lemma flow_frame l w w' tr :
  flow l w -> work_map w' = work_map w -> trace w' = trace w ++ tr ->
  (forall fd, asked fd tr = []) -> (forall fd, queued fd tr = []) -> flow l w'.
Proof.
  intros Hf Hw Ht Ha Hq fd. unfold pending. rewrite Ht, Hw, asked_app, queued_app, Ha, Hq, !app_nil_r. apply Hf.
Qed.

Lemma flow_same l w w' : flow l w -> work_map w' = work_map w -> trace w' = trace w -> flow l w'.
Proof. intros Hf Hw Ht. apply (flow_frame l w w' []); try done. by rewrite app_nil_r. Qed.

(** Equal lists of sends. *)
Lemma flow_local l l' w : (forall fd, local l fd = local l' fd) -> flow l w -> flow l' w.
Proof. intros Hl Hf fd. rewrite <- Hl. apply Hf. Qed.

Lemma flow_drop_empty l1 l2 f w : flow (l1 ++ [(f, [])] ++ l2) w -> flow (l1 ++ l2) w.
Proof.
  apply flow_local. intros fd. rewrite !local_app, local_cons. f_equal. by destruct (f =? fd).
Qed.

(** A handler asks. *)
Lemma flow_asked l w w' fd events bps :
  flow l w -> work_map w' = work_map w -> trace w' = trace w ++ (Upstream fd <$> events) ++ [Asked fd bps] ->
  flow (l ++ [(fd, bps)]) w'.
Proof.
  intros Hf Hw Ht g. unfold pending. rewrite Ht, Hw, !asked_app, !queued_app, asked_upstream, queued_upstream, local_app.
  rewrite (Hf g), asked_one. change (queued g [Asked fd bps]) with (@nil bytes). unfold pending.
  rewrite local_cons. cbn. by rewrite !app_nil_r, <- !app_assoc.
Qed.

Lemma flow_push_batch fd b l : whoare (H := H) (flow ((fd, b) :: l)) (push_batch fd b) (fun _ => flow l).
Proof.
  apply whoare_modify. intros w Hf g. specialize (Hf g). rewrite local_cons in Hf.
  cbn [trace update]. unfold pending in *. cbn. destruct (Z.eqb_spec fd g) as [->|Hn].
  - rewrite lookup_insert. case_decide; [|done]. cbn. rewrite fmap_app, concat_app. cbn. rewrite app_nil_r, <- !app_assoc.
    exact Hf.
  - rewrite lookup_insert_ne by done. exact Hf.
Qed.

End Flow.

(** Changes that are not about sends, as leaves of a walk. *)
Ltac flow_leaf := idtac;
  match goal with
  | |- wkeeps (flow _) (modify _) =>
      apply whoare_modify; intros; eapply flow_same; [eassumption|reflexivity..]
  | |- wkeeps (flow _) (emit _) =>
      apply whoare_modify; intros; eapply flow_frame; [eassumption|reflexivity..]
  end.

Section Procedures.
Context {H : Type} `{HC : UringConnectionHandler H}.
Variable env : Round.
Implicit Types w : UringWorker H.
Abbreviation hoare := (whoare (H := H)).
Abbreviation keeping := (wkeeps (H := H)).
Implicit Types l : list (Z * list HandlerSqeBlueprint).

(** The work that a call which may have found no handler leaves. *)
Definition work_of (fd : Z) (r : option HandlerIoOps) : list (Z * list HandlerSqeBlueprint) :=
  match r with Some ops => [(fd, sqe_blueprints ops)] | None => [] end.

Definition work_made (fd : Z) (r : string + HandlerIoOps) : list (Z * list HandlerSqeBlueprint) :=
  match r with inr ops => [(fd, sqe_blueprints ops)] | inl _ => [] end.

Lemma flow_call l fd ud m : hoare (flow l) (call env fd ud m) (fun r => flow (l ++ work_of fd r)).
Proof.
  apply whoare_read. intros w0. destruct (handlers w0 !! fd) as [h|]; [|apply whoare_ret; intros w Hf; by rewrite app_nil_r].
  eapply (whoare_bind _ _ _ (fun _ => flow l)); [by apply whoare_expect|]. intros [[h' ops] events].
  eapply (whoare_bind _ _ _ (fun _ => flow (l ++ [(fd, sqe_blueprints ops)])));
    [|intros []; by apply whoare_ret].
  apply whoare_modify. intros w Hf. by eapply flow_asked.
Qed.

Lemma flow_create l fd factory_id config is_server ud :
  hoare (flow l) (create_and_add_handler env fd factory_id config is_server ud)
    (fun r => flow (l ++ work_made fd r)).
Proof.
  assert (forall e : string, hoare (flow l) (mret (inl e)) (fun r => flow (l ++ work_made fd r))) as Hn.
  { intros e. apply whoare_ret. intros w Hf. by rewrite app_nil_r. }
  apply whoare_read. intros w0. case_bool_decide; [apply Hn|].
  destruct (factories w0 !! factory_id) as [create|]; [|apply Hn]. destruct (create _ _ _ _) as [e|h]; [apply Hn|].
  eapply (whoare_bind _ _ _ (fun _ => flow l)); [by apply whoare_expect|]. intros [[h' ops] events].
  eapply (whoare_bind _ _ _ (fun _ => flow (l ++ [(fd, sqe_blueprints ops)])));
    [|intros []; by apply whoare_ret].
  apply whoare_modify. intros w Hf. by eapply flow_asked.
Qed.

(** *** Quiet code *)

Lemma flow_needs_close l fd : keeping (flow l) (needs_close fd).
Proof. unfold needs_close. flow_leaf. Qed.

Lemma flow_reply l tx r : keeping (flow l) (reply tx r).
Proof. unfold reply. flow_leaf. Qed.

Lemma flow_close_fd l fd : keeping (flow l) (close_fd fd).
Proof. unfold close_fd. flow_leaf. Qed.

(** Entries that are not sends. *)
Definition is_send (op : SqeOp) : bool := match op with OpSend _ _ _ _ | OpSendZc _ _ _ _ => true | _ => false end.

Lemma queued_other fd op ud octets : is_send op = false -> queued fd [Queued (mkSqe op ud) octets] = [].
Proof. by destruct op. Qed.

Lemma flow_push l op ud : is_send op = false -> keeping (flow l) (push (mkSqe op ud)).
Proof.
  intros Hs. apply wkeeps_get. intros w0. destruct (is_full w0); [by apply whoare_ret|].
  apply wkeeps_bind; [|intros []; by apply whoare_ret].
  apply whoare_modify. intros w Hf.
  eapply flow_frame; [exact Hf|reflexivity|reflexivity|done|]. intros fd. by apply queued_other.
Qed.

Lemma flow_queue_op l fd ty p op : is_send op = false -> keeping (flow l) (queue_op fd ty p op).
Proof.
  intros Hs. unfold queue_op, new_op_id, take_op_details.
  wkeeps_walk ltac:(first [flow_leaf | apply flow_push; assumption]).
Qed.

Lemma flow_take_op l ud : keeping (flow l) (take_op ud).
Proof. unfold take_op. wkeeps_walk ltac:(flow_leaf). Qed.

Lemma flow_queue_external l ud ctx op cleanup :
  is_send op = false -> keeping (flow l) cleanup -> keeping (flow l) (queue_external ud ctx op cleanup).
Proof.
  intros Hs Hc. unfold queue_external, add_op.
  wkeeps_walk ltac:(first [flow_leaf | apply flow_push; assumption | apply flow_take_op | assumption | apply flow_reply]).
Qed.

(** *** Work that is stored *)

Lemma flow_collect l fd ops : hoare (flow (l ++ [(fd, sqe_blueprints ops)])) (collect fd ops) (fun work => flow (l ++ work)).
Proof.
  eapply (whoare_bind _ _ _ (fun _ => flow (l ++ [(fd, sqe_blueprints ops)]))).
  - destruct (initiate_close_due_to_error ops); [apply flow_needs_close|by apply whoare_ret].
  - intros _. apply whoare_ret. intros w Hf. case_bool_decide as E; [|done].
    rewrite E in Hf. by apply (flow_drop_empty l [] fd).
Qed.

Lemma flow_collect_call l fd ud m : hoare (flow l) (collect_call env fd ud m) (fun work => flow (l ++ work)).
Proof.
  eapply whoare_bind; [apply flow_call|]. intros [ops|]; [apply flow_collect|by apply whoare_ret].
Qed.

(** A batch goes to the map unless it is empty. *)
Lemma flow_store l fd bps :
  hoare (flow ((fd, bps) :: l)) (if bool_decide (bps = []) then mret tt else push_batch fd bps) (fun _ => flow l).
Proof.
  case_bool_decide as E; [|apply flow_push_batch]. apply whoare_ret. intros w Hf. rewrite E in Hf.
  by apply (flow_drop_empty [] l fd).
Qed.

Lemma flow_push_initial fd ops : hoare (flow [(fd, sqe_blueprints ops)]) (push_initial fd ops) (fun _ => flow []).
Proof.
  eapply (whoare_bind _ _ _ (fun _ => flow [])); [apply flow_store|]. intros _.
  destruct (initiate_close_due_to_error ops); [apply flow_needs_close|by apply whoare_ret].
Qed.

Lemma flow_register ud fd factory_id config is_server tx rx name :
  keeping (flow []) (register_external_fd env ud fd factory_id config is_server tx rx name).
Proof.
  unfold register_external_fd, add_op. do 2 (apply wkeeps_bind; [flow_leaf|intros _]).
  eapply whoare_bind; [apply flow_create|]. cbn [app]. intros [e|ops].
  - to_keeps. wkeeps_walk ltac:(first [flow_leaf | apply flow_take_op | apply flow_reply]).
  - eapply (whoare_bind _ _ _ (fun _ => flow [])); [apply flow_push_initial|]. intros _. to_keeps.
    wkeeps_walk ltac:(first [apply flow_take_op | apply flow_reply]).
Qed.

Lemma flow_request r : keeping (flow []) (process_external_op_request env r).
Proof.
  unfold process_external_op_request, add_op.
  wkeeps_walk ltac:(first [flow_leaf | apply flow_reply | apply flow_needs_close | apply flow_register
    | apply flow_queue_external; [done|first [apply flow_close_fd | by apply whoare_ret]]]).
Qed.

(** *** Completions *)

Lemma flow_connect_completed l ud ctx :
  hoare (flow l) (connect_completed env ud ctx) (fun r => flow (l ++ r.2)).
Proof.
  eapply (whoare_bind _ _ _ (fun _ => flow l)); [by apply whoare_expect|]. intros fd.
  destruct (default _ _) as [peer_addr local_addr].
  destruct (protocol_handler_factory_id ctx) as [factory_id|]; [|apply whoare_ret; intros w Hf; by rewrite app_nil_r].
  eapply (whoare_bind _ _ _ (fun _ => flow l)); [by apply whoare_expect|]. intros config.
  eapply whoare_bind; [apply flow_create|]. intros [e|ops].
  - eapply (whoare_bind _ _ _ (fun _ => flow (l ++ []))); [apply flow_close_fd|]. intros _. by apply whoare_ret.
  - eapply whoare_bind; [apply flow_collect|]. intros work. by apply whoare_ret.
Qed.

Lemma flow_external_completed l ud res ctx :
  hoare (flow l) (external_completed env ud res ctx) (fun work => flow (l ++ work)).
Proof.
  eapply (whoare_bind _ _ _ (fun r => flow (l ++ r.2))).
  - assert (forall c : UringOpCompletion, hoare (flow l) (mret (c, [])) (fun r => flow (l ++ r.2))) as Hr.
    { intros c. apply whoare_ret. intros w Hf. by rewrite app_nil_r. }
    destruct (res <? 0).
    + eapply (whoare_bind _ _ _ (fun _ => flow l)); [|intros _; apply Hr].
      destruct (fd_created_for_connect_op ctx); [|by apply whoare_ret].
      case_bool_decide; [apply flow_close_fd|by apply whoare_ret].
    + case_bool_decide; [apply flow_connect_completed|]. do 2 (case_bool_decide; [apply Hr|]). apply Hr.
  - intros [completion work]. eapply (whoare_bind _ _ _ (fun _ => flow (l ++ work))); [apply flow_reply|].
    intros _. by apply whoare_ret.
Qed.

(** No work is generated. *)
Lemma flow_no_work {A} l (m : W H A) (a : list (Z * list HandlerSqeBlueprint)) :
  keeping (flow l) m -> a = [] -> hoare (flow l) (m;; mret a) (fun work => flow (l ++ work)).
Proof.
  intros Hm ->. eapply (whoare_bind _ _ _ (fun _ => flow l)); [exact Hm|]. intros _. apply whoare_ret.
  intros w Hf. by rewrite app_nil_r.
Qed.

Lemma flow_none l : hoare (flow l) (mret []) (fun work => flow (l ++ work)).
Proof. apply whoare_ret. intros w Hf. by rewrite app_nil_r. Qed.

Lemma flow_delegate l d c :
  hoare (flow l) (delegate env d c) (fun r w => flow (l ++ r.2) w /\ (r.1.1 = false -> r.2 = [])).
Proof.
  assert (forall b1 b2 : bool, hoare (flow l) (mret (b1, b2, [])) (fun r w => flow (l ++ r.2) w /\ (r.1.1 = false -> r.2 = []))) as Hn.
  { intros b1 b2. apply whoare_ret. intros w Hf. by rewrite app_nil_r. }
  apply whoare_read. intros w0. destruct (handlers w0 !! op_fd d) as [h|]; [|apply Hn].
  apply (whoare_bind (flow l) _ _ (fun _ => flow l)); [by apply whoare_expect|]. intros _.
  eapply (whoare_bind _ _ _ (fun _ => flow l)); [by apply whoare_expect|]. intros [[h' events] r].
  eapply (whoare_bind _ _ _ (fun _ => flow l)).
  { apply whoare_modify. intros w Hf. eapply flow_frame; [exact Hf|reflexivity|reflexivity| |].
    - intros fd. apply asked_upstream.
    - intros fd. apply queued_upstream. }
  intros _. destruct r as [[[ops cleanup]|e|]|]; [| |apply whoare_panic|apply Hn].
  - eapply (whoare_bind _ _ _ (fun _ => flow (l ++ [(op_fd d, sqe_blueprints ops)]))).
    { apply whoare_modify. intros w Hf. by apply (flow_asked l w _ (op_fd d) []). }
    intros _. eapply whoare_bind; [apply flow_collect|]. intros work.
    eapply (whoare_bind _ _ _ (fun _ => flow (l ++ work))); [|intros _; by apply whoare_ret].
    destruct cleanup; [|by apply whoare_ret]. unfold take_op_details. to_keeps. flow_leaf.
  - eapply (whoare_bind _ _ _ (fun _ => flow l)); [apply flow_needs_close|]. intros _.
    eapply (whoare_bind _ _ _ (fun _ => flow l)); [|intros _; apply Hn]. unfold take_op_details. to_keeps. flow_leaf.
Qed.

Lemma flow_accept_completed l shutting_down fd res :
  hoare (flow l) (accept_completed env shutting_down fd res) (fun work => flow (l ++ work)).
Proof.
  unfold accept_completed. destruct (res <? 0); [apply flow_none|].
  apply whoare_read. intros w0. eapply (whoare_bind _ _ _ (fun work => flow (l ++ work))).
  - destruct (listener_metadata w0 !! fd) as [[factory_id config]|];
      [|apply flow_no_work; [apply flow_close_fd|done]].
    eapply whoare_bind; [apply flow_create|]. intros [e|ops]; [|apply flow_collect].
    rewrite app_nil_r. apply flow_no_work; [apply flow_close_fd|done].
  - intros work. eapply (whoare_bind _ _ _ (fun _ => flow (l ++ work))); [|intros _; by apply whoare_ret].
    to_keeps. wkeeps_walk ltac:(first [apply flow_queue_op; done | apply flow_needs_close]).
Qed.

Lemma flow_acknowledge l fuel fd : keeping (flow l) (acknowledge_shutdowns fuel fd).
Proof.
  induction fuel as [|fuel IH]; cbn [acknowledge_shutdowns];
    wkeeps_walk ltac:(first [apply flow_take_op | apply flow_reply | apply IH]).
Qed.

Lemma flow_close_completed l fd res : hoare (flow l) (close_completed env fd res) (fun work => flow (l ++ work)).
Proof.
  unfold close_completed. destruct (res <? 0); [apply flow_none|].
  repeat match goal with
    | |- whoare _ (get ≫= _) _ => apply whoare_read; intros ?
    | |- whoare _ (_ ≫= _) _ => apply (whoare_bind _ _ _ (fun _ => flow l)); [to_keeps|intros _]
    | |- whoare _ (mret []) _ => apply flow_none
    end; wkeeps_walk ltac:(first [flow_leaf | apply flow_acknowledge]).
Qed.

Lemma flow_send_completed l d ud res : hoare (flow l) (send_completed env d ud res) (fun work => flow (l ++ work)).
Proof.
  unfold send_completed. apply (whoare_bind _ _ _ (fun _ => flow l)); [to_keeps; wkeeps_walk ltac:(flow_leaf)|]. intros _.
  destruct (payload d) as [|? [] []| |]; (destruct (_ =? _); [apply flow_collect_call|apply flow_none]).
Qed.

Lemma flow_read_completed l d c : hoare (flow l) (read_completed env d c) (fun work => flow (l ++ work)).
Proof.
  apply whoare_read. intros w0. destruct (buffer_select (cqe c)) as [bid|]; [|apply flow_collect_call].
  destruct (handlers w0 !! op_fd d); [|apply flow_collect_call]. destruct (_ && _); [|apply flow_collect_call].
  destruct (_ ≫= _); [apply flow_collect_call|].
  apply (whoare_bind _ _ _ (fun _ => flow (l ++ [(op_fd d, [])])));
    [|intros _; apply (flow_collect l (op_fd d) (mkOps [] true))].
  eapply whoare_conseq; [apply (flow_needs_close (l ++ [(op_fd d, [])]))| |done].
  intros w. apply flow_local. intros fd. rewrite local_app, local_cons. by destruct (_ =? fd); cbn; rewrite app_nil_r.
Qed.

Lemma flow_internal_completed l shutting_down c :
  hoare (flow l) (internal_completed env shutting_down c) (fun work => flow (l ++ work)).
Proof.
  apply whoare_read. intros w0. destruct (_ !! cqe_user_data (cqe c)) as [d|]; [|apply flow_none].
  apply (whoare_bind _ _ _ (fun r w => flow (l ++ r.2) w /\ (r.1.1 = false -> r.2 = []))).
  - case_bool_decide; [apply flow_delegate|]. apply whoare_ret. intros w Hf. by rewrite app_nil_r.
  - intros [[delegated goes_on] work]. cbn [fst snd].
    destruct (_ || delegated) eqn:E; [apply whoare_ret; by intros w [Hf _]|].
    apply orb_false_iff in E as [_ ->]. apply (whoare_bind _ _ _ (fun _ => flow l)).
    + apply whoare_modify. intros w [Hf Hw]. rewrite Hw, app_nil_r in Hf by done. by eapply flow_same.
    + intros _. unfold final_processing. destruct (op_type d); first [apply flow_accept_completed
        | apply flow_close_completed | apply flow_send_completed | apply flow_read_completed | apply flow_none].
Qed.

Lemma flow_process_cqe l shutting_down c : hoare (flow l) (process_cqe env shutting_down c) (fun work => flow (l ++ work)).
Proof.
  apply whoare_read. intros w0. destruct (Poller.handle_cqe_if_matches _ _ _ _) as [[poller t] handled].
  apply (whoare_bind _ _ _ (fun _ => flow l)); [to_keeps; flow_leaf|]. intros _. destruct handled.
  - apply flow_no_work; [|done]. unfold take_op_details. flow_leaf.
  - apply (whoare_bind _ _ _ (fun _ => flow l)); [apply flow_take_op|].
    intros [ctx|]; [apply flow_external_completed|apply flow_internal_completed].
Qed.

Lemma flow_process_all_cqes l shutting_down cqes :
  hoare (flow l) (process_all_cqes env shutting_down cqes) (fun work => flow (l ++ work)).
Proof.
  revert l. induction cqes as [|c cqes IH]; intros l; cbn [process_all_cqes]; [apply flow_none|].
  eapply whoare_bind; [apply flow_process_cqe|]. intros work. eapply whoare_bind; [apply IH|]. intros rest.
  apply whoare_ret. intros w. by rewrite app_assoc.
Qed.

(** *** Blueprints

    While the work of a descriptor is out of the map, nothing is pending for it. *)

Definition out (fd : Z) (l : list (Z * list HandlerSqeBlueprint)) (w : UringWorker H) : Prop :=
  work_map w !! fd = None /\ flow l w.

(** The send an entry performs for a descriptor. *)
Definition sending (fd : Z) (op : SqeOp) : Prop :=
  match op with OpSend f _ _ _ | OpSendZc f _ _ _ => f = fd | _ => False end.

Lemma queued_sending fd op ud octets g :
  sending fd op -> queued g [Queued (mkSqe op ud) octets] = if fd =? g then [octets] else [].
Proof. destruct op; cbn; try done; intros ->; unfold queued; cbn; by destruct (_ =? g). Qed.

(** Its octets are the first of those to be sent. *)
Lemma out_send fd ty p op data bp bps l :
  sending fd op -> send_of bp = [clip data] ->
  hoare (fun w => out fd ((fd, bp :: bps) :: l) w /\ octets_of (send_buffer_pool w) op = clip data)
    (queue_op fd ty p op)
    (fun r => match r with Some _ => out fd ((fd, bps) :: l) | None => out fd ((fd, bp :: bps) :: l) end).
Proof.
  intros Hs Hb w [[Hm Hf] Ho]. unfold queue_op, new_op_id, push, mbind, W_bind, get, modify. cbn -[is_full octets_of].
  destruct (is_full _); cbn -[octets_of]; [by split|]. split; [done|]. intros g. specialize (Hf g).
  cbn -[octets_of]. rewrite asked_app, queued_app, Hf, (queued_sending fd) by done. rewrite Ho.
  unfold pending. cbn. rewrite !local_cons. unfold sends. cbn [fmap list_fmap concat]. rewrite Hb.
  destruct (Z.eqb_spec fd g) as [<-|Hn]; [|by rewrite !app_nil_r].
  rewrite Hm. cbn. by rewrite app_nil_r, <- !app_assoc.
Qed.

(** Blueprints that send nothing. *)
Lemma out_other fd bp bps l w : send_of bp = [] -> out fd ((fd, bp :: bps) :: l) w -> out fd ((fd, bps) :: l) w.
Proof.
  intros Hs [Hm Hf]. split; [done|]. revert Hf. apply flow_local. intros g. rewrite !local_cons. unfold sends. cbn.
  by rewrite Hs.
Qed.

Lemma out_keeps fd l {A} (m : W H A) :
  keeping (flow l) m -> keeping (fun w => work_map w !! fd = None) m -> keeping (out fd l) m.
Proof.
  intros Hf Hm w [H1 H2]. specialize (Hf w H2). specialize (Hm w H1). cbn in Hm. destruct (m w) as [[a w']|]; [|done].
  by split.
Qed.

Ltac work_leaf := idtac;
  match goal with |- wkeeps (fun w => work_map w !! _ = None) (modify _) => apply whoare_modify; intros; assumption end.

Lemma out_queue_op fd l ty p op : is_send op = false -> keeping (out fd l) (queue_op fd ty p op).
Proof.
  intros Hs. apply out_keeps; [by apply flow_queue_op|]. unfold queue_op, new_op_id, take_op_details, push.
  wkeeps_walk ltac:(work_leaf).
Qed.

Lemma out_inform fd l ud is_cancel target : keeping (out fd l) (inform_handler fd ud is_cancel target).
Proof. apply out_keeps; unfold inform_handler; [flow_leaf|work_leaf]. Qed.

(** A buffer holds what was copied into it. *)
Lemma acquire_octets data (p p' : SendBufferPool) id len fd flags :
  Pool.acquire_and_prep_buffer data p = Some (p', Some (id, len)) ->
  octets_of (Some p') (OpSendZc fd id len flags) = clip data.
Proof.
  unfold Pool.acquire_and_prep_buffer. do 2 (case_bool_decide; [done|]).
  destruct (free_ids p) as [|i rest]; [done|]. destruct (pool p !! Z.to_nat i) as [slot|] eqn:E; [|done]. cbn.
  destruct (_ <? _); [done|]. intros [= <- <- <-]. cbn. rewrite list_lookup_insert_eq by (by eapply lookup_lt_Some).
  cbn. unfold clip. rewrite take_app_le; [done|]. unfold wrapU, zlen.
  pose proof (Z.mod_le (Z.of_nat (length data)) (2 ^ 32)). lia.
Qed.

Definition acquired fd l data (r : option (Z * Z)) (w : UringWorker H) : Prop :=
  out fd l w /\
  match r with
  | Some (id, len) => forall flags, octets_of (send_buffer_pool w) (OpSendZc fd id len flags) = clip data
  | None => True
  end.

Lemma out_acquire fd l data : hoare (out fd l) (acquire_buffer data) (acquired fd l data).
Proof.
  apply whoare_get. intros w0. destruct (if cfg_send_zerocopy_enabled w0 then _ else _) as [p|];
    [|apply whoare_ret; by intros w [_ Ho]].
  apply (whoare_bind _ _ _ (fun r w => Pool.acquire_and_prep_buffer data p = Some r /\ out fd l w));
    [apply whoare_expect; by intros a w E [_ Ho]|]. intros [p' r].
  apply (whoare_bind _ _ _ (fun _ => acquired fd l data r)); [|intros _; by apply whoare_ret].
  apply whoare_modify. intros w [E [Hm Hf]]. split; [split; [done|by eapply flow_same]|].
  destruct r as [[id len]|]; [|done]. intros flags. by apply (acquire_octets data p).
Qed.

Definition left_of (fd : Z) (bp : HandlerSqeBlueprint) bps l (ok : bool) : UringWorker H -> Prop :=
  if ok then out fd ((fd, bps) :: l) else out fd ((fd, bp :: bps) :: l).

Lemma out_queued fd bp bps l (m : W H (option Z)) P :
  hoare P m (fun r => match r with Some _ => out fd ((fd, bps) :: l) | None => out fd ((fd, bp :: bps) :: l) end) ->
  hoare P (r ← m; mret (bool_decide (is_Some r))) (left_of fd bp bps l).
Proof. intros Hm. eapply whoare_bind; [exact Hm|]. intros [ud|]; by apply whoare_ret. Qed.

(** A blueprint that sends nothing. *)
Lemma out_quiet fd bp bps l ty p op :
  send_of bp = [] -> is_send op = false ->
  hoare (out fd ((fd, bp :: bps) :: l)) (queue_op fd ty p op)
    (fun r => match r with Some _ => out fd ((fd, bps) :: l) | None => out fd ((fd, bp :: bps) :: l) end).
Proof.
  intros Hb Ho. eapply whoare_conseq; [by apply (out_queue_op fd ((fd, bp :: bps) :: l))|done|].
  intros [ud|] w; [by apply out_other|done].
Qed.

Lemma out_name fd l ud unknown : keeping (out fd l) (app_op_name_of ud unknown).
Proof. unfold app_op_name_of. wkeeps_walk ltac:(fail). Qed.

Lemma out_normal_send fd bp bps l data flags ud name :
  send_of bp = [clip data] ->
  hoare (out fd ((fd, bp :: bps) :: l))
    (r ← queue_op fd Send (SendBuffer data (Some ud) (Some name)) (OpSend fd data (wrapU 32 (zlen data)) flags);
     mret (bool_decide (is_Some r))) (left_of fd bp bps l).
Proof.
  intros Hb. apply out_queued. eapply whoare_conseq; [by apply (out_send fd _ _ _ data)| |intros a w Ho; exact Ho].
  intros w Ho. by split.
Qed.

Lemma out_blueprint fd bp bps l : hoare (out fd ((fd, bp :: bps) :: l)) (process_blueprint fd bp) (left_of fd bp bps l).
Proof.
  destruct bp as [data flags ud|data flags ud| |fd' bgid|fd' target|enable]; cbn [process_blueprint].
  - keep_then; [apply out_name|]. by apply out_normal_send.
  - eapply whoare_bind; [apply out_acquire|]. intros [[id len]|].
    + apply (whoare_bind _ _ _ (fun _ w => out fd ((fd, RequestSendZeroCopy data flags ud :: bps) :: l) w /\
        octets_of (send_buffer_pool w) (OpSendZc fd id len flags) = clip data)).
      * apply whoare_read. intros w0. apply whoare_ret. intros w [Ho He]. by split.
      * intros name. apply out_queued. by apply out_send.
    + eapply (whoare_conseq (out fd _)); [|by intros w [Ho _]|intros a w Ho; exact Ho].
      keep_then; [apply out_name|]. by apply out_normal_send.
  - by apply out_queued, out_quiet.
  - destruct (fd' =? fd); [|by apply whoare_ret; intros w; apply out_other].
    eapply whoare_bind; [by apply out_quiet|]. intros [ud|]; [|by apply whoare_ret].
    keep_then; [apply out_inform|]. by apply whoare_ret.
  - destruct (fd' =? fd); [|by apply whoare_ret; intros w; apply out_other].
    eapply whoare_bind; [by apply out_quiet|]. intros [ud|]; [|by apply whoare_ret].
    keep_then; [apply out_inform|]. by apply whoare_ret.
  - by apply out_queued, out_quiet.
Qed.

Lemma out_blueprints fd bps l :
  hoare (out fd ((fd, bps) :: l)) (process_handler_blueprints fd bps)
    (fun r => out fd (match r with Some rest => (fd, rest) :: l | None => l end)).
Proof.
  induction bps as [|bp bps IH]; cbn [process_handler_blueprints].
  - apply whoare_ret. intros w [Hm Hf]. split; [done|]. by apply (flow_drop_empty [] l fd).
  - apply whoare_read. intros w0. destruct (is_full w0); [by apply whoare_ret|].
    eapply whoare_bind; [apply out_blueprint|]. intros [|]; [apply IH|by apply whoare_ret].
Qed.

(** *** The work map *)

(** Batches of a descriptor as work. *)
Abbreviation own fd batches := ((fun b => (fd, b)) <$> batches).

Lemma out_submit_batches fd batches processed :
  hoare (out fd (own fd batches)) (submit_batches fd batches processed) (fun r => out fd (own fd r.1.1)).
Proof.
  revert processed. induction batches as [|batch batches IH]; intros processed; cbn [submit_batches]; [by apply whoare_ret|].
  apply whoare_read. intros w0. destruct (_ || _); [by apply whoare_ret|].
  eapply whoare_bind; [apply out_blueprints|]. intros [rest|]; [by apply whoare_ret|apply IH].
Qed.

Lemma out_call fd l ud m : hoare (out fd l) (call env fd ud m) (fun r => out fd (l ++ work_of fd r)).
Proof.
  assert (keeping (fun w => work_map w !! fd = None) (call env fd ud m)) as Hm
    by (unfold call; wkeeps_walk ltac:(work_leaf)).
  intros w [H1 H2]. pose proof (flow_call l fd ud m w H2) as Hc. specialize (Hm w H1). cbn in Hm.
  destruct (call env fd ud m w) as [[a w']|]; [by split|done].
Qed.

Lemma out_convert fd msgs batches :
  hoare (out fd (own fd batches)) (convert_app_data env fd msgs batches) (fun bs => out fd (own fd bs)).
Proof.
  revert batches. induction msgs as [|m msgs IH]; intros batches; cbn [convert_app_data]; [by apply whoare_ret|].
  eapply whoare_bind; [apply out_call|]. intros r. eapply whoare_conseq; [apply IH| |done].
  intros w [Hm Hf]. split; [done|]. destruct r as [ops|]; cbn [work_of] in Hf; [|by rewrite app_nil_r in Hf].
  case_bool_decide as E; [rewrite E in Hf; rewrite <- (app_nil_r (own fd batches)); by apply (flow_drop_empty _ [] fd)|].
  by rewrite fmap_app.
Qed.

(** The work of a descriptor leaves the map, and comes back. *)
Lemma flow_take_work fd w :
  flow [] w -> out fd (own fd (atomic_batches (default no_work (work_map w !! fd))))
                 (w <| work_map := delete fd (work_map w) |>).
Proof.
  intros Hf. split; [apply lookup_delete_eq|]. intros g. rewrite local_batches. specialize (Hf g). unfold pending in *.
  rewrite local_nil, app_nil_r in Hf. cbn. rewrite Hf. destruct (Z.eqb_spec fd g) as [->|Hn].
  - by rewrite lookup_delete_eq.
  - by rewrite lookup_delete_ne, app_nil_r by done.
Qed.

Lemma flow_put_work fd batches msgs w :
  out fd (own fd batches) w -> flow [] (w <| work_map := <[fd := mkWork batches msgs]> (work_map w) |>).
Proof.
  intros [Hm Hf] g. specialize (Hf g). rewrite local_batches in Hf. unfold pending in *. cbn. rewrite Hf.
  destruct (Z.eqb_spec fd g) as [->|Hn].
  - rewrite lookup_insert_eq, Hm. cbn. by rewrite app_nil_r.
  - by rewrite lookup_insert_ne by done.
Qed.

Lemma flow_work_map fds processed : keeping (flow []) (process_work_map env fds processed).
Proof.
  revert processed. induction fds as [|fd fds IH]; intros processed; cbn [process_work_map]; [by apply whoare_ret|].
  apply whoare_get. intros w0. destruct (_ || _); [apply whoare_ret; by intros w [_ Hf]|].
  set (work := default no_work (work_map w0 !! fd)).
  apply (whoare_bind _ _ _ (fun _ => out fd (own fd (atomic_batches work)))).
  { apply whoare_modify. intros w [-> Hf]. by apply flow_take_work. }
  intros _. apply (whoare_bind _ _ _ (fun r => out fd (own fd r.1))).
  { case_bool_decide; [|by apply whoare_ret]. eapply whoare_bind; [apply out_convert|]. intros bs. by apply whoare_ret. }
  intros [batches msgs]. eapply whoare_bind; [apply out_submit_batches|]. intros [[rest processed'] stop].
  apply (whoare_bind _ _ _ (fun _ => flow [])).
  { case_bool_decide as E.
    - apply whoare_ret. intros w [_ Hf]. by destruct E as [_ ->].
    - apply whoare_modify. intros w. apply flow_put_work. }
  intros _. destruct stop; [by apply whoare_ret|apply IH].
Qed.

(** *** The loop *)

Lemma flow_drain : keeping (flow []) (drain_app_data env).
Proof.
  unfold drain_app_data. wkeeps_walk ltac:(fail). apply whoare_modify. intros w Hf g. specialize (Hf g).
  unfold pending in *. cbn. rewrite Hf. destruct (decide (a = g)) as [->|Hn].
  - by rewrite lookup_insert_eq.
  - by rewrite lookup_insert_ne.
Qed.

(** The work of a list of operations. *)
Abbreviation asked_for ops_list := ((fun x : Z * HandlerIoOps => (x.1, sqe_blueprints x.2)) <$> ops_list).

Lemma flow_prepare fds l : hoare (flow l) (prepare_handlers env fds) (fun r => flow (l ++ asked_for r)).
Proof.
  revert l. induction fds as [|fd fds IH]; intros l; cbn [prepare_handlers].
  { apply whoare_ret. intros w Hf. by rewrite app_nil_r. }
  eapply whoare_bind; [apply flow_call|]. intros r. eapply whoare_bind; [apply IH|]. intros rest. apply whoare_ret.
  intros w Hf. rewrite <- app_assoc in Hf. destruct r as [ops|]; [|done]. cbn [work_of] in Hf.
  destruct (_ || _) eqn:E; [done|]. apply orb_false_iff in E as [E _].
  apply negb_false_iff, bool_decide_eq_true in E. rewrite E in Hf. by apply flow_drop_empty in Hf.
Qed.

Lemma flow_poll : keeping (flow []) (poll_handlers env).
Proof.
  apply (whoare_bind _ _ _ (fun r => flow (asked_for r))).
  { apply whoare_read. intros w0. apply (flow_prepare _ []). }
  intros r. apply (whoare_bind _ _ _ (fun _ => flow [])); [|intros _; by apply whoare_ret].
  refine (whoare_for_each (H := H) (fun ops => flow (asked_for ops)) _ _ r). intros [fd ops] rest.
  apply (whoare_bind _ _ _ (fun _ => flow (asked_for rest))); [apply flow_store|]. intros _. to_keeps.
  wkeeps_walk ltac:(apply flow_needs_close).
Qed.

Lemma flow_close_pass : keeping (flow []) (close_pass env).
Proof.
  apply wkeeps_get. intros w0. apply wkeeps_bind; [flow_leaf|]. intros _.
  apply wkeeps_bind; [|intros _; by apply whoare_ret]. apply wkeeps_for_each. intros fd.
  eapply whoare_bind; [apply flow_call|]. intros [ops|]; [|by apply whoare_ret]. apply flow_store.
Qed.

Lemma flow_ensure_reads fds : keeping (flow []) (ensure_reads fds).
Proof.
  induction fds as [|fd fds IH]; cbn [ensure_reads]; [by apply whoare_ret|].
  wkeeps_walk ltac:(first [apply IH | apply flow_queue_op; done]).
Qed.

Lemma flow_gather : keeping (flow []) (gather_work env).
Proof.
  unfold gather_work.
  wkeeps_walk ltac:(first [apply flow_request | apply flow_drain | apply flow_poll | apply flow_close_pass]).
Qed.

Lemma flow_running : keeping (flow []) (running_turn env).
Proof.
  unfold running_turn, submit_and_idle, submitted.
  apply wkeeps_bind; [apply flow_gather|]. intros available.
  apply wkeeps_get. intros w0. apply wkeeps_bind; [apply flow_work_map|]. intros _.
  apply wkeeps_get. intros w1. apply wkeeps_bind; [apply flow_ensure_reads|]. intros _.
  apply wkeeps_bind; [wkeeps_walk ltac:(flow_leaf)|]. intros [count|e|]; [|flow_leaf|apply whoare_panic].
  apply (whoare_bind _ _ _ (fun work => flow work)); [apply flow_process_all_cqes|]. intros work.
  apply (whoare_bind _ _ _ (fun _ => flow [])); [|intros _; to_keeps; flow_leaf].
  refine (whoare_for_each (H := H) (fun l => flow l) _ _ work). intros [fd bps] l. apply flow_push_batch.
Qed.

(** Draining drops what handlers ask for. *)
Lemma flow_draining l : hoare (flow l) (draining_turn env) (fun _ w => exists l', flow l' w).
Proof.
  eapply whoare_bind; [apply flow_process_all_cqes|]. intros work.
  eapply (whoare_conseq _ _ _ (fun _ => flow (l ++ work))); [|done|by eauto]. to_keeps.
  unfold submitted. wkeeps_walk ltac:(flow_leaf).
Qed.

Lemma flow_cancel l uds : keeping (flow l) (cancel_ops uds).
Proof.
  induction uds as [|ud uds IH]; cbn [cancel_ops]; wkeeps_walk ltac:(first [apply IH | apply flow_push; done]).
Qed.

Lemma flow_to_draining l : keeping (flow l) (transition_to_draining env).
Proof.
  unfold transition_to_draining, submitted. wkeeps_walk ltac:(first [flow_leaf | apply flow_cancel]).
Qed.

(** Completions do not change the state of the worker. *)
Ltac state_leaf := idtac;
  match goal with
  | |- wkeeps (fun w => state w = _) (modify _) => apply whoare_modify; intros; assumption
  | |- wkeeps (fun w => state w = _) (emit _) => apply whoare_modify; intros; assumption
  end.

Lemma state_acknowledge s fuel fd : keeping (fun w => state w = s) (acknowledge_shutdowns fuel fd).
Proof.
  induction fuel as [|fuel IH]; cbn [acknowledge_shutdowns]; unfold take_op, reply;
    wkeeps_walk ltac:(first [state_leaf | apply IH]).
Qed.

Lemma state_all_cqes s shutting_down cqes : keeping (fun w => state w = s) (process_all_cqes env shutting_down cqes).
Proof.
  induction cqes as [|c cqes IH]; cbn [process_all_cqes]; [by apply whoare_ret|].
  unfold process_cqe, external_completed, connect_completed, internal_completed, final_processing, delegate,
    accept_completed, close_completed, send_completed, read_completed, collect_call, call, create_and_add_handler,
    collect, queue_op, new_op_id, push, take_op_details, take_op, needs_close, close_fd, reply.
  wkeeps_walk ltac:(first [state_leaf | apply state_acknowledge | apply IH]).
Qed.

(** Sends that are lost are so only when the worker no longer runs. *)
Definition flows (w : UringWorker H) : Prop := exists l, flow l w /\ (state w = Running -> l = []).

Lemma flows_to_draining : hoare (flow []) (transition_to_draining env) (fun _ => flows).
Proof.
  eapply whoare_conseq; [apply (flow_to_draining [])|done|]. intros [] w Hf. by exists [].
Qed.

Lemma flows_draining l : hoare (fun w => flow l w /\ state w = Draining) (draining_turn env) (fun _ => flows).
Proof.
  apply (whoare_bind _ _ _ (fun work w => flow (l ++ work) w /\ state w = Draining)).
  - intros w [Hf Hs]. pose proof (flow_process_all_cqes l true (completions env) w Hf) as H1.
    pose proof (state_all_cqes Draining true (completions env) w Hs) as H2. cbn in H2.
    destruct (process_all_cqes _ _ _ w) as [[work w']|]; [by split|done].
  - intros work. apply (whoare_conseq (fun w => flow (l ++ work) w /\ state w <> Running) _ _
      (fun _ w => flow (l ++ work) w /\ state w <> Running)).
    + to_keeps. unfold submitted. wkeeps_walk ltac:(apply whoare_modify; intros ? [? ?];
        (split; [by eapply flow_same|done])).
    + intros w [Hf Hs]. split; [done|]. by rewrite Hs.
    + intros [] w [Hf Hs]. exists (l ++ work). split; [done|]. by intros ?%Hs.
Qed.

Lemma flows_turn : keeping flows (turn env).
Proof.
  intros w (l & Hf & Hl). unfold turn, mbind, W_bind, get. destruct (state w) eqn:E.
  - rewrite Hl in Hf by done. destruct (op_rx_closed env); [by apply flows_to_draining|].
    pose proof (flow_running w Hf) as Hr. destruct (running_turn env w) as [[[] w']|]; [by exists []|done].
  - by apply (flows_draining l).
  - exists l. split; [by eapply flow_same|done].
  - exists l. split; [|by cbn; rewrite E].
    eapply flow_frame; [exact Hf|reflexivity|reflexivity|intros fd; by induction (map_to_list _)..].
Qed.

End Procedures.

(** ** The theorem *)

(** C10: the io_uring worker submits what handlers ask for in order.  Whatever requests,
    completions and messages arrive, however full the submission queue is and whichever
    descriptors the budget of a turn leaves out: for every descriptor the octets of the
    sends that handlers have asked for are, in this order, those queued for the kernel,
    those waiting in the work map, and those dropped; and nothing is dropped while the
    worker is running. *)
Theorem worker_keeps_order (H : Type) (HC : UringConnectionHandler H) (config : UringConfig) (sq_entries : Z)
  (fs : gmap string (Factory H)) (event_fd : Z) (registered ring_built : bool) (w : UringWorker H)
  (rs : list UringOpRequest) (fd : Z)
  (Hrun : rtc worker_step (spawn_with_config config sq_entries fs event_fd registered ring_built, []) (w, rs)) :
  exists dropped, asked fd (trace w) = queued fd (trace w) ++ pending w fd ++ dropped /\
    (state w = Running -> dropped = []).
Proof.
  assert (flows w) as (l & Hf & Hl).
  { refine (rtc_invariant worker_step (fun x => flows x.1) _ (w, rs) Hrun _ _).
    - by exists [].
    - intros [w1 rs1] [w2 rs2] Hi Hs. inv Hs as [env ???? E|].
      + pose proof (flows_turn env w1 Hi) as Ht. by rewrite E in Ht.
      + destruct Hi as (l & Hf & Hl). exists l. split; [by eapply flow_same|done]. }
  exists (local l fd). split; [apply Hf|]. intros E. by rewrite (Hl E).
Qed.
