(* ===== verification/WorkerBuffers.v ===== *)
(** Buffers of the io_uring worker that the kernel reads from.

    A send without a copy points into a buffer of the pool until the kernel has
    notified the worker.  The theorem: while the operation is in the tracker its
    buffer is not free, belongs to no other operation, and holds the octets that were
    queued. *)

From S2P Require Import Prelude Error Message Options Uring Worker WorkerLogic.
Import Uring(HandlerSqeBlueprint(..), HandlerIoOps(..), sqe_blueprints, initiate_close_due_to_error,
  HandlerUpstreamEvent(..), UringWorkerInterface(..), Cqe(..), cqe_user_data, cqe_result, buffer_select, cqe_more).
Import Worker.

#[local] Set Warnings "-clear-no-such-hyp".

(** ** The pool *)

Record pool_ok (p : SendBufferPool) : Prop := {
  pool_ids : forall i slot, pool p !! i = Some slot -> slot_id slot = Z.of_nat i;
  pool_free : forall id, id ∈ free_ids p -> exists slot, pool p !! Z.to_nat id = Some slot /\ slot_id slot = id;
  pool_distinct : NoDup (free_ids p);
}.

(** A buffer that is in use, with its contents. *)
Definition held (p : SendBufferPool) (id : Z) (slot : SendBufferSlot) : Prop :=
  pool p !! Z.to_nat id = Some slot /\ slot_id slot = id /\ in_kernel_use slot = true /\ id ∉ free_ids p.

Lemma pool_new_ok count capacity : Z.of_nat count <= 65536 -> pool_ok (Pool.new count capacity).
Proof.
  intros Hc. unfold Pool.new. case_bool_decide; [split; cbn; [done|set_solver|constructor]|].
  assert ((fun i => wrapU 16 (Z.of_nat i)) <$> seq 0 count = Z.of_nat <$> seq 0 count) as ->.
  { apply list_fmap_ext. intros i x [-> Hi]%lookup_seq. unfold wrapU. rewrite Z.mod_small; [done|].
    change (2 ^ 16) with 65536. lia. }
  split; cbn [pool free_ids].
  - intros i slot. rewrite !list_lookup_fmap. destruct (seq 0 count !! i) as [j|] eqn:E; [|done].
    apply lookup_seq in E as [-> _]. by intros [= <-].
  - intros id (j & -> & [_ Hj]%elem_of_seq)%list_elem_of_fmap. rewrite Nat2Z.id, !list_lookup_fmap.
    rewrite lookup_seq_lt by lia. cbn. by eexists.
  - apply NoDup_fmap_2; [apply _|apply NoDup_seq].
Qed.

(** Acquiring takes a free buffer, fills it, and leaves the buffers in use alone. *)
Lemma acquire_ok data p p' r :
  pool_ok p -> Pool.acquire_and_prep_buffer data p = Some (p', r) ->
  pool_ok p' /\ (forall id slot, held p id slot -> held p' id slot) /\
  match r with
  | Some (id, len) => id ∈ free_ids p /\ exists slot, held p' id slot
  | None => True
  end.
Proof.
  intros Ho. assert (Some (p, None) = Some (p', r) -> pool_ok p' /\
    (forall id slot, held p id slot -> held p' id slot) /\
    match r with Some (id, len) => id ∈ free_ids p /\ exists slot, held p' id slot | None => True end) as Hnone
    by (intros [= <- <-]; by split_and!).
  unfold Pool.acquire_and_prep_buffer. do 2 (case_bool_decide; [exact Hnone|]).
  destruct (free_ids p) as [|id rest] eqn:E; [exact Hnone|].
  destruct (pool p !! Z.to_nat id) as [slot|] eqn:El; [|done]. cbn. destruct (_ <? _); [exact Hnone|].
  clear Hnone. destruct Ho as [Hi Hf Hd]. rewrite E in Hf, Hd.
  intros [= <- <-]. apply NoDup_cons in Hd as [Hn Hd]. pose proof (lookup_lt_Some _ _ _ El) as Hlt.
  destruct (Hf id) as (slot' & Hs' & Hid); [set_solver|]. rewrite El in Hs'. injection Hs' as <-.
  split; [split; cbn [pool free_ids]|split].
  - intros i s. destruct (decide (i = Z.to_nat id)) as [->|Hne].
    + rewrite list_lookup_insert_eq by done. intros [= <-]. cbn. by apply Hi.
    + rewrite list_lookup_insert_ne by done. apply Hi.
  - intros j Hj. destruct (Hf j) as (s & Hs & Hj'); [set_solver|]. destruct (decide (Z.to_nat j = Z.to_nat id)) as [Ej|Hne].
    + exfalso. rewrite Ej, El in Hs. injection Hs as <-. congruence.
    + rewrite list_lookup_insert_ne by done. by exists s.
  - done.
  - intros j s (Hs & Hj & Hu & Hfree). rewrite E in Hfree. split_and!; [|done|done|cbn; set_solver].
    cbn. rewrite list_lookup_insert_ne; [done|]. intros Ej. rewrite <- Ej, El in Hs. injection Hs as ->.
    apply Hfree. rewrite <- Hj, Hid. set_solver.
  - split; [set_solver|]. eexists. split_and!; cbn; [by apply list_lookup_insert_eq|done|done|done].
Qed.

(** Releasing makes a buffer free, and leaves the others in use alone. *)
Lemma release_ok id p :
  pool_ok p -> (exists slot, held p id slot) ->
  pool_ok (Pool.release_buffer id p) /\
  (forall j slot, j <> id -> held p j slot -> held (Pool.release_buffer id p) j slot).
Proof.
  intros [Hi Hf Hd] (slot & Hs & Hid & Hu & Hn). unfold Pool.release_buffer.
  destruct (list_find _ _) as [[i s]|] eqn:E.
  - apply list_find_Some in E as (Hl & Es & _). rewrite bool_decide_eq_false_2 by done.
    pose proof (lookup_lt_Some _ _ _ Hl) as Hlt. assert (i = Z.to_nat id) as -> by (rewrite <- Es, (Hi i s) by done; lia).
    rewrite Hs in Hl. injection Hl as ->. split; [split; cbn [pool free_ids]|].
    + intros i s'. destruct (decide (i = Z.to_nat id)) as [->|Hne].
      * rewrite list_lookup_insert_eq by done. intros [= <-]. cbn. by apply Hi.
      * rewrite list_lookup_insert_ne by done. apply Hi.
    + intros j [Hj| ->%list_elem_of_singleton]%elem_of_app.
      * destruct (decide (Z.to_nat j = Z.to_nat id)) as [Ej|Hne].
        -- rewrite Ej, list_lookup_insert_eq by done. eexists. split; [done|]. cbn.
           destruct (Hf j Hj) as (s' & Hs' & Hj'). rewrite Ej, Hs in Hs'. injection Hs' as ->. congruence.
        -- rewrite list_lookup_insert_ne by done. by apply Hf.
      * rewrite list_lookup_insert_eq by done. by eexists.
    + apply NoDup_app. split_and!; [done|set_solver|apply NoDup_singleton].
    + intros j s' Hne (Hs' & Hj & Hu' & Hn'). split_and!; [|done|done|cbn; set_solver].
      cbn. rewrite list_lookup_insert_ne; [done|]. intros Ej. rewrite <- Ej, Hs in Hs'. injection Hs' as ->. congruence.
  - apply list_find_None in E. rewrite Forall_lookup in E. by destruct (E _ _ Hs).
Qed.

(** ** The invariant *)

Definition zc_of (d : InternalOpDetails) : option Z :=
  match payload d with SendZeroCopyPayload id _ _ => Some id | _ => None end.

(** The entry of an operation was queued with the octets its buffer holds. *)
Definition sent_from (ud id : Z) (slot : SendBufferSlot) (e : effect) : Prop :=
  exists fd len flags, e = Queued (mkSqe (OpSendZc fd id len flags) ud) (take (Z.to_nat len) (buffer slot)).

Record bufs (t : gmap Z InternalOpDetails) (po : option SendBufferPool) (tr : list effect) : Prop := {
  bufs_pool : forall p, po = Some p -> pool_ok p;
  bufs_used : forall ud d id, t !! ud = Some d -> zc_of d = Some id ->
    exists p slot, po = Some p /\ held p id slot /\ Exists (sent_from ud id slot) tr;
  bufs_unique : forall ud1 ud2 d1 d2 id, t !! ud1 = Some d1 -> t !! ud2 = Some d2 ->
    zc_of d1 = Some id -> zc_of d2 = Some id -> ud1 = ud2;
}.

Lemma bufs_delete t po tr ud : bufs t po tr -> bufs (delete ud t) po tr.
Proof.
  intros [Hp Hu Hq]. split; [done| |].
  - intros ud' d id [_ Hl]%lookup_delete_Some. by apply Hu.
  - intros ud1 ud2 d1 d2 id [_ H1]%lookup_delete_Some [_ H2]%lookup_delete_Some. by apply Hq.
Qed.

Lemma bufs_insert t po tr ud d : zc_of d = None -> bufs t po tr -> bufs (<[ud := d]> t) po tr.
Proof.
  intros Hz [Hp Hu Hq]. split; [done| |].
  - intros ud' d' id [[<- <-]|[_ Hl]]%lookup_insert_Some; [by rewrite Hz|by apply Hu].
  - intros ud1 ud2 d1 d2 id [[<- <-]|[_ H1]]%lookup_insert_Some [[<- <-]|[_ H2]]%lookup_insert_Some; try by rewrite Hz.
    by apply Hq.
Qed.

Lemma bufs_trace t po tr tr' : bufs t po tr -> bufs t po (tr ++ tr').
Proof.
  intros [Hp Hu Hq]. split; [done| |done]. intros ud d id Hl Hz. destruct (Hu ud d id Hl Hz) as (p & slot & ? & ? & He).
  exists p, slot. split_and!; [done..|]. apply Exists_app. by left.
Qed.

(** A buffer is acquired: no operation has it yet. *)
Lemma bufs_acquire t p p' tr data id len :
  bufs t (Some p) tr -> Pool.acquire_and_prep_buffer data p = Some (p', Some (id, len)) ->
  bufs t (Some p') tr /\ (exists slot, held p' id slot) /\ (forall ud d, t !! ud = Some d -> zc_of d <> Some id).
Proof.
  intros [Hp Hu Hq] Ha. destruct (acquire_ok data p p' _ (Hp p eq_refl) Ha) as (Ho & Hk & Hfree & Hh).
  split; [split|split; [done|]].
  - by intros ? [= <-].
  - intros ud d i Hl Hz. destruct (Hu ud d i Hl Hz) as (? & slot & [= <-] & Hs & He). exists p', slot. by auto.
  - done.
  - intros ud d Hl Hz. destruct (Hu ud d id Hl Hz) as (? & slot & [= <-] & (_ & _ & _ & Hn) & _). done.
Qed.

Lemma bufs_acquire_none t p p' tr data :
  bufs t (Some p) tr -> Pool.acquire_and_prep_buffer data p = Some (p', None) -> bufs t (Some p') tr.
Proof.
  intros [Hp Hu Hq] Ha. destruct (acquire_ok data p p' _ (Hp p eq_refl) Ha) as (Ho & Hk & _).
  split; [by intros ? [= <-]| |done].
  intros ud d i Hl Hz. destruct (Hu ud d i Hl Hz) as (? & slot & [= <-] & Hs & He). exists p', slot. by auto.
Qed.

(** Its operation is queued. *)
Lemma bufs_queue t p tr ud d id slot fd len flags :
  bufs t (Some p) tr -> held p id slot -> (forall ud' d', t !! ud' = Some d' -> zc_of d' <> Some id) ->
  zc_of d = Some id ->
  bufs (<[ud := d]> t) (Some p)
    (tr ++ [Queued (mkSqe (OpSendZc fd id len flags) ud) (take (Z.to_nat len) (buffer slot))]).
Proof.
  intros Hb Hh Hn Hz. destruct (bufs_trace _ _ _ [Queued (mkSqe (OpSendZc fd id len flags) ud) (take (Z.to_nat len) (buffer slot))] Hb)
    as [Hp Hu Hq]. split; [done| |].
  - intros ud' d' id' [[<- <-]|[_ Hl]]%lookup_insert_Some Hz'; [|by apply (Hu ud' d')].
    assert (id' = id) as -> by congruence. exists p, slot. split_and!; [done..|]. apply Exists_app. right.
    constructor. by exists fd, len, flags.
  - intros ud1 ud2 d1 d2 id' [[<- <-]|[_ H1]]%lookup_insert_Some [[<- <-]|[_ H2]]%lookup_insert_Some Hz1 Hz2; [done|..].
    + by destruct (Hn ud2 d2 H2); congruence.
    + by destruct (Hn ud1 d1 H1); congruence.
    + by apply (Hq ud1 ud2 d1 d2 id').
Qed.

(** An operation is over and its buffer is released. *)
Lemma bufs_release t po tr ud d id :
  bufs t po tr -> t !! ud = Some d -> zc_of d = Some id -> bufs (delete ud t) (Pool.release_buffer id <$> po) tr.
Proof.
  intros [Hp Hu Hq] Hl Hz. destruct (Hu ud d id Hl Hz) as (p & slot & -> & Hh & _).
  destruct (release_ok id p (Hp p eq_refl)) as [Ho Hk]; [by exists slot|]. split.
  - by intros ? [= <-].
  - intros ud' d' id' [Hne Hl']%lookup_delete_Some Hz'.
    destruct (Hu ud' d' id' Hl' Hz') as (? & slot' & [= <-] & Hh' & He). exists (Pool.release_buffer id p), slot'.
    split_and!; [done| |done]. apply Hk; [|done]. intros ->. apply Hne. by apply (Hq ud ud' d d' id).
  - intros ud1 ud2 d1 d2 id' [_ H1]%lookup_delete_Some [_ H2]%lookup_delete_Some. by apply Hq.
Qed.

Section Walk.
Context {H : Type} `{HC : UringConnectionHandler H}.
Variable env : Round.
Implicit Types w : UringWorker H.
Abbreviation hoare := (whoare (H := H)).
Abbreviation keeping := (wkeeps (H := H)).

Definition buffered (w : UringWorker H) : Prop :=
  bufs (op_to_details (internal_op_tracker w)) (send_buffer_pool w) (trace w).

(** Changes that are not about buffers. *)
Ltac bufs_leaf := idtac;
  match goal with
  | |- wkeeps buffered (modify _) =>
      apply whoare_modify; intros; first [assumption | apply bufs_trace; assumption | apply bufs_delete; assumption]
  | |- wkeeps buffered (emit _) => apply whoare_modify; intros; apply bufs_trace; assumption
  end.

Lemma bufs_new_op_id fd ty p : zc_of (mkDetails fd ty p) = None -> keeping buffered (new_op_id fd ty p).
Proof. intros Hz w Hb. by apply bufs_insert. Qed.

Lemma bufs_push entry : keeping buffered (push entry).
Proof. unfold push. wkeeps_walk ltac:(bufs_leaf). Qed.

Lemma bufs_queue_op fd ty p op : zc_of (mkDetails fd ty p) = None -> keeping buffered (queue_op fd ty p op).
Proof.
  intros Hz. unfold queue_op, take_op_details.
  wkeeps_walk ltac:(first [apply bufs_new_op_id; assumption | apply bufs_push | bufs_leaf]).
Qed.

Lemma bufs_create fd factory_id config is_server ud : keeping buffered (create_and_add_handler env fd factory_id config is_server ud).
Proof. unfold create_and_add_handler. wkeeps_walk ltac:(bufs_leaf). Qed.

Lemma bufs_call fd ud m : keeping buffered (call env fd ud m).
Proof. unfold call. wkeeps_walk ltac:(bufs_leaf). Qed.

Lemma bufs_collect fd ops : keeping buffered (collect fd ops).
Proof. unfold collect, needs_close. wkeeps_walk ltac:(bufs_leaf). Qed.

Lemma bufs_collect_call fd ud m : keeping buffered (collect_call env fd ud m).
Proof. unfold collect_call. wkeeps_walk ltac:(first [apply bufs_call | apply bufs_collect]). Qed.

Lemma bufs_request r : keeping buffered (process_external_op_request env r).
Proof.
  unfold process_external_op_request, register_external_fd, queue_external, push_initial, push_batch, needs_close,
    add_op, take_op, close_fd, reply.
  wkeeps_walk ltac:(first [bufs_leaf | apply bufs_push | apply bufs_create]).
Qed.

(** *** Completions *)

Lemma bufs_external ud res ctx : keeping buffered (external_completed env ud res ctx).
Proof.
  unfold external_completed, connect_completed, close_fd, reply.
  wkeeps_walk ltac:(first [bufs_leaf | apply bufs_create | apply bufs_collect]).
Qed.

Lemma bufs_delegate d c : keeping buffered (delegate env d c).
Proof.
  unfold delegate, needs_close, take_op_details. wkeeps_walk ltac:(first [bufs_leaf | apply bufs_collect]).
Qed.

Lemma bufs_acknowledge fuel fd : keeping buffered (acknowledge_shutdowns fuel fd).
Proof.
  induction fuel as [|fuel IH]; cbn [acknowledge_shutdowns]; unfold take_op, reply;
    wkeeps_walk ltac:(first [bufs_leaf | apply IH]).
Qed.

(** The completions that release no buffer. *)
Lemma bufs_final shutting_down d c :
  op_type d <> SendZeroCopy -> keeping buffered (final_processing env shutting_down d c).
Proof.
  intros Ht. unfold final_processing, accept_completed, close_completed, send_completed, read_completed, needs_close, close_fd.
  destruct (op_type d) eqn:E; try done; try rewrite (bool_decide_eq_false_2 (Send = SendZeroCopy)) by done.
  all: wkeeps_walk ltac:(first [bufs_leaf | apply bufs_create | apply bufs_collect | apply bufs_collect_call
    | apply bufs_queue_op; done | apply bufs_acknowledge]).
Qed.

(** A send without a copy that is over. *)
Lemma bufs_zc_completed ud d res w0 :
  op_to_details (internal_op_tracker w0) !! ud = Some d -> op_type d = SendZeroCopy ->
  hoare (fun w => w = w0 /\ buffered w) (take_op_details ud;; send_completed env d ud res) (fun _ => buffered).
Proof.
  intros Hl Ht. apply (whoare_bind _ _ _ (fun _ w => w = w0 <| internal_op_tracker := InternalOps.take_op_details ud (internal_op_tracker w0) |> /\ buffered w0));
    [by apply whoare_modify; intros w [-> Hb]|]. intros _.
  apply (whoare_bind _ _ _ (fun _ => buffered)).
  - destruct (payload d) eqn:Ep; try (apply whoare_ret; intros w [-> Hb]; by apply bufs_delete).
    rewrite bool_decide_eq_true_2 by done. apply whoare_modify. intros w [-> Hb].
    apply (bufs_release _ _ _ ud d); [exact Hb|done|by unfold zc_of; rewrite Ep].
  - intros _. to_keeps. wkeeps_walk ltac:(apply bufs_collect_call).
Qed.

Lemma bufs_internal shutting_down c : keeping buffered (internal_completed env shutting_down c).
Proof.
  apply whoare_get. intros w0. destruct (_ !! cqe_user_data (cqe c)) as [d|] eqn:El;
    [|apply whoare_ret; by intros w [_ Hb]].
  destruct (decide (op_type d = SendZeroCopy)) as [Ht|Ht].
  - rewrite (bool_decide_eq_false_2 (_ \/ _)) by (rewrite Ht; by intros [?|?]).
    apply (whoare_bind _ _ _ (fun r w => w = w0 /\ buffered w)); [by apply whoare_ret|]. intros [[del goes] work].
    destruct (_ || del); [apply whoare_ret; by intros w [_ Hb]|].
    unfold final_processing. rewrite Ht. by apply bufs_zc_completed.
  - eapply (whoare_conseq buffered _ _ (fun _ => buffered)); [|by intros w [_ Hb]|done]. to_keeps.
    unfold take_op_details. wkeeps_walk ltac:(first [bufs_leaf | apply bufs_delegate | apply bufs_final; done]).
Qed.

Lemma bufs_process_cqe shutting_down c : keeping buffered (process_cqe env shutting_down c).
Proof.
  apply whoare_get. intros w0.
  destruct (Poller.handle_cqe_if_matches _ _ _ _) as [[poller t] handled] eqn:E.
  apply (whoare_bind _ _ _ (fun _ => buffered)).
  - apply whoare_modify. intros w [-> Hb]. unfold Poller.handle_cqe_if_matches in E.
    destruct (_ =? _); [destruct shutting_down|]; injection E as <- <- <-; [exact Hb|by apply bufs_insert|exact Hb].
  - intros _. to_keeps. unfold take_op_details, take_op.
    wkeeps_walk ltac:(first [bufs_leaf | apply bufs_external | apply bufs_internal]).
Qed.

(** *** Blueprints *)

(** The buffer that was acquired is held, and not yet by an operation. *)
Definition reserved (r : option (Z * Z)) (w : UringWorker H) : Prop :=
  buffered w /\
  match r with
  | Some (id, _) => exists p slot, send_buffer_pool w = Some p /\ held p id slot /\
      forall ud d, op_to_details (internal_op_tracker w) !! ud = Some d -> zc_of d <> Some id
  | None => True
  end.

Lemma bufs_acquired data : hoare buffered (acquire_buffer data) reserved.
Proof.
  apply whoare_get. intros w0. destruct (if cfg_send_zerocopy_enabled w0 then _ else _) as [p|] eqn:Ep;
    [|apply whoare_ret; by intros w [_ Hb]].
  assert (send_buffer_pool w0 = Some p) as Ep' by (by destruct (cfg_send_zerocopy_enabled w0)).
  apply (whoare_bind _ _ _ (fun r w => Pool.acquire_and_prep_buffer data p = Some r /\ w = w0 /\ buffered w));
    [by apply whoare_expect|]. intros [p' r].
  apply (whoare_bind _ _ _ (fun _ => reserved r)); [|intros _; by apply whoare_ret].
  apply whoare_modify. intros w (E & -> & Hb). unfold buffered in Hb. rewrite Ep' in Hb.
  destruct r as [[id len]|].
  - destruct (bufs_acquire _ p p' _ data id len Hb E) as (Hb' & (slot & Hh) & Hn). split; [exact Hb'|].
    by exists p', slot.
  - split; [|done]. by apply (bufs_acquire_none _ p p' _ data).
Qed.

Lemma bufs_queue_zc fd id len flags ud name :
  hoare (reserved (Some (id, len)))
    (queue_op fd SendZeroCopy (SendZeroCopyPayload id ud name) (OpSendZc fd id len flags)) (fun _ => buffered).
Proof.
  intros w [Hb (p & slot & Ep & Hh & Hn)]. unfold queue_op, new_op_id, push, take_op_details, mbind, W_bind, get, modify.
  cbn -[is_full octets_of InternalOps.take_op_details]. destruct (is_full _); cbn -[octets_of].
  - unfold buffered. cbn. rewrite delete_insert_eq. by apply bufs_delete.
  - unfold buffered. cbn. rewrite Ep. cbn. destruct Hh as [Hs Hh]. rewrite Hs.
    apply (bufs_queue _ p _ _ _ id slot); [by rewrite <- Ep|by split|exact Hn|done].
Qed.

Lemma bufs_blueprint fd bp : keeping buffered (process_blueprint fd bp).
Proof.
  destruct bp as [data flags ud|data flags ud| |fd' bgid|fd' target|enable]; cbn [process_blueprint];
    unfold app_op_name_of, inform_handler.
  2: { eapply whoare_bind; [apply bufs_acquired|]. intros [[id len]|].
    - keep_then; [wkeeps_walk ltac:(fail)|]. eapply (whoare_bind _ _ _ (fun _ => buffered)); [apply bufs_queue_zc|]. intros r. by apply whoare_ret.
    - eapply (whoare_conseq buffered _ _ (fun _ => buffered)); [|by intros w [Hb _]|done]. to_keeps.
      wkeeps_walk ltac:(apply bufs_queue_op; done). }
  all: wkeeps_walk ltac:(first [bufs_leaf | apply bufs_queue_op; done]).
Qed.

(** *** The loop *)

Lemma bufs_core w w' : core w' = core w -> buffered w -> buffered w'.
Proof. unfold buffered. by intros [= _ _ _ _ _ -> _ -> _ ->]. Qed.

Lemma bufs_read fd bgid : keeping buffered (queue_op fd RingRead PayloadNone (OpRead fd bgid)).
Proof. by apply bufs_queue_op. Qed.

Lemma bufs_running : keeping buffered (running_turn env).
Proof.
  apply (phase_running env buffered); eauto using bufs_core, bufs_call, bufs_blueprint, bufs_process_cqe, bufs_read.
  apply wkeeps_for_each, bufs_request.
Qed.

Lemma bufs_turn : keeping buffered (turn env).
Proof.
  unfold turn, draining_turn, cleaning_turn, after_loop, transition_to_draining, submitted.
  wkeeps_walk ltac:(first [bufs_leaf | eapply phase_all_cqes; eauto using bufs_process_cqe
    | eapply phase_cancel; eauto using bufs_push | apply bufs_running]).
Qed.

End Walk.

(** A completion of a send without a copy that is neither its notification nor a
    failure changes nothing. *)
Lemma zc_waits `{HC : UringConnectionHandler H} env shutting_down c (w : UringWorker H) d :
  op_to_details (internal_op_tracker w) !! cqe_user_data (cqe c) = Some d -> op_type d = SendZeroCopy ->
  cqe_notify c = false -> 0 <= cqe_result (cqe c) -> internal_completed env shutting_down c w = Some ([], w).
Proof.
  intros Hl Ht Hn Hr. unfold internal_completed, mbind, W_bind, get. rewrite Hl, Ht, Hn.
  rewrite (bool_decide_eq_false_2 (_ \/ _)) by (by intros [?|?]). rewrite (proj2 (Z.leb_le _ _) Hr).
  by rewrite (bool_decide_eq_true_2 (SendZeroCopy = SendZeroCopy)).
Qed.

(** C11: a buffer the kernel sends from is not touched.  Whatever the kernel completes
    and however the worker's queues run full: as long as a send without a copy is in
    the tracker of the worker, its buffer is marked as used, is not free, belongs to no
    other operation in flight, and still holds the octets with which its entry was
    queued; and a completion of the send that is neither its notification nor a failure
    leaves it in the tracker. *)
Theorem buffers_in_flight (H : Type) (HC : UringConnectionHandler H) (config : UringConfig) (sq_entries : Z)
  (fs : gmap string (Factory H)) (event_fd : Z) (registered ring_built : bool) (w : UringWorker H)
  (rs : list UringOpRequest) (ud fd id app_ud : Z) (name : string)
  (Hcount : Z.of_nat (default_send_buffer_count config) <= 65536)
  (Hrun : rtc worker_step (spawn_with_config config sq_entries fs event_fd registered ring_built, []) (w, rs))
  (Hop : op_to_details (internal_op_tracker w) !! ud = Some (mkDetails fd SendZeroCopy (SendZeroCopyPayload id app_ud name))) :
  (forall env shutting_down c, cqe_user_data (cqe c) = ud -> cqe_notify c = false -> 0 <= cqe_result (cqe c) ->
    internal_completed env shutting_down c w = Some ([], w)) /\
  exists p slot, send_buffer_pool w = Some p /\ pool p !! Z.to_nat id = Some slot /\
    in_kernel_use slot = true /\ (id ∉ free_ids p) /\
    (exists f len flags, Queued (mkSqe (OpSendZc f id len flags) ud) (take (Z.to_nat len) (buffer slot)) ∈ trace w) /\
    forall ud' d', op_to_details (internal_op_tracker w) !! ud' = Some d' -> zc_of d' = Some id -> ud' = ud.
Proof.
  split; [intros env sd c Hc; eapply zc_waits; [by rewrite Hc|done]|]. assert (buffered w) as [_ Hu Hq].
  { refine (rtc_invariant worker_step (fun x => buffered x.1) _ (w, rs) Hrun _ _).
    - split; [|cbn; intros ? ? ? [[<- <-]|[_ ?]]%lookup_insert_Some; done|cbn; intros ? ? ? ? ? [[<- <-]|[_ ?]]%lookup_insert_Some; done].
      cbn. intros p. destruct (_ && _); [|done]. intros [= <-]. by apply pool_new_ok.
    - intros [w1 rs1] [w2 rs2] Hi Hs. inv Hs as [env ???? E|]; [|exact Hi].
      pose proof (bufs_turn env w1 Hi) as Ht. by rewrite E in Ht. }
  destruct (Hu ud _ id Hop eq_refl) as (p & slot & Hp & (Hs & _ & Hk & Hf) & (e & He & f & len & flags & ->)%Exists_exists).
  exists p, slot. split_and!; try done; [by exists f, len, flags|]. intros ud' d' Hl Hz. by eapply Hq.
Qed.
