(* ===== verification/WorkerReplies.v ===== *)
(** The requests the io_uring worker ([Worker.v]) takes are answered.  Every request
    comes with a channel for one reply.  The worker replies at once, or keeps the
    channel in its tracker of external operations until the operation completes, the
    descriptor is closed, or the loop ends: no channel is replied to twice, and only a
    [Listen] loses its channel. *)

From S2P Require Import Prelude Error Message Options Uring Worker WorkerLogic.
Import Uring(HandlerSqeBlueprint(..), HandlerIoOps(..), sqe_blueprints, initiate_close_due_to_error,
  HandlerUpstreamEvent(..), UringWorkerInterface(..), Cqe(..), cqe_user_data, cqe_result, buffer_select, cqe_more).
Import Worker.

(** ** Channels *)

(** The channels that were replied to. *)
Definition answers (tr : list effect) : list Z := omap (fun e => match e with Replied tx _ => Some tx | _ => None end) tr.

(** The channels that wait in the tracker. *)
Definition waiting (m : gmap Z ExternalOpContext) : list Z := reply_tx <$> (map_to_list m).*2.

(** The channels of the requests to listen. *)
Definition listens (rs : list UringOpRequest) : list Z :=
  omap (fun r => match r with Listen _ _ _ _ tx => Some tx | _ => None end) rs.

(** Of the channels of [rs] those of [holes] are in the hands of running code. *)
Definition owed (rs : list UringOpRequest) (holes : list Z) (m : gmap Z ExternalOpContext) (tr : list effect) : Prop :=
  (forall ud, is_Some (m !! ud) -> ud ∈ get_user_data_ref <$> rs) /\
  exists lost : list Z, (lost ⊆+ listens rs) /\ (answers tr ++ waiting m ++ lost ++ holes ≡ₚ get_reply_tx_ref <$> rs).

Definition debt (o : option ExternalOpContext) : list Z := match o with Some ctx => [reply_tx ctx] | None => [] end.

Lemma answers_upstream fd events : answers (Upstream fd <$> events) = [].
Proof. by induction events. Qed.

Lemma answers_app tr1 tr2 : answers (tr1 ++ tr2) = answers tr1 ++ answers tr2.
Proof. apply omap_app. Qed.

Lemma waiting_insert m ud ctx : m !! ud = None -> waiting (<[ud := ctx]> m) ≡ₚ reply_tx ctx :: waiting m.
Proof. intros Hm. unfold waiting. by rewrite (map_to_list_insert m ud ctx Hm). Qed.

Lemma waiting_delete m ud : waiting m ≡ₚ debt (m !! ud) ++ waiting (delete ud m).
Proof.
  destruct (m !! ud) as [ctx|] eqn:E; [|by rewrite delete_id].
  rewrite <- (insert_delete_id m ud ctx E) at 1. apply waiting_insert, lookup_delete_eq.
Qed.

Lemma owed_trace rs holes m tr tr' : answers tr' = [] -> owed rs holes m tr -> owed rs holes m (tr ++ tr').
Proof. intros Ht. unfold owed. by rewrite answers_app, Ht, (right_id_L [] (++)). Qed.

Lemma owed_reply rs tx holes m tr r : owed rs (tx :: holes) m tr -> owed rs holes m (tr ++ [Replied tx r]).
Proof.
  intros [Hk (lost & Hl & Hp)]. split; [done|]. exists lost. split; [done|]. rewrite <- Hp, answers_app. cbn. solve_Permutation.
Qed.

Lemma owed_add rs ud ctx holes m tr :
  ud ∈ get_user_data_ref <$> rs -> m !! ud = None -> owed rs (reply_tx ctx :: holes) m tr -> owed rs holes (<[ud := ctx]> m) tr.
Proof.
  intros Hu Hm [Hk (lost & Hl & Hp)]. split.
  - intros ud' [c [[<- _]|[_ Hc]]%lookup_insert_Some]; [done|]. apply Hk. by exists c.
  - exists lost. split; [done|]. rewrite <- Hp, waiting_insert by done. cbn. solve_Permutation.
Qed.

Lemma owed_take rs ud holes m tr : owed rs holes m tr -> owed rs (debt (m !! ud) ++ holes) (delete ud m) tr.
Proof.
  intros [Hk (lost & Hl & Hp)]. split.
  - intros ud' [c [_ Hc]%lookup_delete_Some]. apply Hk. by exists c.
  - exists lost. split; [done|]. rewrite <- Hp, (waiting_delete m ud). solve_Permutation.
Qed.

(** A request is taken: its channel is in hand, and its user data is new. *)
Lemma owed_request rs r m tr :
  NoDup (get_user_data_ref <$> rs ++ [r]) -> owed rs [] m tr ->
  owed (rs ++ [r]) [get_reply_tx_ref r] m tr /\ m !! get_user_data_ref r = None.
Proof.
  rewrite fmap_app. intros (_ & Hn & _)%NoDup_app [Hk (lost & Hl & Hp)]. split; [split|].
  - intros ud Hu. rewrite fmap_app. apply elem_of_app. left. by apply Hk.
  - exists lost. split.
    + unfold listens. rewrite omap_app. by apply submseteq_inserts_r.
    + rewrite fmap_app, <- Hp. cbn. solve_Permutation.
  - apply eq_None_not_Some. intros Hs. apply (Hn _ (Hk _ Hs)). cbn. set_solver.
Qed.

Lemma owed_lost rs ud addr factory_id config tx m tr :
  owed rs [] m tr -> owed (rs ++ [Listen ud addr factory_id config tx]) [] m tr.
Proof.
  intros [Hk (lost & Hl & Hp)]. split.
  - intros ud' Hu. rewrite fmap_app. apply elem_of_app. left. by apply Hk.
  - exists (lost ++ [tx]). unfold listens. rewrite omap_app, fmap_app. split; [by apply submseteq_app|].
    rewrite <- Hp. cbn. solve_Permutation.
Qed.

(** After the loop everybody who waits gets a reply. *)
Lemma owed_finish rs m tr (f : ExternalOpContext -> result UringOpCompletion) :
  owed rs [] m tr -> owed rs [] ∅ (tr ++ ((fun ctx => Replied (reply_tx ctx) (f ctx)) <$> (map_to_list m).*2)).
Proof.
  intros [Hk (lost & Hl & Hp)]. split; [intros ud; rewrite lookup_empty; by intros []|].
  exists lost. split; [done|]. rewrite <- Hp, answers_app. unfold waiting. rewrite map_to_list_empty. cbn.
  rewrite <- (assoc_L (++)). f_equiv. cbn. f_equiv. generalize (map_to_list m).*2. intros l.
  by induction l as [|ctx l IH]; cbn; [|f_equiv].
Qed.

(** ** The code *)

Section Walk.
Context {H : Type} `{HC : UringConnectionHandler H}.
Variable env : Round.
Implicit Types w : UringWorker H.
Abbreviation hoare := (whoare (H := H)).
Abbreviation keeping := (wkeeps (H := H)).

(** While the loop runs; [φ] is what is known of the tracker. *)
Definition owing rs holes (φ : gmap Z ExternalOpContext -> Prop) (w : UringWorker H) : Prop :=
  loop_result w = None /\ owed rs holes (external_op_tracker w) (trace w) /\ φ (external_op_tracker w).

Definition anything (m : gmap Z ExternalOpContext) : Prop := True.

Lemma owing_weaken rs holes φ w : owing rs holes φ w -> owing rs holes anything w.
Proof. by intros (? & ? & _). Qed.

Lemma owing_core rs holes φ w w' : core w' = core w -> owing rs holes φ w -> owing rs holes φ w'.
Proof. unfold owing. by intros [= _ _ _ _ -> _ _ _ -> ->]. Qed.

Lemma owing_reply rs tx holes φ r : hoare (owing rs (tx :: holes) φ) (reply tx r) (fun _ => owing rs holes φ).
Proof. apply whoare_modify. intros w (Hl & Ho & Hp). split_and!; [done|by apply owed_reply|done]. Qed.

Lemma owing_add rs ud ctx tx :
  ud ∈ get_user_data_ref <$> rs -> reply_tx ctx = tx ->
  hoare (owing rs [tx] (fun m => m !! ud = None)) (add_op ud ctx) (fun _ => owing rs [] (fun m => m !! ud = Some ctx)).
Proof.
  intros Hu <-. apply whoare_modify. intros w (Hl & Ho & Hp). split_and!; [done|by apply owed_add|]. cbn. apply lookup_insert_eq.
Qed.

Lemma owing_take rs holes ud φ :
  hoare (owing rs holes φ) (take_op ud)
    (fun o w => (exists m, φ m /\ m !! ud = o) /\ owing rs (debt o ++ holes) anything w).
Proof.
  apply whoare_get. intros w0. eapply (whoare_bind _ _ _ (fun _ w => (exists m, φ m /\ m !! ud = external_op_tracker w0 !! ud) /\
    owing rs (debt (external_op_tracker w0 !! ud) ++ holes) anything w)); [|intros _; by apply whoare_ret].
  apply whoare_modify. intros w [-> (Hl & Ho & Hp)]. split; [by eexists|]. split_and!; [done|by apply owed_take|done].
Qed.

(** Changes that are not about channels. *)
Ltac quiet_leaf := idtac;
  match goal with
  | |- wkeeps (owing _ _ _) (modify _) =>
      apply whoare_modify; let Ho := fresh in intros ? (? & Ho & ?); split_and!; [assumption| |assumption];
      first [exact Ho | apply owed_trace; [rewrite ?answers_app, ?answers_upstream; reflexivity | exact Ho]]
  | |- wkeeps (owing _ _ _) (emit _) =>
      apply whoare_modify; let Ho := fresh in intros ? (? & Ho & ?); split_and!; [assumption| |assumption];
      apply owed_trace; [reflexivity | exact Ho]
  end.

Section Quiet.
Variables (rs : list UringOpRequest) (holes : list Z) (φ : gmap Z ExternalOpContext -> Prop).
Abbreviation I := (owing rs holes φ).

Lemma quiet_push entry : keeping I (push entry).
Proof. unfold push. wkeeps_walk ltac:(quiet_leaf). Qed.

Lemma quiet_queue_op fd ty p op : keeping I (queue_op fd ty p op).
Proof. unfold queue_op, take_op_details, new_op_id. wkeeps_walk ltac:(first [quiet_leaf | apply quiet_push]). Qed.

Lemma quiet_close_fd fd : keeping I (close_fd fd).
Proof. unfold close_fd. wkeeps_walk ltac:(quiet_leaf). Qed.

Lemma quiet_needs_close fd : keeping I (needs_close fd).
Proof. unfold needs_close. wkeeps_walk ltac:(quiet_leaf). Qed.

Lemma quiet_receiver f : keeping I (modify (fun w => w <| fd_to_mpsc_rx := f w |>)).
Proof. wkeeps_walk ltac:(quiet_leaf). Qed.

Lemma quiet_create fd factory_id config is_server ud : keeping I (create_and_add_handler env fd factory_id config is_server ud).
Proof. unfold create_and_add_handler. wkeeps_walk ltac:(quiet_leaf). Qed.

Lemma quiet_call fd ud m : keeping I (call env fd ud m).
Proof. unfold call. wkeeps_walk ltac:(quiet_leaf). Qed.

Lemma quiet_collect fd ops : keeping I (collect fd ops).
Proof. unfold collect. wkeeps_walk ltac:(apply quiet_needs_close). Qed.

Lemma quiet_collect_call fd ud m : keeping I (collect_call env fd ud m).
Proof. unfold collect_call. wkeeps_walk ltac:(first [apply quiet_call | apply quiet_collect]). Qed.

Lemma quiet_push_initial fd ops : keeping I (push_initial fd ops).
Proof. unfold push_initial, push_batch. wkeeps_walk ltac:(first [apply quiet_needs_close | quiet_leaf]). Qed.

Lemma quiet_blueprint fd bp : keeping I (process_blueprint fd bp).
Proof.
  unfold process_blueprint, app_op_name_of, acquire_buffer, inform_handler.
  wkeeps_walk ltac:(first [apply quiet_queue_op | quiet_leaf]).
Qed.

Lemma quiet_connect ud ctx : keeping I (connect_completed env ud ctx).
Proof.
  unfold connect_completed. wkeeps_walk ltac:(first [apply quiet_create | apply quiet_collect | apply quiet_close_fd]).
Qed.

Lemma quiet_delegate d c : keeping I (delegate env d c).
Proof.
  unfold delegate, take_op_details. wkeeps_walk ltac:(first [apply quiet_collect | apply quiet_needs_close | quiet_leaf]).
Qed.

Lemma quiet_accept shutting_down listener res : keeping I (accept_completed env shutting_down listener res).
Proof.
  unfold accept_completed.
  wkeeps_walk ltac:(first [apply quiet_create | apply quiet_collect | apply quiet_close_fd | apply quiet_queue_op
    | apply quiet_needs_close]).
Qed.

Lemma quiet_send d ud res : keeping I (send_completed env d ud res).
Proof. unfold send_completed. wkeeps_walk ltac:(first [apply quiet_collect_call | quiet_leaf]). Qed.

Lemma quiet_read d c : keeping I (read_completed env d c).
Proof.
  unfold read_completed.
  wkeeps_walk ltac:(first [apply quiet_collect_call | apply quiet_collect | apply quiet_needs_close]).
Qed.

Lemma quiet_closed fd :
  keeping I (modify (fun w => w <| listener_metadata := delete fd (listener_metadata w) |> <| handlers := delete fd (handlers w) |>);;
    w ← get;
    match fd_to_mailbox w !! fd with
    | Some mailbox => if mailbox_open env mailbox then emit (Mailed mailbox fd ConnectionClosed) else mret tt
    | None => mret tt
    end;;
    modify (fun w => w <| fd_to_mailbox := delete fd (fd_to_mailbox w) |>);;
    mret ([] : list (RawFd * list HandlerSqeBlueprint))).
Proof. wkeeps_walk ltac:(quiet_leaf). Qed.

Lemma quiet_poller poller t : keeping I (modify (fun w => w <| event_fd_poller := poller |> <| internal_op_tracker := t |>)).
Proof. wkeeps_walk ltac:(quiet_leaf). Qed.

Lemma quiet_take_op_details ud : keeping I (take_op_details ud).
Proof. unfold take_op_details. wkeeps_walk ltac:(quiet_leaf). Qed.

End Quiet.

(** A channel taken from the tracker gets its reply. *)
Lemma owing_take_reply rs ud ctx name :
  hoare (owing rs [] (fun m => m !! ud = Some ctx)) (o ← take_op ud; match o with Some ctx => reply (reply_tx ctx) name | None => mret tt end)
    (fun _ => owing rs [] anything).
Proof.
  eapply whoare_bind; [apply owing_take|]. intros [c|]; cbn.
  - eapply whoare_conseq; [apply owing_reply|by intros w [_ Ho]|done].
  - apply whoare_ret. by intros w [_ Ho].
Qed.

(** *** Requests *)

Lemma owing_queue_external rs ud ctx tx op cleanup :
  ud ∈ get_user_data_ref <$> rs -> reply_tx ctx = tx -> (forall holes φ, keeping (owing rs holes φ) cleanup) ->
  hoare (owing rs [tx] (fun m => m !! ud = None)) (queue_external ud ctx op cleanup) (fun _ => owing rs [] anything).
Proof.
  intros Hu Htx Hc. eapply whoare_bind; [by apply owing_add|]. intros []; cbv beta. keep_then; [apply quiet_push|].
  cbv beta. match goal with |- whoare _ (match ?b with _ => _ end) _ => destruct b end; [apply whoare_ret; apply owing_weaken|].
  eapply whoare_bind; [apply owing_take|]. intros o.
  apply (whoare_bind _ _ _ (fun _ => owing rs [reply_tx ctx] anything)); [|intros _; apply owing_reply].
  eapply whoare_conseq; [apply (Hc [reply_tx ctx] anything)| |done]. intros w [(m & Hm & <-) Ho]. by rewrite Hm in Ho.
Qed.

Lemma owing_register rs ud fd factory_id config is_server tx rx name :
  ud ∈ get_user_data_ref <$> rs ->
  hoare (owing rs [tx] (fun m => m !! ud = None)) (register_external_fd env ud fd factory_id config is_server tx rx name)
    (fun _ => owing rs [] anything).
Proof.
  intros Hu. eapply whoare_bind; [by apply owing_add|]. intros []; cbv beta. keep_then; [apply quiet_receiver|].
  keep_then; [apply quiet_create|].
  cbv beta. match goal with |- whoare _ (match ?b with _ => _ end) _ => destruct b end; (keep_then; [|apply owing_take_reply]).
  - apply quiet_receiver.
  - apply quiet_push_initial.
Qed.

Lemma owing_request rs r :
  NoDup (get_user_data_ref <$> rs ++ [r]) ->
  hoare (owing rs [] anything) (process_external_op_request env r) (fun _ => owing (rs ++ [r]) [] anything).
Proof.
  intros Hn. assert (get_user_data_ref r ∈ get_user_data_ref <$> rs ++ [r]) as Hu by (rewrite fmap_app; set_solver).
  apply whoare_get. intros w0.
  assert (forall m : W H unit, hoare (owing (rs ++ [r]) [get_reply_tx_ref r] (fun m => m !! get_user_data_ref r = None)) m (fun _ => owing (rs ++ [r]) [] anything) ->
    hoare (fun w => w = w0 /\ owing rs [] anything w) m (fun _ => owing (rs ++ [r]) [] anything)) as Hstart.
  { intros m Hm. eapply whoare_conseq; [exact Hm| |done]. intros w [_ (Hl & Ho & _)].
    destruct (owed_request rs r _ _ Hn Ho). by split_and!. }
  assert (forall c, hoare (fun w => w = w0 /\ owing rs [] anything w) (reply (get_reply_tx_ref r) c) (fun _ => owing (rs ++ [r]) [] anything)) as Hreply.
  { intros c. apply Hstart. eapply whoare_conseq; [apply owing_reply|done|]. intros []. apply owing_weaken. }
  destruct r as [ud tx|ud bgid n cap tx|ud bs tx|ud addr fid cfg tx|ud addr fid cfg tx|ud fd fid cfg srv tx rx|ud fd tx|ud fd tx]; cbn [get_user_data_ref get_reply_tx_ref] in *.
  - destruct (is_full w0); [apply Hreply|]. apply Hstart, owing_queue_external; [done..|]. intros holes φ. by apply whoare_ret.
  - destruct (bool_decide _); [apply Hreply|]. destruct (new_buffer_ring env bgid); [apply Hreply|]. apply Hstart.
    apply (whoare_bind _ _ _ (fun _ => owing (rs ++ [InitializeBufferRing ud bgid n cap tx]) [tx] anything)); [|intros _; apply owing_reply].
    apply whoare_modify. intros w (? & ? & _). by split_and!.
  - apply Hreply.
  - destruct (_ <? _); [apply Hreply|]. apply whoare_ret. intros w [_ (Hl & Ho & _)]. split_and!; [done|by apply owed_lost|done].
  - destruct (is_full w0); [apply Hreply|]. destruct (_ <? _); [apply Hreply|].
    apply Hstart, owing_queue_external; [done..|]. intros holes φ. apply quiet_close_fd.
  - by apply Hstart, owing_register.
  - destruct (bool_decide _); apply Hreply.
  - apply Hstart. eapply whoare_bind; [by apply owing_add|]. intros []; cbv beta.
    eapply whoare_conseq; [apply quiet_needs_close|done|]. intros []. apply owing_weaken.
Qed.

Lemma owing_requests rs l :
  NoDup (get_user_data_ref <$> rs ++ l) ->
  hoare (owing rs [] anything) (for_each (process_external_op_request env) l) (fun _ => owing (rs ++ l) [] anything).
Proof.
  revert rs. induction l as [|r l IH]; intros rs Hn; cbn [for_each]; [rewrite (right_id_L [] (++)); by apply whoare_ret|].
  assert (rs ++ r :: l = (rs ++ [r]) ++ l) as E by by rewrite <- (assoc_L (++)). rewrite E in *.
  eapply whoare_bind; [apply owing_request|intros []; by apply IH]. rewrite fmap_app in Hn. by apply NoDup_app in Hn as [Hn _].
Qed.

(** *** Completions *)

Lemma owing_external rs ud res ctx :
  hoare (owing rs [reply_tx ctx] anything) (external_completed env ud res ctx) (fun _ => owing rs [] anything).
Proof.
  unfold external_completed. keep_then.
  - wkeeps_walk ltac:(first [apply quiet_close_fd | apply quiet_connect]).
  - match goal with a : _ * _ |- _ => destruct a as [completion work] end.
    eapply whoare_bind; [apply owing_reply|]. intros []. by apply whoare_ret.
Qed.

Lemma shutdown_known fd m ud ctx : ExternalOps.take_op_if_shutdown_for_fd fd m = Some (ud, ctx) -> m !! ud = Some ctx.
Proof. intros [Hm%list_elem_of_In _]%find_some. by apply elem_of_map_to_list. Qed.

Lemma owing_acknowledge rs fuel fd : keeping (owing rs [] anything) (acknowledge_shutdowns fuel fd).
Proof.
  induction fuel as [|fuel IH]; cbn [acknowledge_shutdowns]; apply whoare_get; intros w0;
    [apply whoare_ret; by intros w [_ Ho]|].
  destruct (ExternalOps.take_op_if_shutdown_for_fd _ _) as [[ud ctx]|] eqn:E; [|apply whoare_ret; by intros w [_ Ho]].
  apply shutdown_known in E. eapply (whoare_conseq (owing rs [] (fun m => m = external_op_tracker w0)) _ _ (fun _ => owing rs [] anything));
    [|intros w [-> (? & ? & _)]; by split_and!|done].
  eapply whoare_bind; [apply owing_take|]. intros o.
  apply (whoare_bind _ _ _ (fun _ => owing rs [] anything)); [|intros _; apply IH].
  eapply whoare_conseq; [apply (owing_reply rs (reply_tx ctx) [] anything)| |done]. intros w [(m & -> & <-) Ho]. by rewrite E in Ho.
Qed.

Lemma owing_final rs shutting_down d c : keeping (owing rs [] anything) (final_processing env shutting_down d c).
Proof.
  unfold final_processing, close_completed.
  wkeeps_walk ltac:(first [apply quiet_accept | apply quiet_send | apply quiet_read | apply quiet_receiver
    | apply owing_acknowledge | apply quiet_closed]).
Qed.

Lemma owing_cqe rs shutting_down c : keeping (owing rs [] anything) (process_cqe env shutting_down c).
Proof.
  apply whoare_read. intros w0. destruct (Poller.handle_cqe_if_matches _ _ _ _) as [[poller t] handled].
  keep_then; [apply quiet_poller|]. destruct handled; [to_keeps; wkeeps_walk ltac:(apply quiet_take_op_details)|].
  eapply whoare_bind; [apply owing_take|]. intros [ctx|].
  - eapply whoare_conseq; [apply owing_external|by intros w [_ Ho]|done].
  - eapply (whoare_conseq (owing rs [] anything) _ _ (fun _ => owing rs [] anything)); [|by intros w [_ Ho]|done].
    to_keeps. unfold internal_completed.
    wkeeps_walk ltac:(first [apply quiet_delegate | apply quiet_take_op_details | apply owing_final]).
Qed.

(** *** The loop *)

(** Between turns. *)
Definition accounted rs (w : UringWorker H) : Prop :=
  owed rs [] (external_op_tracker w) (trace w) /\ (loop_result w = Some (Ok tt) -> external_op_tracker w = ∅).

Lemma owing_accounted rs w : owing rs [] anything w -> accounted rs w.
Proof. intros (Hl & Ho & _). split; [done|]. by rewrite Hl. Qed.

Lemma owing_shutting_down rs :
  keeping (owing rs [] anything) (transition_to_draining env) /\
  keeping (owing rs [] anything) (draining_turn env) /\ keeping (owing rs [] anything) cleaning_turn.
Proof.
  unfold transition_to_draining, draining_turn, cleaning_turn, submitted.
  split_and!; wkeeps_walk ltac:(first [quiet_leaf | eapply phase_cancel; eauto using quiet_push
    | eapply phase_all_cqes; eauto using owing_cqe]).
Qed.

Lemma accounted_after_loop rs : hoare (owing rs [] anything) after_loop (fun _ => accounted rs).
Proof.
  apply whoare_get. intros w0. apply whoare_modify. intros w [-> (Hl & Ho & _)]. split; [|done]. cbn. by apply owed_finish.
Qed.

Lemma accounted_running rs :
  NoDup (get_user_data_ref <$> rs ++ requests env) ->
  hoare (owing rs [] anything) (running_turn env) (fun _ => accounted (rs ++ requests env)).
Proof.
  intros Hn. apply (phase_running env (owing (rs ++ requests env) [] anything));
    eauto using owing_core, quiet_call, quiet_blueprint, owing_cqe, quiet_queue_op, owing_requests, owing_accounted.
  intros w e (Hl & Ho & _). by split.
Qed.

Lemma accounted_turn rs w w' :
  NoDup (get_user_data_ref <$> rs ++ taken env w) -> loop_result w = None -> accounted rs w ->
  turn env w = Some (tt, w') -> accounted (rs ++ taken env w) w'.
Proof.
  intros Hn Hl [Ho _] Ht. destruct (owing_shutting_down rs) as (H1 & H2 & H3).
  apply (turn_rule env (owing rs [] anything) (fun l => accounted (rs ++ l)) w); try done.
  { intros Et. apply accounted_running. by rewrite <- Et. }
  all: rewrite (right_id_L [] (++)).
  4: apply accounted_after_loop.
  all: eapply whoare_conseq; [eassumption|done|]; intros []; apply owing_accounted.
Qed.

End Walk.

(** C15: the io_uring worker answers its requests.  Whatever the kernel does, when no
    two requests have the same user data: the channels it has replied to, those that
    wait in its tracker and some of those of requests to listen are together the
    channels of the requests it has taken, so that nobody gets two replies and only a
    [Listen] can lose its channel; and when the loop has ended in order nobody waits. *)
Theorem worker_answers (H : Type) (HC : UringConnectionHandler H) (config : UringConfig) (sq_entries : Z)
  (fs : gmap string (Factory H)) (event_fd : Z) (registered ring_built : bool) (w : UringWorker H)
  (rs : list UringOpRequest)
  (Hrun : rtc worker_step (spawn_with_config config sq_entries fs event_fd registered ring_built, []) (w, rs))
  (Hids : NoDup (get_user_data_ref <$> rs)) :
  (exists lost : list Z, (lost ⊆+ listens rs) /\
     (answers (trace w) ++ waiting (external_op_tracker w) ++ lost ≡ₚ get_reply_tx_ref <$> rs)) /\
  (loop_result w = Some (Ok tt) -> waiting (external_op_tracker w) = []).
Proof.
  assert (NoDup (get_user_data_ref <$> rs) -> accounted rs w) as Ha.
  { refine (rtc_invariant worker_step (fun x => NoDup (get_user_data_ref <$> x.2) -> accounted x.2 x.1) _ (w, rs) Hrun _ _).
    - intros _. split; [|done]. cbn. split; [by intros ud [? [=]]|]. by exists [].
    - intros [w1 rs1] [w2 rs2] Hi Hs. inv Hs as [env ???? E|]; [|exact Hi]. intros Hn. cbn in *.
      apply accounted_turn; [done..| |done]. apply Hi. rewrite fmap_app in Hn. by apply NoDup_app in Hn as [Hn _]. }
  destruct (Ha Hids) as [[_ (lost & Hl & Hp)] He]. split; [exists lost; by rewrite (right_id_L [] (++)) in Hp|].
  intros Hr. unfold waiting. by rewrite (He Hr), map_to_list_empty.
Qed.
