(* ===== verification/WorkerHandlers.v ===== *)
(** The io_uring worker ([Worker.v]) with ZMTP handlers ([Uring.v]).

    The ZMTP handler is an instance of the class of handlers, made by its factory.
    What the worker passes on to the sockets is then what reachable handlers say, one
    after the other for each descriptor, so that the guarantees for one handler
    ([UringSafety.v]) hold of a whole run of the worker.  The last part evaluates runs
    of a worker, which the theorems about it apply to. *)

From S2P Require Import Prelude Error Utf8 Message Codec Command Framer Greeting Mechanism Plain Options.
From S2P Require Import Curve Noise Security Io Handler Handshake HandshakeSafety Uring UringSafety UringReads.
From S2P Require Import Worker WorkerLogic WorkerFlow WorkerBuffers WorkerReplies.
Import Uring(HandlerSqeBlueprint(..), HandlerIoOps(..), sqe_blueprints, initiate_close_due_to_error, no_ops,
  HandlerUpstreamEvent(..), UringWorkerInterface(..), Cqe(..), cqe_user_data, cqe_result, buffer_select, cqe_more,
  ZmtpUringHandler, U, UState(..), u_handler, u_ops, u_events, AppData(..)).
Import Worker.

#[local] Existing Instances Uring.U_ret Uring.U_bind.

(** ** Methods do not look at events already sent *)

Section Frame.
Context `{HD : Dryoc} `{HS : Snow}.
Variable ephemeral : bytes.
Variable os_error : Z -> ZmqError.
Variable interface : UringWorkerInterface.

Definition framed {A} (m : U A) : Prop := forall h ops evs,
  m (mkUState h ops evs) = let '(r, s) := m (mkUState h ops []) in (r, mkUState (u_handler s) (u_ops s) (evs ++ u_events s)).

Lemma framed_bind {A B} (m : U A) (k : A -> U B) : framed m -> (forall a, framed (k a)) -> framed (m ≫= k).
Proof.
  intros Hm Hk h ops evs. unfold mbind, Uring.U_bind. rewrite (Hm h ops evs).
  destruct (m (mkUState h ops [])) as [[a|e| |] [h1 ops1 evs1]]; cbn; [|done..].
  rewrite (Hk a h1 ops1 (evs ++ evs1)), (Hk a h1 ops1 evs1). destruct (k a _) as [r s]. cbn. by rewrite (assoc_L (++)).
Qed.

Lemma framed_catch {A} (m : U A) : framed m -> framed (Uring.catch m).
Proof.
  intros Hm h ops evs. unfold Uring.catch. rewrite (Hm h ops evs). by destruct (m (mkUState h ops [])) as [[a|e| |] s].
Qed.

Lemma framed_send ev : framed (Uring.try_send interface ev).
Proof. intros h ops evs. unfold Uring.try_send. destruct (Uring.upstream_open interface); cbn; [done|]. by rewrite app_nil_r. Qed.

Lemma framed_ret {A} (a : A) : framed (mret a).
Proof. intros h ops evs. cbn. by rewrite app_nil_r. Qed.

Lemma framed_try {A} (r : result A) : framed (Uring.try r).
Proof. intros h ops evs. cbn. by rewrite app_nil_r. Qed.

Lemma framed_set f : framed (Uring.set f).
Proof. intros h ops evs. cbn. by rewrite app_nil_r. Qed.

Ltac framed_any leaf :=
  repeat first
    [ leaf
    | progress (intros; cbv beta zeta)
    | match goal with
      | |- framed (_ ≫= _) => apply framed_bind
      | |- framed (Uring.catch _) => apply framed_catch
      | |- framed (Uring.try_send _ _) => apply framed_send
      | |- framed (mret _) => apply framed_ret
      | |- framed (Uring.try _) => apply framed_try
      | |- framed (Uring.set _) => apply framed_set
      | |- framed (Uring.set_ops _) => intros ???; cbn; by rewrite app_nil_r
      | |- framed Uring.self => intros ???; cbn; by rewrite app_nil_r
      | |- framed (Uring.throw _) => intros ???; cbn; by rewrite app_nil_r
      | |- framed Uring.still_running => intros ???; cbn; by rewrite app_nil_r
      | |- framed (match ?x with _ => _ end) => destruct x
      | |- framed (let '(_, _) := ?x in _) => destruct x
      end ].

Lemma framed_error e : framed (Uring.transition_to_error interface e).
Proof. unfold Uring.transition_to_error, Uring.set_phase. framed_any ltac:(fail). Qed.

Lemma framed_fatal {A} e : framed (Uring.fatal interface e : U A).
Proof. unfold Uring.fatal. framed_any ltac:(apply framed_error). Qed.

Lemma framed_or_fatal {A} (r : result A) : framed (Uring.or_fatal interface r).
Proof. unfold Uring.or_fatal. framed_any ltac:(apply framed_fatal). Qed.

Lemma framed_command msg : framed (Uring.send_command msg).
Proof. unfold Uring.send_command, Uring.write_msgs, Uring.push. framed_any ltac:(fail). Qed.

Lemma framed_announce : framed (Uring.signal_upstream_handshake_complete interface).
Proof. unfold Uring.signal_upstream_handshake_complete. framed_any ltac:(fail). Qed.

Lemma framed_data fuel progress : framed (Uring.data_phase interface fuel progress).
Proof.
  revert progress. induction fuel as [|fuel IH]; intros progress; cbn [Uring.data_phase]; unfold Uring.read_msg, Uring.data_frame;
    framed_any ltac:(first [apply framed_or_fatal | apply framed_fatal | apply framed_command | apply IH]).
Qed.

Lemma framed_arm fuel p : framed (Uring.phase_arm ephemeral interface fuel p).
Proof.
  destruct p; cbn [Uring.phase_arm];
    unfold Uring.wait_peer_revision, Uring.wait_v3_greeting, Uring.v2_greeting_exchange, Uring.v2_wait_identity,
      Uring.security_exchange, Uring.leave_security_exchange, Uring.process_peer_token, Uring.produce_and_send,
      Uring.ready_server_wait_client, Uring.ready_client_wait_server, Uring.expect_ready, Uring.with_frame,
      Uring.with_mechanism, Uring.read_msg, Uring.fill_greeting, Uring.set_phase, Uring.push;
    framed_any ltac:(first [apply framed_data | apply framed_or_fatal | apply framed_fatal | apply framed_error
      | apply framed_command | apply framed_announce]).
Qed.

Lemma framed_loop fuel progress : framed (Uring.phase_loop ephemeral interface fuel progress).
Proof.
  revert progress. induction fuel as [|fuel IH]; intros progress; cbn [Uring.phase_loop];
    framed_any ltac:(first [apply framed_arm | apply framed_fatal | apply IH]).
Qed.

Lemma framed_ring_read fuel data : framed (Uring.process_ring_read_data ephemeral interface fuel data).
Proof.
  unfold Uring.process_ring_read_data, Uring.process_or_error, Uring.process_buffered_reads.
  framed_any ltac:(first [apply framed_loop | apply framed_error]).
Qed.

Lemma framed_ready : framed (Uring.connection_ready interface).
Proof. unfold Uring.connection_ready, Uring.set_phase, Uring.push. framed_any ltac:(fail). Qed.

Lemma framed_delegate fuel cqe borrow :
  framed (Uring.delegate_cqe_to_multishot_reader ephemeral interface fuel cqe borrow).
Proof.
  unfold Uring.delegate_cqe_to_multishot_reader, Uring.process_cqe. framed_any ltac:(apply framed_ring_read).
Qed.

Lemma framed_call fuel c : framed (run_call ephemeral os_error interface fuel c).
Proof.
  destruct c; cbn [run_call]; [apply framed_ring_read| |framed_any ltac:(apply framed_delegate)|..];
    unfold Uring.handle_internal_sqe_completion, Uring.advance_on_ack, Uring.signal_or_error, Uring.process_or_error,
      Uring.process_buffered_reads, Uring.inform_multishot_reader_op_submitted, Uring.prepare_sqes, Uring.heartbeat,
      Uring.send_next_queued, Uring.handle_outgoing_app_data, Uring.send_or_queue, Uring.write_msgs,
      Uring.add_send_blueprints_for_wire_bytes, Uring.close_initiated, Uring.fd_has_been_closed, Uring.set_phase, Uring.push;
    framed_any ltac:(first [apply framed_loop | apply framed_error | apply framed_announce]).
Qed.

End Frame.

(** ** The ZMTP handler as a handler of the worker

    [fuel] bounds the loops of a call, which [UringReads.uring_returns] shows to end.
    [ephemeral] is the randomness of the key exchanges, the same one for all handlers of
    a run: the theorems hold for each, and none is about keys being different. *)

Section Zmtp.
Context `{HD : Dryoc} `{HS : Snow}.
Variable ephemeral : bytes.
Variable os_error : Z -> ZmqError.
Variable fuel : nat.

(** A call: the handler, what it asks for and its events, if it returns. *)
Definition returned {A} (m : U A) (h : ZmtpUringHandler) : option (A * ZmtpUringHandler * HandlerIoOps * list HandlerUpstreamEvent) :=
  match m (mkUState h no_ops []) with
  | (Done a, s) => Some (a, u_handler s, u_ops s, u_events s)
  | _ => None
  end.

Definition method (m : UringWorkerInterface -> U unit) (interface : UringWorkerInterface) (h : ZmtpUringHandler)
  : called ZmtpUringHandler :=
  '(_, h, ops, events) ← returned (m interface) h; Some (h, ops, events).

Definition zmtp_handler : UringConnectionHandler ZmtpUringHandler := {|
  connection_ready := method Uring.connection_ready;
  process_ring_read_data data := method (fun i => Uring.process_ring_read_data ephemeral i fuel data);
  handle_internal_sqe_completion res := method (fun i => Uring.handle_internal_sqe_completion ephemeral os_error i fuel res);
  prepare_sqes := method Uring.prepare_sqes;
  handle_outgoing_app_data parts := method (fun i => Uring.handle_outgoing_app_data i (AppParts parts));
  close_initiated := method (fun _ => Uring.close_initiated);
  fd_has_been_closed h := u_handler (Uring.fd_has_been_closed (mkUState h no_ops [])).2;
  delegate_cqe_to_multishot_reader cqe borrow interface h :=
    '(r, h, ops, events) ← returned (Uring.delegate_cqe_to_multishot_reader ephemeral interface fuel cqe borrow) h;
    Some (h, events,
      match r with
      | Some (Ok cleanup) => Some (Ok (ops, cleanup))
      | Some (Err e) => Some (Err e)
      | Some Panic => Some Panic
      | None => None
      end);
  inform_multishot_reader_op_submitted ud is_cancel target h :=
    u_handler (Uring.inform_multishot_reader_op_submitted ud is_cancel target (mkUState h no_ops [])).2;
|}.

(** [ZmtpHandlerFactory::create_handler]. *)
Definition create_handler (fd : Z) (protocol_config : ProtocolConfig) (is_server_role : bool) (now : Z)
  : string + ZmtpUringHandler :=
  match protocol_config with Zmtp config => inr (Uring.new fd config is_server_role now) end.

Definition zmtp_factories : gmap string (Factory ZmtpUringHandler) := {["zmtp-uring/3.1" := create_handler]}.

(** ** Sessions *)

(** The events of a descriptor. *)
Definition upstream (fd : Z) (tr : list effect) : list HandlerUpstreamEvent :=
  omap (fun e => match e with Upstream fd' ev => if fd' =? fd then Some ev else None | _ => None end) tr.

Lemma upstream_app fd tr1 tr2 : upstream fd (tr1 ++ tr2) = upstream fd tr1 ++ upstream fd tr2.
Proof. apply omap_app. Qed.

Lemma upstream_events fd fd' events : upstream fd (Upstream fd' <$> events) = if fd' =? fd then events else [].
Proof.
  unfold upstream. destruct (fd' =? fd) eqn:E; induction events as [|ev events IH]; cbn; rewrite ?E; [done|by rewrite IH|done..].
Qed.

#[local] Arguments upstream : simpl never.

Variable C : ProtocolConfig -> Prop.

(** A handler with a configuration in [C], and what it has said. *)
Definition session (fd : Z) (x : ZmtpUringHandler * list HandlerUpstreamEvent) : Prop :=
  exists cfg is_server t0 interface, C (Zmtp cfg) /\
    rtc (uring_step ephemeral os_error) (uring_start fd cfg is_server t0 interface, []) x.

(** What the handlers of a descriptor have said; the last one is the current one. *)
Definition spoken (fd : Z) (current : option ZmtpUringHandler) (evs : list HandlerUpstreamEvent) : Prop :=
  exists sessions, evs = concat sessions.*2 /\ Forall (session fd) sessions /\
    forall h, current = Some h -> exists before said, sessions = before ++ [(h, said)].

Lemma spoken_gone fd current evs : spoken fd current evs -> spoken fd None evs.
Proof. intros (l & ? & ? & _). by exists l. Qed.

Lemma spoken_new fd evs h cfg is_server t0 interface :
  C (Zmtp cfg) -> h = uring_start fd cfg is_server t0 interface -> spoken fd None evs -> spoken fd (Some h) evs.
Proof.
  intros Hc -> (l & -> & Hl & _). exists (l ++ [(uring_start fd cfg is_server t0 interface, [])]). split_and!.
  - rewrite fmap_app, concat_app. cbn. by rewrite app_nil_r.
  - apply Forall_app. split; [done|]. apply Forall_singleton. by exists cfg, is_server, t0, interface.
  - intros h [= <-]. by exists l, [].
Qed.

Lemma spoken_said fd evs h h' new :
  (forall said, uring_step ephemeral os_error (h, said) (h', said ++ new)) -> spoken fd (Some h) evs -> spoken fd (Some h') (evs ++ new).
Proof.
  intros Hs (l & -> & Hl & Hc). destruct (Hc h eq_refl) as (before & said & ->). exists (before ++ [(h', said ++ new)]). split_and!.
  - rewrite !fmap_app, !concat_app. cbn. by rewrite !app_nil_r, <- (assoc_L (++)).
  - apply Forall_app in Hl as [Hb Hl]. apply Forall_app. split; [done|]. apply Forall_singleton in Hl as (cfg & srv & t0 & i & ? & Hr).
    apply Forall_singleton. exists cfg, srv, t0, i. split; [done|]. eapply rtc_r; [exact Hr|]. apply Hs.
  - intros ? [= <-]. by eexists _, _.
Qed.

(** A call of the worker is a step of the handler. *)
Lemma call_step interface c h s said :
  run_call ephemeral os_error interface fuel c (mkUState h no_ops []) = (Done tt, s) ->
  uring_step ephemeral os_error (h, said) (u_handler s, said ++ u_events s).
Proof.
  intros E. pose proof (framed_call ephemeral os_error interface fuel c h no_ops said) as Hf. rewrite E in Hf.
  exact (uring_called ephemeral os_error interface fuel c h said _ Hf).
Qed.

Lemma method_step interface c h h' ops events said :
  method (fun i => run_call ephemeral os_error i fuel c) interface h = Some (h', ops, events) ->
  uring_step ephemeral os_error (h, said) (h', said ++ events).
Proof.
  unfold method, returned. destruct (run_call _ _ _ _ _ _) as [[[]|?| |] s] eqn:E; cbn; try done. intros [= <- <- <-].
  by eapply call_step.
Qed.

#[local] Existing Instance zmtp_handler.

Lemma handler_method_step interface m h h' ops events said :
  handler_method m -> m interface h = Some (h', ops, events) -> uring_step ephemeral os_error (h, said) (h', said ++ events).
Proof.
  intros [data|res| |parts|]; [apply (method_step interface (CallRead data))|apply (method_step interface (CallCompletion res))
    |apply (method_step interface CallPrepare)|apply (method_step interface (CallSend (AppParts parts)))
    |apply (method_step interface CallClose)].
Qed.

Lemma delegate_step cqe borrow interface h h' events r said :
  delegate_cqe_to_multishot_reader cqe borrow interface h = Some (h', events, r) ->
  uring_step ephemeral os_error (h, said) (h', said ++ events).
Proof.
  cbn. unfold returned. destruct (Uring.delegate_cqe_to_multishot_reader _ _ _ _ _ _) as [[a|?| |] s] eqn:E; cbn; try done.
  intros [= <- <- _]. apply (call_step interface (CallMultishot cqe borrow)).
  cbn. unfold mbind, Uring.U_bind. by rewrite E.
Qed.

Lemma inform_step ud is_cancel target h said :
  uring_step ephemeral os_error (h, said) (inform_multishot_reader_op_submitted ud is_cancel target h, said).
Proof.
  rewrite <- (app_nil_r said) at 2. by apply (call_step (mkInterface true None 0 0) (CallSubmitted ud is_cancel target) h).
Qed.

(** ** The code of the worker *)

Variable env : Round.
Abbreviation Wz := (UringWorker ZmtpUringHandler).
Abbreviation hoare := (whoare (H := ZmtpUringHandler)).
Abbreviation keeping := (wkeeps (H := ZmtpUringHandler)).

Definition allowed (m : gmap Z ExternalOpContext) : Prop :=
  forall ud ctx cfg, m !! ud = Some ctx -> protocol_config ctx = Some cfg -> C cfg.

Record speaks (w : Wz) : Prop := {
  speaks_factories : factories w = zmtp_factories;
  speaks_operations : allowed (external_op_tracker w);
  speaks_listeners : map_Forall (fun _ x => C x.2) (listener_metadata w);
  speaks_sessions : forall fd, spoken fd (handlers w !! fd) (upstream fd (trace w));
}.

Lemma speaks_core w w' : core w' = core w -> speaks w -> speaks w'.
Proof. intros [= _ E1 E2 E3 E4 _ _ _ _ E5] []. split; by rewrite ?E1, ?E2, ?E3, ?E4, ?E5. Qed.

Lemma allowed_delete m ud : allowed m -> allowed (delete ud m).
Proof. intros Hm ud' ctx cfg [_ Hl]%lookup_delete_Some. by apply (Hm ud'). Qed.

Lemma spoken_quiet (hs : gmap Z ZmtpUringHandler) tr tr' :
  (forall fd, upstream fd tr' = []) -> (forall fd, spoken fd (hs !! fd) (upstream fd tr)) ->
  forall fd, spoken fd (hs !! fd) (upstream fd (tr ++ tr')).
Proof. intros Ht Hs fd. by rewrite upstream_app, Ht, app_nil_r. Qed.

(** A handler has been called. *)
Lemma spoken_called (hs : gmap Z ZmtpUringHandler) tr fd h h' events quiet :
  hs !! fd = Some h -> (forall said, uring_step ephemeral os_error (h, said) (h', said ++ events)) ->
  (forall fd, upstream fd quiet = []) -> (forall fd, spoken fd (hs !! fd) (upstream fd tr)) ->
  forall fd', spoken fd' (<[fd := h']> hs !! fd') (upstream fd' (tr ++ (Upstream fd <$> events) ++ quiet)).
Proof.
  intros Hl Hstep Hq Hs fd'. rewrite !upstream_app, upstream_events, Hq, app_nil_r.
  destruct (Z.eqb_spec fd fd') as [<-|Hne].
  - rewrite lookup_insert_eq. eapply spoken_said; [exact Hstep|]. rewrite <- Hl. apply Hs.
  - rewrite lookup_insert_ne, app_nil_r by done. apply Hs.
Qed.

(** Changes that are not about handlers. *)
Ltac speaks_leaf := idtac;
  match goal with
  | |- wkeeps speaks (modify _) =>
      apply whoare_modify; intros ? [? ? ? ?]; split; cbn;
      first [assumption | apply allowed_delete; assumption | apply map_Forall_delete; assumption
            | apply spoken_quiet; [reflexivity | assumption]]
  | |- wkeeps speaks (emit _) =>
      apply whoare_modify; intros ? [? ? ? ?]; split; cbn;
      first [assumption | apply spoken_quiet; [reflexivity | assumption]]
  end.

Lemma speaks_push entry : keeping speaks (push entry).
Proof. unfold push. wkeeps_walk ltac:(speaks_leaf). Qed.

Lemma speaks_queue_op fd ty p op : keeping speaks (queue_op fd ty p op).
Proof. unfold queue_op, take_op_details, new_op_id. wkeeps_walk ltac:(first [speaks_leaf | apply speaks_push]). Qed.

Lemma ready_start interface fd cfg is_server t0 :
  exists ops, connection_ready interface (Uring.new fd cfg is_server t0) = Some (uring_start fd cfg is_server t0 interface, ops, []).
Proof.
  cbn -[Uring.new Uring.connection_ready uring_start]. unfold method, returned, uring_start, Uring.connection_ready, mbind, Uring.U_bind,
    Uring.set, Uring.push, Uring.set_ops, Uring.set_phase. cbn. by eexists.
Qed.

Lemma speaks_create fd factory_id config is_server ud :
  C config -> keeping speaks (create_and_add_handler env fd factory_id config is_server ud).
Proof.
  intros Hc w [Hf Ho Hl Hs]. unfold create_and_add_handler, mbind, W_bind, get.
  destruct (handlers w !! fd) as [h|] eqn:E; [by rewrite bool_decide_eq_true_2|].
  rewrite bool_decide_eq_false_2 by (by intros [? [=]]). rewrite Hf. unfold zmtp_factories.
  destruct (_ !! factory_id) as [create|] eqn:Ef; [|done]. apply lookup_singleton_Some in Ef as [_ <-].
  destruct config as [cfg]. cbn [create_handler]. destruct (ready_start (interface env ud w) fd cfg is_server (now env)) as [ops Er].
  rewrite Er. split; [exact Hf|exact Ho|exact Hl|]. apply spoken_quiet; [done|]. intros fd'. cbn.
  specialize (Hs fd'). destruct (decide (fd = fd')) as [<-|Hne]; [|by rewrite lookup_insert_ne].
  rewrite lookup_insert_eq. rewrite E in Hs. by eapply spoken_new.
Qed.

Lemma speaks_call fd ud m : handler_method m -> keeping speaks (call env fd ud m).
Proof.
  intros Hm w [Hf Ho Hl Hs]. unfold call, mbind, W_bind, get. destruct (handlers w !! fd) as [h|] eqn:E; [|done].
  destruct (m (interface env ud w) h) as [[[h' ops] events]|] eqn:Em; cbn; [|done].
  split; [exact Hf|exact Ho|exact Hl|]. apply (spoken_called _ _ fd h); [done| |done|done].
  intros said. by eapply handler_method_step.
Qed.

Lemma speaks_inform fd ud is_cancel target : keeping speaks (inform_handler fd ud is_cancel target).
Proof.
  apply whoare_modify. intros w [Hf Ho Hl Hs]. split; [exact Hf|exact Ho|exact Hl|]. intros fd'. specialize (Hs fd'). cbn.
  destruct (decide (fd = fd')) as [<-|Hne]; [|by rewrite lookup_alter_ne]. rewrite lookup_alter_eq.
  destruct (handlers w !! fd) as [h|]; [|done]. rewrite <- (app_nil_r (upstream fd (trace w))). eapply spoken_said; [|exact Hs].
  intros said. rewrite app_nil_r. apply (inform_step ud is_cancel target h).
Qed.

Lemma speaks_blueprint fd bp : keeping speaks (process_blueprint fd bp).
Proof.
  unfold process_blueprint, app_op_name_of, acquire_buffer.
  wkeeps_walk ltac:(first [apply speaks_queue_op | apply speaks_inform | speaks_leaf]).
Qed.

Lemma speaks_collect fd ops : keeping speaks (collect fd ops).
Proof. unfold collect, needs_close. wkeeps_walk ltac:(speaks_leaf). Qed.

Lemma speaks_collect_call fd ud m : handler_method m -> keeping speaks (collect_call env fd ud m).
Proof. intros Hm. unfold collect_call. wkeeps_walk ltac:(first [apply speaks_call; exact Hm | apply speaks_collect]). Qed.

Lemma speaks_delegate d c : keeping speaks (delegate env d c).
Proof.
  apply whoare_get. intros w0. destruct (handlers w0 !! op_fd d) as [h|] eqn:E; [|apply whoare_ret; by intros w []].
  eapply (whoare_bind _ _ _ (fun _ w => w = w0 /\ speaks w)); [by apply whoare_expect|]. intros _.
  eapply (whoare_bind _ _ _ (fun r w => _ = Some r /\ w = w0 /\ speaks w)); [by apply whoare_expect|]. intros [[h' events] r].
  apply (whoare_bind _ _ _ (fun _ => speaks)).
  - apply whoare_modify. intros w (Em & -> & [Hf Ho Hl Hs]). split; [exact Hf|exact Ho|exact Hl|]. cbn.
    rewrite <- (app_nil_r (Upstream _ <$> events)). apply (spoken_called _ _ (op_fd d) h); [done| |done|done].
    intros said. by eapply delegate_step.
  - intros _. to_keeps. unfold needs_close, take_op_details. wkeeps_walk ltac:(first [apply speaks_collect | speaks_leaf]).
Qed.

(** *** Requests *)

Lemma speaks_add ud ctx : (forall cfg, protocol_config ctx = Some cfg -> C cfg) -> keeping speaks (add_op ud ctx).
Proof.
  intros Hc. apply whoare_modify. intros w [Hf Ho Hl Hs]. split; [exact Hf| |exact Hl|exact Hs].
  cbn. intros ud' ctx' cfg [[<- <-]|[_ Hm]]%lookup_insert_Some; [apply Hc|by apply (Ho ud')].
Qed.

Definition config_of (r : UringOpRequest) : option ProtocolConfig :=
  match r with
  | Listen _ _ _ config _ | Connect _ _ _ config _ | RegisterExternalFd _ _ _ config _ _ _ => Some config
  | _ => None
  end.

Lemma speaks_request r : (forall cfg, config_of r = Some cfg -> C cfg) -> keeping speaks (process_external_op_request env r).
Proof.
  intros Hc. unfold process_external_op_request, register_external_fd, queue_external, push_initial, push_batch, needs_close,
    take_op, close_fd, reply.
  wkeeps_walk ltac:(first [speaks_leaf | apply speaks_push | apply speaks_create; by apply Hc
    | apply speaks_add; cbn; intros ? [= <-]; by apply Hc | apply speaks_add; by intros ? [=]]).
Qed.

(** *** Completions *)

Lemma speaks_accept shutting_down listener res : keeping speaks (accept_completed env shutting_down listener res).
Proof.
  unfold accept_completed. destruct (res <? 0); [by apply whoare_ret|]. apply whoare_get. intros w0.
  apply (whoare_bind _ _ _ (fun _ => speaks)).
  - destruct (listener_metadata w0 !! listener) as [[fid cfg]|] eqn:E.
    + eapply (whoare_conseq (fun w => C cfg /\ speaks w) _ _ (fun _ => speaks)); [|intros w [-> Hs]; split; [|done]|done].
      * apply whoare_pure. intros Hc. to_keeps. unfold close_fd.
        wkeeps_walk ltac:(first [apply speaks_create; exact Hc | apply speaks_collect | speaks_leaf]).
      * exact (speaks_listeners _ Hs _ _ E).
    + unfold close_fd. eapply (whoare_conseq speaks _ _ (fun _ => speaks)); [|by intros w []|done]. to_keeps. wkeeps_walk ltac:(speaks_leaf).
  - intros work. to_keeps. unfold needs_close. wkeeps_walk ltac:(first [apply speaks_queue_op | speaks_leaf]).
Qed.

Lemma speaks_closed fd :
  keeping speaks (modify (fun w => w <| listener_metadata := delete fd (listener_metadata w) |> <| handlers := delete fd (handlers w) |>)).
Proof.
  apply whoare_modify. intros w [Hf Ho Hl Hs]. split; [exact Hf|exact Ho|by apply map_Forall_delete|]. cbn. intros fd'.
  specialize (Hs fd'). destruct (decide (fd = fd')) as [<-|Hne]; [|by rewrite lookup_delete_ne].
  rewrite lookup_delete_eq. by eapply spoken_gone.
Qed.

Lemma speaks_acknowledge n fd : keeping speaks (acknowledge_shutdowns n fd).
Proof.
  induction n as [|n IH]; cbn [acknowledge_shutdowns]; unfold take_op, reply; wkeeps_walk ltac:(first [speaks_leaf | apply IH]).
Qed.

Lemma speaks_final shutting_down d c : keeping speaks (final_processing env shutting_down d c).
Proof.
  unfold final_processing, close_completed, send_completed, read_completed, needs_close.
  wkeeps_walk ltac:(first [apply speaks_accept | apply speaks_closed | speaks_leaf | apply speaks_acknowledge
    | apply speaks_collect_call; constructor | apply speaks_collect]).
Qed.

Lemma speaks_take ud :
  hoare speaks (take_op ud) (fun o w => (forall ctx cfg, o = Some ctx -> protocol_config ctx = Some cfg -> C cfg) /\ speaks w).
Proof.
  apply whoare_get. intros w0. eapply (whoare_bind _ _ _ (fun _ w => allowed (external_op_tracker w0) /\ speaks w)).
  - apply whoare_modify. intros w [-> [Hf Ho Hl Hs]]. split; [exact Ho|]. split; [exact Hf|by apply allowed_delete|exact Hl|exact Hs].
  - intros _. apply whoare_ret. intros w [Ho Hs]. split; [|done]. intros ctx cfg. apply Ho.
Qed.

Lemma speaks_external ud res ctx :
  (forall cfg, protocol_config ctx = Some cfg -> C cfg) -> keeping speaks (external_completed env ud res ctx).
Proof.
  intros Hc. unfold external_completed, connect_completed, close_fd, reply. apply wkeeps_bind; [|intros []; wkeeps_walk ltac:(speaks_leaf)].
  destruct (res <? 0); [wkeeps_walk ltac:(speaks_leaf)|]. destruct (bool_decide _); [|wkeeps_walk ltac:(fail)].
  apply wkeeps_bind; [wkeeps_walk ltac:(fail)|]. intros fd. destruct (default _ _). destruct (protocol_handler_factory_id ctx); [|by apply whoare_ret].
  eapply (whoare_bind _ _ _ (fun cfg w => C cfg /\ speaks w)); [by apply whoare_expect; intros cfg w E Hs; split; [apply Hc|]|].
  intros cfg. apply whoare_pure. intros Hcfg. to_keeps.
  wkeeps_walk ltac:(first [apply speaks_create; exact Hcfg | apply speaks_collect | speaks_leaf]).
Qed.

Lemma speaks_cqe shutting_down c : keeping speaks (process_cqe env shutting_down c).
Proof.
  apply whoare_read. intros w0. destruct (Poller.handle_cqe_if_matches _ _ _ _) as [[poller t] handled].
  keep_then; [wkeeps_walk ltac:(speaks_leaf)|]. unfold take_op_details.
  destruct handled; [to_keeps; wkeeps_walk ltac:(speaks_leaf)|].
  eapply whoare_bind; [apply speaks_take|]. intros o. apply whoare_pure. intros Hc. to_keeps. destruct o as [ctx|].
  - apply speaks_external. intros cfg. by apply Hc.
  - unfold internal_completed, take_op_details.
    wkeeps_walk ltac:(first [apply speaks_delegate | speaks_leaf | apply speaks_final]).
Qed.

(** *** The loop *)

Lemma speaks_running :
  (forall r cfg, r ∈ requests env -> config_of r = Some cfg -> C cfg) -> keeping speaks (running_turn env).
Proof.
  intros Hc. apply (phase_running env speaks); eauto using speaks_core, speaks_call, speaks_blueprint, speaks_cqe, speaks_queue_op.
  - revert Hc. generalize (requests env). intros l. induction l as [|r l IH]; intros Hc; cbn [for_each]; [by apply whoare_ret|].
    apply wkeeps_bind; [apply speaks_request|intros _; apply IH]; set_solver.
  - intros w e [Hf Ho Hl Hs]. by split.
Qed.

Lemma upstream_replies {A} fd (f : A -> Z * result UringOpCompletion) l : upstream fd ((fun x => Replied (f x).1 (f x).2) <$> l) = [].
Proof. by induction l. Qed.

Lemma speaks_after_loop : keeping speaks after_loop.
Proof.
  apply whoare_read. intros w0. apply whoare_modify. intros w [Hf Ho Hl Hs]. split; [exact Hf|by intros ???|exact Hl|].
  apply spoken_quiet; [|exact Hs]. intros fd.
  apply (upstream_replies fd (fun ctx => (reply_tx ctx, Err (Internal "UringWorker shutting down")))).
Qed.

Lemma speaks_turn w w' :
  (forall r cfg, r ∈ taken env w -> config_of r = Some cfg -> C cfg) -> speaks w -> turn env w = Some (tt, w') -> speaks w'.
Proof.
  intros Hc Hs Ht. apply (turn_rule env speaks (fun _ => speaks) w); [done..| | | | |apply speaks_after_loop].
  { intros Et. apply speaks_running. by rewrite <- Et. }
  all: to_keeps; unfold transition_to_draining, draining_turn, cleaning_turn, submitted.
  all: wkeeps_walk ltac:(first [speaks_leaf | eapply phase_cancel; eauto using speaks_push
    | eapply phase_all_cqes; eauto using speaks_cqe]).
Qed.

End Zmtp.

(** Every run of a worker with ZMTP handlers. *)
Lemma worker_speaks `{HD : Dryoc} `{HS : Snow} e os fuel (C : ProtocolConfig -> Prop) config sq_entries event_fd registered
  ring_built (w : UringWorker ZmtpUringHandler) rs :
  rtc (worker_step (H0 := zmtp_handler e os fuel))
    (spawn_with_config config sq_entries zmtp_factories event_fd registered ring_built, []) (w, rs) ->
  (forall r cfg, r ∈ rs -> config_of r = Some cfg -> C cfg) -> speaks e os C w.
Proof.
  intros Hrun.
  refine (rtc_invariant worker_step (fun x => (forall r cfg, r ∈ x.2 -> config_of r = Some cfg -> C cfg) -> speaks e os C x.1) _ (w, rs) Hrun _ _).
  - intros _. split; [done|by intros ???|by intros ??|]. cbn. intros fd. by exists [].
  - intros [w1 rs1] [w2 rs2] Hi Hs. inv Hs as [env ???? E|]; cbn in *.
    + intros Hc. eapply speaks_turn; [|apply Hi|exact E]; intros r cfg Hr; apply Hc; set_solver.
    + intros Hc. destruct (Hi Hc). by split.
Qed.


(** ** A run *)

Fixpoint run_turns `{UringConnectionHandler H} (envs : list Round) (x : UringWorker H * list UringOpRequest)
  : UringWorker H * list UringOpRequest :=
  match envs with
  | [] => x
  | env :: envs =>
      match loop_result x.1, turn env x.1 with
      | None, Some (_, w') => run_turns envs (w', x.2 ++ taken env x.1)
      | _, _ => x
      end
  end.

Lemma run_turns_steps `{UringConnectionHandler H} envs x : rtc worker_step x (run_turns envs x).
Proof.
  revert x. induction envs as [|env envs IH]; intros [w rs]; [apply rtc_refl|]. cbn [run_turns fst snd].
  destruct (loop_result w) eqn:El; [apply rtc_refl|]. destruct (turn env w) as [[[] w']|] eqn:Et; [|apply rtc_refl].
  eapply rtc_l; [by apply worker_turned|]. apply IH.
Qed.

(** A ring with two send buffers, and a PLAIN server that sends large messages from
    them. *)
Definition ring_config : UringConfig := mkUringConfig 64 true false 4 4096 2 4096.
Definition zc_server : SocketOptions := strict_server <| io_uring := mkIOURing true false true |>.
Definition zc_config : ProtocolConfig := Zmtp (engine_config zc_server).

Definition round (rs : list UringOpRequest) (app : list (list Msg)) (cqes : list Completion) : Round :=
  mkRound 0 true false rs (fun _ => app) (fun l => l) (fun _ => None) (fun _ => 9) ConnectionClosed (fun _ => ConnectionClosed)
    (fun _ => None) false (Submitted 64) cqes (fun _ => true).
Definition sent (ud n : Z) : Completion := mkCompletion (mkCqe ud n None false) false (fun _ _ => None).
Definition arrived (ud : Z) (data : bytes) : Completion :=
  mkCompletion (mkCqe ud (zlen data) (Some 0) false) false (fun _ _ => Some data).

(** The descriptor 7 is registered, its peer shakes hands, the application sends a
    message of 1100 octets, and more requests and a message of the peer arrive. *)
Definition rounds : list Round :=
  [round [RegisterExternalFd 1 7 "zmtp-uring/3.1" zc_config true 100 200] [] [];
   round [] [] [sent 1000000001 11; arrived 1000000002 plain_peer_octets];
   round [] [] [sent 1000000004 53]; round [] [] [sent 1000000005 8]; round [] [] [sent 1000000006 8];
   round [] [[Msg.from_vec (repeat Byte.x61 1100)]] [];
   round [Nop 2 101; Connect 3 "peer" "zmtp-uring/3.1" zc_config 102; StartFdReadLoop 4 7 103;
          Listen 5 "here" "zmtp-uring/3.1" zc_config 104] [] [sent 2 0; arrived 1000000007 hello_frame]].

Abbreviation toy_handler := (zmtp_handler (HD := toy_dryoc) (HS := toy_snow) [] (fun _ => ConnectionClosed) 20).
Abbreviation toy_factories := (zmtp_factories (HS := toy_snow)).
Abbreviation toy_worker := (spawn_with_config ring_config 64 toy_factories 3 true true).

Definition server_run := run_turns (H0 := toy_handler) rounds (toy_worker, []).

Lemma server_reached : rtc (worker_step (H0 := toy_handler)) (toy_worker, []) (server_run.1, server_run.2).
Proof. rewrite <- surjective_pairing. apply (run_turns_steps (H0 := toy_handler)). Qed.

Lemma server_events : upstream 7 (trace server_run.1) = [HandshakeComplete (Some (bs "u")); Data (mkMsg (Some (bs "hello")) 0)].
Proof. vm_compute. reflexivity. Qed.

Lemma worker_keeps_order_witness :
  length (queued 7 (trace server_run.1)) = 5%nat /\
  exists dropped, asked 7 (trace server_run.1) = queued 7 (trace server_run.1) ++ pending server_run.1 7 ++ dropped.
Proof.
  split; [vm_compute; reflexivity|].
  destruct (worker_keeps_order ZmtpUringHandler toy_handler ring_config 64 toy_factories 3 true true server_run.1 server_run.2 7
    server_reached) as (dropped & E & _). exists dropped. exact E.
Defined.

Lemma buffers_in_flight_witness :
  exists p slot, send_buffer_pool server_run.1 = Some p /\ pool p !! 0%nat = Some slot /\ in_kernel_use slot = true.
Proof.
  destruct (buffers_in_flight ZmtpUringHandler toy_handler ring_config 64 toy_factories 3 true true server_run.1 server_run.2
    1000000008 7 0 0 "UnknownAppOpSendZC") as (_ & p & slot & Hp & Hs & Hu & _);
    [vm_compute; discriminate|exact server_reached|vm_compute; reflexivity|].
  exists p, slot. split; [exact Hp|split; [exact Hs|exact Hu]].
Defined.

Lemma worker_answers_witness :
  answers (trace server_run.1) = [100; 103; 101] /\ waiting (external_op_tracker server_run.1) = [102] /\
  exists lost, lost ⊆+ listens server_run.2.
Proof.
  split; [vm_compute; reflexivity|]. split; [vm_compute; reflexivity|].
  destruct (worker_answers ZmtpUringHandler toy_handler ring_config 64 toy_factories 3 true true server_run.1 server_run.2
    server_reached) as [(lost & Hl & _) _]; [apply (bool_decide_unpack _); vm_compute; exact I|]. exists lost. exact Hl.
Defined.

