(* ===== verification/Transport.v ===== *)
(** Endpoints and transports ([core/src/transport/{endpoint,tcp}.rs]): endpoint
    strings, and which connection errors are final. *)

From S2P Require Import Prelude Error.
From Stdlib Require Import Strings.Ascii.

(** ** Endpoint strings *)

Inductive Endpoint :=
  | Tcp (address uri : string)
  | Ipc (path uri : string)
  | Inproc (name : string).

(** [s.contains('\0')]. *)
Definition contains_nul (s : string) : bool :=
  match String.index 0 (String (Ascii.ascii_of_nat 0) EmptyString) s with Some _ => true | None => false end.

(** [s.strip_prefix(p)]. *)
Fixpoint strip_prefix (p s : string) : option string :=
  match p, s with
  | EmptyString, s => Some s
  | String a p, String b s => if bool_decide (a = b) then strip_prefix p s else None
  | String _ _, EmptyString => None
  end.

(** [s.find("://")] and the slices around it: the first separator counts. *)
Fixpoint split_scheme (s : string) : option (string * string) :=
  match strip_prefix "://" s with
  | Some address_part => Some (EmptyString, address_part)
  | None =>
      match s with
      | EmptyString => None
      | String a s => (fun '(scheme, address_part) => (String a scheme, address_part)) <$> split_scheme s
      end
  end.

Definition parse_endpoint (endpoint_str : string) : result Endpoint :=
  match split_scheme endpoint_str with
  | Some (scheme, address_part) =>
      if bool_decide (scheme = "tcp"%string) then
        if bool_decide (address_part = EmptyString) then Err (InvalidEndpoint endpoint_str)
        else Ok (Tcp address_part endpoint_str)
      else if bool_decide (scheme = "ipc"%string) then
        if bool_decide (address_part = EmptyString) || contains_nul address_part then Err (InvalidEndpoint endpoint_str)
        else Ok (Ipc address_part endpoint_str)
      else if bool_decide (scheme = "inproc"%string) then
        if bool_decide (address_part = EmptyString) || contains_nul address_part then Err (InvalidEndpoint endpoint_str)
        else Ok (Inproc address_part)
      else Err (UnsupportedTransport endpoint_str)
  | None => Err (InvalidEndpoint endpoint_str)
  end.

(** ** Errors that end the attempts to connect *)

Definition is_fatal_connect_error (e : ZmqError) : bool :=
  match e with
  | IoError kind _ =>
      match kind with
      | KAddrNotAvailable | KAddrInUse | KPermissionDenied => true
      | KOther text => bool_decide (text = "invalid input parameter"%string)   (** [ErrorKind::InvalidInput] *)
      | _ => false
      end
  | InvalidEndpoint _ | UnsupportedTransport _ => true
  | DnsResolutionFailed _ => true
  | SecurityError _ | AuthenticationFailure _ | ProtocolViolation _ => false
  | _ => false
  end.

(** ** Lemmas *)

Lemma string_app_cons a p s : (String a p +:+ s = String a (p +:+ s))%string.
Proof. done. Qed.

Lemma strip_prefix_app p s : strip_prefix p (p +:+ s) = Some s.
Proof. induction p as [|a p IH]; [by destruct s|]. rewrite string_app_cons. cbn [strip_prefix]. by rewrite bool_decide_true. Qed.

Lemma strip_prefix_sound p s s' : strip_prefix p s = Some s' -> s = (p +:+ s')%string.
Proof.
  revert s. induction p as [|a p IH]; intros s; [destruct s; by intros [= <-]|].
  destruct s as [|b s]; [done|]. cbn [strip_prefix]. case_bool_decide; [subst b|done]. intros Hs. rewrite string_app_cons. by rewrite (IH _ Hs).
Qed.

Lemma split_scheme_cons a s :
  strip_prefix "://" (String a s) = None ->
  split_scheme (String a s) = (fun '(scheme, address) => (String a scheme, address)) <$> split_scheme s.
Proof. cbn [split_scheme]. by intros ->. Qed.

Lemma split_scheme_here s : split_scheme ("://" +:+ s) = Some (EmptyString, s).
Proof. pose proof (strip_prefix_app "://" s) as E. destruct ("://" +:+ s)%string; cbn [split_scheme]; by rewrite E. Qed.

Lemma split_scheme_known scheme address :
  Forall (fun a => a <> ":"%char) (String.list_ascii_of_string scheme) ->
  split_scheme (scheme +:+ "://" +:+ address) = Some (scheme, address).
Proof.
  induction scheme as [|a scheme IH]; intros Hc; [apply split_scheme_here|].
  apply Forall_cons in Hc as [Ha Hc]. rewrite string_app_cons, split_scheme_cons.
  - by rewrite IH.
  - cbn [strip_prefix]. by rewrite bool_decide_false.
Qed.

(** The scheme ends at the first separator. *)
Lemma split_scheme_sound s scheme address :
  split_scheme s = Some (scheme, address) -> s = (scheme +:+ "://" +:+ address)%string.
Proof.
  revert scheme. induction s as [|a s IH]; intros scheme; [done|]. cbn [split_scheme].
  destruct (strip_prefix "://" (String a s)) as [s'|] eqn:E.
  - apply strip_prefix_sound in E. rewrite E. by intros [= <- <-].
  - destruct (split_scheme s) as [[sc ad]|]; [|done]. cbn. intros [= <- <-]. rewrite string_app_cons. by rewrite <- (IH sc eq_refl).
Qed.

(** What an endpoint string means. *)
Definition endpoint_text (e : Endpoint) : string :=
  match e with
  | Tcp address _ => "tcp://" +:+ address
  | Ipc path _ => "ipc://" +:+ path
  | Inproc name => "inproc://" +:+ name
  end.

Definition endpoint_wf (e : Endpoint) : Prop :=
  match e with
  | Tcp address uri => address <> EmptyString /\ uri = endpoint_text e
  | Ipc path uri => path <> EmptyString /\ contains_nul path = false /\ uri = endpoint_text e
  | Inproc name => name <> EmptyString /\ contains_nul name = false
  end.

(** The parser accepts exactly the texts of well-formed endpoints. *)
Lemma parse_endpoint_iff s e : parse_endpoint s = Ok e <-> s = endpoint_text e /\ endpoint_wf e.
Proof.
  split.
  - unfold parse_endpoint. destruct (split_scheme s) as [[scheme address]|] eqn:E; [|done].
    apply split_scheme_sound in E. repeat case_bool_decide; try done; subst scheme;
      try (destruct (contains_nul address) eqn:En; [done|]); intros [= <-]; by subst s.
  - intros [-> Hw]. destruct e as [address uri|path uri|name]; cbn [endpoint_wf endpoint_text] in *; unfold parse_endpoint.
    + destruct Hw as [Hne ->]. change ("tcp://" +:+ address)%string with ("tcp" +:+ "://" +:+ address)%string.
      rewrite (split_scheme_known "tcp") by by repeat constructor.
      rewrite bool_decide_true by done. by rewrite bool_decide_false.
    + destruct Hw as (Hne & Hn & ->). change ("ipc://" +:+ path)%string with ("ipc" +:+ "://" +:+ path)%string.
      rewrite (split_scheme_known "ipc") by by repeat constructor.
      rewrite bool_decide_false, bool_decide_true by done. by rewrite bool_decide_false, Hn.
    + destruct Hw as (Hne & Hn). change ("inproc://" +:+ name)%string with ("inproc" +:+ "://" +:+ name)%string.
      rewrite (split_scheme_known "inproc") by by repeat constructor.
      rewrite !(bool_decide_false ("inproc"%string = _)), bool_decide_true by done. by rewrite bool_decide_false, Hn.
Qed.
