(* ===== verification/SocketCore.v ===== *)
(** The core of a socket ([core/src/socket/core/*.rs], the ends of inproc connections
    in [core/src/transport/inproc.rs]): the actor that owns the endpoints of a socket,
    obeys the application, listens to the event bus, reconnects and shuts down.

    The actor handles one command, event or tick to its end; a handler is a function
    on the state.  What the handlers find outside is an [Env]: the time, which
    mailboxes are open, what the listeners they start report, which tasks are
    finished and which channels are empty.  What they do outside is a list of
    [Effect]s.  The socket type is a class; the ids of the pipes it was told of and
    not told to drop are kept in [attached].  Sending ends, tasks and mailboxes are
    named by numbers, the sending end of a data channel by the id of its pipe.  The
    order in which a hash map is iterated is a parameter.  This is the build without
    the io-uring feature. *)

From S2P Require Import Prelude Error Message Options Queue Tasks Runtime Session Transport.
From S2P Require Endpoints.
Import Endpoints(ShutdownPhase(..)).
#[export] Existing Instance Endpoints.ShutdownPhase_eq_dec.

(** ** State *)

Inductive SocketType := Pub | Sub | Req | Rep | Dealer | Router | Push | Pull.

(** [socket_type as i32]. *)
Definition type_number (t : SocketType) : Z :=
  match t with Pub => 0 | Sub => 1 | Req => 2 | Rep => 3 | Dealer => 4 | Router => 5 | Push => 6 | Pull => 7 end.

(** [format!("{:?}", socket_type).to_uppercase()]. *)
Definition type_name (t : SocketType) : string :=
  match t with
  | Pub => "PUB" | Sub => "SUB" | Req => "REQ" | Rep => "REP"
  | Dealer => "DEALER" | Router => "ROUTER" | Push => "PUSH" | Pull => "PULL"
  end.

Inductive EndpointType := Listener | SessionEndpoint.

#[export] Instance EndpointType_eq_dec : EqDecision EndpointType.
Proof. solve_decision. Defined.

(** The implementations of [ISocketConnection]. *)
Inductive Iface :=
  | DummyConnection
  | ScaIface (sca_stop_mailbox sca_handle_id pipe_write_id_to_sca : Z)
  | InprocConnection (connection_id local_pipe_write_id_to_peer local_pipe_read_id_from_peer : Z)
      (peer_inproc_name_or_uri : string) (monitor_tx : option Z).

Record EndpointInfo := mkEndpointInfo {
  ep_mailbox : Z;
  task_handle : option Z;
  endpoint_type : EndpointType;
  endpoint_uri : string;
  pipe_ids : option (Z * Z);
  handle_id : Z;
  target_endpoint_uri : option string;
  is_outbound_connection : bool;
  peer_type : option bytes;
  connection_iface : Iface;
}.

#[export] Instance EndpointInfo_eta : Eta EndpointInfo := fun i =>
  mkEndpointInfo (ep_mailbox i) (task_handle i) (endpoint_type i) (endpoint_uri i) (pipe_ids i) (handle_id i)
    (target_endpoint_uri i) (is_outbound_connection i) (peer_type i) (connection_iface i).

Record ReconnectState := mkReconnect { current_attempts : Z; next_attempt_at : option Z }.

Module ReconnectState.

Definition initial : ReconnectState := mkReconnect 0 None.

Definition on_connection_success (s : ReconnectState) : ReconnectState := mkReconnect 0 None.

(** [Duration::MAX], in nanoseconds. *)
Definition MAX_DURATION : Duration := (2 ^ 64 - 1) * 1000000000 + 999999999.

Definition on_connection_failure (now : Z) (base_ivl max_ivl : Duration) (s : ReconnectState) : ReconnectState * Duration :=
  let multiplier := Z.min (2 ^ Z.min (current_attempts s) 31) (2 ^ 32 - 1) in
  let delay := Z.min (base_ivl * multiplier) MAX_DURATION in
  let delay := if 0 <? max_ivl then Z.min delay max_ivl else delay in
  (mkReconnect (Z.min (current_attempts s + 1) (2 ^ 32 - 1)) (Some (now + delay)), delay).

Definition is_due (now : Z) (s : ReconnectState) : bool :=
  match next_attempt_at s with Some time => time <=? now | None => false end.

End ReconnectState.

Record CoreState := mkCoreState {
  cs_handle : Z;
  options : SocketOptions;
  socket_type : SocketType;
  pipes_tx : gmap Z Z;
  pipe_reader_task_handles : gmap Z Z;
  endpoints : gmap string EndpointInfo;
  reconnect_states : gmap string ReconnectState;
  pipe_read_id_to_endpoint_uri : gmap Z string;
  bound_inproc_names : gset string;
  cs_monitor_tx : option Z;
  last_bound_endpoint : option string;
}.

#[export] Instance CoreState_eta : Eta CoreState := fun s =>
  mkCoreState (cs_handle s) (options s) (socket_type s) (pipes_tx s) (pipe_reader_task_handles s) (endpoints s)
    (reconnect_states s) (pipe_read_id_to_endpoint_uri s) (bound_inproc_names s) (cs_monitor_tx s) (last_bound_endpoint s).

Record ShutdownCoordinator := mkCoordinator {
  state : ShutdownPhase;
  pending_child_actors : gmap Z string;
  pending_connections_to_close : gmap Z (string * Iface);
  inproc_connections_to_cleanup : list (Z * Z * string);
  linger_deadline : option Z;
}.

#[export] Instance ShutdownCoordinator_eta : Eta ShutdownCoordinator := fun c =>
  mkCoordinator (state c) (pending_child_actors c) (pending_connections_to_close c) (inproc_connections_to_cleanup c)
    (linger_deadline c).

(** ** The world outside *)

Record Env := mkEnv {
  e_now : Z;
  mailbox_open : Z -> bool;
  send_error_text : string;
  (** [create_and_spawn] of a listener: its mailbox, its task and the resolved uri. *)
  listener : string -> result (Z * Z * string);
  is_finished : Z -> bool;
  pipe_empty : Z -> bool;
  bus_open : bool;
  logic_alive : bool;
}.

Inductive Effect `{Fibre} :=
  | SentTo (mailbox : Z) (command : Command)
  | Replied (reply_tx : Z) (r : result unit)
  | RepliedMsg (reply_tx : Z) (r : result Msg)
  | RepliedValue (reply_tx : Z) (r : result bytes)
  | Monitored (monitor_tx : Z) (event : SocketEvent)
  | Aborted (task : Z)
  | ConnecterSpawned (handle : Z) (target_uri : string) (initial_attempts : Z)
  | IpcConnecterSpawned (handle : Z) (target_uri : string)
  | InprocConnectSpawned (name : string) (reply_tx : Z)
  | ForwarderSpawned (pipe_read_id : Z)
  | CloseSpawned (iface : Iface) (task : option Z)
  | ForeignClosed (iface : Z).

(** The order of hash maps. *)
Class HashOrder := {
  iter_uri {A} : gmap string A -> list (string * A);
  iter_id {A} : gmap Z A -> list (Z * A);
}.

Class HashOrderLaws `{HashOrder} := {
  iter_uri_perm {A} (m : gmap string A) : iter_uri m ≡ₚ map_to_list m;
  iter_id_perm {A} (m : gmap Z A) : iter_id m ≡ₚ map_to_list m;
}.

(** What the core calls of its socket type. *)
Class ISocket (L : Type) := {
  pipe_attached : Z -> Z -> option bytes -> L -> L;
  pipe_detached : Z -> L -> L;
  update_peer_identity : Z -> option bytes -> L -> L;
  set_pattern_option : Z -> bytes -> L -> L * result unit;
  get_pattern_option : Z -> L -> result bytes;
  socket_send : Msg -> L -> L * result unit;
  socket_recv : L -> L * result Msg;
  socket_stop : L -> L * result unit;
}.

Record SocketCore `{Notify} `{Fibre} (L : Type) := mkSocketCore {
  core_state : CoreState;
  shutdown_coordinator : ShutdownCoordinator;
  socket_logic : L;
  context : Context;
  command_sender : Z;
  final_error_for_actorstop : option ZmqError;
  effects : list Effect;
  attached : gset Z;
}.
Arguments mkSocketCore {_ _ L} _ _ _ _ _ _ _ _.
Arguments core_state {_ _ L} _.
Arguments shutdown_coordinator {_ _ L} _.
Arguments socket_logic {_ _ L} _.
Arguments context {_ _ L} _.
Arguments command_sender {_ _ L} _.
Arguments final_error_for_actorstop {_ _ L} _.
Arguments effects {_ _ L} _.
Arguments attached {_ _ L} _.

#[export] Instance SocketCore_eta `{Notify} `{Fibre} {L} : Eta (SocketCore L) := fun c =>
  mkSocketCore (core_state c) (shutdown_coordinator c) (socket_logic c) (context c) (command_sender c)
    (final_error_for_actorstop c) (effects c) (attached c).

Module SocketCore.
Section SocketCore.
Context `{HN : Notify} `{HF : Fibre} {L : Type} `{HL : ISocket L} `{HO : HashOrder}.
Abbreviation core := (SocketCore L).
Implicit Types (c : core) (co : ShutdownCoordinator) (s : CoreState) (env : Env).

Definition emit (e : Effect) c : core := c <| effects := effects c ++ [e] |>.
Definition set_state s c : core := c <| core_state := s |>.
Definition set_coordinator co c : core := c <| shutdown_coordinator := co |>.
Definition phase c : ShutdownPhase := state (shutdown_coordinator c).
Definition core_handle c : Z := cs_handle (core_state c).

(** [socket_logic.pipe_attached(..)] and [pipe_detached(..)]. *)
Definition attach (read_id write_id : Z) c : core :=
  c <| socket_logic := pipe_attached read_id write_id None (socket_logic c) |> <| attached := {[read_id]} ∪ attached c |>.
Definition detach (read_id : Z) c : core :=
  c <| socket_logic := pipe_detached read_id (socket_logic c) |> <| attached := attached c ∖ {[read_id]} |>.

Definition fresh_handle c : core * Z :=
  let '(ctx, h) := Context.fresh_handle (context c) in (c <| context := ctx |>, h).
Definition publish (event : SystemEvent) c : core := c <| context := Context.publish event (context c) |>.

(** ** [state.rs] *)

Definition send_monitor_event (event : SocketEvent) c : core :=
  match cs_monitor_tx (core_state c) with Some tx => emit (Monitored tx event) c | None => c end.

Definition remove_pipe_state (pipe_write_id pipe_read_id : Z) c : core * bool :=
  let s := core_state c in
  let tx_removed := bool_decide (is_Some (pipes_tx s !! pipe_write_id)) in
  let reader := pipe_reader_task_handles s !! pipe_read_id in
  let map_removed := bool_decide (is_Some (pipe_read_id_to_endpoint_uri s !! pipe_read_id)) in
  let c := set_state (s <| pipes_tx := delete pipe_write_id (pipes_tx s) |>
                        <| pipe_reader_task_handles := delete pipe_read_id (pipe_reader_task_handles s) |>
                        <| pipe_read_id_to_endpoint_uri := delete pipe_read_id (pipe_read_id_to_endpoint_uri s) |>) c in
  (match reader with Some task => emit (Aborted task) c | None => c end,
   tx_removed || bool_decide (is_Some reader) || map_removed).

(** ** [ISocketConnection::close_connection] *)

Definition close_connection env (iface : Iface) c : core * result unit :=
  match iface with
  | DummyConnection => (c, Ok tt)
  | ScaIface mailbox sca_handle_id _ =>
      if mailbox_open env mailbox then (emit (SentTo mailbox Stop) c, Ok tt)
      else (c, Err (Internal (format "Failed to send Stop to SCA {}: {}" [pretty sca_handle_id; send_error_text env])))
  | InprocConnection _ _ read_id peer monitor =>
      let c := match monitor with Some tx => emit (Monitored tx (Disconnected peer)) c | None => c end in
      (publish (InprocPipePeerClosed (default peer (strip_prefix "inproc://" peer)) read_id) c, Ok tt)
  end.

(** ** [shutdown.rs]: the coordinator *)

Definition is_inproc (uri : string) : bool := bool_decide (is_Some (strip_prefix "inproc://" uri)).

Definition register_endpoint co (entry : string * EndpointInfo) : ShutdownCoordinator :=
  let '(ep_uri, ep_info) := entry in
  match endpoint_type ep_info with
  | Listener =>
      match task_handle ep_info with
      | Some _ => co <| pending_child_actors := <[handle_id ep_info := ep_uri]> (pending_child_actors co) |>
      | None => co
      end
  | SessionEndpoint =>
      let co := co <| pending_connections_to_close :=
        <[handle_id ep_info := (ep_uri, connection_iface ep_info)]> (pending_connections_to_close co) |> in
      if is_inproc ep_uri && negb (is_outbound_connection ep_info) then
        match pipe_ids ep_info with
        | Some (w, r) => co <| inproc_connections_to_cleanup := inproc_connections_to_cleanup co ++ [(w, r, ep_uri)] |>
        | None => co
        end
      else co
  end.

Definition begin_shutdown_sequence s co : ShutdownCoordinator * bool :=
  if negb (bool_decide (state co = Running)) then (co, false)
  else
    let co := co <| pending_child_actors := ∅ |> <| pending_connections_to_close := ∅ |>
                 <| inproc_connections_to_cleanup := [] |> in
    (foldl register_endpoint co (iter_uri (endpoints s)), true).

Definition none_pending co : bool :=
  bool_decide (pending_child_actors co = ∅) && bool_decide (pending_connections_to_close co = ∅).

Definition record_child_actor_stopped (child_actor_handle : Z) co : ShutdownCoordinator * bool :=
  if bool_decide (state co = Finished) then (co, false)
  else if bool_decide (is_Some (pending_child_actors co !! child_actor_handle)) then
    let co := co <| pending_child_actors := delete child_actor_handle (pending_child_actors co) |> in (co, none_pending co)
  else (co, false).

Definition record_connection_closed (connection_id : Z) co : ShutdownCoordinator * bool :=
  if bool_decide (state co = Finished) then (co, false)
  else if bool_decide (is_Some (pending_connections_to_close co !! connection_id)) then
    let co := co <| pending_connections_to_close := delete connection_id (pending_connections_to_close co) |> in
    (co, none_pending co)
  else (co, false).

Definition start_linger_if_needed (now : Z) (linger : option Duration) co : ShutdownCoordinator :=
  if negb (bool_decide (state co = Lingering)) then co
  else if bool_decide (is_Some (linger_deadline co)) && negb (bool_decide (linger = Some 0)) then co
  else match linger with
       | None => co <| linger_deadline := None |>
       | Some d => co <| linger_deadline := Some (if d =? 0 then now else now + d) |>
       end.

Definition is_linger_expired_or_queues_empty env s co : bool :=
  if negb (bool_decide (state co = Lingering)) then false
  else if forallb (fun '(_, tx) => pipe_empty env tx) (iter_id (pipes_tx s)) then true
  else match linger_deadline co with Some deadline => deadline <=? e_now env | None => false end.

(** ** [shutdown.rs]: orchestration *)

Definition start_lingering env c : core :=
  let co := (shutdown_coordinator c) <| state := Lingering |> in
  set_coordinator (start_linger_if_needed (e_now env) (linger (options (core_state c))) co) c.

Definition stop_child_listener_actors env (child_actors_to_stop : gmap Z string) c : core :=
  foldl (fun c '(_, child_uri) =>
      match endpoints (core_state c) !! child_uri with
      | Some ei =>
          if bool_decide (endpoint_type ei = Listener) && mailbox_open env (ep_mailbox ei)
          then emit (SentTo (ep_mailbox ei) Stop) c else c
      | None => c
      end) c (iter_id child_actors_to_stop).

Definition close_active_connections env (connections_to_close : gmap Z (string * Iface)) c : core :=
  let conns := iter_id connections_to_close in
  let c := foldl (fun c '(_, (_, iface)) => (close_connection env iface c).1) c conns in
  let inproc_ids := omap (fun '(id, (uri, _)) => if is_inproc uri then Some id else None) conns in
  if bool_decide (inproc_ids = []) then c
  else
    let '(co, made_progress_to_linger) :=
      foldl (fun '(co, progress) id => let '(co, last) := record_connection_closed id co in (co, progress || last))
        (shutdown_coordinator c, false) inproc_ids in
    set_coordinator
      (if made_progress_to_linger && bool_decide (state co = Lingering)
       then start_linger_if_needed (e_now env) (linger (options (core_state c))) co else co) c.

Definition advance_to_cleaning_phase co : ShutdownCoordinator :=
  if bool_decide (state co = Lingering) then co <| state := CleaningPipes |> else co.

Definition perform_final_pipe_cleanup env (inproc_pipes_to_cleanup : list (Z * Z * string)) c : core :=
  let readers := pipe_reader_task_handles (core_state c) in
  let c := set_state ((core_state c) <| pipes_tx := ∅ |> <| pipe_reader_task_handles := ∅ |>) c in
  let c := foldl (fun c '(_, task) => emit (Aborted task) c) c (iter_id readers) in
  let c := foldl (fun c '(_, read_id, _) => detach read_id c) c inproc_pipes_to_cleanup in
  let c := set_state ((core_state c) <| pipe_read_id_to_endpoint_uri := ∅ |>) c in
  let c :=
    if bool_decide (endpoints (core_state c) = ∅) then c
    else
      let c := foldl (fun c '(_, ei) => (close_connection env (connection_iface ei) c).1) c
                 (iter_uri (endpoints (core_state c))) in
      set_state ((core_state c) <| endpoints := ∅ |>) c in
  set_coordinator ((shutdown_coordinator c) <| state := Finished |>) c.

(** The end of a linger: the phase, then the cleanup. *)
Definition finish_linger env c : core :=
  let c := set_coordinator (advance_to_cleaning_phase (shutdown_coordinator c)) c in
  perform_final_pipe_cleanup env (inproc_connections_to_cleanup (shutdown_coordinator c)) c.

Definition initiate_core_shutdown env c : core :=
  if negb (bool_decide (phase c = Running)) then c
  else
    let '(co, _) := begin_shutdown_sequence (core_state c) (shutdown_coordinator c) in
    let c := set_coordinator co c in
    let c := stop_child_listener_actors env (pending_child_actors co) c in
    let c := close_active_connections env (pending_connections_to_close co) c in
    if none_pending (shutdown_coordinator c) then
      let c := start_lingering env c in
      if is_linger_expired_or_queues_empty env (core_state c) (shutdown_coordinator c) then finish_linger env c else c
    else set_coordinator ((shutdown_coordinator c) <| state := StoppingChildren |>) c.

Definition check_and_advance_linger env c : core :=
  if negb (bool_decide (phase c = Lingering)) then c
  else
    let l := linger (options (core_state c)) in
    let c := if bool_decide (linger_deadline (shutdown_coordinator c) = None) && negb (bool_decide (l = Some 0))
             then set_coordinator (start_linger_if_needed (e_now env) l (shutdown_coordinator c)) c else c in
    if is_linger_expired_or_queues_empty env (core_state c) (shutdown_coordinator c) then finish_linger env c else c.

(** ** Children that stopped *)

Definition find_child (id : Z) (uri : option string) s : option string :=
  match (u ← uri; ei ← endpoints s !! u; if handle_id ei =? id then Some u else None) with
  | Some u => Some u
  | None => fst <$> find (fun '(_, ei) => handle_id ei =? id) (iter_uri (endpoints s))
  end.

Definition stopped_event (ei : EndpointInfo) (error : option ZmqError) : SocketEvent :=
  match endpoint_type ei, error with
  | SessionEndpoint, Some (SecurityError _ as e) | SessionEndpoint, Some (AuthenticationFailure _ as e) =>
      HandshakeFailed (endpoint_uri ei) (display e)
  | SessionEndpoint, _ => Disconnected (endpoint_uri ei)
  | Listener, _ => Closed (endpoint_uri ei)
  end.

Definition abort_unfinished env (task : option Z) c : core :=
  match task with Some h => if is_finished env h then c else emit (Aborted h) c | None => c end.

Definition positive (d : option Duration) : bool := match d with Some d => negb (d =? 0) | None => false end.

Definition cleanup_stopped_child_resources env (id : Z) (uri : option string) (error : option ZmqError)
    (is_full_core_shutdown : bool) c : core * bool :=
  match (key ← find_child id uri (core_state c); ei ← endpoints (core_state c) !! key; Some (key, ei)) with
  | None => (c, false)
  | Some (key, ei) =>
      let c := set_state ((core_state c) <| endpoints := delete key (endpoints (core_state c)) |>) c in
      let c := abort_unfinished env (task_handle ei) c in
      let c := match pipe_ids ei with Some (w, r) => (remove_pipe_state w r c).1 | None => c end in
      let c := send_monitor_event (stopped_event ei error) c in
      let should_consider_reconnect :=
        match error with
        | Some e =>
            negb is_full_core_shutdown && bool_decide (endpoint_type ei = SessionEndpoint) && is_outbound_connection ei
            && positive (reconnect_ivl (options (core_state c))) && negb (is_fatal_connect_error e)
        | None => false
        end in
      (match pipe_ids ei with Some (_, r) => detach r c | None => c end, should_consider_reconnect)
  end.

(** [reconnect_states.entry(uri).or_default().on_connection_failure(base, max)]. *)
Definition schedule_reconnect env (uri : string) (base : Duration) c : core :=
  let s := core_state c in
  let max := default (from_secs 60) (reconnect_ivl_max (options s)) in
  let rs := default ReconnectState.initial (reconnect_states s !! uri) in
  set_state (s <| reconnect_states :=
    <[uri := (ReconnectState.on_connection_failure (e_now env) base max rs).1]> (reconnect_states s) |>) c.

Definition base_ivl c : Duration := default (from_millis 100) (reconnect_ivl (options (core_state c))).

Definition handle_actor_stopping_event env (id : Z) (ty : ActorType) (uri : option string) (error : option ZmqError) c : core :=
  let '(c, should_consider_reconnect) := cleanup_stopped_child_resources env id uri error false c in
  match phase c with
  | Running =>
      if should_consider_reconnect : bool then
        match uri with Some u => schedule_reconnect env u (base_ivl c) c | None => c end
      else c
  | StoppingChildren =>
      let '(co, was_last_pending) :=
        match ty with
        | AListener => record_child_actor_stopped id (shutdown_coordinator c)
        | ASession => record_connection_closed id (shutdown_coordinator c)
        | _ => (shutdown_coordinator c, false)
        end in
      let c := set_coordinator co c in
      if was_last_pending : bool then start_lingering env c else c
  | Lingering | CleaningPipes | Finished => c
  end.

Definition cleanup_session_state_by_pipe env (pipe_read_id : Z) c : core * option string :=
  let s := core_state c in
  match pipe_read_id_to_endpoint_uri s !! pipe_read_id with
  | Some uri =>
      match endpoints s !! uri with
      | Some ei =>
          let c := set_state (s <| endpoints := delete uri (endpoints s) |>) c in
          let c := match pipe_ids ei with Some (w, _) => (remove_pipe_state w pipe_read_id c).1 | None => c end in
          let c := send_monitor_event
            (match endpoint_type ei with
             | SessionEndpoint => Disconnected (endpoint_uri ei)
             | Listener => Closed (endpoint_uri ei)
             end) c in
          let c := match task_handle ei with
                   | Some h => if bool_decide (endpoint_type ei = Listener) then emit (Aborted h) c else c
                   | None => c
                   end in
          (detach pipe_read_id c, target_endpoint_uri ei)
      | None => (detach pipe_read_id c, None)
      end
  | None =>
      let reader := pipe_reader_task_handles s !! pipe_read_id in
      let c := set_state (s <| pipe_reader_task_handles := delete pipe_read_id (pipe_reader_task_handles s) |>) c in
      let c := match reader with Some task => emit (Aborted task) c | None => c end in
      (detach pipe_read_id c, None)
  end.

(** ** Inproc *)

(** [process_inproc_binding_request_event]; it always accepts. *)
Definition process_inproc_binding_request_event (connector_uri : string) (write_id read_id reply_tx : Z) c : core :=
  let c := emit (ForwarderSpawned read_id) c in
  let '(c, entry_id) := fresh_handle c in
  let s := core_state c in
  let iface := InprocConnection entry_id write_id read_id connector_uri (cs_monitor_tx s) in
  let info := mkEndpointInfo (command_sender c) None SessionEndpoint connector_uri (Some (write_id, read_id)) entry_id
                (Some connector_uri) false None iface in
  let c := set_state (s <| pipes_tx := <[write_id := write_id]> (pipes_tx s) |>
                        <| endpoints := <[connector_uri := info]> (endpoints s) |>
                        <| pipe_read_id_to_endpoint_uri := <[read_id := connector_uri]> (pipe_read_id_to_endpoint_uri s) |>) c in
  let c := send_monitor_event (Accepted connector_uri (format "inproc-connector-{}" [connector_uri])) c in
  emit (Replied reply_tx (Ok tt)) (attach read_id write_id c).

Definition handle_inproc_pipe_peer_closed_event env (closed_connector_read_id : Z) c : core :=
  let writes_here (e : string * EndpointInfo) : bool :=
    bool_decide (endpoint_type e.2 = SessionEndpoint) &&
    match pipe_ids e.2 with Some (w, _) => w =? closed_connector_read_id | None => false end in
  match (e ← find writes_here (iter_uri (endpoints (core_state c))); pipe_ids e.2) with
  | Some (_, read_id) => (cleanup_session_state_by_pipe env read_id c).1
  | None => c
  end.

Definition bind_inproc (name : string) c : core * result unit :=
  let '(ctx, r) := Context.register_inproc name (core_handle c) (context c) in
  match r with
  | Ok _ =>
      let c := c <| context := ctx |> in
      let s := core_state c in
      (set_state (s <| bound_inproc_names := {[name]} ∪ bound_inproc_names s |>) c, Ok tt)
  | r => (c, r)
  end.

(** [connect_inproc], a task of its own: up to the request to the binder, and from
    its answer ([None] when the answering end was dropped). *)
Record Connecting := mkConnecting {
  con_name : string;
  con_write_id : Z;
  con_read_id : Z;
  con_monitor : option Z;
  con_reply_tx_user : Z;
}.

Definition inproc_uri (name : string) : string := format "inproc://{}" [name].

Definition tell (monitor : option Z) (event : SocketEvent) c : core :=
  match monitor with Some tx => emit (Monitored tx event) c | None => c end.

(** The connection is taken back. *)
Definition retract (p : Connecting) c : core :=
  let s := core_state c in
  let c := set_state (s <| endpoints := delete (inproc_uri (con_name p)) (endpoints s) |>) c in
  (remove_pipe_state (con_write_id p) (con_read_id p) c).1.

Definition connect_inproc env (name : string) (reply_tx_user reply_tx : Z) c : core * option Connecting :=
  let uri := inproc_uri name in
  match Context.lookup_inproc name (context c) with
  | None =>
      let err_msg := format "Inproc endpoint '{}' not bound or not found" [name] in
      let c := send_monitor_event (ConnectFailed uri err_msg) c in
      (emit (Replied reply_tx_user (Err (ConnectionRefused err_msg))) c, None)
  | Some _ =>
      if negb (logic_alive env) then
        let err := Internal "ISocket logic unavailable for inproc connector's PipeReaderTask" in
        (publish (ConnectionAttemptFailed (core_handle c) uri err) (emit (Replied reply_tx_user (Err err)) c), None)
      else
        let '(c, write_id) := fresh_handle c in
        let '(c, read_id) := fresh_handle c in
        let c := set_state ((core_state c) <| pipes_tx := <[write_id := write_id]> (pipes_tx (core_state c)) |>) c in
        let c := emit (ForwarderSpawned read_id) c in
        let '(c, entry_id) := fresh_handle c in
        let s := core_state c in
        let iface := InprocConnection entry_id write_id read_id uri (cs_monitor_tx s) in
        let info := mkEndpointInfo (command_sender c) None SessionEndpoint uri (Some (write_id, read_id)) entry_id
                      (Some uri) true None iface in
        let c := set_state (s <| endpoints := <[uri := info]> (endpoints s) |>
                              <| pipe_read_id_to_endpoint_uri := <[read_id := uri]> (pipe_read_id_to_endpoint_uri s) |>) c in
        let p := mkConnecting name write_id read_id (cs_monitor_tx s) reply_tx_user in
        if bus_open env then (publish (InprocBindingRequest name uri write_id read_id reply_tx) c, Some p)
        else
          (emit (Replied reply_tx_user (Err (Internal "Event bus publish failed for inproc connect request"))) (retract p c), None)
  end.

Definition connect_inproc_answered env (p : Connecting) (answer : option (result unit)) c : core :=
  let uri := inproc_uri (con_name p) in
  match answer with
  | Some (Ok _) =>
      let c := tell (con_monitor p) (Connected uri (format "inproc-binder-for-{}" [con_name p])) c in
      let c := if logic_alive env then attach (con_read_id p) (con_write_id p) c else c in
      emit (Replied (con_reply_tx_user p) (Ok tt)) c
  | Some (Err e) =>
      let c := tell (con_monitor p) (ConnectFailed uri (display e)) (retract p c) in
      emit (Replied (con_reply_tx_user p) (Err e)) c
  | Some Panic | None =>
      let error_msg := format "Binder for inproc endpoint '{}' failed to reply or disappeared" [con_name p] in
      let c := tell (con_monitor p) (ConnectFailed uri error_msg) (retract p c) in
      emit (Replied (con_reply_tx_user p) (Err (Internal error_msg))) c
  end.

Definition disconnect_inproc env (endpoint_uri : string) c : core * result unit :=
  let name := default EmptyString (strip_prefix "inproc://" endpoint_uri) in
  if bool_decide (name = EmptyString) then (c, Err (InvalidEndpoint endpoint_uri))
  else
    let s := core_state c in
    match endpoints s !! endpoint_uri with
    | None => (c, Ok tt)
    | Some info =>
        match pipe_ids info with
        | None => (c, Err (Internal "Missing pipe IDs for stored inproc endpoint during disconnect"))
        | Some (w, r) =>
            let c := set_state (s <| endpoints := delete endpoint_uri (endpoints s) |>) c in
            let c := publish (InprocPipePeerClosed name r) c in
            let '(c, pipes_were_removed) := remove_pipe_state w r c in
            let c := match task_handle info with Some h => emit (Aborted h) c | None => c end in
            let c := if pipes_were_removed && logic_alive env then detach r c else c in
            (send_monitor_event (Disconnected endpoint_uri) c, Ok tt)
        end
    end.

(** ** Commands *)

Definition SHUTTING_DOWN : ZmqError := InvalidState "Socket is shutting down".

(** The listener of a [tcp] or [ipc] endpoint. *)
Definition bind_listener env (endpoint uri_from_parse : string) c : core * (result unit * option string) :=
  if bool_decide (is_Some (endpoints (core_state c) !! uri_from_parse)) then (c, (Err (AddrInUse uri_from_parse), None))
  else
    let '(c, child_actor_handle) := fresh_handle c in
    match listener env endpoint with
    | Ok (mailbox, task, resolved_uri) =>
        let s := core_state c in
        if bool_decide (is_Some (endpoints s !! resolved_uri)) then
          (emit (Aborted task) c, (Err (AddrInUse resolved_uri), None))
        else
          let info := mkEndpointInfo mailbox (Some task) Listener resolved_uri None child_actor_handle None false None
                        DummyConnection in
          (set_state (s <| endpoints := <[resolved_uri := info]> (endpoints s) |>) c, (Ok tt, Some resolved_uri))
    | Err e => (c, (Err e, None))
    | Panic => (c, (Panic, None))
    end.

Definition bind_endpoint env (endpoint : string) c : core * (result unit * option string) :=
  match parse_endpoint endpoint with
  | Ok (Tcp _ uri) | Ok (Ipc _ uri) => bind_listener env endpoint uri c
  | Ok (Inproc name) =>
      if bool_decide (name ∈ bound_inproc_names (core_state c)) then (c, (Err (AddrInUse (inproc_uri name)), None))
      else if bool_decide (is_Some (Context.lookup_inproc name (context c))) then
        (c, (Err (AddrInUse (format "inproc://{} (globally)" [name])), None))
      else
        let '(c, r) := bind_inproc name c in
        (c, (r, match r with Ok _ => Some (inproc_uri name) | _ => None end))
  | Err e => (c, (Err e, None))
  | Panic => (c, (Panic, None))
  end.

Definition handle_user_bind env (endpoint : string) (reply_tx : Z) c : core :=
  let '(c, (bind_result, actual_uri)) := bind_endpoint env endpoint c in
  let c :=
    match bind_result with
    | Ok _ =>
        match actual_uri with
        | Some uri => send_monitor_event (Listening uri) (set_state ((core_state c) <| last_bound_endpoint := Some uri |>) c)
        | None => c
        end
    | Err e => send_monitor_event (BindFailed endpoint (display e)) c
    | Panic => c
    end in
  emit (Replied reply_tx bind_result) c.

Definition respawn_connecter_actor (target_uri : string) c : core :=
  match parse_endpoint target_uri with
  | Ok (Tcp _ _) =>
      let attempts := default 0 (current_attempts <$> reconnect_states (core_state c) !! target_uri) in
      let '(c, handle) := fresh_handle c in emit (ConnecterSpawned handle target_uri attempts) c
  | Ok (Ipc _ _) => let '(c, handle) := fresh_handle c in emit (IpcConnecterSpawned handle target_uri) c
  | Ok (Inproc _) => c
  | Err err => publish (ConnectionAttemptFailed (core_handle c) target_uri err) c
  | Panic => c
  end.

Definition handle_user_connect (endpoint_uri : string) (reply_tx : Z) c : core :=
  match parse_endpoint endpoint_uri with
  | Ok (Tcp _ uri) | Ok (Ipc _ uri) => emit (Replied reply_tx (Ok tt)) (respawn_connecter_actor uri c)
  | Ok (Inproc name) => emit (InprocConnectSpawned name reply_tx) c
  | Err e => emit (Replied reply_tx (Err e)) c
  | Panic => c
  end.

Definition find_session (endpoint : string) s : option (string * Iface) :=
  match endpoints s !! endpoint with
  | Some ei => if bool_decide (endpoint_type ei = SessionEndpoint) then Some (endpoint, connection_iface ei) else None
  | None =>
      (fun e : string * EndpointInfo => (e.1, connection_iface e.2)) <$>
        find (fun e : string * EndpointInfo =>
                bool_decide (endpoint_type e.2 = SessionEndpoint) &&
                bool_decide (target_endpoint_uri e.2 = Some endpoint)) (iter_uri (endpoints s))
  end.

Definition handle_user_disconnect env (endpoint : string) (reply_tx : Z) c : core :=
  let '(c, r) :=
    match find_session endpoint (core_state c) with
    | Some (_, iface) => close_connection env iface c
    | None =>
        if is_inproc endpoint then disconnect_inproc env endpoint c
        else (c, Err (InvalidArgument (format "Endpoint not found for disconnect: {}" [endpoint])))
    end in
  emit (Replied reply_tx r) c.

Definition unbind_inproc_name (endpoint : string) c : core * result unit :=
  let s := core_state c in
  let name_part := default EmptyString (strip_prefix "inproc://" endpoint) in
  if bool_decide (name_part = EmptyString) then (c, Err (InvalidEndpoint endpoint))
  else if bool_decide (name_part ∈ bound_inproc_names s) then
    let c := set_state (s <| bound_inproc_names := bound_inproc_names s ∖ {[name_part]} |>) c in
    let c := c <| context := Context.unregister_inproc name_part (context c) |> in
    (send_monitor_event (Closed endpoint) c, Ok tt)
  else (c, Err (InvalidArgument (format "Inproc name '{}' not bound by this socket" [name_part]))).

Definition unbind_endpoint env (endpoint : string) c : core * result unit :=
  let s := core_state c in
  let found := endpoints s !! endpoint in
  match found with
  | Some ei =>
      if bool_decide (endpoint_type ei = Listener) then
        (if mailbox_open env (ep_mailbox ei) then emit (SentTo (ep_mailbox ei) Stop) c else c, Ok tt)
      else if is_inproc endpoint then unbind_inproc_name endpoint c
      else (c, Err (InvalidArgument "Cannot unbind a non-listener endpoint."))
  | None =>
      if is_inproc endpoint then unbind_inproc_name endpoint c
      else (c, Err (InvalidArgument (format "Listener endpoint not found for unbind: {}" [endpoint])))
  end.

Definition handle_user_unbind env (endpoint : string) (reply_tx : Z) c : core :=
  let '(c, r) := unbind_endpoint env endpoint c in emit (Replied reply_tx r) c.

Definition update_core_option (applier : SocketOptions -> result SocketOptions) c : core * result unit :=
  match applier (options (core_state c)) with
  | Ok o => (set_state ((core_state c) <| options := o |>) c, Ok tt)
  | Err e => (c, Err e)
  | Panic => (c, Panic)
  end.

Definition handle_set_option (option : Z) (value : bytes) c : core * result unit :=
  let '(l, handled) := set_pattern_option option value (socket_logic c) in
  let c := c <| socket_logic := l |> in
  match handled with
  | Err (UnsupportedOption _) => update_core_option (fun opts => apply_core_option_value opts option value) c
  | r => (c, r)
  end.

Definition handle_get_option (option : Z) c : result bytes :=
  match get_pattern_option option (socket_logic c) with
  | Err (UnsupportedOption _) =>
      let s := core_state c in
      retrieve_core_option_value (options s) (bs <$> last_bound_endpoint s) (type_number (socket_type s)) option
  | r => r
  end.

Definition handle_user_monitor (monitor_tx reply_tx : Z) c : core :=
  emit (Replied reply_tx (Ok tt)) (set_state ((core_state c) <| cs_monitor_tx := Some monitor_tx |>) c).

Definition handle_connect_failed_event env (target_uri : string) (error : ZmqError) c : core :=
  let c := send_monitor_event (ConnectFailed target_uri (display error)) c in
  if positive (reconnect_ivl (options (core_state c))) && negb (is_fatal_connect_error error)
  then schedule_reconnect env target_uri (base_ivl c) c else c.

Definition publish_socket_closing_event c : core := publish (SocketClosing (core_handle c)) c.

Definition process_shutdown_command env (command : Command) c : core :=
  match command with
  | UserClose reply_tx => emit (Replied reply_tx (Ok tt)) (initiate_core_shutdown env c)
  | Stop => initiate_core_shutdown env c
  | UserBind _ reply_tx | UserConnect _ reply_tx | UserDisconnect _ reply_tx | UserUnbind _ reply_tx
  | UserSetOpt _ _ reply_tx | UserMonitor _ reply_tx => emit (Replied reply_tx (Err SHUTTING_DOWN)) c
  | UserRecv reply_tx => emit (RepliedMsg reply_tx (Err SHUTTING_DOWN)) c
  | UserGetOpt _ reply_tx => emit (RepliedValue reply_tx (Err SHUTTING_DOWN)) c
  | _ => c
  end.

Definition process_socket_command env (command : Command) c : core * result unit :=
  if negb (bool_decide (phase c = Running)) then (process_shutdown_command env command c, Ok tt)
  else
    (match command with
     | UserBind endpoint reply_tx => handle_user_bind env endpoint reply_tx c
     | UserConnect endpoint reply_tx => handle_user_connect endpoint reply_tx c
     | UserDisconnect endpoint reply_tx => handle_user_disconnect env endpoint reply_tx c
     | UserUnbind endpoint reply_tx => handle_user_unbind env endpoint reply_tx c
     | UserSend msg => c <| socket_logic := (socket_send msg (socket_logic c)).1 |>
     | UserRecv reply_tx =>
         let '(l, r) := socket_recv (socket_logic c) in emit (RepliedMsg reply_tx r) (c <| socket_logic := l |>)
     | UserSetOpt option value reply_tx =>
         let '(c, r) := handle_set_option option value c in emit (Replied reply_tx r) c
     | UserGetOpt option reply_tx => emit (RepliedValue reply_tx (handle_get_option option c)) c
     | UserMonitor monitor_tx reply_tx => handle_user_monitor monitor_tx reply_tx c
     | UserClose reply_tx =>
         emit (Replied reply_tx (Ok tt)) (initiate_core_shutdown env (publish_socket_closing_event c))
     | Stop => initiate_core_shutdown env (publish_socket_closing_event c)
     | PipeMessageReceived _ _ | PipeClosedByPeer _ | AttachPipe _ _ _ _ | ScaInitializePipes _ _ _ => c
     end, Ok tt).

(** ** Events *)

Definition is_listener_of (target : string) (e : string * EndpointInfo) : bool :=
  bool_decide (endpoint_type e.2 = Listener) && bool_decide (endpoint_uri e.2 = target).

Definition handle_new_connection_established env (uri target : string) (model : ConnectionInteractionModel) c
    : core * result unit :=
  let outbound := negb (existsb (is_listener_of target) (iter_uri (endpoints (core_state c)))) in
  match model with
  | ViaSca sca_mailbox sca_handle_id =>
      let rx := bounded_async (Z.max (sndhwm (options (core_state c))) 1) in
      let '(c, write_id) := fresh_handle c in
      let '(c, read_id) := fresh_handle c in
      if negb (mailbox_open env sca_mailbox) then
        (c, Err (Internal (format "Failed to send ScaInitializePipes to SCA {}" [pretty sca_handle_id])))
      else
        let c := emit (SentTo sca_mailbox (ScaInitializePipes sca_handle_id rx read_id)) c in
        let info := mkEndpointInfo sca_mailbox None SessionEndpoint uri (Some (write_id, read_id)) sca_handle_id
                      (Some target) outbound None (ScaIface sca_mailbox sca_handle_id write_id) in
        let s := core_state c in
        let old := endpoints s !! uri in
        let c := set_state (s <| pipes_tx := <[write_id := write_id]> (pipes_tx s) |>
                              <| endpoints := <[uri := info]> (endpoints s) |>
                              <| pipe_read_id_to_endpoint_uri := <[read_id := uri]> (pipe_read_id_to_endpoint_uri s) |>) c in
        let c := match old with Some i => emit (CloseSpawned (connection_iface i) (task_handle i)) c | None => c end in
        (attach read_id write_id c, Ok tt)
  | ViaUringFd _ => (c, Err (Internal "Invalid connection model for build configuration"))
  end.

(** What becomes of a connection that comes up during the shutdown. *)
Definition refuse_connection env (iface : option Z) (model : ConnectionInteractionModel) c : core :=
  let c := match iface with Some i => emit (ForeignClosed i) c | None => c end in
  match model with
  | ViaSca sca_mailbox _ => if mailbox_open env sca_mailbox then emit (SentTo sca_mailbox Stop) c else c
  | ViaUringFd _ => c
  end.

Definition handle_peer_identity (id : Z) (identity peer_socket_type : option bytes) c : core :=
  let s := core_state c in
  let c := match pipe_read_id_to_endpoint_uri s !! id with
           | Some uri =>
               set_state (s <| endpoints := alter (fun i => i <| peer_type := peer_socket_type |>) uri (endpoints s) |>
                            <| reconnect_states := alter ReconnectState.on_connection_success uri (reconnect_states s) |>) c
           | None => c
           end in
  c <| socket_logic := update_peer_identity id identity (socket_logic c) |>.

Definition process_system_event env (event : SystemEvent) c : core * result unit :=
  match event with
  | ContextTerminating => (initiate_core_shutdown env c, Ok tt)
  | SocketClosing socket_id => (if socket_id =? core_handle c then initiate_core_shutdown env c else c, Ok tt)
  | ActorStopping id ty parent uri error =>
      (if bool_decide (parent = Some (core_handle c)) then handle_actor_stopping_event env id ty uri error c else c, Ok tt)
  | NewConnectionEstablished parent uri target iface model _ =>
      if negb (parent =? core_handle c) then (c, Ok tt)
      else if bool_decide (phase c = Running) then handle_new_connection_established env uri target model c
      else (refuse_connection env iface model c, Ok tt)
  | PeerIdentityEstablished parent id identity peer_socket_type =>
      (if (parent =? core_handle c) && bool_decide (phase c = Running)
       then handle_peer_identity id identity peer_socket_type c else c, Ok tt)
  | ConnectionAttemptFailed parent target error =>
      (if parent =? core_handle c then handle_connect_failed_event env target error c else c, Ok tt)
  | InprocBindingRequest name connector_uri connector_write_id connector_read_id reply_tx =>
      (if bool_decide (name ∈ bound_inproc_names (core_state c)) then
         if bool_decide (phase c = Running)
         then process_inproc_binding_request_event connector_uri connector_read_id connector_write_id reply_tx c
         else emit (Replied reply_tx (Err (InvalidState "Binder socket is shutting down"))) c
       else c, Ok tt)
  | InprocPipePeerClosed name id =>
      (if bool_decide (name ∈ bound_inproc_names (core_state c)) then handle_inproc_pipe_peer_closed_event env id c else c, Ok tt)
  | ActorStarted _ _ _ => (c, Ok tt)
  end.


(** ** The loop *)

Definition stop_running env c : core := if bool_decide (phase c = Running) then initiate_core_shutdown env c else c.
Definition set_final (e : ZmqError) c : core := c <| final_error_for_actorstop := Some e |>.

(** The arms that a fatal error of a handler ends in a shutdown. *)
Definition guarded env (r : core * result unit) : core :=
  match r.2 with Err e => stop_running env (set_final e r.1) | _ => r.1 end.

Definition on_event env (r : EventResult) c : core :=
  match r with
  | Event event => guarded env (process_system_event env event c)
  | EventsLagged =>
      if bool_decide (phase c = Running)
      then initiate_core_shutdown env (set_final (Internal "SocketCore: Event bus lagged") c) else c
  | EventsClosed => stop_running env (set_final (Internal "SocketCore: Event bus closed") c)
  end.

Definition on_command env (r : option Command) c : core :=
  match r with
  | Some command => guarded env (process_socket_command env command c)
  | None => stop_running env (set_final (Internal "SocketCore: Command mailbox closed") c)
  end.

Definition due env c : list string :=
  fst <$> filter (fun e => ReconnectState.is_due (e_now env) e.2 = true) (iter_uri (reconnect_states (core_state c))).

Definition clear_due (now : Z) (r : ReconnectState) : ReconnectState :=
  if ReconnectState.is_due now r then mkReconnect (current_attempts r) None else r.

Definition retry_due env c : core :=
  let uris := due env c in
  let s := core_state c in
  let c := set_state (s <| reconnect_states := clear_due (e_now env) <$> reconnect_states s |>) c in
  foldl (fun c uri => respawn_connecter_actor uri c) c uris.

Definition dead_endpoints env s : list (string * Z) :=
  omap (fun '(uri, ei) =>
      match task_handle ei with Some h => if is_finished env h then Some (uri, handle_id ei) else None | None => None end)
    (iter_uri (endpoints s)).

Definition reap_one env c (dead : string * Z) : core :=
  let '(uri, expected_handle_id) := dead in
  match endpoints (core_state c) !! uri with
  | Some ei =>
      if handle_id ei =? expected_handle_id then
        let '(c, should_reconnect) := cleanup_stopped_child_resources env expected_handle_id (Some uri) None false c in
        if should_reconnect && negb (bool_decide (is_Some (endpoints (core_state c) !! uri))) then
          match reconnect_ivl (options (core_state c)) with Some base => schedule_reconnect env uri base c | None => c end
        else c
      else c
  | None => c
  end.

Definition on_tick env c : core :=
  let p := phase c in
  let c := if bool_decide (p = Running) then retry_due env c else c in
  let c := if bool_decide (p = Lingering) then check_and_advance_linger env c else c in
  foldl (reap_one env) c (dead_endpoints env (core_state c)).

(** One turn of [run_command_loop], given the arm that [select!] takes. *)
Inductive Arm := ArmEvent (r : EventResult) | ArmCommand (r : option Command) | ArmTick.

Definition turn env (arm : Arm) c : core :=
  match arm with ArmEvent r => on_event env r c | ArmCommand r => on_command env r c | ArmTick => on_tick env c end.

(** [run_command_loop] on the arms it takes, until the shutdown is finished. *)
Definition run c (arms : list (Env * Arm)) : core :=
  foldl (fun c '(env, arm) => if bool_decide (phase c = Finished) then c else turn env arm c) c arms.

(** After the loop; the guard is dropped when the task ends. *)
Definition after_loop c : core * ActorDropGuard :=
  let '(l, r) := socket_stop (socket_logic c) in
  let c := c <| socket_logic := l |> in
  let c := match r, final_error_for_actorstop c with Err e, None => set_final e c | _, _ => c end in
  let c := set_coordinator ((shutdown_coordinator c) <| state := Finished |>) c in
  let c := c <| context := Context.unregister_socket (core_handle c) (context c) |> in
  let names := bound_inproc_names (core_state c) in
  let c := set_state ((core_state c) <| bound_inproc_names := ∅ |>) c in
  let c := c <| context := foldl (fun ctx name => Context.unregister_inproc name ctx) (context c) (elements names) |> in
  let guard := ActorDropGuard.new (core_handle c) ASocketCore None None in
  (c, match final_error_for_actorstop c with Some e => ActorDropGuard.set_error e guard | None => ActorDropGuard.waive guard end).

(** ** The start *)

Definition new_state (handle : Z) (ty : SocketType) (opts : SocketOptions) : CoreState :=
  mkCoreState handle opts ty ∅ ∅ ∅ ∅ ∅ ∅ None None.

Definition new_coordinator : ShutdownCoordinator := mkCoordinator Running ∅ ∅ [] None.

Definition create_and_spawn (handle : Z) (ctx : Context) (ty : SocketType) (initial_options : SocketOptions) (logic : L)
    (cmd_tx : Z) : core :=
  mkSocketCore (new_state handle ty (initial_options <| socket_type_name := type_name ty |>)) new_coordinator logic ctx cmd_tx
    None [] ∅.

End SocketCore.
End SocketCore.
