(* ===== verification/CoreSafety.v ===== *)
(** What the core of a socket guarantees: that its shutdown ends, that its tables
    and the pipes of its socket type agree, that every request is answered, and
    when it reconnects. *)

From S2P Require Import Prelude Error Message Options Queue Tasks Runtime Session Transport SocketCore.
Import Endpoints(ShutdownPhase(..)).
Import SocketCore.

#[local] Set Warnings "-notation-overridden".

(** ** What a handler leaves alone *)

Section Frame.
Context `{HN : Notify} `{HF : Fibre} {L : Type} `{HL : ISocket L} `{HO : HashOrder}.
Abbreviation core := (SocketCore L).
Implicit Types (c : core) (env : Env).

(** The handler does not touch the shutdown, the options or the identity of the core. *)
Definition settled c c' : Prop :=
  shutdown_coordinator c' = shutdown_coordinator c /\ options (core_state c') = options (core_state c) /\
  core_handle c' = core_handle c.

#[export] Instance settled_preorder : PreOrder settled.
Proof. split; [by intros c|]. intros c1 c2 c3 (? & ? & ?) (? & ? & ?). split_and!; congruence. Qed.

Lemma settled_emit c0 c e : settled c0 c -> settled c0 (emit e c).
Proof. done. Qed.
Lemma settled_publish c0 c e : settled c0 c -> settled c0 (publish e c).
Proof. done. Qed.
Lemma settled_attach c0 c r w : settled c0 c -> settled c0 (attach r w c).
Proof. done. Qed.
Lemma settled_detach c0 c r : settled c0 c -> settled c0 (detach r c).
Proof. done. Qed.
Lemma settled_logic c0 c l : settled c0 c -> settled c0 (c <| socket_logic := l |>).
Proof. done. Qed.
Lemma settled_context c0 c x : settled c0 c -> settled c0 (c <| context := x |>).
Proof. done. Qed.
Lemma settled_final c0 c e : settled c0 c -> settled c0 (set_final e c).
Proof. done. Qed.
Lemma settled_state c0 c s :
  settled c0 c -> options s = options (core_state c) -> cs_handle s = cs_handle (core_state c) -> settled c0 (set_state s c).
Proof. intros (? & Ho & Hh) Hs Hk. split_and!; [done|cbn; congruence|unfold core_handle in *; cbn; congruence]. Qed.
Lemma settled_monitor c0 c e : settled c0 c -> settled c0 (send_monitor_event e c).
Proof. unfold send_monitor_event. by destruct (cs_monitor_tx _). Qed.
Lemma settled_fold {A} (f : core -> A -> core) l c0 c :
  (forall c a, settled c0 c -> settled c0 (f c a)) -> settled c0 c -> settled c0 (foldl f c l).
Proof. intros Hf. revert c. induction l as [|a l IH]; intros c Hc; [done|]. cbn. apply IH, Hf, Hc. Qed.
Lemma settled_match {A} (o : option A) (f : A -> core) (d : core) c0 :
  (forall a, settled c0 (f a)) -> settled c0 d -> settled c0 (match o with Some a => f a | None => d end).
Proof. by destruct o. Qed.
Lemma settled_if (b : bool) c1 c2 c0 : settled c0 c1 -> settled c0 c2 -> settled c0 (if b then c1 else c2).
Proof. by destruct b. Qed.

End Frame.

Ltac settle_step :=
  match goal with
  | |- settled ?c ?c => reflexivity
  | H : settled ?c ?c' |- settled ?c ?c' => exact H
  | |- settled _ (emit _ _) => apply settled_emit
  | |- settled _ (publish _ _) => apply settled_publish
  | |- settled _ (attach _ _ _) => apply settled_attach
  | |- settled _ (detach _ _) => apply settled_detach
  | |- settled _ (update socket_logic _ _) => apply settled_logic
  | |- settled _ (update context _ _) => apply settled_context
  | |- settled _ (set_final _ _) => apply settled_final
  | |- settled _ (send_monitor_event _ _) => apply settled_monitor
  | |- settled _ (set_state _ _) => apply settled_state; [|reflexivity|reflexivity]
  | |- settled _ (foldl _ _ _) => apply settled_fold; [intros ? ? ?|]
  | |- settled _ ((_, _).1) => cbn [fst]
  | |- settled _ (let _ := _ in _) => cbv zeta
  | |- settled _ (match ?x with _ => _ end).1 => destruct x
  | |- settled _ (match ?x with _ => _ end) => destruct x
  end.
(** The lemmas on the operations, as they come. *)
Ltac settle_op := fail.
Ltac settle := repeat (settle_step || settle_op).

Section Settled.
Context `{HN : Notify} `{HF : Fibre} {L : Type} `{HL : ISocket L} `{HO : HashOrder}.
Abbreviation core := (SocketCore L).
Implicit Types (c : core) (env : Env).

Lemma settled_close c0 c env i : settled c0 c -> settled c0 (close_connection env i c).1.
Proof. intros H. unfold close_connection. settle. Qed.

Lemma settled_remove c0 c w r : settled c0 c -> settled c0 (remove_pipe_state w r c).1.
Proof. intros H. unfold remove_pipe_state. settle. Qed.

Lemma settled_abort c0 c env t : settled c0 c -> settled c0 (abort_unfinished env t c).
Proof. intros H. unfold abort_unfinished. settle. Qed.

End Settled.
Ltac settle_op ::= first [apply settled_close | apply settled_remove | apply settled_abort].

Section Settled2.
Context `{HN : Notify} `{HF : Fibre} {L : Type} `{HL : ISocket L} `{HO : HashOrder}.
Abbreviation core := (SocketCore L).
Implicit Types (c : core) (env : Env).

Lemma settled_cleanup c0 c env id uri e b : settled c0 c -> settled c0 (cleanup_stopped_child_resources env id uri e b c).1.
Proof. intros H. unfold cleanup_stopped_child_resources. destruct (_ ≫= _) as [[key ei]|]; settle. Qed.

Lemma settled_schedule c0 c env uri base : settled c0 c -> settled c0 (schedule_reconnect env uri base c).
Proof. intros H. unfold schedule_reconnect. settle. Qed.

Lemma settled_by_pipe c0 c env r : settled c0 c -> settled c0 (cleanup_session_state_by_pipe env r c).1.
Proof. intros H. unfold cleanup_session_state_by_pipe. settle. Qed.

Lemma settled_respawn c0 c uri : settled c0 c -> settled c0 (respawn_connecter_actor uri c).
Proof. intros H. unfold respawn_connecter_actor, fresh_handle, Context.fresh_handle. settle. Qed.

End Settled2.
Ltac settle_op ::= first [apply settled_close | apply settled_remove | apply settled_abort
  | apply settled_cleanup | apply settled_schedule | apply settled_by_pipe | apply settled_respawn].

(** ** Shutdown *)

Section Shutdown.
Context `{HN : Notify} `{HF : Fibre} {L : Type} `{HL : ISocket L} `{HO : HashOrder}.
Abbreviation core := (SocketCore L).
Implicit Types (c : core) (env : Env).

Lemma settled_phase c c' : settled c c' -> phase c' = phase c.
Proof. intros (Hc & _). unfold phase. by rewrite Hc. Qed.

Lemma settled_reap c0 c env l : settled c0 c -> settled c0 (foldl (reap_one env) c l).
Proof.
  intros H. apply settled_fold; [|done]. intros c1 [uri id] H1. unfold reap_one.
  destruct (endpoints _ !! _) as [ei|]; [|done]. destruct (_ =? _); [|done].
  pose proof (settled_cleanup c0 c1 env id (Some uri) None false H1) as H2.
  destruct (cleanup_stopped_child_resources _ _ _ _ _ _) as [c2 b]. cbn in H2. settle.
Qed.

Lemma settled_peer_closed c0 c env id : settled c0 c -> settled c0 (handle_inproc_pipe_peer_closed_event env id c).
Proof. intros H. unfold handle_inproc_pipe_peer_closed_event. destruct (_ ≫= _) as [[w r]|]; settle. Qed.

Lemma initiate_not_running env c : phase c <> Running -> initiate_core_shutdown env c = c.
Proof. intros H. unfold initiate_core_shutdown. by rewrite bool_decide_false. Qed.

Lemma stop_running_not env c : phase c <> Running -> stop_running env c = c.
Proof. intros H. unfold stop_running. by rewrite bool_decide_false. Qed.

(** Does the arm bring the news that a child of the core has stopped? *)
Definition stopping_news (h : Z) (arm : Arm) : bool :=
  match arm with
  | ArmEvent (Event (ActorStopping _ _ parent _ _)) => bool_decide (parent = Some h)
  | _ => false
  end.

Lemma settled_shutdown_command env cmd c : phase c <> Running -> settled c (process_shutdown_command env cmd c).
Proof. intros H. destruct cmd; cbn; rewrite ?initiate_not_running by done; settle. Qed.

Lemma settled_event env event c :
  phase c <> Running -> stopping_news (core_handle c) (ArmEvent (Event event)) = false ->
  settled c (process_system_event env event c).1 /\ (process_system_event env event c).2 = Ok tt.
Proof.
  intros H Hn. destruct event; cbn in Hn |- *; rewrite ?initiate_not_running, ?Hn by done.
  all: rewrite ?(bool_decide_false (phase c = Running)) by done; rewrite ?andb_false_r.
  all: try (split; [solve [settle]|done]).
  - destruct (negb _); [by split|]. split; [|done]. unfold refuse_connection. settle.
  - split; [|done]. destruct (_ =? _); [|done]. unfold handle_connect_failed_event. settle.
  - split; [|done]. destruct (bool_decide _); [|done]. by apply settled_peer_closed.
Qed.

Lemma turn_settled env arm c :
  phase c <> Running -> stopping_news (core_handle c) arm = false -> (phase c = Lingering -> arm <> ArmTick) ->
  settled c (turn env arm c).
Proof.
  intros H Hn Ht. destruct arm as [[event| |]|[cmd|]|]; cbn [turn on_event on_command].
  - destruct (settled_event env event c H Hn) as [Hs Hr]. unfold guarded. by rewrite Hr.
  - by rewrite bool_decide_false.
  - rewrite stop_running_not by exact H. settle.
  - unfold process_socket_command. rewrite bool_decide_false by done. cbn. by apply settled_shutdown_command.
  - rewrite stop_running_not by exact H. settle.
  - unfold on_tick. rewrite (bool_decide_false (phase c = Running)) by done.
    rewrite (bool_decide_false (phase c = Lingering)) by (intros E; by apply Ht). by apply settled_reap.
Qed.

(** *** Children that report *)

(** Does the arm report that the child [id] of type [ty] stopped? *)
Definition reports (h id : Z) (ty : ActorType) (a : Env * Arm) : bool :=
  match a.2 with
  | ArmEvent (Event (ActorStopping id' ty' parent _ _)) =>
      bool_decide (id' = id) && bool_decide (ty' = ty) && bool_decide (parent = Some h)
  | _ => false
  end.

Definition awaits (co : ShutdownCoordinator) (id : Z) (ty : ActorType) : Prop :=
  match ty with
  | AListener => is_Some (pending_child_actors co !! id)
  | ASession => is_Some (pending_connections_to_close co !! id)
  | _ => False
  end.

Lemma none_pending_false co : none_pending co = false -> exists id ty, awaits co id ty.
Proof.
  unfold none_pending. intros [H|H]%andb_false_iff; apply bool_decide_eq_false, map_choose in H as (id & x & Hx);
    [exists id, AListener|exists id, ASession]; by eexists.
Qed.

(** How a report is taken down. *)
Definition record (ty : ActorType) (id : Z) (co : ShutdownCoordinator) : ShutdownCoordinator * bool :=
  match ty with
  | AListener => record_child_actor_stopped id co
  | ASession => record_connection_closed id co
  | _ => (co, false)
  end.

Lemma record_spec co id ty :
  state co <> Finished -> none_pending co = false ->
  let '(co', last) := record ty id co in
  state co' = state co /\ linger_deadline co' = linger_deadline co /\ last = none_pending co' /\
  forall id' ty', awaits co' id' ty' -> awaits co id' ty' /\ (id', ty') <> (id, ty).
Proof.
  intros Hs Hn.
  destruct ty; cbn; try (split_and!; [done..|]; by intros id' []); unfold record_child_actor_stopped, record_connection_closed;
    rewrite (bool_decide_false _ Hs); case_bool_decide as Hp; cbn.
  all: split_and!; [done..|]; intros id' []; cbn; try done.
  all: intros Ha; try (rewrite lookup_delete_is_Some in Ha; destruct Ha as [Hne Ha]).
  all: split; [done|intros [= ->]]; done.
Qed.

(** What a shutdown leaves alone. *)
Definition ident c : Z * SocketOptions := (core_handle c, options (core_state c)).

Lemma settled_ident c c' : settled c c' -> ident c' = ident c.
Proof. intros (_ & Ho & Hh). unfold ident. by rewrite Ho, Hh. Qed.

Definition closed_down c : Prop :=
  endpoints (core_state c) = ∅ /\ pipes_tx (core_state c) = ∅ /\ pipe_reader_task_handles (core_state c) = ∅ /\
  pipe_read_id_to_endpoint_uri (core_state c) = ∅.

(** A shutdown under way, with its linger over [T + d] at the latest. *)
Definition under_way (T : Z) c : Prop :=
  match phase c with
  | Running | CleaningPipes => False
  | StoppingChildren => none_pending (shutdown_coordinator c) = false /\ linger_deadline (shutdown_coordinator c) = None
  | Lingering =>
      match linger (options (core_state c)) with
      | Some d => exists t, linger_deadline (shutdown_coordinator c) = Some t /\ t <= T + d
      | None => True
      end
  | Finished => closed_down c
  end.

Lemma under_way_settled T c c' : settled c c' -> phase c <> Finished -> under_way T c -> under_way T c'.
Proof.
  intros Hs Hf. unfold under_way. rewrite (settled_phase _ _ Hs). destruct Hs as (-> & -> & _). by destruct (phase c).
Qed.

Lemma start_lingering_under_way T env c :
  e_now env <= T -> linger_deadline (shutdown_coordinator c) = None ->
  phase (start_lingering env c) = Lingering /\ under_way T (start_lingering env c) /\
  ident (start_lingering env c) = ident c.
Proof.
  intros Hn Hd.
  assert (Hs : shutdown_coordinator (start_lingering env c) =
    (shutdown_coordinator c) <| state := Lingering |>
      <| linger_deadline := (fun d => e_now env + d) <$> linger (options (core_state c)) |>).
  { unfold start_lingering, start_linger_if_needed. cbn. rewrite Hd. cbn.
    destruct (linger _) as [d|]; [|done]. cbn. destruct (Z.eqb_spec d 0) as [->|]; cbn; [by rewrite Z.add_0_r|done]. }
  unfold under_way, phase. rewrite Hs. cbn. split_and!; [done| |done].
  destruct (linger _) as [d|]; [|done]. cbn. eexists. split; [done|lia].
Qed.

Lemma fold_state {A} (f : core -> A -> core) l c :
  (forall c a, core_state (f c a) = core_state c) -> core_state (foldl f c l) = core_state c.
Proof. intros Hf. revert c. induction l as [|a l IH]; intros c; [done|]. cbn. by rewrite IH, Hf. Qed.

Lemma close_state env i c : core_state (close_connection env i c).1 = core_state c.
Proof. destruct i; cbn; [done|by destruct (mailbox_open _ _)|by destruct monitor_tx]. Qed.

Lemma cleanup_finishes env l c :
  phase (perform_final_pipe_cleanup env l c) = Finished /\ closed_down (perform_final_pipe_cleanup env l c) /\
  ident (perform_final_pipe_cleanup env l c) = ident c.
Proof.
  unfold perform_final_pipe_cleanup, closed_down, ident, core_handle, phase. cbn.
  set (c1 := foldl _ (set_state _ c) _). set (c2 := foldl _ c1 _).
  assert (H2 : core_state c2 = (core_state c) <| pipes_tx := ∅ |> <| pipe_reader_task_handles := ∅ |>).
  { unfold c2, c1. rewrite fold_state by (by intros ? [[]]). rewrite fold_state by (by intros ? []). done. }
  clearbody c2. rewrite H2. case_bool_decide as He; cbn; rewrite ?H2; cbn; [by split_and!|].
  rewrite fold_state by (intros ? []; apply close_state). by split_and!.
Qed.

Lemma finish_linger_finishes T env c :
  phase (finish_linger env c) = Finished /\ under_way T (finish_linger env c) /\ ident (finish_linger env c) = ident c.
Proof.
  unfold finish_linger. set (c1 := set_coordinator _ c).
  destruct (cleanup_finishes env (inproc_connections_to_cleanup (shutdown_coordinator c1)) c1) as (Hp & Hc & Hh).
  unfold under_way. rewrite Hp. split_and!; [done..|by rewrite Hh].
Qed.

Lemma reap_nothing `{!HashOrderLaws} env c :
  endpoints (core_state c) = ∅ -> foldl (reap_one env) c (dead_endpoints env (core_state c)) = c.
Proof.
  intros He. unfold dead_endpoints. rewrite He. replace (iter_uri (∅ : gmap string EndpointInfo)) with (@nil (string * EndpointInfo)); [done|].
  symmetry. apply Permutation_nil_r. rewrite iter_uri_perm. by rewrite map_to_list_empty.
Qed.

(** A report while the children are being stopped. *)
Lemma stopping_report T env id ty uri e c :
  phase c = StoppingChildren -> under_way T c -> e_now env <= T ->
  let c' := handle_actor_stopping_event env id ty uri e c in
  under_way T c' /\ ident c' = ident c /\
  (phase c' = StoppingChildren -> forall id' ty', awaits (shutdown_coordinator c') id' ty' ->
   awaits (shutdown_coordinator c) id' ty' /\ (id', ty') <> (id, ty)).
Proof.
  intros Hp Hu Hn c'. subst c'. unfold handle_actor_stopping_event.
  pose proof (settled_cleanup c c env id uri e false ltac:(reflexivity)) as Hs.
  destruct (cleanup_stopped_child_resources _ _ _ _ _ _) as [c1 b]. cbn [fst] in Hs.
  pose proof (under_way_settled T _ _ Hs ltac:(congruence) Hu) as Hu1.
  rewrite <- (settled_phase _ _ Hs) in Hp. rewrite Hp, <- (settled_ident _ _ Hs). rewrite <- (proj1 Hs).
  unfold under_way in Hu1. rewrite Hp in Hu1. destruct Hu1 as [Hnp Hd]. fold (record ty id (shutdown_coordinator c1)).
  pose proof (record_spec (shutdown_coordinator c1) id ty) as Hr. unfold phase in Hp. rewrite Hp in Hr. specialize (Hr ltac:(done) Hnp).
  destruct (record ty id _) as [co last]. destruct Hr as (Hst & Hdl & -> & Haw). rewrite Hd in Hdl.
  destruct (none_pending co) eqn:En.
  - destruct (start_lingering_under_way T env (set_coordinator co c1) Hn Hdl) as (H1 & H2 & H4).
    rewrite H1. by split_and!.
  - split_and!; [|done|intros _; exact Haw]. unfold under_way, phase. cbn. by rewrite Hst.
Qed.

Lemma check_linger_eq T env c :
  phase c = Lingering -> under_way T c ->
  check_and_advance_linger env c =
  if is_linger_expired_or_queues_empty env (core_state c) (shutdown_coordinator c) then finish_linger env c else c.
Proof.
  intros Hp Hu. unfold under_way in Hu. rewrite Hp in Hu. unfold check_and_advance_linger.
  rewrite (bool_decide_true (phase c = Lingering)) by done. cbn.
  destruct (linger _) as [d|] eqn:El.
  - destruct Hu as (t & Ht & _). by rewrite Ht.
  - case_bool_decide as Hd; [cbn|done].
    assert (E : set_coordinator (start_linger_if_needed (e_now env) None (shutdown_coordinator c)) c = c).
    { unfold start_linger_if_needed. unfold phase in Hp. rewrite Hp, Hd. cbn. destruct c as [s co ? ? ? ? ? ?]. cbn in *.
      destruct co. cbn in *. by subst. }
    by rewrite E.
Qed.

(** A tick while the core lingers. *)
Lemma lingering_tick `{!HashOrderLaws} T env c :
  phase c = Lingering -> under_way T c ->
  let c' := on_tick env c in
  under_way T c' /\ ident c' = ident c /\ (phase c' = Lingering \/ phase c' = Finished) /\
  ((forall w, pipe_empty env w = true) \/ (exists d, linger (options (core_state c)) = Some d /\ T + d <= e_now env) ->
   phase c' = Finished).
Proof.
  intros Hp Hu c'. subst c'. unfold on_tick. rewrite (bool_decide_false (phase c = Running)) by congruence.
  rewrite (bool_decide_true (phase c = Lingering)) by done. rewrite (check_linger_eq T) by done.
  destruct (is_linger_expired_or_queues_empty _ _ _) eqn:Eo.
  - destruct (finish_linger_finishes T env c) as (H1 & H2 & H3).
    assert (Hc : closed_down (finish_linger env c)) by (unfold under_way in H2; by rewrite H1 in H2).
    rewrite reap_nothing by apply Hc. split_and!; [done..|by right|done].
  - pose proof (settled_reap c c env (dead_endpoints env (core_state c)) ltac:(reflexivity)) as Hs.
    pose proof (settled_phase _ _ Hs) as Hph. split_and!.
    + apply (under_way_settled _ _ _ Hs); [congruence|done].
    + by apply settled_ident.
    + left. congruence.
    + intros Hover. exfalso. apply not_true_iff_false in Eo. apply Eo. clear Eo.
      unfold is_linger_expired_or_queues_empty. unfold phase in Hp. rewrite Hp. cbn.
      destruct Hover as [He|(d & Hd & HT)].
      * rewrite (proj2 (forallb_forall _ _)); [done|]. intros [w tx] _. apply He.
      * destruct (forallb _ _); [done|]. unfold under_way, phase in Hu. rewrite Hp, Hd in Hu. destruct Hu as (t & -> & Ht).
        apply Z.leb_le. lia.
Qed.

(** One turn. *)
Lemma turn_under_way `{!HashOrderLaws} T env arm c :
  under_way T c -> phase c <> Finished -> e_now env <= T ->
  let c' := turn env arm c in
  under_way T c' /\ ident c' = ident c /\
  (phase c' = StoppingChildren -> phase c = StoppingChildren /\
   forall id ty, awaits (shutdown_coordinator c') id ty ->
     awaits (shutdown_coordinator c) id ty /\ reports (core_handle c) id ty (env, arm) = false).
Proof.
  intros Hu Hf Hn c'. subst c'.
  assert (Hcases : phase c = StoppingChildren \/ phase c = Lingering) by (unfold under_way in Hu; destruct (phase c); auto; done).
  assert (Hr : phase c <> Running) by (destruct Hcases; congruence).
  destruct (stopping_news (core_handle c) arm) eqn:Enews.
  - destruct arm as [[[]| |]| |]; try done. cbn in Enews. apply bool_decide_eq_true in Enews as ->.
    assert (Et : turn env (ArmEvent (Event (ActorStopping handle_id actor_type (Some (core_handle c)) endpoint_uri error))) c
      = handle_actor_stopping_event env handle_id actor_type endpoint_uri error c).
    { cbn. by rewrite bool_decide_true. }
    rewrite Et. destruct Hcases as [Hp|Hp].
    + destruct (stopping_report T env handle_id actor_type endpoint_uri error c Hp Hu Hn) as (H1 & H2 & H3).
      split_and!; [done..|]. intros Hp'. split; [done|]. intros id ty Ha. destruct (H3 Hp' id ty Ha) as [H4 H5].
      split; [done|]. cbn. rewrite (bool_decide_true (Some _ = Some _)) by done. rewrite andb_true_r.
      apply andb_false_iff. destruct (decide (handle_id = id)) as [->|]; [right|left]; apply bool_decide_eq_false; congruence.
    + assert (Hs : settled c (handle_actor_stopping_event env handle_id actor_type endpoint_uri error c)).
      { unfold handle_actor_stopping_event.
        pose proof (settled_cleanup c c env handle_id endpoint_uri error false ltac:(reflexivity)) as Hs.
        destruct (cleanup_stopped_child_resources _ _ _ _ _ _) as [c1 b]. cbn in Hs.
        by rewrite (settled_phase _ _ Hs), Hp. }
      split_and!; [apply (under_way_settled _ _ _ Hs); [congruence|done]|by apply settled_ident|]. rewrite (settled_phase _ _ Hs). congruence.
  - assert (Ht : (phase c = Lingering /\ arm = ArmTick) \/ ~ (phase c = Lingering /\ arm = ArmTick)).
    { destruct Hcases as [Hp|Hp]; [right; intros []; congruence|]. destruct arm; [right; by intros []..|by left]. }
    destruct Ht as [[Hp ->]|Hnt].
    + destruct (lingering_tick T env c Hp Hu) as (H1 & H2 & [H3|H3] & _); cbn; rewrite H3; by split_and!.
    + pose proof (turn_settled env arm c Hr Enews ltac:(tauto)) as Hs.
      split_and!; [by apply (under_way_settled _ _ _ Hs)|by apply settled_ident|]. rewrite (settled_phase _ _ Hs). intros Hp. split; [done|].
      rewrite (proj1 Hs). intros id ty Ha. split; [done|]. unfold reports, stopping_news in *. cbn.
      destruct arm as [[[]| |]| |]; try done. rewrite Enews. by rewrite andb_false_r.
Qed.

Lemma run_app c a1 a2 : run c (a1 ++ a2) = run (run c a1) a2.
Proof. apply foldl_app. Qed.

Lemma run_under_way `{!HashOrderLaws} T arms c :
  under_way T c -> Forall (fun a => e_now a.1 <= T) arms ->
  (forall id ty, phase c = StoppingChildren -> awaits (shutdown_coordinator c) id ty ->
   Exists (fun a => reports (core_handle c) id ty a = true) arms) ->
  under_way T (run c arms) /\ phase (run c arms) <> StoppingChildren /\ ident (run c arms) = ident c.
Proof.
  revert c. induction arms as [|[env arm] arms IH]; intros c Hu Hn Ha.
  - split_and!; [done| |done]. cbn. intros Hp. unfold under_way in Hu. rewrite Hp in Hu.
    destruct (none_pending_false _ (proj1 Hu)) as (id & ty & Hw). by apply (Ha _ _ Hp), Exists_nil in Hw.
  - apply Forall_cons in Hn as [Hn1 Hn2]. cbn [run foldl]. case_bool_decide as Hf.
    + apply IH; [done..|]. intros id ty. congruence.
    + destruct (turn_under_way T env arm c Hu Hf Hn1) as (H1 & H2 & H3). rewrite <- H2. apply IH; [done..|].
      intros id ty Hp Hw. destruct (H3 Hp) as [Hp0 H4]. destruct (H4 id ty Hw) as [Hw0 Hrep].
      replace (core_handle (turn env arm c)) with (core_handle c) by (unfold ident in H2; congruence).
      specialize (Ha id ty Hp0 Hw0). apply Exists_cons in Ha as [Ha|Ha]; [congruence|done].
Qed.

(** *** The beginning *)

Lemma begin_spec `{!HashOrderLaws} s :
  let co := (begin_shutdown_sequence s new_coordinator).1 in
  state co = Running /\ linger_deadline co = None /\
  (forall id uri, pending_child_actors co !! id = Some uri ->
    exists ei, endpoints s !! uri = Some ei /\ endpoint_type ei = Listener /\ is_Some (task_handle ei) /\ handle_id ei = id) /\
  (forall id uri i, pending_connections_to_close co !! id = Some (uri, i) ->
    exists ei, endpoints s !! uri = Some ei /\ endpoint_type ei = SessionEndpoint /\ handle_id ei = id /\ connection_iface ei = i).
Proof.
  unfold begin_shutdown_sequence. cbn [new_coordinator state]. cbn.
  assert (Hin : forall e, e ∈ iter_uri (endpoints s) -> endpoints s !! e.1 = Some e.2).
  { intros [u i] He. rewrite iter_uri_perm in He. by apply elem_of_map_to_list in He. }
  set (P := fun co => state co = Running /\ linger_deadline co = None /\
    (forall id uri, pending_child_actors co !! id = Some uri ->
      exists ei, endpoints s !! uri = Some ei /\ endpoint_type ei = Listener /\ is_Some (task_handle ei) /\ handle_id ei = id) /\
    (forall id uri i, pending_connections_to_close co !! id = Some (uri, i) ->
      exists ei, endpoints s !! uri = Some ei /\ endpoint_type ei = SessionEndpoint /\ handle_id ei = id /\ connection_iface ei = i)).
  match goal with |- context [foldl register_endpoint ?c _] => assert (H0 : P c); [by split_and!|revert H0; generalize c] end.
  fold P. revert Hin. generalize (iter_uri (endpoints s)) as es. induction es as [|[u ei] es IH]; intros Hin co HP; [exact HP|].
  cbn [foldl]. apply IH; [intros e He; apply Hin; by right|]. specialize (Hin (u, ei) ltac:(left)). cbn in Hin. clear IH.
  destruct HP as (H1 & H2 & H3 & H4). unfold register_endpoint. destruct (endpoint_type ei) eqn:Et.
  - destruct (task_handle ei) eqn:Ek; [|by split_and!]. split_and!; [done..| |done]. cbn. intros id uri.
    rewrite lookup_insert_Some. intros [[<- <-]|[_ Ho]]; [|by apply H3]. exists ei. split_and!; [done..|by eexists|done].
  - match goal with |- P (if _ then match _ with _ => _ end else ?c) => assert (HPc : P c) end.
    { split_and!; [done..|]. cbn. intros id uri i. rewrite lookup_insert_Some. intros [[<- [= <- <-]]|[_ Ho]]; [|by apply H4].
      by exists ei. }
    destruct (is_inproc u && _); [|done]. destruct (pipe_ids ei) as [[w r]|]; exact HPc.
Qed.

Lemma record_all ids co p :
  state co <> Finished ->
  let r := foldl (fun '(co, progress) id => let '(co, last) := record_connection_closed id co in (co, progress || last)) (co, p) ids in
  state r.1 = state co /\ linger_deadline r.1 = linger_deadline co /\ pending_child_actors r.1 = pending_child_actors co /\
  forall id x, pending_connections_to_close r.1 !! id = Some x -> pending_connections_to_close co !! id = Some x /\ id ∉ ids.
Proof.
  revert co p. induction ids as [|id ids IH]; intros co p Hf; cbn [foldl].
  - split_and!; [done..|]. intros i x Hx. split; [done|]. apply not_elem_of_nil.
  - assert (Hr : exists co' last, record_connection_closed id co = (co', last) /\ state co' = state co /\
      linger_deadline co' = linger_deadline co /\ pending_child_actors co' = pending_child_actors co /\
      forall i x, pending_connections_to_close co' !! i = Some x -> pending_connections_to_close co !! i = Some x /\ i <> id).
    { unfold record_connection_closed. rewrite (bool_decide_false _ Hf). case_bool_decide as Hp; do 2 eexists; (split; [reflexivity|]);
        split_and!; try done; cbn; intros i x Hx.
      - by rewrite lookup_delete_Some in Hx; destruct Hx as [? ?].
      - split; [done|]. intros ->. apply Hp. by eexists. }
    destruct Hr as (co' & last & -> & H1 & H2 & H3 & H4). cbv beta iota.
    destruct (IH co' (p || last) ltac:(by rewrite H1)) as (I1 & I2 & I3 & I4). rewrite I1, I2, I3. split_and!; [done..|].
    intros i x Hx. destruct (I4 i x Hx) as [Hx' Hn]. destruct (H4 i x Hx') as [? Hne]. split; [done|].
    apply not_elem_of_cons. done.
Qed.

Lemma stop_listeners_settled env m c : settled c (stop_child_listener_actors env m c).
Proof.
  unfold stop_child_listener_actors. apply settled_fold; [|reflexivity]. intros c' [id u] Hc.
  destruct (endpoints _ !! _); [|done]. settle.
Qed.

Lemma close_connections_settled env l c :
  settled c (foldl (fun c '(_, (_, iface)) => (close_connection env iface c).1) c (l : list (Z * (string * Iface)))).
Proof. apply settled_fold; [|reflexivity]. intros c' [id [u i]] Hc. settle. Qed.

Lemma close_active_spec `{!HashOrderLaws} env c :
  state (shutdown_coordinator c) = Running ->
  let c' := close_active_connections env (pending_connections_to_close (shutdown_coordinator c)) c in
  let co := shutdown_coordinator c in let co' := shutdown_coordinator c' in
  state co' = Running /\ linger_deadline co' = linger_deadline co /\ pending_child_actors co' = pending_child_actors co /\
  (forall id uri i, pending_connections_to_close co' !! id = Some (uri, i) ->
   pending_connections_to_close co !! id = Some (uri, i) /\ is_inproc uri = false) /\
  ident c' = ident c.
Proof.
  intros Hr. unfold close_active_connections. set (m := pending_connections_to_close (shutdown_coordinator c)).
  pose proof (close_connections_settled env (iter_id m) c) as Hs.
  set (c1 := foldl _ c (iter_id m)) in *. clearbody c1. pose proof (settled_ident _ _ Hs) as Hid. destruct Hs as (Hco & _).
  set (ids := omap _ (iter_id m)).
  assert (Hids : forall id uri i, m !! id = Some (uri, i) -> id ∉ ids -> is_inproc uri = false).
  { intros id uri i Hm Hn. apply not_true_iff_false. intros Hi. apply Hn. unfold ids. apply list_elem_of_omap.
    exists (id, (uri, i)). rewrite Hi. split; [|done]. rewrite iter_id_perm. by apply elem_of_map_to_list. }
  case_bool_decide as Hnil.
  - rewrite Hco. split_and!; try done. intros id uri i Hi. split; [done|]. eapply Hids; [done|]. rewrite Hnil. apply not_elem_of_nil.
  - rewrite Hco. pose proof (record_all ids (shutdown_coordinator c) false ltac:(by rewrite Hr)) as (H1 & H2 & H3 & H4).
    destruct (foldl _ _ ids) as [co' prog]. cbn [fst] in *. rewrite Hr in H1.
    rewrite (bool_decide_false (state co' = Lingering)) by congruence. rewrite andb_false_r. cbn. split_and!; try done.
    intros id uri i Hi. destruct (H4 id _ Hi) as [Hm Hn]. split; [done|]. by eapply Hids.
Qed.

Lemma initiate_under_way `{!HashOrderLaws} T env c :
  shutdown_coordinator c = new_coordinator -> e_now env <= T ->
  let c' := initiate_core_shutdown env c in
  under_way T c' /\ ident c' = ident c /\
  (forall id ty, phase c' = StoppingChildren -> awaits (shutdown_coordinator c') id ty ->
   exists uri ei, endpoints (core_state c) !! uri = Some ei /\ handle_id ei = id /\
    match ty with
    | AListener => endpoint_type ei = Listener /\ is_Some (task_handle ei)
    | _ => ty = ASession /\ endpoint_type ei = SessionEndpoint /\ is_inproc uri = false
    end).
Proof.
  intros Hc Hn. unfold initiate_core_shutdown.
  rewrite (bool_decide_true (phase c = Running)) by (unfold phase; by rewrite Hc). cbn [negb]. rewrite Hc.
  pose proof (begin_spec (core_state c)) as (B1 & B2 & B3 & B4).
  destruct (begin_shutdown_sequence (core_state c) new_coordinator) as [co b]. cbn [fst] in *.
  set (c1 := stop_child_listener_actors _ _ _).
  assert (H1 : settled (set_coordinator co c) c1) by apply stop_listeners_settled. clearbody c1.
  apply settled_ident in H1 as Hid1. destruct H1 as (H1 & _). cbn in H1.
  pose proof (close_active_spec env c1 ltac:(by rewrite H1)) as (C1 & C2 & C3 & C4 & Hid2). rewrite H1 in *.
  set (c2 := close_active_connections _ _ c1) in *. clearbody c2. rewrite B2 in C2.
  assert (Haw : forall id ty, awaits (shutdown_coordinator c2) id ty ->
   exists uri ei, endpoints (core_state c) !! uri = Some ei /\ handle_id ei = id /\
    match ty with
    | AListener => endpoint_type ei = Listener /\ is_Some (task_handle ei)
    | _ => ty = ASession /\ endpoint_type ei = SessionEndpoint /\ is_inproc uri = false
    end).
  { intros id ty. destruct ty; try done; cbn.
    - rewrite C3. intros [uri Hu]. destruct (B3 id uri Hu) as (ei & ? & ? & ? & ?). exists uri, ei. by split_and!.
    - intros [[uri i] Hu]. destruct (C4 id uri i Hu) as [Hu' Hi]. destruct (B4 id uri i Hu') as (ei & ? & ? & ? & ?).
      exists uri, ei. by split_and!. }
  assert (Hh : ident c2 = ident c) by (rewrite Hid2, Hid1; done).
  destruct (none_pending (shutdown_coordinator c2)) eqn:En.
  - destruct (start_lingering_under_way T env c2 Hn C2) as (L1 & L2 & L4). set (c3 := start_lingering env c2) in *. clearbody c3.
    destruct (is_linger_expired_or_queues_empty _ _ _).
    + destruct (finish_linger_finishes T env c3) as (F1 & F2 & F3). split_and!; [done|congruence|]. rewrite F1. done.
    + split_and!; [done|congruence|]. by rewrite L1.
  - split_and!; [|done|intros id ty _; apply Haw]. unfold under_way, phase. cbn. done.
Qed.

(** *** The core before its shutdown *)

Definition same_shutdown c c' : Prop :=
  shutdown_coordinator c' = shutdown_coordinator c /\ core_handle c' = core_handle c.

Lemma settled_same c c' : settled c c' -> same_shutdown c c'.
Proof. by intros (? & _ & ?). Qed.

Lemma same_shutdown_set_option option value c : same_shutdown c (handle_set_option option value c).1.
Proof.
  unfold handle_set_option. destruct (set_pattern_option _ _ _) as [l r].
  destruct r as [|[]|]; try done. unfold update_core_option. by destruct (apply_core_option_value _ _ _).
Qed.

Lemma settled_bind_inproc name c : settled c (bind_inproc name c).1.
Proof. unfold bind_inproc. destruct (Context.register_inproc _ _ _) as [x []]; settle. Qed.

Lemma settled_bind_listener env endpoint uri c : settled c (bind_listener env endpoint uri c).1.
Proof. unfold bind_listener, fresh_handle, Context.fresh_handle. settle. Qed.

Lemma settled_bind env endpoint reply_tx c : settled c (handle_user_bind env endpoint reply_tx c).
Proof.
  assert (H : settled c (bind_endpoint env endpoint c).1).
  { unfold bind_endpoint. pose proof (settled_bind_listener env endpoint) as H1. pose proof settled_bind_inproc as H2.
    destruct (parse_endpoint endpoint) as [[]| |]; try done; try apply H1.
    case_bool_decide; [done|]. case_bool_decide; [done|]. specialize (H2 name c). by destruct (bind_inproc name c). }
  unfold handle_user_bind. destruct (bind_endpoint env endpoint c) as [c1 [r u]]. cbn in H. settle.
Qed.

Lemma settled_connect uri reply_tx c : settled c (handle_user_connect uri reply_tx c).
Proof. unfold handle_user_connect. settle. Qed.

Lemma settled_disconnect env uri reply_tx c : settled c (handle_user_disconnect env uri reply_tx c).
Proof.
  unfold handle_user_disconnect.
  match goal with |- context [let '(c, r) := ?x in _] => assert (H : settled c x.1); [|destruct x as [c1 r]; cbn in H; settle] end.
  destruct (find_session _ _) as [[u i]|]; [settle|]. destruct (is_inproc uri); [|done].
  unfold disconnect_inproc. case_bool_decide; [done|]. destruct (endpoints _ !! _) as [ei|]; [|done].
  destruct (pipe_ids ei) as [[w r]|]; [|done]. cbv zeta.
  match goal with |- context [remove_pipe_state w r ?c1] =>
    assert (H1 : settled c (remove_pipe_state w r c1).1) by settle; destruct (remove_pipe_state w r c1) as [c2 b] end.
  cbn in H1. settle.
Qed.

Lemma settled_unbind env uri reply_tx c : settled c (handle_user_unbind env uri reply_tx c).
Proof.
  unfold handle_user_unbind.
  match goal with |- context [let '(c, r) := ?x in _] => assert (H : settled c x.1); [|destruct x as [c1 r]; cbn in H; settle] end.
  unfold unbind_endpoint, unbind_inproc_name. settle.
Qed.

Lemma settled_new_connection env uri target model c : settled c (handle_new_connection_established env uri target model c).1.
Proof. unfold handle_new_connection_established, fresh_handle, Context.fresh_handle. settle. Qed.

Lemma settled_binding_request uri w r reply_tx c : settled c (process_inproc_binding_request_event uri w r reply_tx c).
Proof. unfold process_inproc_binding_request_event, fresh_handle, Context.fresh_handle. settle. Qed.

Lemma settled_retry env c : settled c (retry_due env c).
Proof. unfold retry_due. settle. Qed.

(** The arms on which a running core shuts down. *)
Definition shuts_down c (arm : Arm) : bool :=
  match arm with
  | ArmEvent (Event ContextTerminating) | ArmEvent EventsLagged | ArmEvent EventsClosed => true
  | ArmEvent (Event (SocketClosing id)) => id =? core_handle c
  | ArmCommand None | ArmCommand (Some (UserClose _)) | ArmCommand (Some Stop) => true
  | _ => false
  end.

(** A turn of a running core: nothing of the shutdown changes, or the core shuts
    down with the endpoints it has. *)
Lemma turn_running env arm c :
  phase c = Running ->
  (shuts_down c arm = false /\ same_shutdown c (turn env arm c)) \/
  exists c1, same_shutdown c c1 /\ (shuts_down c arm = true -> core_state c1 = core_state c) /\
    shutdown_coordinator (turn env arm c) = shutdown_coordinator (initiate_core_shutdown env c1) /\
    core_state (turn env arm c) = core_state (initiate_core_shutdown env c1).
Proof.
  intros Hp.
  assert (Hst : forall c1, phase c1 = Running -> stop_running env c1 = initiate_core_shutdown env c1)
    by (intros c1 H1; unfold stop_running; by rewrite bool_decide_true).
  assert (Hg : forall r, settled c r.1 -> same_shutdown c (guarded env r) \/
    exists c1, same_shutdown c c1 /\
      shutdown_coordinator (guarded env r) = shutdown_coordinator (initiate_core_shutdown env c1) /\
      core_state (guarded env r) = core_state (initiate_core_shutdown env c1)).
  { intros [c1 r] Hs. unfold guarded. destruct r as [|e|]; cbn [fst snd] in *; [left; by apply settled_same| |left; by apply settled_same].
    right. exists (set_final e c1). rewrite Hst; [by apply settled_same in Hs|]. apply settled_phase in Hs. unfold phase in *. cbn. congruence. }
  assert (Hg0 : forall c1, settled c c1 -> same_shutdown c (guarded env (c1, Ok tt))) by (intros c1 Hs; by apply settled_same).
  destruct arm as [[event| |]|[cmd|]|]; cbn [turn on_event on_command shuts_down].
  - destruct event; cbn [process_system_event]; try (left; by split).
    + right. exists c. by split_and!.
    + destruct (_ =? _); [right; exists c; by split_and!|left; by split].
    + left. split; [done|]. apply Hg0. destruct (bool_decide _); [|done]. unfold handle_actor_stopping_event.
      pose proof (settled_cleanup c c env handle_id endpoint_uri error false ltac:(reflexivity)) as Hs.
      destruct (cleanup_stopped_child_resources _ _ _ _ _ _) as [c1 b]. cbn in Hs. rewrite (settled_phase _ _ Hs), Hp. settle.
    + destruct (negb _); [left; by split|]. rewrite bool_decide_true by done.
      destruct (Hg (handle_new_connection_established env endpoint_uri target_endpoint_uri interaction_model c)) as [Hs|(c1 & H1 & H2 & H3)];
        [apply settled_new_connection|left; by split|]. right. exists c1. by split_and!.
    + left. split; [done|]. apply Hg0. destruct (_ && _); [|done]. unfold handle_peer_identity. settle.
    + left. split; [done|]. apply Hg0. destruct (_ =? _); [|done]. unfold handle_connect_failed_event. settle.
    + left. split; [done|]. apply Hg0. rewrite (bool_decide_true (phase c = Running)) by done.
      destruct (bool_decide _); [|done]. apply settled_binding_request.
    + left. split; [done|]. apply Hg0. destruct (bool_decide _); [|done]. by apply settled_peer_closed.
  - rewrite bool_decide_true by done. right. by exists (set_final (Internal "SocketCore: Event bus lagged") c).
  - rewrite Hst by done. right. by exists (set_final (Internal "SocketCore: Event bus closed") c).
  - unfold process_socket_command. rewrite bool_decide_true by done. cbn [negb].
    destruct cmd; try (left; by split).
    + left. split; [done|]. apply Hg0, settled_bind.
    + left. split; [done|]. apply Hg0, settled_connect.
    + left. split; [done|]. apply Hg0, settled_disconnect.
    + left. split; [done|]. apply Hg0, settled_unbind.
    + left. split; [done|]. apply Hg0. destruct (socket_recv _). settle.
    + pose proof (same_shutdown_set_option option value c) as Hs. left. split; [done|].
      destruct (handle_set_option option value c) as [c1 r]. done.
    + right. by exists (publish_socket_closing_event c).
    + right. by exists (publish_socket_closing_event c).
  - rewrite Hst by done. right. by exists (set_final (Internal "SocketCore: Command mailbox closed") c).
  - left. split; [done|]. apply settled_same. unfold on_tick. rewrite (bool_decide_true (phase c = Running)) by done.
    rewrite (bool_decide_false (phase c = Lingering)) by congruence. apply settled_reap, settled_retry.
Qed.

Lemma run_running env arm c : phase c = Running -> run c [(env, arm)] = turn env arm c.
Proof. intros Hp. cbn. by rewrite bool_decide_false by congruence. Qed.

Lemma under_way_mono T T' c : T <= T' -> under_way T c -> under_way T' c.
Proof.
  intros HT. unfold under_way. destruct (phase c); try done. destruct (linger _) as [d|]; [|done].
  intros (t & ? & ?). exists t. split; [done|lia].
Qed.

(** A core has not begun to shut down, or is on its way. *)
Lemma run_states `{!HashOrderLaws} arms c :
  shutdown_coordinator c = new_coordinator ->
  shutdown_coordinator (run c arms) = new_coordinator \/ exists T, under_way T (run c arms).
Proof.
  intros Hc. induction arms as [|[env arm] arms IH] using rev_ind; [by left|]. rewrite run_app.
  set (c1 := run c arms) in *. clearbody c1. cbn. case_bool_decide as Hf; [done|].
  destruct IH as [Hn|(T & Hu)].
  - assert (Hr : phase c1 = Running) by (unfold phase; by rewrite Hn).
    destruct (turn_running env arm c1 Hr) as [[_ Hs]|(c2 & Hs & _ & Hc2 & Hs2)]; [left; by rewrite (proj1 Hs)|right].
    destruct (initiate_under_way (e_now env) env c2 ltac:(by rewrite (proj1 Hs)) ltac:(lia)) as (Hu & _).
    exists (e_now env). unfold under_way, phase, closed_down in *. by rewrite Hc2, Hs2.
  - right. exists (Z.max T (e_now env)).
    apply (turn_under_way (Z.max T (e_now env)) env arm c1); [apply (under_way_mono T); [lia|done]|done|lia].
Qed.

Lemma running_coordinator `{!HashOrderLaws} arms c :
  shutdown_coordinator c = new_coordinator -> phase (run c arms) = Running -> shutdown_coordinator (run c arms) = new_coordinator.
Proof.
  intros Hc Hp. destruct (run_states arms c Hc) as [H1|(T & H1)]; [done|]. unfold under_way in H1. by rewrite Hp in H1.
Qed.

(** The reports that end a shutdown: of every listener the core started and of
    every session, but those of inproc connections, which end with the call that
    closes them. *)
Definition children_report (c : core) (arms : list (Env * Arm)) : Prop :=
  forall uri ei, endpoints (core_state c) !! uri = Some ei ->
  match endpoint_type ei with
  | Listener => is_Some (task_handle ei) -> Exists (fun a => reports (core_handle c) (handle_id ei) AListener a = true) arms
  | SessionEndpoint => is_inproc uri = false -> Exists (fun a => reports (core_handle c) (handle_id ei) ASession a = true) arms
  end.

Definition children_reportb (c : core) (arms : list (Env * Arm)) : bool :=
  forallb (fun '(uri, ei) =>
    match endpoint_type ei with
    | Listener => bool_decide (task_handle ei = None) || existsb (reports (core_handle c) (handle_id ei) AListener) arms
    | SessionEndpoint => is_inproc uri || existsb (reports (core_handle c) (handle_id ei) ASession) arms
    end) (map_to_list (endpoints (core_state c))).

Lemma children_reportb_sound c arms : children_reportb c arms = true -> children_report c arms.
Proof.
  intros Hb uri ei Hei. unfold children_reportb in Hb. rewrite forallb_forall in Hb.
  specialize (Hb (uri, ei)). cbn in Hb. rewrite <- list_elem_of_In, elem_of_map_to_list in Hb. specialize (Hb Hei).
  assert (Hex : forall id t, existsb (reports (core_handle c) id t) arms = true -> Exists (fun a => reports (core_handle c) id t a = true) arms).
  { intros id t (a & Ha & Hr)%existsb_exists. apply Exists_exists. exists a. by rewrite list_elem_of_In. }
  destruct (endpoint_type ei); apply orb_true_iff in Hb as [Hb|Hb].
  - intros [x Hx]. rewrite Hx in Hb. done.
  - intros _. by apply Hex.
  - congruence.
  - intros _. by apply Hex.
Qed.

(** The linger is over: all is sent, or its time has passed. *)
Definition linger_over (c : core) (T : Z) env : Prop :=
  (forall w, pipe_empty env w = true) \/ (exists d, linger (options (core_state c)) = Some d /\ T + d <= e_now env).

End Shutdown.

(** The order of the entries as in the tree of the map. *)
Definition map_order : HashOrder := {| iter_uri A m := map_to_list m; iter_id A m := map_to_list m |}.

Lemma map_order_laws : @HashOrderLaws map_order.
Proof. by split. Qed.

(** A socket type that keeps the pipes it is told of. *)
Definition pipe_recorder : ISocket (list Z) := {|
  pipe_attached r _ _ l := r :: l;
  pipe_detached r l := filter (fun r' => r' <> r) l;
  update_peer_identity _ _ l := l;
  set_pattern_option o _ l := (l, Err (UnsupportedOption o));
  get_pattern_option o _ := Err (UnsupportedOption o);
  socket_send _ l := (l, Ok tt);
  socket_recv l := (l, Err ResourceLimitReached);
  socket_stop l := (l, Ok tt);
|}.

(** C12: a shutdown ends.  Whatever a core has done while it ran, once it is closed,
    stopped or terminated, or loses its event bus or its mailbox: when every listener
    and every session it has then has reported that it stopped, in any order and
    among any other events and commands, and a tick finds all sent or the linger
    over, the shutdown is finished and no endpoint and no pipe is left. *)
Theorem shutdown_completes (HN : Notify) (HF : Fibre) (L : Type) (HL : ISocket L) (HO : HashOrder) (HOL : HashOrderLaws)
    (h : Z) (ctx : Context) (ty : SocketType) (opts : SocketOptions) (logic : L) (cmd_tx : Z)
    (before arms : list (Env * Arm)) (env0 env : Env) (arm : Arm) (T : Z) :
  let c0 := run (create_and_spawn h ctx ty opts logic cmd_tx) before in
  phase c0 = Running -> shuts_down c0 arm = true ->
  Forall (fun a => e_now a.1 <= T) ((env0, arm) :: arms) -> children_report c0 arms -> linger_over c0 T env ->
  let c := run c0 ((env0, arm) :: arms ++ [(env, ArmTick)]) in
  phase c = Finished /\ closed_down c.
Proof.
  intros c0 Hp Hs [HT0 HT]%Forall_cons Hrep Hover c. subst c.
  assert (Hn : shutdown_coordinator c0 = new_coordinator) by (apply running_coordinator; done). clearbody c0.
  change ((env0, arm) :: arms ++ [(env, ArmTick)]) with ([(env0, arm)] ++ arms ++ [(env, ArmTick)]).
  rewrite !run_app, (run_running env0 arm c0) by done.
  destruct (turn_running env0 arm c0 Hp) as [[? _]|(c1 & Hsame & Hst & Hco & Hcs)]; [congruence|]. specialize (Hst Hs).
  destruct (initiate_under_way T env0 c1 ltac:(by rewrite (proj1 Hsame)) HT0) as (Hu & Hid & Haw).
  set (c2 := turn env0 arm c0) in *. clearbody c2.
  assert (Hu2 : under_way T c2) by (unfold under_way, phase, closed_down in *; by rewrite Hco, Hcs).
  assert (Hid2 : ident c2 = ident c0).
  { transitivity (ident (initiate_core_shutdown env0 c1)); [by unfold ident, core_handle; rewrite Hcs|].
    rewrite Hid. unfold ident, core_handle. by rewrite Hst. }
  destruct (run_under_way T arms c2 Hu2 HT) as (Hu3 & Hp3 & Hid3).
  { intros id t Hph Ha. rewrite Hco in Ha. unfold phase in Hph. rewrite Hco in Hph.
    destruct (Haw id t Hph Ha) as (uri & ei & Hei & Hh & Hty). rewrite Hst in Hei. specialize (Hrep uri ei Hei).
    replace (core_handle c2) with (core_handle c0) by (unfold ident in Hid2; congruence).
    destruct t; try (by destruct Hty); rewrite Hh in Hrep.
    - destruct Hty as [Ht Htask]. rewrite Ht in Hrep. by apply Hrep.
    - destruct Hty as (_ & Ht & Hin). rewrite Ht in Hrep. by apply Hrep. }
  set (c3 := run c2 arms) in *. clearbody c3. cbn [run foldl]. case_bool_decide as Hf.
  - split; [done|]. unfold under_way in Hu3. by rewrite Hf in Hu3.
  - assert (Hl : phase c3 = Lingering) by (unfold under_way in Hu3; by destruct (phase c3)). cbn [turn].
    destruct (lingering_tick T env c3 Hl Hu3) as (H1 & _ & _ & H4).
    assert (Hfin : phase (on_tick env c3) = Finished).
    { apply H4. unfold ident in *. destruct Hover as [He|(d & Hd & Hle)]; [by left|right]. exists d. split; [congruence|done]. }
    split; [done|]. unfold under_way in H1. by rewrite Hfin in H1.
Qed.

Section Runs.
#[local] Existing Instance flag_notify.
#[local] Existing Instance list_fibre.
#[local] Existing Instance map_order.
#[local] Existing Instance map_order_laws.
#[local] Existing Instance pipe_recorder.

Definition env_at (t : Z) : Env :=
  mkEnv t (fun _ => true) "closed" (fun e => Ok (70, 71, e)) (fun _ => false) (fun _ => true) true true.

(** The core with handle 1 of a DEALER. *)
Definition dealer_core : SocketCore (list Z) :=
  create_and_spawn 1 (Context.fresh_handle Context.new).1 Dealer default_options [] 9.

(** It is bound, and a peer connects. *)
Definition bound_and_connected : list (Env * Arm) :=
  [(env_at 0, ArmCommand (Some (UserBind "tcp://a:1" 50)));
   (env_at 1, ArmEvent (Event (NewConnectionEstablished 1 "tcp://p:9" "tcp://a:1" None (ViaSca 60 61) None)))].

Definition both_stop : list (Env * Arm) :=
  [(env_at 3, ArmEvent (Event (ActorStopping 61 ASession (Some 1) (Some "tcp://p:9"%string) None)));
   (env_at 4, ArmCommand (Some (UserRecv 52)));
   (env_at 5, ArmEvent (Event (ActorStopping 2 AListener (Some 1) (Some "tcp://a:1"%string) None)))].

Lemma shutdown_completes_witness :
  let c := run (run dealer_core bound_and_connected)
             ((env_at 2, ArmCommand (Some (UserClose 51))) :: both_stop ++ [(env_at 6, ArmTick)]) in
  phase c = Finished /\ closed_down c.
Proof.
  apply (shutdown_completes _ _ _ _ _ _ 1 (Context.fresh_handle Context.new).1 Dealer default_options [] 9
    bound_and_connected both_stop (env_at 2) (env_at 6) (ArmCommand (Some (UserClose 51))) 5).
  - by vm_compute.
  - by vm_compute.
  - by repeat constructor.
  - apply children_reportb_sound. by vm_compute.
  - by left.
Defined.

(** Each child in turn holds the shutdown up. *)
Lemma shutdown_waits :
  phase (run (run dealer_core bound_and_connected)
    ((env_at 2, ArmCommand (Some (UserClose 51))) :: take 2 both_stop ++ [(env_at 6, ArmTick)])) = StoppingChildren.
Proof. by vm_compute. Qed.

End Runs.
