(* ===== verification/CoreTables.v ===== *)
(** The tables of the core of a socket ([core/src/socket/core/*.rs]): endpoints, the
    sending ends of pipes, the endpoint of a pipe, and the pipes its socket type
    knows, with the tasks that connect to inproc endpoints running beside the
    loop. *)

From S2P Require Import Prelude Error Message Options Queue Tasks Runtime Session Transport SocketCore CoreSafety.
Import Endpoints(ShutdownPhase(..)).
Import SocketCore.

#[local] Set Warnings "-clear-no-such-hyp".

(** ** The tables *)

Record Tables := mkTables {
  t_endpoints : gmap string EndpointInfo;
  t_pipes_tx : gmap Z Z;
  t_uri : gmap Z string;
  t_attached : gset Z;
  t_next : Z;
}.

(** An endpoint and what belongs to it. *)
Definition entry_ok (t : Tables) (uri : string) (ei : EndpointInfo) : Prop :=
  endpoint_uri ei = uri /\
  match endpoint_type ei with
  | Listener => pipe_ids ei = None /\ is_Some (task_handle ei)
  | SessionEndpoint =>
      task_handle ei = None /\
      exists w r, pipe_ids ei = Some (w, r) /\ t_pipes_tx t !! w = Some w /\ t_uri t !! r = Some uri /\
        w < t_next t /\ r < t_next t
  end.

(** No endpoint writes to the pipe [w] or reads from the pipe [r]. *)
Definition unused (t : Tables) (w r : Z) : Prop :=
  forall uri ei w' r', t_endpoints t !! uri = Some ei -> pipe_ids ei = Some (w', r') -> w' <> w /\ r' <> r.

Record tables_ok (t : Tables) (ps : list Connecting) : Prop := {
  ok_entry uri ei : t_endpoints t !! uri = Some ei -> entry_ok t uri ei;
  (** Endpoints do not share pipes. *)
  ok_write u1 u2 e1 e2 w r1 r2 :
    t_endpoints t !! u1 = Some e1 -> t_endpoints t !! u2 = Some e2 ->
    pipe_ids e1 = Some (w, r1) -> pipe_ids e2 = Some (w, r2) -> u1 = u2;
  (** The socket type knows pipes of the table only, and those of every session
      that is connected. *)
  ok_attached r : r ∈ t_attached t -> is_Some (t_uri t !! r);
  ok_known uri ei w r :
    t_endpoints t !! uri = Some ei -> pipe_ids ei = Some (w, r) -> r ∈ t_attached t \/ (r ∈ (con_read_id <$> ps));
  (** A connection being made has its own pipes, which the socket type does not
      know yet. *)
  ok_pending p : p ∈ ps ->
    con_write_id p < t_next t /\ con_read_id p < t_next t /\ (con_read_id p ∉ t_attached t) /\
    forall uri ei w r, t_endpoints t !! uri = Some ei -> pipe_ids ei = Some (w, r) ->
      w = con_write_id p \/ r = con_read_id p -> uri = inproc_uri (con_name p);
  ok_distinct : NoDup (con_read_id <$> ps);
  ok_uri r uri : t_uri t !! r = Some uri -> r < t_next t;
}.

Implicit Types (t : Tables) (ps : list Connecting).

Lemma entry_mono t n uri ei :
  t_next t <= n -> entry_ok t uri ei -> entry_ok (mkTables (t_endpoints t) (t_pipes_tx t) (t_uri t) (t_attached t) n) uri ei.
Proof.
  intros Hn [Hu He]. split; [done|]. destruct (endpoint_type ei); [done|]. destruct He as (Ht & w & r & ? & ? & ? & ? & ?).
  split; [done|]. exists w, r. cbn. split_and!; [done..|lia|lia].
Qed.

Lemma tables_mono t ps n :
  t_next t <= n -> tables_ok t ps -> tables_ok (mkTables (t_endpoints t) (t_pipes_tx t) (t_uri t) (t_attached t) n) ps.
Proof.
  intros Hn [H1 H2 H3 H4 H5 H6 H7]. split; cbn; try done.
  - intros uri ei Hei. by apply entry_mono, H1.
  - intros p Hp. destruct (H5 p Hp) as (? & ? & ? & ?). split_and!; [lia|lia|done|done].
  - intros r uri Hr. specialize (H7 r uri Hr). lia.
Qed.

(** A session that comes up, over one with the same uri if there is one. *)
Definition add_session (uri : string) (ei : EndpointInfo) (w r : Z) t : Tables :=
  mkTables (<[uri := ei]> (t_endpoints t)) (<[w := w]> (t_pipes_tx t)) (<[r := uri]> (t_uri t)) (t_attached t) (t_next t).

Definition attach_pipe (r : Z) t : Tables :=
  mkTables (t_endpoints t) (t_pipes_tx t) (t_uri t) ({[r]} ∪ t_attached t) (t_next t).

Definition session_info (uri : string) (ei : EndpointInfo) (w r : Z) : Prop :=
  endpoint_uri ei = uri /\ endpoint_type ei = SessionEndpoint /\ task_handle ei = None /\ pipe_ids ei = Some (w, r).

Lemma add_session_entries t ps uri ei w r :
  tables_ok t ps -> session_info uri ei w r -> unused t w r -> w < t_next t -> r < t_next t ->
  (forall u e, t_endpoints (add_session uri ei w r t) !! u = Some e -> entry_ok (add_session uri ei w r t) u e) /\
  (forall u1 u2 e1 e2 w' r1 r2,
    t_endpoints (add_session uri ei w r t) !! u1 = Some e1 -> t_endpoints (add_session uri ei w r t) !! u2 = Some e2 ->
    pipe_ids e1 = Some (w', r1) -> pipe_ids e2 = Some (w', r2) -> u1 = u2).
Proof.
  intros [H1 H2 _ _ _ _ _] (Hu & Hty & Hta & Hp) Hfr Hw Hr. cbn. split.
  - intros u e. rewrite lookup_insert_Some. intros [[<- <-]|[Hne He]].
    + split; [done|]. rewrite Hty. split; [done|]. exists w, r. cbn. by rewrite !lookup_insert_eq.
    + destruct (H1 u e He) as [Hue Hok]. split; [done|]. destruct (endpoint_type e); [done|].
      destruct Hok as (Ht & w' & r' & Hp' & Hw' & Hr' & ? & ?). destruct (Hfr u e w' r' He Hp') as [Hnw Hnr].
      split; [done|]. exists w', r'. cbn. rewrite !lookup_insert_ne by done. done.
  - intros u1 u2 e1 e2 w' r1 r2 E1 E2 P1 P2. rewrite lookup_insert_Some in E1, E2.
    destruct E1 as [[<- <-]|[N1 E1]], E2 as [[<- <-]|[N2 E2]]; [done| | |by eapply H2].
    + rewrite Hp in P1. injection P1 as <- <-. by destruct (Hfr _ _ _ _ E2 P2).
    + rewrite Hp in P2. injection P2 as <- <-. by destruct (Hfr _ _ _ _ E1 P1).
Qed.

Lemma tables_connected t ps uri ei w r :
  tables_ok t ps -> session_info uri ei w r -> unused t w r -> w < t_next t -> r < t_next t ->
  (forall p, p ∈ ps -> con_write_id p <> w /\ con_read_id p <> r) ->
  tables_ok (attach_pipe r (add_session uri ei w r t)) ps.
Proof.
  intros Hok Hi Hfr Hw Hr Hps. destruct (add_session_entries t ps uri ei w r) as [A1 A2]; [done..|].
  destruct Hok as [H1 H2 H3 H4 H5 H6 H7]. destruct Hi as (Hu & Hty & Hta & Hp). split; [done|done|..]; cbn.
  - intros r'. rewrite elem_of_union, elem_of_singleton. intros [->|Ha]; [by rewrite lookup_insert_eq|].
    destruct (decide (r = r')) as [->|]; [by rewrite lookup_insert_eq|rewrite lookup_insert_ne by done; by apply H3].
  - intros u e w' r'. rewrite lookup_insert_Some. intros [[<- <-]|[Hne He]] Hp'.
    + rewrite Hp in Hp'. injection Hp' as <- <-. left. set_solver.
    + destruct (H4 u e w' r' He Hp'); [left; set_solver|by right].
  - intros p Hin. destruct (H5 p Hin) as (P1 & P2 & P3 & P4). destruct (Hps p Hin). split_and!; [done..|set_solver|].
    intros u e w' r'. rewrite lookup_insert_Some. intros [[<- <-]|[Hne He]] Hp'; [|by eapply P4].
    rewrite Hp in Hp'. injection Hp' as <- <-. intros [?|?]; congruence.
  - done.
  - intros r' u. rewrite lookup_insert_Some. intros [[<- _]|[_ Hu']]; [done|by eapply H7].
Qed.

Lemma tables_connecting t ps name ei p :
  tables_ok t ps -> session_info (inproc_uri name) ei (con_write_id p) (con_read_id p) -> con_name p = name ->
  unused t (con_write_id p) (con_read_id p) -> con_write_id p < t_next t -> con_read_id p < t_next t ->
  con_read_id p ∉ t_attached t ->
  (forall p', p' ∈ ps -> con_write_id p' <> con_write_id p /\ con_read_id p' <> con_read_id p) ->
  tables_ok (add_session (inproc_uri name) ei (con_write_id p) (con_read_id p) t) (p :: ps).
Proof.
  intros Hok Hi <- Hfr Hw Hr Hna Hps. destruct (add_session_entries t ps (inproc_uri (con_name p)) ei _ _ Hok Hi Hfr Hw Hr) as [A1 A2].
  destruct Hok as [H1 H2 H3 H4 H5 H6 H7]. destruct Hi as (Hu & Hty & Hta & Hp). split; [done|done|..]; cbn.
  - intros r' Ha. destruct (decide (con_read_id p = r')) as [<-|]; [by rewrite lookup_insert_eq|rewrite lookup_insert_ne by done; by apply H3].
  - intros u e w' r'. rewrite lookup_insert_Some. intros [[<- <-]|[Hne He]] Hp'.
    + rewrite Hp in Hp'. injection Hp' as <- <-. right. by left.
    + destruct (H4 u e w' r' He Hp'); [by left|right; by right].
  - intros p' [->|Hin]%elem_of_cons.
    + split_and!; [done..|]. intros u e w' r'. rewrite lookup_insert_Some. intros [[<- <-]|[Hne He]] Hp'; [done|].
      destruct (Hfr u e w' r' He Hp'). intros []; congruence.
    + destruct (H5 p' Hin) as (P1 & P2 & P3 & P4). destruct (Hps p' Hin). split_and!; [done..|].
      intros u e w' r'. rewrite lookup_insert_Some. intros [[<- <-]|[Hne He]] Hp'; [|by eapply P4].
      rewrite Hp in Hp'. injection Hp' as <- <-. intros [?|?]; congruence.
  - apply NoDup_cons. split; [|done]. intros (p' & He & Hin)%list_elem_of_fmap. destruct (Hps p' Hin). congruence.
  - intros r' u. rewrite lookup_insert_Some. intros [[<- _]|[_ Hu']]; [done|by eapply H7].
Qed.

(** The answer of the binder. *)
Lemma tables_answered t ps1 p ps2 :
  tables_ok t (ps1 ++ p :: ps2) -> is_Some (t_uri t !! con_read_id p) -> tables_ok (attach_pipe (con_read_id p) t) (ps1 ++ ps2).
Proof.
  intros [H1 H2 H3 H4 H5 H6 H7] Hin. rewrite fmap_app, fmap_cons in H6.
  assert (Hnd : con_read_id p ∉ (con_read_id <$> (ps1 ++ ps2))).
  { apply NoDup_app in H6 as (_ & Hd & [Hn _]%NoDup_cons). rewrite fmap_app, elem_of_app. intros [Hp|Hp]; [|done].
    apply (Hd _ Hp). left. }
  split; cbn; [done|done|..].
  - intros r. rewrite elem_of_union, elem_of_singleton. intros [->|Ha]; [done|by apply H3].
  - intros uri ei w r He Hp. destruct (H4 uri ei w r He Hp) as [Ha|Hr]; [left; set_solver|].
    rewrite fmap_app, fmap_cons, elem_of_app, elem_of_cons in Hr. rewrite fmap_app, elem_of_app. destruct Hr as [?|[->|?]]; [auto|left; set_solver|auto].
  - intros p' Hp'. destruct (H5 p') as (P1 & P2 & P3 & P4); [rewrite elem_of_app in *; rewrite elem_of_cons; tauto|].
    split_and!; [done..| |done]. rewrite not_elem_of_union, not_elem_of_singleton. split; [|done]. intros E. apply Hnd.
    rewrite <- E. by apply list_elem_of_fmap_2.
  - rewrite fmap_app. apply NoDup_app in H6 as (N1 & Hd & [_ N2]%NoDup_cons). apply NoDup_app. split_and!; [done| |done].
    intros x Hx Hx2. apply (Hd x Hx). by right.
  - done.
Qed.

Definition remove_session (uri : string) (w r : Z) t : Tables :=
  mkTables (delete uri (t_endpoints t)) (delete w (t_pipes_tx t)) (delete r (t_uri t)) (t_attached t) (t_next t).

Definition detach_pipe (r : Z) t : Tables :=
  mkTables (t_endpoints t) (t_pipes_tx t) (t_uri t) (t_attached t ∖ {[r]}) (t_next t).

(** Pipes no other endpoint has can go. *)
Lemma remove_session_entries t ps uri w r :
  tables_ok t ps ->
  (forall u e w' r', u <> uri -> t_endpoints t !! u = Some e -> pipe_ids e = Some (w', r') -> w' <> w /\ r' <> r) ->
  (forall u e, t_endpoints (remove_session uri w r t) !! u = Some e -> entry_ok (remove_session uri w r t) u e) /\
  (forall u1 u2 e1 e2 w' r1 r2,
    t_endpoints (remove_session uri w r t) !! u1 = Some e1 -> t_endpoints (remove_session uri w r t) !! u2 = Some e2 ->
    pipe_ids e1 = Some (w', r1) -> pipe_ids e2 = Some (w', r2) -> u1 = u2).
Proof.
  intros [H1 H2 _ _ _ _ _] Hfr. cbn. split.
  - intros u e. rewrite lookup_delete_Some. intros [Hne He]. destruct (H1 u e He) as [Hue Hok]. split; [done|].
    destruct (endpoint_type e); [done|]. destruct Hok as (Ht & w' & r' & Hp' & Hw' & Hr' & ? & ?).
    destruct (Hfr u e w' r' ltac:(done) He Hp'). split; [done|]. exists w', r'. cbn. by rewrite !lookup_delete_ne.
  - intros u1 u2 e1 e2 w' r1 r2 [_ E1]%lookup_delete_Some [_ E2]%lookup_delete_Some. by eapply H2.
Qed.

(** The connection is taken back. *)
Lemma tables_retracted t ps1 p ps2 :
  tables_ok t (ps1 ++ p :: ps2) ->
  tables_ok (remove_session (inproc_uri (con_name p)) (con_write_id p) (con_read_id p) t) (ps1 ++ ps2).
Proof.
  intros Hok. pose proof Hok as [H1 H2 H3 H4 H5 H6 H7].
  destruct (H5 p ltac:(set_solver)) as (_ & _ & Hna & Hp).
  destruct (remove_session_entries t _ (inproc_uri (con_name p)) (con_write_id p) (con_read_id p) Hok) as [A1 A2].
  { intros u e w' r' Hne He Hpi. specialize (Hp u e w' r' He Hpi). naive_solver. }
  split; [done|done|..]; cbn.
  - intros r Ha. rewrite lookup_delete_ne by (by intros <-). by apply H3.
  - intros u e w r [Hne He]%lookup_delete_Some Hpi. destruct (H4 u e w r He Hpi) as [|Hr]; [by left|right].
    rewrite fmap_app, fmap_cons, elem_of_app, elem_of_cons in Hr. rewrite fmap_app, elem_of_app.
    destruct Hr as [?|[->|?]]; [auto| |auto]. destruct Hne. symmetry. by apply (Hp u e w (con_read_id p) He Hpi); right.
  - intros p' Hp'. destruct (H5 p') as (P1 & P2 & P3 & P4); [rewrite elem_of_app in *; rewrite elem_of_cons; tauto|].
    split_and!; [done..|]. intros u e w r [_ He]%lookup_delete_Some. by eapply P4.
  - rewrite fmap_app, fmap_cons in H6. rewrite fmap_app. apply NoDup_app in H6 as (N1 & Hd & [_ N2]%NoDup_cons). apply NoDup_app.
    split_and!; [done| |done]. intros x Hx Hx2. apply (Hd x Hx). by right.
  - intros r u [_ Hr]%lookup_delete_Some. by eapply H7.
Qed.

(** A session that is gone, and the socket type told. *)
Lemma tables_disconnected t ps uri ei w r :
  tables_ok t ps -> t_endpoints t !! uri = Some ei -> pipe_ids ei = Some (w, r) ->
  tables_ok (detach_pipe r (remove_session uri w r t)) ps.
Proof.
  intros Hok Hei Hpi. pose proof Hok as [H1 H2 H3 H4 H5 H6 H7].
  assert (Hfr : forall u e w' r', u <> uri -> t_endpoints t !! u = Some e -> pipe_ids e = Some (w', r') -> w' <> w /\ r' <> r).
  { intros u e w' r' Hne He Hp'. split; [intros ->; apply Hne; by eapply H2|intros ->; apply Hne].
    destruct (H1 u e He) as [_ Hoe], (H1 uri ei Hei) as [_ Hoi].
    destruct (endpoint_type e), (endpoint_type ei); [by destruct Hoe; congruence..| | ]; [by destruct Hoi; congruence|].
    destruct Hoe as (_ & ? & ? & Ee & _ & Re & _), Hoi as (_ & ? & ? & Ei & _ & Ri & _). congruence. }
  destruct (remove_session_entries t ps uri w r Hok Hfr) as [A1 A2]. split; [done|done|..]; cbn.
  - intros r'. rewrite elem_of_difference, not_elem_of_singleton. intros [Ha Hne]. rewrite lookup_delete_ne by done. by apply H3.
  - intros u e w' r' [Hne He]%lookup_delete_Some Hp'. destruct (Hfr u e w' r' ltac:(done) He Hp').
    destruct (H4 u e w' r' He Hp'); [left; set_solver|by right].
  - intros p Hp. destruct (H5 p Hp) as (P1 & P2 & P3 & P4). split_and!; [done..|set_solver|].
    intros u e w' r' [_ He]%lookup_delete_Some. by eapply P4.
  - done.
  - intros r' u [_ Hr]%lookup_delete_Some. by eapply H7.
Qed.

(** Listeners. *)
Definition set_endpoints (m : gmap string EndpointInfo) t : Tables :=
  mkTables m (t_pipes_tx t) (t_uri t) (t_attached t) (t_next t).

Lemma tables_bound t ps uri ei :
  tables_ok t ps -> t_endpoints t !! uri = None -> endpoint_uri ei = uri -> endpoint_type ei = Listener ->
  pipe_ids ei = None -> is_Some (task_handle ei) -> tables_ok (set_endpoints (<[uri := ei]> (t_endpoints t)) t) ps.
Proof.
  intros [H1 H2 H3 H4 H5 H6 H7] Hn Hu Hty Hpi Hta. split; cbn; [..|done|done].
  - intros u e. rewrite lookup_insert_Some. intros [[<- <-]|[_ He]]; [|by apply H1]. split; [done|]. by rewrite Hty.
  - intros u1 u2 e1 e2 w r1 r2. rewrite !lookup_insert_Some. intros [[_ <-]|[_ E1]] [[_ <-]|[_ E2]]; [congruence..|by eapply H2].
  - done.
  - intros u e w r. rewrite lookup_insert_Some. intros [[_ <-]|[_ He]]; [congruence|by eapply H4].
  - intros p Hp. destruct (H5 p Hp) as (P1 & P2 & P3 & P4). split_and!; [done..|]. intros u e w r.
    rewrite lookup_insert_Some. intros [[_ <-]|[_ He]]; [congruence|by eapply P4].
Qed.

Lemma tables_unbound t ps uri : tables_ok t ps -> tables_ok (set_endpoints (delete uri (t_endpoints t)) t) ps.
Proof.
  intros [H1 H2 H3 H4 H5 H6 H7]. split; cbn; [..|done|done].
  - intros u e [_ He]%lookup_delete_Some. by apply H1.
  - intros u1 u2 e1 e2 w r1 r2 [_ E1]%lookup_delete_Some [_ E2]%lookup_delete_Some. by eapply H2.
  - done.
  - intros u e w r [_ He]%lookup_delete_Some. by eapply H4.
  - intros p Hp. destruct (H5 p Hp) as (P1 & P2 & P3 & P4). split_and!; [done..|]. intros u e w r [_ He]%lookup_delete_Some. by eapply P4.
Qed.

(** The type of the peer becomes known. *)
Lemma tables_identified t ps uri ty :
  tables_ok t ps -> tables_ok (set_endpoints (alter (fun i => i <| peer_type := ty |>) uri (t_endpoints t)) t) ps.
Proof.
  intros [H1 H2 H3 H4 H5 H6 H7].
  assert (Hl : forall u e, alter (fun i : EndpointInfo => i <| peer_type := ty |>) uri (t_endpoints t) !! u = Some e ->
    exists e', t_endpoints t !! u = Some e' /\ endpoint_uri e = endpoint_uri e' /\ endpoint_type e = endpoint_type e' /\
      pipe_ids e = pipe_ids e' /\ task_handle e = task_handle e').
  { intros u e. destruct (decide (uri = u)) as [<-|].
    - rewrite lookup_alter_eq, fmap_Some. intros (e' & He & ->). by exists e'.
    - rewrite lookup_alter_ne by done. intros He. by exists e. }
  split; cbn; [..|done|done].
  - intros u e (e' & He & Eu & Et & Ep & Ek)%Hl. destruct (H1 u e' He) as [? Ho]. split; [congruence|]. by rewrite Et, Ep, Ek.
  - intros u1 u2 e1 e2 w r1 r2 (e1' & E1 & _ & _ & P1 & _)%Hl (e2' & E2 & _ & _ & P2 & _)%Hl. rewrite P1, P2. by eapply H2.
  - done.
  - intros u e w r (e' & He & _ & _ & P & _)%Hl. rewrite P. by eapply H4.
  - intros p Hp. destruct (H5 p Hp) as (P1 & P2 & P3 & P4). split_and!; [done..|].
    intros u e w r (e' & He & _ & _ & P & _)%Hl. rewrite P. by eapply P4.
Qed.

(** ** The core *)

Section Core.
Context `{HN : Notify} `{HF : Fibre} {L : Type} `{HL : ISocket L} `{HO : HashOrder}.
Abbreviation core := (SocketCore L).
Implicit Types (c : core) (env : Env).

Definition tables c : Tables :=
  mkTables (endpoints (core_state c)) (pipes_tx (core_state c)) (pipe_read_id_to_endpoint_uri (core_state c)) (attached c)
    (next_handle (context c)).

Lemma tables_fold {A} (f : core -> A -> core) l c :
  (forall c a, tables (f c a) = tables c) -> tables (foldl f c l) = tables c.
Proof. intros Hf. revert c. induction l as [|a l IH]; intros c; [done|]. cbn. by rewrite IH, Hf. Qed.

Lemma tables_monitor e c : tables (send_monitor_event e c) = tables c.
Proof. unfold send_monitor_event. by destruct (cs_monitor_tx _). Qed.

Lemma tables_close env i c : tables (close_connection env i c).1 = tables c.
Proof. destruct i; cbn; [done|by destruct (mailbox_open _ _)|by destruct monitor_tx]. Qed.

Lemma tables_abort env o c : tables (abort_unfinished env o c) = tables c.
Proof. unfold abort_unfinished. destruct o; [by destruct (is_finished _ _)|done]. Qed.

Lemma tables_schedule env uri base c : tables (schedule_reconnect env uri base c) = tables c.
Proof. done. Qed.

Lemma tables_remove w r c :
  tables (remove_pipe_state w r c).1 =
  mkTables (t_endpoints (tables c)) (delete w (t_pipes_tx (tables c))) (delete r (t_uri (tables c))) (attached c) (t_next (tables c)).
Proof. unfold remove_pipe_state. cbn. by destruct (pipe_reader_task_handles _ !! _). Qed.

Lemma tables_detach r c : tables (detach r c) = detach_pipe r (tables c).
Proof. done. Qed.

Lemma tables_stop_listeners env m c : tables (stop_child_listener_actors env m c) = tables c.
Proof.
  apply tables_fold. intros c' [id u]. destruct (endpoints _ !! _); [|done]. by destruct (_ && _).
Qed.

Lemma tables_close_active env m c : tables (close_active_connections env m c) = tables c.
Proof.
  unfold close_active_connections. cbv zeta. case_bool_decide; [|destruct (foldl _ (_, _) _); cbn];
    apply tables_fold; intros c' [id [u i]]; apply tables_close.
Qed.

(** Until it is finished, a shutdown leaves the tables alone. *)
Lemma tables_initiate env c : phase (initiate_core_shutdown env c) <> Finished -> tables (initiate_core_shutdown env c) = tables c.
Proof.
  unfold initiate_core_shutdown. destruct (negb _); [done|]. destruct (begin_shutdown_sequence _ _) as [co b].
  set (c1 := close_active_connections _ _ _). assert (H1 : tables c1 = tables c).
  { unfold c1. rewrite tables_close_active, tables_stop_listeners. done. }
  destruct (none_pending _); [|by intros _].
  destruct (is_linger_expired_or_queues_empty _ _ _); [|by intros _].
  destruct (finish_linger_finishes 0 env (start_lingering env c1)) as (-> & _). done.
Qed.

Lemma tables_cleanup ps env id uri e b c :
  tables_ok (tables c) ps -> tables_ok (tables (cleanup_stopped_child_resources env id uri e b c).1) ps.
Proof.
  intros Hok. unfold cleanup_stopped_child_resources. destruct (find_child id uri _) as [key|]; cbn [mbind option_bind]; [|done].
  destruct (endpoints (core_state c) !! key) as [ei|] eqn:Hei; cbn [mbind option_bind fst]; [|done].
  destruct (pipe_ids ei) as [[w r]|] eqn:Hp.
  - assert (E : forall c1 e1 e2, tables c1 = set_endpoints (delete key (t_endpoints (tables c))) (tables c) ->
      tables (detach r (send_monitor_event e1 (remove_pipe_state w r (abort_unfinished env e2 c1)).1)) =
      detach_pipe r (remove_session key w r (tables c))).
    { intros c1 e1 e2 E1. pose proof (tables_abort env e2 c1) as E2. set (c2 := abort_unfinished env e2 c1) in *. clearbody c2.
      rewrite tables_detach, tables_monitor, tables_remove, E2, E1.
      replace (attached c2) with (attached c); [done|]. change (t_attached (tables c) = t_attached (tables c2)). by rewrite E2, E1. }
    rewrite E by done. by eapply tables_disconnected.
  - rewrite tables_monitor, tables_abort. by apply (tables_unbound (tables c)).
Qed.

Lemma tables_reap ps env l c : tables_ok (tables c) ps -> tables_ok (tables (foldl (reap_one env) c l)) ps.
Proof.
  revert c. induction l as [|[uri id] l IH]; intros c Hok; [done|]. cbn [foldl]. apply IH. unfold reap_one.
  destruct (endpoints _ !! _) as [ei|]; [|done]. destruct (_ =? _); [|done].
  pose proof (tables_cleanup ps env id (Some uri) None false c Hok) as H1.
  destruct (cleanup_stopped_child_resources _ _ _ _ _ _) as [c1 b]. cbn [fst] in H1.
  destruct (b && _); [|done]. by destruct (reconnect_ivl _).
Qed.

(** The endpoint that writes to a pipe goes with the pipe it reads. *)
Lemma tables_peer_closed `{!HashOrderLaws} ps env id c :
  tables_ok (tables c) ps -> tables_ok (tables (handle_inproc_pipe_peer_closed_event env id c)) ps.
Proof.
  intros Hok. unfold handle_inproc_pipe_peer_closed_event. cbv zeta. destruct (find _ _) as [[u ei]|] eqn:Ef; cbn [mbind option_bind snd]; [|done].
  apply find_some in Ef as [Hin Hw]. rewrite <- list_elem_of_In, iter_uri_perm, elem_of_map_to_list in Hin. cbn in Hw.
  destruct (pipe_ids ei) as [[w r]|] eqn:Hp; [cbn|done].
  destruct (ok_entry _ _ Hok u ei Hin) as [Hu Ht]. destruct (endpoint_type ei) eqn:Hty; [by destruct Ht; congruence|].
  destruct Ht as (Hta & w' & r' & Hp' & _ & Hr & _). rewrite Hp in Hp'. injection Hp' as <- <-. cbn in Hr.
  unfold cleanup_session_state_by_pipe. rewrite Hr, Hin, Hp, Hty, Hta. cbn [fst].
  rewrite tables_detach, tables_monitor, tables_remove. by apply (tables_disconnected (tables c) ps u ei w r).
Qed.

(** Handles are taken and nothing else changes. *)
Definition grown (k : Z) c c' : Prop :=
  tables c' = mkTables (endpoints (core_state c)) (pipes_tx (core_state c)) (pipe_read_id_to_endpoint_uri (core_state c)) (attached c)
    (next_handle (context c')) /\
  next_handle (context c) <= next_handle (context c') <= next_handle (context c) + k.

Lemma grown_ok ps k c c' : grown k c c' -> tables_ok (tables c) ps -> tables_ok (tables c') ps.
Proof. intros [-> Hn] Hok. apply (tables_mono (tables c)); [cbn; lia|done]. Qed.

Lemma grown_refl c : grown 0 c c.
Proof. split; [done|lia]. Qed.

Lemma grown_trans k1 k2 c1 c2 c3 : grown k1 c1 c2 -> grown k2 c2 c3 -> grown (k1 + k2) c1 c3.
Proof. intros [E1 H1] [E2 H2]. split; [|lia]. rewrite E2. unfold tables in E1. injection E1 as -> -> -> ->. done. Qed.

Lemma wrap_next n : 0 <= n -> n + 1 < 2 ^ 64 -> wrapU 64 (n + 1) = n + 1.
Proof. intros. unfold wrapU. apply Z.mod_small. lia. Qed.

Lemma grown_respawn uri c :
  0 <= next_handle (context c) -> next_handle (context c) + 1 < 2 ^ 64 -> grown 1 c (respawn_connecter_actor uri c).
Proof.
  intros Hp Hn. unfold respawn_connecter_actor. destruct (parse_endpoint uri) as [[]| |]; cbn.
  1,2: split; cbn; [done|rewrite wrap_next by lia; lia].
  all: split; [done|cbn; lia].
Qed.

Lemma grown_retry env c :
  0 <= next_handle (context c) -> next_handle (context c) + zlen (due env c) < 2 ^ 64 -> grown (zlen (due env c)) c (retry_due env c).
Proof.
  intros Hp. unfold retry_due. cbv zeta. generalize (due env c) as l. intros l Hl.
  match goal with |- grown _ _ (foldl _ ?c1 _) => assert (H1 : grown 0 c c1) by (split; [done|cbn; lia]); revert H1; generalize c1 end.
  intros c1 H1. replace (zlen l) with (0 + zlen l) by lia. apply (grown_trans _ _ _ c1); [done|].
  assert (Hp1 : 0 <= next_handle (context c1)) by (destruct H1; lia).
  assert (Hl1 : next_handle (context c1) + zlen l < 2 ^ 64) by (destruct H1; lia). clear H1 Hl Hp. revert c1 Hp1 Hl1.
  induction l as [|u l IH]; intros c1 Hp Hl; [apply grown_refl|]. rewrite zlen_cons in *. pose proof (zlen_nonneg l). cbn [foldl].
  destruct (grown_respawn u c1) as [E H1]; [lia..|]. eapply grown_trans; [by split|]. apply IH; lia.
Qed.

(** *** What may happen *)

(** The counter of handles does not wrap within the turn. *)
Definition room env c : Prop := 0 <= next_handle (context c) /\ next_handle (context c) + zlen (due env c) + 3 < 2 ^ 64.

(** A request of a connector brings the two handles it has taken for this
    connection, which no endpoint uses that way yet. *)
Definition arm_ok c ps (arm : Arm) : Prop :=
  match arm with
  | ArmEvent (Event (InprocBindingRequest _ _ cw cr _)) =>
      cw < next_handle (context c) /\ cr < next_handle (context c) /\ unused (tables c) cr cw /\
      forall p, p ∈ ps -> con_write_id p <> cr /\ con_read_id p <> cw
  | _ => True
  end.

(** A turn of the loop; a task that begins to connect to an inproc endpoint, or has
    the answer of the binder, before it was disconnected again; other users of the
    context. *)
Inductive core_step : core * list Connecting -> core * list Connecting -> Prop :=
  | step_turn env arm c ps :
      phase c <> Finished -> room env c -> arm_ok c ps arm -> core_step (c, ps) (turn env arm c, ps)
  | step_connect env name reply_tx_user reply_tx c ps c' o :
      phase c <> Finished -> room env c -> logic_alive env = true ->
      connect_inproc env name reply_tx_user reply_tx c = (c', o) -> core_step (c, ps) (c', option_list o ++ ps)
  | step_answered env p answer c ps1 ps2 :
      phase c <> Finished -> logic_alive env = true ->
      is_Some (pipe_read_id_to_endpoint_uri (core_state c) !! con_read_id p) ->
      core_step (c, ps1 ++ p :: ps2) (connect_inproc_answered env p answer c, ps1 ++ ps2)
  | step_context c ps ctx :
      next_handle (context c) <= next_handle ctx -> core_step (c, ps) (c <| context := ctx |>, ps).

Definition consistent (s : core * list Connecting) : Prop :=
  phase s.1 <> Finished -> tables_ok (tables s.1) s.2.

Lemma fresh_unused ps c : tables_ok (tables c) ps -> forall w r,
  next_handle (context c) <= w -> next_handle (context c) <= r ->
  unused (tables c) w r /\ (r ∉ attached c) /\ forall p, p ∈ ps -> con_write_id p <> w /\ con_read_id p <> r.
Proof.
  intros Hok w r Hw Hr. split_and!.
  - intros uri ei w' r' Hei Hp. destruct (ok_entry _ _ Hok uri ei Hei) as [_ He].
    destruct (endpoint_type ei); [by destruct He; congruence|]. destruct He as (_ & w1 & r1 & Hp1 & _ & _ & H1 & H2). cbn in *.
    rewrite Hp in Hp1. injection Hp1 as <- <-. lia.
  - intros Ha. destruct (ok_attached _ _ Hok r Ha) as [u Hu]. pose proof (ok_uri _ _ Hok r u Hu). cbn in *. lia.
  - intros p Hp. destruct (ok_pending _ _ Hok p Hp) as (H1 & H2 & _). cbn in *. lia.
Qed.

Lemma tables_new_connection ps env uri target model c :
  0 <= next_handle (context c) -> next_handle (context c) + 3 < 2 ^ 64 -> tables_ok (tables c) ps ->
  let c' := (handle_new_connection_established env uri target model c).1 in
  tables_ok (tables c') ps /\ 0 <= next_handle (context c').
Proof.
  intros Hp Hn Hok c'. subst c'. unfold handle_new_connection_established. destruct model as [mb id|fd]; [|done]. cbn.
  set (n := next_handle (context c)) in *. rewrite !(wrap_next n), !(wrap_next (n + 1)) by lia.
  destruct (mailbox_open env mb); cbn.
  - destruct (endpoints (core_state c) !! uri); cbn; split; try lia.
    all: set (t' := mkTables (endpoints (core_state c)) (pipes_tx (core_state c)) (pipe_read_id_to_endpoint_uri (core_state c))
      (attached c) (n + 1 + 1)).
    all: assert (Hok' : tables_ok t' ps) by (apply (tables_mono (tables c)); [cbn; lia|done]).
    all: destruct (fresh_unused ps c Hok n (n + 1)) as (F1 & F2 & F3); [lia..|].
    all: eapply (tables_connected t' ps uri _ n (n + 1)); [done|by split_and!|done|cbn; lia|cbn; lia|done].
  - split; [|lia]. apply (tables_mono (tables c)); [cbn; lia|done].
Qed.

Lemma tables_binding_request ps uri w r reply_tx c :
  0 <= next_handle (context c) -> next_handle (context c) + 1 < 2 ^ 64 -> tables_ok (tables c) ps ->
  w < next_handle (context c) -> r < next_handle (context c) -> unused (tables c) w r ->
  (forall p, p ∈ ps -> con_write_id p <> w /\ con_read_id p <> r) ->
  let c' := process_inproc_binding_request_event uri w r reply_tx c in
  tables_ok (tables c') ps /\ 0 <= next_handle (context c').
Proof.
  intros Hp Hn Hok Hw Hr Hu Hps c'. subst c'. unfold process_inproc_binding_request_event, send_monitor_event. cbn.
  set (n := next_handle (context c)) in *. rewrite !(wrap_next n) by lia.
  set (t' := mkTables (endpoints (core_state c)) (pipes_tx (core_state c)) (pipe_read_id_to_endpoint_uri (core_state c))
      (attached c) (n + 1)).
  assert (Hok' : tables_ok t' ps) by (apply (tables_mono (tables c)); [cbn; lia|done]).
  destruct (cs_monitor_tx _); cbn; (split; [|lia]).
  all: eapply (tables_connected t' ps uri _ w r); [done|by split_and!|done|cbn; lia|cbn; lia|done].
Qed.

Lemma tables_tell m e c : tables (tell m e c) = tables c.
Proof. by destruct m. Qed.

Lemma tables_retract p c :
  tables (retract p c) = remove_session (inproc_uri (con_name p)) (con_write_id p) (con_read_id p) (tables c).
Proof. unfold retract. cbv zeta. by rewrite tables_remove. Qed.

Lemma tables_connect ps env name ut rt c c' o :
  0 <= next_handle (context c) -> next_handle (context c) + 3 < 2 ^ 64 -> tables_ok (tables c) ps ->
  connect_inproc env name ut rt c = (c', o) -> tables_ok (tables c') (option_list o ++ ps) /\ 0 <= next_handle (context c').
Proof.
  intros Hp Hn Hok. unfold connect_inproc. destruct (Context.lookup_inproc _ _).
  2: { intros [= <- <-]. split; [|unfold send_monitor_event; by destruct (cs_monitor_tx _)]. cbn.
       change (tables_ok (tables (send_monitor_event (ConnectFailed (inproc_uri name)
         (format "Inproc endpoint '{}' not bound or not found" [name])) c)) ps). by rewrite tables_monitor. }
  destruct (negb _); [by intros [= <- <-]|]. unfold fresh_handle, Context.fresh_handle. cbv zeta.
  set (n := next_handle (context c)) in *.
  set (t' := mkTables (endpoints (core_state c)) (pipes_tx (core_state c)) (pipe_read_id_to_endpoint_uri (core_state c))
      (attached c) (n + 1 + 1 + 1)).
  assert (Hok' : tables_ok t' ps) by (apply (tables_mono (tables c)); [cbn; lia|done]).
  destruct (fresh_unused ps c Hok n (n + 1)) as (F1 & F2 & F3); [lia..|].
  assert (Hadd : forall ei p, session_info (inproc_uri name) ei n (n + 1) -> con_name p = name -> con_write_id p = n -> con_read_id p = n + 1 ->
    tables_ok (add_session (inproc_uri name) ei n (n + 1) t') (p :: ps)).
  { intros ei p Hi Hname Ew Er. rewrite <- Ew, <- Er in *. by apply (tables_connecting t' ps name ei p); try (cbn; lia). }
  assert (Hret : forall ei, session_info (inproc_uri name) ei n (n + 1) ->
    tables_ok (remove_session (inproc_uri name) n (n + 1) (add_session (inproc_uri name) ei n (n + 1) t')) ps).
  { intros ei Hi. apply (tables_retracted _ [] (mkConnecting name n (n + 1) None 0) ps). by apply Hadd. }
  destruct (bus_open env); intros [= <- <-]; cbn; fold n; rewrite !(wrap_next n), !(wrap_next (n + 1)), !(wrap_next (n + 1 + 1)) by lia.
  - split; [|cbn; lia]. by apply Hadd.
  - destruct (pipe_reader_task_handles _ !! _); (split; [|cbn; rewrite ?wrap_next by (cbn; lia); lia]).
    all: cbn; rewrite ?(wrap_next n), ?(wrap_next (n + 1)), ?(wrap_next (n + 1 + 1)) by lia. all: eapply (Hret (mkEndpointInfo _ _ _ _ _ _ _ _ _ _)); by split_and!.
Qed.

Lemma tables_answer env p answer c ps1 ps2 :
  logic_alive env = true -> is_Some (pipe_read_id_to_endpoint_uri (core_state c) !! con_read_id p) ->
  tables_ok (tables c) (ps1 ++ p :: ps2) ->
  let c' := connect_inproc_answered env p answer c in
  tables_ok (tables c') (ps1 ++ ps2) /\ next_handle (context c') = next_handle (context c).
Proof.
  intros Hl Hs Hok c'. subst c'.
  assert (Hret : forall e1 e2, tables (emit e1 (tell (con_monitor p) e2 (retract p c))) =
    remove_session (inproc_uri (con_name p)) (con_write_id p) (con_read_id p) (tables c)).
  { intros e1 e2. transitivity (tables (tell (con_monitor p) e2 (retract p c))); [done|]. by rewrite tables_tell, tables_retract. }
  assert (Hbad : forall e1 e2, tables_ok (tables (emit e1 (tell (con_monitor p) e2 (retract p c)))) (ps1 ++ ps2) /\
    next_handle (context (emit e1 (tell (con_monitor p) e2 (retract p c)))) = next_handle (context c)).
  { intros e1 e2. change (next_handle (context ?x)) with (t_next (tables x)). rewrite Hret. split; [by apply tables_retracted|done]. }
  destruct answer as [[[]|e|]|]; cbn [connect_inproc_answered]; [|apply Hbad..].
  rewrite Hl. unfold tell. destruct (con_monitor p); cbn; (split; [|done]); by apply (tables_answered (tables c)).
Qed.

Lemma tables_bind ps env endpoint reply_tx c :
  0 <= next_handle (context c) -> next_handle (context c) + 1 < 2 ^ 64 -> tables_ok (tables c) ps ->
  let c' := handle_user_bind env endpoint reply_tx c in
  tables_ok (tables c') ps /\ 0 <= next_handle (context c').
Proof.
  intros Hp Hn Hok c'. subst c'.
  assert (Hb : tables_ok (tables (bind_endpoint env endpoint c).1) ps /\ 0 <= next_handle (context (bind_endpoint env endpoint c).1)).
  { assert (Hl : forall uri, tables_ok (tables (bind_listener env endpoint uri c).1) ps /\
      0 <= next_handle (context (bind_listener env endpoint uri c).1)).
    { intros uri. unfold bind_listener. destruct (bool_decide _); [done|]. cbn. rewrite (wrap_next (next_handle (context c))) by lia.
      assert (Hok' : tables_ok (mkTables (endpoints (core_state c)) (pipes_tx (core_state c)) (pipe_read_id_to_endpoint_uri (core_state c))
        (attached c) (next_handle (context c) + 1)) ps) by (apply (tables_mono (tables c)); [cbn; lia|done]).
      destruct (listener env endpoint) as [[[mb task] resolved]| |]; cbn; rewrite ?wrap_next by lia; [|split; [done|lia]..].
      case_bool_decide as Hr; cbn; rewrite ?wrap_next by lia; (split; [|lia]); [done|].
      apply (tables_bound _ ps resolved _ Hok'); try done. by apply eq_None_not_Some. }
    unfold bind_endpoint. destruct (parse_endpoint endpoint) as [[]| |]; try apply Hl; try done.
    case_bool_decide; [done|]. case_bool_decide; [done|]. unfold bind_inproc, Context.register_inproc.
    destruct (bool_decide _); done. }
  unfold handle_user_bind. destruct (bind_endpoint env endpoint c) as [c1 [r u]]. cbn [fst] in Hb.
  destruct r; [destruct u|..]; try exact Hb.
  all: unfold send_monitor_event; cbn; by destruct (cs_monitor_tx _).
Qed.

Lemma tables_disconnect ps env uri reply_tx c :
  tables_ok (tables c) ps ->
  let c' := handle_user_disconnect env uri reply_tx c in
  tables_ok (tables c') ps /\ next_handle (context c') = next_handle (context c).
Proof.
  intros Hok c'. subst c'. unfold handle_user_disconnect. destruct (find_session uri (core_state c)) as [[u i]|] eqn:Ef.
  - pose proof (tables_close env i c) as E. destruct (close_connection env i c) as [c1 r]. cbn [fst] in E.
    change (tables_ok (tables c1) ps /\ t_next (tables c1) = t_next (tables c)). by rewrite E.
  - destruct (is_inproc uri); [|done]. unfold disconnect_inproc. case_bool_decide; [done|].
    unfold find_session in Ef. destruct (endpoints (core_state c) !! uri) as [ei|] eqn:Hei; [|done].
    case_bool_decide as Hty; [done|]. destruct (ok_entry _ _ Hok uri ei Hei) as [_ He].
    destruct (endpoint_type ei); [|done]. destruct He as [-> _]. done.
Qed.

Lemma tables_unbind env uri reply_tx c :
  tables (handle_user_unbind env uri reply_tx c) = tables c.
Proof.
  assert (Hi : tables (unbind_inproc_name uri c).1 = tables c).
  { unfold unbind_inproc_name, send_monitor_event. cbv zeta. case_bool_decide; [done|]. case_bool_decide; [|done]. cbn.
    by destruct (cs_monitor_tx _). }
  assert (Hu : tables (unbind_endpoint env uri c).1 = tables c).
  { unfold unbind_endpoint. cbv zeta. destruct (endpoints _ !! _) as [ei|].
    - case_bool_decide; [by destruct (mailbox_open _ _)|]. by destruct (is_inproc uri).
    - by destruct (is_inproc uri). }
  unfold handle_user_unbind. by destruct (unbind_endpoint env uri c).
Qed.

Lemma tables_refuse env i m c : tables (refuse_connection env i m c) = tables c.
Proof. unfold refuse_connection. destruct i, m; try done; cbn; by destruct (mailbox_open _ _). Qed.

Lemma tables_stopping ps env id ty uri e c :
  tables_ok (tables c) ps -> tables_ok (tables (handle_actor_stopping_event env id ty uri e c)) ps.
Proof.
  intros Hok. unfold handle_actor_stopping_event. pose proof (tables_cleanup ps env id uri e false c Hok) as H1.
  destruct (cleanup_stopped_child_resources _ _ _ _ _ _) as [c1 b]. cbn [fst] in H1.
  destruct (phase c1); try done; [destruct b; [by destruct uri|done]|].
  match goal with |- context [let '(_, _) := ?x in _] => destruct x as [co' b'] end. by destruct b'.
Qed.

Lemma tables_check_linger env c :
  phase (check_and_advance_linger env c) <> Finished -> tables (check_and_advance_linger env c) = tables c.
Proof.
  unfold check_and_advance_linger. destruct (negb _); [done|].
  set (c1 := if _ && _ then _ else c). assert (H1 : tables c1 = tables c) by (unfold c1; by destruct (_ && _)).
  cbv zeta. fold c1. destruct (is_linger_expired_or_queues_empty _ _ _); [|by intros _].
  destruct (finish_linger_finishes 0 env c1) as (-> & _). done.
Qed.

Lemma tables_event `{!HashOrderLaws} ps env event c :
  room env c -> arm_ok c ps (ArmEvent (Event event)) -> tables_ok (tables c) ps ->
  phase (process_system_event env event c).1 <> Finished -> tables_ok (tables (process_system_event env event c).1) ps.
Proof.
  intros [Hp Hn] Ha Hok. pose proof (zlen_nonneg (due env c)). destruct event; cbn [process_system_event fst].
  - intros Hf. by rewrite tables_initiate.
  - destruct (_ =? _); [|done]. intros Hf. by rewrite tables_initiate.
  - done.
  - intros _. destruct (bool_decide _); [|done]. by apply tables_stopping.
  - intros _. destruct (negb _); [done|]. case_bool_decide; [|cbn [fst]; by rewrite tables_refuse].
    by apply tables_new_connection; [lia|lia|].
  - intros _. destruct (_ && _); [|done]. unfold handle_peer_identity. destruct (_ !! _) as [u|]; [|done].
    by apply (tables_identified (tables c)).
  - intros _. destruct (_ =? _); [|done]. unfold handle_connect_failed_event. cbv zeta.
    destruct (_ && _); rewrite ?tables_schedule, tables_monitor; done.
  - intros _. case_bool_decide; [|done]. case_bool_decide; [|done]. destruct Ha as (A1 & A2 & A3 & A4).
    by apply tables_binding_request; [lia|lia|..].
  - intros _. case_bool_decide; [|done]. by apply tables_peer_closed.
Qed.

Lemma tables_command ps env cmd c :
  room env c -> tables_ok (tables c) ps ->
  phase (process_socket_command env cmd c).1 <> Finished -> tables_ok (tables (process_socket_command env cmd c).1) ps.
Proof.
  intros [Hp Hn] Hok. pose proof (zlen_nonneg (due env c)). unfold process_socket_command. destruct (negb _).
  - cbn [fst]. destruct cmd; cbn [process_shutdown_command]; try done; intros Hf; [|by rewrite tables_initiate].
    change (tables_ok (tables (initiate_core_shutdown env c)) ps). by rewrite tables_initiate.
  - cbn [fst]. destruct cmd; try done.
    + intros _. by apply tables_bind; [lia|lia|].
    + intros _. unfold handle_user_connect. pose proof (fun u => grown_ok ps 1 c _ (grown_respawn u c Hp ltac:(lia)) Hok) as Hg.
      destruct (parse_endpoint endpoint) as [[]| |]; try done; apply Hg.
    + intros _. by apply tables_disconnect.
    + intros _. by rewrite tables_unbind.
    + destruct (socket_recv _). done.
    + unfold handle_set_option. destruct (set_pattern_option _ _ _) as [l r]. destruct r as [|[]|]; try done.
      unfold update_core_option. by destruct (apply_core_option_value _ _ _).
    + intros Hf. change (tables_ok (tables (initiate_core_shutdown env (publish_socket_closing_event c))) ps). by rewrite tables_initiate.
    + intros Hf. by rewrite tables_initiate.
Qed.

Lemma tables_turn `{!HashOrderLaws} ps env arm c :
  room env c -> arm_ok c ps arm -> tables_ok (tables c) ps -> phase (turn env arm c) <> Finished ->
  tables_ok (tables (turn env arm c)) ps.
Proof.
  intros Hr Ha Hok.
  assert (Hs : forall c1, tables_ok (tables c1) ps -> phase (stop_running env c1) <> Finished -> tables_ok (tables (stop_running env c1)) ps).
  { intros c1 H1. unfold stop_running. case_bool_decide; [|done]. intros Hf. by rewrite tables_initiate. }
  assert (Hg : forall r, (phase r.1 <> Finished -> tables_ok (tables r.1) ps) -> phase (guarded env r) <> Finished ->
    tables_ok (tables (guarded env r)) ps).
  { intros [c1 r] H1. unfold guarded. destruct r as [|e|]; cbn [fst snd] in *; [done| |done]. intros Hf. apply Hs; [|done].
    apply H1. intros E. apply Hf. unfold stop_running. rewrite bool_decide_false; [exact E|]. change (phase c1 <> Running). by rewrite E. }
  destruct arm as [[event| |]|[cmd|]|]; cbn [turn on_event on_command].
  - apply Hg. intros Hf. by apply tables_event.
  - case_bool_decide; [|done]. intros Hf. by rewrite tables_initiate.
  - by apply Hs.
  - apply Hg. intros Hf. by apply tables_command.
  - by apply Hs.
  - unfold on_tick. cbv zeta. intros Hf. apply tables_reap.
    rewrite (settled_phase _ _ (settled_reap _ _ env _ ltac:(reflexivity))) in Hf.
    assert (H1 : tables_ok (tables (if bool_decide (phase c = Running) then retry_due env c else c)) ps).
    { destruct (bool_decide (phase c = Running)); [|done]. destruct Hr as [Hp Hn]. eapply grown_ok; [apply grown_retry; lia|done]. }
    revert H1 Hf. generalize (if bool_decide (phase c = Running) then retry_due env c else c). intros c1 H1 Hf.
    destruct (bool_decide (phase c = Lingering)); [|done]. by rewrite tables_check_linger.
Qed.

Lemma step_consistent `{!HashOrderLaws} s s' : core_step s s' -> consistent s -> consistent s'.
Proof.
  intros Hs. destruct Hs as [env arm c ps Hf Hr Ha|env name u t c ps c' o Hf [Hp Hn] Hl Hc|env p ans c ps1 ps2 Hf Hl Hs|c ps ctx Hn];
    unfold consistent; cbn [fst snd]; intros Hok Hf'.
  - apply tables_turn; try done. by apply Hok.
  - pose proof (zlen_nonneg (due env c)). apply (tables_connect ps env name u t c c' o); [lia|lia|by apply Hok|done].
  - apply tables_answer; [done|done|]. by apply Hok.
  - apply (tables_mono (tables c)); [done|]. by apply Hok.
Qed.

End Core.

(** ** Properties *)


Section Runs.
#[local] Existing Instance flag_notify.
#[local] Existing Instance list_fibre.
#[local] Existing Instance map_order.
#[local] Existing Instance map_order_laws.
#[local] Existing Instance pipe_recorder.

Definition bind_arm : Arm := ArmCommand (Some (UserBind "tcp://a:1" 50)).
Definition connection_arm : Arm :=
  ArmEvent (Event (NewConnectionEstablished 1 "tcp://p:9" "tcp://a:1" None (ViaSca 60 61) None)).
Definition bound_core : SocketCore (list Z) := turn (env_at 0) bind_arm dealer_core.
Definition connected_core : SocketCore (list Z) := turn (env_at 1) connection_arm bound_core.

Lemma dealer_core_room : phase dealer_core <> Finished /\ room (env_at 0) dealer_core.
Proof. by vm_compute. Qed.
Lemma bound_core_room : phase bound_core <> Finished /\ room (env_at 1) bound_core.
Proof. by vm_compute. Qed.

Lemma connected_reachable : rtc core_step (dealer_core, []) (connected_core, []).
Proof.
  destruct dealer_core_room as [H1 H2], bound_core_room as [H3 H4].
  refine (rtc_l _ _ _ _ (step_turn (env_at 0) bind_arm dealer_core [] H1 H2 I) _). fold bound_core.
  refine (rtc_l _ _ _ _ (step_turn (env_at 1) connection_arm bound_core [] H3 H4 I) _). fold connected_core.
  apply rtc_refl.
Qed.

Lemma connected_running : phase connected_core <> Finished.
Proof. by vm_compute. Qed.


Lemma connected_pipes : attached connected_core = {[4]}.
Proof. by vm_compute. Qed.

(** Two connections to one address: the second takes the place of the first, which
    is closed; the socket type is never told, and keeps the pipe of the first when
    both sessions are gone. *)
Definition same_peer_twice : list (Env * Arm) :=
  [(env_at 1, ArmEvent (Event (NewConnectionEstablished 1 "tcp://p:9" "tcp://p:9" None (ViaSca 60 61) None)));
   (env_at 2, ArmEvent (Event (NewConnectionEstablished 1 "tcp://p:9" "tcp://p:9" None (ViaSca 62 63) None)));
   (env_at 3, ArmEvent (Event (ActorStopping 61 ASession (Some 1) (Some "tcp://p:9"%string) None)));
   (env_at 4, ArmEvent (Event (ActorStopping 63 ASession (Some 1) (Some "tcp://p:9"%string) None)))].

Lemma overwritten_session_leaks :
  let c := run dealer_core same_peer_twice in
  endpoints (core_state c) = ∅ /\ attached c = {[3]} /\ socket_logic c = [3] /\ pipes_tx (core_state c) = {[2 := 2]}.
Proof. by vm_compute. Qed.

End Runs.
