(* ===== verification/CoreService.v ===== *)
(** What the core of a socket does for those who ask: every request is answered
    once, and a connection that fails is tried again after its backoff. *)

From S2P Require Import Prelude Error Message Options Queue Tasks Runtime Session Transport SocketCore CoreSafety.
Import Endpoints(ShutdownPhase(..)).
Import SocketCore.

#[local] Set Warnings "-clear-no-such-hyp".

Section Answers.
Context `{HN : Notify} `{HF : Fibre} {L : Type} `{HL : ISocket L} `{HO : HashOrder}.
Abbreviation core := (SocketCore L).
Implicit Types (c : core) (env : Env).

(** ** Answers *)

(** The reply channel an effect uses up: an answer, or a task that takes it over. *)
Definition reply_of (e : Effect) : option Z :=
  match e with
  | Replied t _ | RepliedMsg t _ | RepliedValue t _ | InprocConnectSpawned _ t => Some t
  | _ => None
  end.

Definition answers c : list Z := omap reply_of (effects c).

Definition reply_channel (cmd : Command) : option Z :=
  match cmd with
  | UserBind _ t | UserConnect _ t | UserDisconnect _ t | UserUnbind _ t | UserRecv t | UserSetOpt _ _ t
  | UserGetOpt _ t | UserMonitor _ t | UserClose t => Some t
  | _ => None
  end.

Lemma answers_emit e c : answers (emit e c) = answers c ++ option_list (reply_of e).
Proof. unfold answers. cbn. rewrite omap_app. cbn. by destruct (reply_of e). Qed.

Lemma answers_silent e c : reply_of e = None -> answers (emit e c) = answers c.
Proof. intros He. rewrite answers_emit, He. apply app_nil_r. Qed.

Lemma answers_fold {A} (f : core -> A -> core) l c :
  (forall c a, answers (f c a) = answers c) -> answers (foldl f c l) = answers c.
Proof. intros Hf. revert c. induction l as [|a l IH]; intros c; [done|]. cbn. by rewrite IH, Hf. Qed.

Lemma answers_monitor e c : answers (send_monitor_event e c) = answers c.
Proof. unfold send_monitor_event. destruct (cs_monitor_tx _); [by apply answers_silent|done]. Qed.

Lemma answers_close env i c : answers (close_connection env i c).1 = answers c.
Proof.
  destruct i as [|mb h w|? ? ? ? [tx|]]; cbn [close_connection fst]; [done| |by apply answers_silent|done].
  destruct (mailbox_open _ _); [by apply answers_silent|done].
Qed.

Lemma answers_remove w r c : answers (remove_pipe_state w r c).1 = answers c.
Proof. unfold remove_pipe_state. cbv zeta. cbn [fst]. destruct (pipe_reader_task_handles _ !! _); [by rewrite answers_silent|done]. Qed.

Lemma answers_respawn uri c : answers (respawn_connecter_actor uri c) = answers c.
Proof.
  unfold respawn_connecter_actor, fresh_handle, Context.fresh_handle.
  destruct (parse_endpoint uri) as [[]| |]; try done; cbv beta iota zeta; by rewrite answers_silent.
Qed.

Lemma answers_finish env c : answers (finish_linger env c) = answers c.
Proof.
  unfold finish_linger, perform_final_pipe_cleanup. cbv zeta.
  set (c1 := set_state _ (set_coordinator _ c)).
  set (c2 := foldl _ c1 _). assert (H2 : answers c2 = answers c)
    by (unfold c2; rewrite answers_fold; [done|intros ? []; by apply answers_silent]). clearbody c2.
  set (c3 := foldl _ c2 _). assert (H3 : answers c3 = answers c)
    by (unfold c3; rewrite answers_fold; [done|by intros ? [[]]]). clearbody c3.
  destruct (bool_decide _); [exact H3|].
  set (c4 := foldl _ (set_state _ c3) _). assert (H4 : answers c4 = answers c)
    by (unfold c4; rewrite answers_fold; [exact H3|intros ? []; apply answers_close]). exact H4.
Qed.

Lemma answers_initiate env c : answers (initiate_core_shutdown env c) = answers c.
Proof.
  unfold initiate_core_shutdown. destruct (negb _); [done|]. destruct (begin_shutdown_sequence _ _) as [co b].
  set (c1 := stop_child_listener_actors _ _ _). assert (H1 : answers c1 = answers c).
  { unfold c1, stop_child_listener_actors. rewrite answers_fold; [done|]. intros c' [id u]. destruct (endpoints _ !! _); [|done].
    destruct (_ && _); [by apply answers_silent|done]. }
  clearbody c1. set (c2 := close_active_connections _ _ c1). assert (H2 : answers c2 = answers c).
  { rewrite <- H1. unfold c2, close_active_connections. cbv zeta. case_bool_decide; [|destruct (foldl _ (_, _) _) as [co' b']];
      (etrans; [|apply (answers_fold (fun c '(_, (_, iface)) => (close_connection env iface c).1) (iter_id (pending_connections_to_close co)) c1);
        intros ? [? []]; apply answers_close]); done. }
  clearbody c2. destruct (none_pending _); [|done]. destruct (is_linger_expired_or_queues_empty _ _ _); [|done].
  by rewrite answers_finish.
Qed.

Lemma answers_bind_endpoint env endpoint c : answers (bind_endpoint env endpoint c).1 = answers c.
Proof.
  assert (Hl : forall uri, answers (bind_listener env endpoint uri c).1 = answers c).
  { intros uri. unfold bind_listener, fresh_handle, Context.fresh_handle. destruct (bool_decide _); [done|]. cbv beta iota zeta. destruct (listener env endpoint) as [[[mb task] resolved]| |]; try done.
    destruct (bool_decide _); [cbn [fst]; by rewrite answers_silent|done]. }
  unfold bind_endpoint. destruct (parse_endpoint endpoint) as [[]| |]; try apply Hl; try done.
  destruct (bool_decide _); [done|]. destruct (bool_decide _); [done|]. unfold bind_inproc, Context.register_inproc. by destruct (bool_decide _).
Qed.

Lemma answers_disconnect_inproc env uri c : answers (disconnect_inproc env uri c).1 = answers c.
Proof.
  unfold disconnect_inproc. cbv zeta. destruct (bool_decide _); [done|]. destruct (endpoints _ !! _) as [ei|]; [|done].
  destruct (pipe_ids ei) as [[w r]|]; [|done].
  match goal with |- context [remove_pipe_state w r ?c1] => pose proof (answers_remove w r c1) as Hr; destruct (remove_pipe_state w r c1) as [c2 b] end.
  cbn [fst] in *. rewrite answers_monitor.
  assert (HX : answers (match task_handle ei with Some h => emit (Aborted h) c2 | None => c2 end) = answers c2)
    by (destruct (task_handle ei); [by apply answers_silent|done]).
  by destruct (b && _); (etrans; [exact HX|exact Hr]).
Qed.

Lemma answers_unbind env uri c : answers (unbind_endpoint env uri c).1 = answers c.
Proof.
  assert (Hi : answers (unbind_inproc_name uri c).1 = answers c).
  { unfold unbind_inproc_name. cbv zeta. destruct (bool_decide _); [done|]. destruct (bool_decide _); [|done]. cbn [fst]. by rewrite answers_monitor. }
  unfold unbind_endpoint. cbv zeta. destruct (endpoints _ !! _) as [ei|]; [|by destruct (is_inproc uri)].
  destruct (bool_decide _); [destruct (mailbox_open _ _); [by apply answers_silent|done]|]. by destruct (is_inproc uri).
Qed.

Lemma parse_endpoint_no_panic s : parse_endpoint s <> Panic.
Proof. unfold parse_endpoint. destruct (split_scheme s) as [[a b]|]; [|done]. by repeat case_bool_decide; cbn; try destruct (contains_nul b). Qed.

Lemma answers_command env cmd c :
  answers (process_socket_command env cmd c).1 = answers c ++ option_list (reply_channel cmd).
Proof.
  assert (Hnil : answers c = answers c ++ []) by (by rewrite app_nil_r).
  assert (Hrep : forall e t c1, reply_of e = Some t -> answers c1 = answers c -> answers (emit e c1) = answers c ++ [t]).
  { intros e t c1 He Hc. by rewrite answers_emit, He, Hc. }
  unfold process_socket_command. destruct (negb _); cbn [fst].
  - destruct cmd; cbn [process_shutdown_command reply_channel option_list]; try done; try (by apply Hrep).
    + apply Hrep; [done|]. apply answers_initiate.
    + by rewrite answers_initiate.
  - destruct cmd; cbn [reply_channel option_list]; try done.
    + unfold handle_user_bind. pose proof (answers_bind_endpoint env endpoint c) as Hb.
      destruct (bind_endpoint env endpoint c) as [c1 [r u]]. cbn [fst] in Hb. apply Hrep; [done|].
      destruct r; [destruct u|..]; rewrite ?answers_monitor; done.
    + unfold handle_user_connect. pose proof (parse_endpoint_no_panic endpoint).
      destruct (parse_endpoint endpoint) as [[]| |]; [..|done]; apply Hrep; try done; apply answers_respawn.
    + unfold handle_user_disconnect.
      match goal with |- context [let '(_, _) := ?x in _] => assert (Hd : answers x.1 = answers c); [|destruct x as [c1 r]; by apply Hrep] end.
      destruct (find_session _ _) as [[u i]|]; [apply answers_close|]. destruct (is_inproc endpoint); [apply answers_disconnect_inproc|done].
    + unfold handle_user_unbind. pose proof (answers_unbind env endpoint c) as Hu. destruct (unbind_endpoint env endpoint c). by apply Hrep.
    + destruct (socket_recv _). by apply Hrep.
    + assert (Hs : answers (handle_set_option option value c).1 = answers c).
      { unfold handle_set_option. destruct (set_pattern_option _ _ _) as [l r]. destruct r as [|[]|]; try done.
        unfold update_core_option. by destruct (apply_core_option_value _ _ _). }
      destruct (handle_set_option option value c). by apply Hrep.
    + by apply Hrep.
    + by apply Hrep.
    + apply Hrep; [done|]. by rewrite answers_initiate.
    + by rewrite answers_initiate.
Qed.

(** The task that takes a connection to an inproc endpoint over. *)
Lemma answers_connect env name ut rt c :
  let '(c', o) := connect_inproc env name ut rt c in
  match o with
  | Some p => answers c' = answers c /\ con_reply_tx_user p = ut
  | None => answers c' = answers c ++ [ut]
  end.
Proof.
  unfold connect_inproc. destruct (Context.lookup_inproc _ _); [|by rewrite answers_emit, answers_monitor].
  destruct (negb _); [exact (answers_emit (Replied ut (Err (Internal "ISocket logic unavailable for inproc connector's PipeReaderTask"))) c)|].
  unfold fresh_handle, Context.fresh_handle. cbv beta iota zeta. destruct (bus_open env).
  - split; [|done]. unfold answers. cbn. rewrite omap_app. apply app_nil_r.
  - rewrite answers_emit. f_equal. unfold retract. cbv zeta. rewrite answers_remove. unfold answers. cbn. rewrite omap_app. apply app_nil_r.
Qed.

Lemma answers_answered env p answer c :
  answers (connect_inproc_answered env p answer c) = answers c ++ [con_reply_tx_user p].
Proof.
  assert (Ht : forall m e c1, answers (tell m e c1) = answers c1) by (intros [] ? ?; [by apply answers_silent|done]).
  assert (Hr : answers (retract p c) = answers c) by (unfold retract; cbv zeta; by rewrite answers_remove).
  destruct answer as [[[]|e|]|]; cbn [connect_inproc_answered]; rewrite answers_emit; f_equal; rewrite ?Ht; try done.
  destruct (logic_alive env); [|by rewrite Ht]. etrans; [|apply Ht]. done.
Qed.

(** Disconnecting an inproc connection tells the binder, and nobody else: the
    connector keeps the endpoint and both pipes. *)
Lemma inproc_disconnect_stays env endpoint uri id w r peer m reply_tx c :
  find_session endpoint (core_state c) = Some (uri, InprocConnection id w r peer m) ->
  core_state (handle_user_disconnect env endpoint reply_tx c) = core_state c.
Proof. intros Hf. unfold handle_user_disconnect. rewrite Hf. cbn. by destruct m. Qed.

End Answers.

(** ** Reconnecting *)

Section Reconnect.
Context `{HN : Notify} `{HF : Fibre} {L : Type} `{HL : ISocket L} `{HO : HashOrder}.
Abbreviation core := (SocketCore L).
Implicit Types (c : core) (env : Env).

(** The connecters started for a target: with how many attempts behind them. *)
Definition spawned (uri : string) (e : Effect) : option Z :=
  match e with ConnecterSpawned _ u a => if bool_decide (u = uri) then Some a else None | _ => None end.
Definition spawns (uri : string) c : list Z := omap (spawned uri) (effects c).

Definition attempts (uri : string) c : Z := default 0 (current_attempts <$> reconnect_states (core_state c) !! uri).

(** The targets and what was started for them are left alone. *)
Definition calm c c' : Prop :=
  reconnect_states (core_state c') = reconnect_states (core_state c) /\ forall uri, spawns uri c' = spawns uri c.

Lemma spawns_emit uri e c : spawns uri (emit e c) = spawns uri c ++ option_list (spawned uri e).
Proof. unfold spawns. cbn. rewrite omap_app. cbn. by destruct (spawned uri e). Qed.

Lemma calm_emit e c : (forall uri, spawned uri e = None) -> calm c (emit e c).
Proof. intros He. split; [done|]. intros uri. rewrite spawns_emit, He. apply app_nil_r. Qed.

#[export] Instance calm_preorder : PreOrder calm.
Proof. split; [done|]. intros c1 c2 c3 [E1 S1] [E2 S2]. split; [congruence|]. intros uri. by rewrite S2. Qed.

Lemma calm_monitor e c : calm c (send_monitor_event e c).
Proof. unfold send_monitor_event. destruct (cs_monitor_tx _); [by apply calm_emit|done]. Qed.

Lemma calm_remove w r c : calm c (remove_pipe_state w r c).1.
Proof.
  unfold remove_pipe_state. cbv zeta. cbn [fst]. destruct (pipe_reader_task_handles _ !! _); [|done].
  etrans; [|by apply calm_emit]. done.
Qed.

(** A reaped endpoint is not reconnected: no error is known. *)
Lemma calm_reap env l c : calm c (foldl (reap_one env) c l).
Proof.
  revert c. induction l as [|[uri id] l IH]; intros c; [done|]. cbn [foldl]. etrans; [|apply IH]. clear IH. unfold reap_one.
  destruct (endpoints _ !! uri) as [ei|]; [|done]. destruct (_ =? _); [|done]. unfold cleanup_stopped_child_resources.
  destruct (find_child id _ _) as [key|]; cbn [mbind option_bind]; [|done].
  destruct (endpoints _ !! key) as [ej|]; cbn [mbind option_bind andb]; [|done].
  set (c1 := set_state _ c). transitivity c1; [done|].
  transitivity (abort_unfinished env (task_handle ej) c1).
  { unfold abort_unfinished. destruct (task_handle ej); [|done]. destruct (is_finished _ _); [done|by apply calm_emit]. }
  generalize (abort_unfinished env (task_handle ej) c1). intros c2. destruct (pipe_ids ej) as [[w r]|]; [|apply calm_monitor].
  etrans; [apply (calm_remove w r)|]. etrans; [apply calm_monitor|]. done.
Qed.

Lemma respawn_spawns uri u c :
  (exists a, parse_endpoint uri = Ok (Tcp a uri)) ->
  spawns uri (respawn_connecter_actor u c) = spawns uri c ++ (if bool_decide (u = uri) then [attempts uri c] else []) /\
  reconnect_states (core_state (respawn_connecter_actor u c)) = reconnect_states (core_state c).
Proof.
  intros [a Ha]. unfold respawn_connecter_actor, fresh_handle, Context.fresh_handle. destruct (decide (u = uri)) as [->|Hne].
  - rewrite Ha. cbv beta iota zeta. rewrite spawns_emit. cbn [spawned]. rewrite !bool_decide_true by done. done.
  - rewrite (bool_decide_false (u = uri)) by done. rewrite app_nil_r. destruct (parse_endpoint u) as [[]| |]; try done;
      cbv beta iota zeta; rewrite spawns_emit; cbn [spawned]; rewrite ?bool_decide_false by done; by rewrite app_nil_r.
Qed.

Lemma respawn_all uri l c :
  (exists a, parse_endpoint uri = Ok (Tcp a uri)) -> NoDup l ->
  let c' := foldl (fun c u => respawn_connecter_actor u c) c l in
  spawns uri c' = spawns uri c ++ (if bool_decide (uri ∈ l) then [attempts uri c] else []) /\
  reconnect_states (core_state c') = reconnect_states (core_state c).
Proof.
  intros Hu. revert c. induction l as [|u l IH]; intros c Hnd; cbn [foldl].
  - rewrite bool_decide_false by apply not_elem_of_nil. by rewrite app_nil_r.
  - apply NoDup_cons in Hnd as [Hn Hnd]. destruct (IH (respawn_connecter_actor u c) Hnd) as [H1 H2].
    destruct (respawn_spawns uri u c Hu) as [H3 H4]. cbv zeta in H1. rewrite H1, H2, H3, H4. split; [|done]. rewrite <- app_assoc. f_equal.
    unfold attempts. rewrite H4. destruct (decide (u = uri)) as [->|Hne].
    + rewrite (bool_decide_true (uri = uri)) by done. rewrite (bool_decide_false (uri ∈ l)) by done.
      rewrite bool_decide_true by apply list_elem_of_here. done.
    + rewrite (bool_decide_false (u = uri)) by done. cbn [app].
      assert (Hb : bool_decide (uri ∈ u :: l) = bool_decide (uri ∈ l)) by (apply bool_decide_ext; rewrite elem_of_cons; naive_solver).
      by rewrite Hb.
Qed.

Lemma due_spec `{!HashOrderLaws} env c :
  NoDup (due env c) /\
  forall uri, uri ∈ due env c <-> exists rs, reconnect_states (core_state c) !! uri = Some rs /\ ReconnectState.is_due (e_now env) rs = true.
Proof.
  unfold due. set (m := reconnect_states (core_state c)). pose proof (iter_uri_perm m) as Hp. split.
  - assert (Hk : NoDup (iter_uri m).*1) by (rewrite Hp; apply NoDup_fst_map_to_list).
    revert Hk. generalize (iter_uri m). intros l. induction l as [|[u r] l IH]; [done|]. rewrite fmap_cons. intros [Hn Hk]%NoDup_cons.
    rewrite filter_cons. case_decide; [|by apply IH]. rewrite fmap_cons. apply NoDup_cons. split; [|by apply IH].
    intros (x & Hx & Hin)%list_elem_of_fmap. apply Hn. apply list_elem_of_filter in Hin as [_ Hin]. apply list_elem_of_fmap. by exists x.
  - intros uri. rewrite list_elem_of_fmap. split.
    + intros ([u r] & -> & [Hd Hin]%list_elem_of_filter). rewrite Hp, elem_of_map_to_list in Hin. by exists r.
    + intros (r & Hr & Hd). exists (uri, r). split; [done|]. apply list_elem_of_filter. split; [done|]. rewrite Hp. by apply elem_of_map_to_list.
Qed.

Lemma retry_spec `{!HashOrderLaws} env uri rs c :
  (exists a, parse_endpoint uri = Ok (Tcp a uri)) -> reconnect_states (core_state c) !! uri = Some rs ->
  spawns uri (retry_due env c) = spawns uri c ++ (if ReconnectState.is_due (e_now env) rs then [current_attempts rs] else []) /\
  reconnect_states (core_state (retry_due env c)) !! uri = Some (clear_due (e_now env) rs).
Proof.
  intros Hu Hr. destruct (due_spec env c) as [Hnd Hin]. unfold retry_due. cbv zeta.
  set (c1 := set_state _ c).
  assert (H1 : reconnect_states (core_state c1) !! uri = Some (clear_due (e_now env) rs))
    by (unfold c1; cbn; by rewrite lookup_fmap, Hr).
  destruct (respawn_all uri (due env c) c1 Hu Hnd) as [H2 H3]. cbv zeta in *. rewrite H2, H3. split; [|done].
  change (spawns uri c1) with (spawns uri c). f_equal. unfold attempts. rewrite H1. cbn.
  destruct (ReconnectState.is_due (e_now env) rs) eqn:Ed.
  - rewrite bool_decide_true by (apply Hin; by eexists). unfold clear_due. by rewrite Ed.
  - rewrite bool_decide_false; [done|]. intros (rs' & Hr' & Hd')%Hin. congruence.
Qed.

(** The delay after [k] failures. *)
Definition backoff (base max k : Z) : Z :=
  let d := base * 2 ^ Z.min k 31 in if 0 <? max then Z.min d max else d.

Lemma failure_spec now base max k t :
  0 <= k -> 0 <= base <= from_millis I32_MAX ->
  ReconnectState.on_connection_failure now base max (mkReconnect k t) =
  (mkReconnect (Z.min (k + 1) (2 ^ 32 - 1)) (Some (now + backoff base max k)), backoff base max k).
Proof.
  intros Hk Hb. unfold ReconnectState.on_connection_failure, backoff. cbn [current_attempts].
  assert (Hp : 0 < 2 ^ Z.min k 31 <= 2 ^ 31).
  { split; [apply Z.pow_pos_nonneg; lia|]. apply Z.pow_le_mono_r; lia. }
  rewrite (Z.min_l (2 ^ Z.min k 31)) by lia. unfold from_millis, I32_MAX in Hb.
  rewrite (Z.min_l (base * _) ReconnectState.MAX_DURATION); [done|]. unfold ReconnectState.MAX_DURATION. nia.
Qed.

End Reconnect.

(** ** Properties *)

(** C14: every request is answered once.  Whatever the state of a core and whatever
    it finds: a command that carries a reply channel uses it up exactly once, with
    an answer or by handing it to the task that connects to an inproc endpoint, and
    answers nobody else; that task answers once, right away or when the binder has
    answered it. *)
Theorem requests_answered (HN : Notify) (HF : Fibre) (L : Type) (HL : ISocket L) (HO : HashOrder) (env : Env) (c : SocketCore L) :
  (forall cmd, answers (process_socket_command env cmd c).1 = answers c ++ option_list (reply_channel cmd)) /\
  (forall name reply_tx_user reply_tx,
    let '(c', o) := connect_inproc env name reply_tx_user reply_tx c in
    match o with
    | Some p => answers c' = answers c /\ con_reply_tx_user p = reply_tx_user
    | None => answers c' = answers c ++ [reply_tx_user]
    end) /\
  (forall p answer, answers (connect_inproc_answered env p answer c) = answers c ++ [con_reply_tx_user p]).
Proof.
  split_and!; [intros cmd; apply answers_command|intros name ut rt; apply answers_connect|intros p answer; apply answers_answered].
Qed.

(** C28: reconnecting backs off.  When an attempt to reach a TCP target fails and the
    error is not final, the next one is due [base * 2^k] later, at most the maximum
    interval when one is set, after [k] failures in a row ([k] capped at 31); a tick
    before that starts no connecter for it and a tick from then on starts exactly one,
    which inherits the number of failures, and no more until it reports. *)
Theorem reconnect_backs_off (HN : Notify) (HF : Fibre) (L : Type) (HL : ISocket L) (HO : HashOrder) (HOL : HashOrderLaws)
    (env1 env2 : Env) (c : SocketCore L) (uri address : string) (error : ZmqError) (base : Z) :
  phase c = Running -> parse_endpoint uri = Ok (Tcp address uri) -> is_fatal_connect_error error = false ->
  reconnect_ivl (options (core_state c)) = Some base -> 0 < base <= from_millis I32_MAX -> 0 <= attempts uri c ->
  let k := attempts uri c in
  let max := default (from_secs 60) (reconnect_ivl_max (options (core_state c))) in
  let next := e_now env1 + backoff base max k in
  let n := Z.min (k + 1) (2 ^ 32 - 1) in
  let c1 := turn env1 (ArmEvent (Event (ConnectionAttemptFailed (core_handle c) uri error))) c in
  let c2 := turn env2 ArmTick c1 in
  spawns uri c1 = spawns uri c /\ reconnect_states (core_state c1) !! uri = Some (mkReconnect n (Some next)) /\
  spawns uri c2 = spawns uri c ++ (if next <=? e_now env2 then [n] else []) /\
  reconnect_states (core_state c2) !! uri = Some (mkReconnect n (if next <=? e_now env2 then None else Some next)).
Proof.
  intros Hp Hu He Hb Hr Hk k max next n c1 c2.
  set (m := ConnectFailed uri (display error)).
  assert (Hm : calm c (send_monitor_event m c)) by apply calm_monitor.
  assert (Ho : options (core_state (send_monitor_event m c)) = options (core_state c))
    by (apply (settled_monitor c c m); reflexivity).
  assert (E1 : c1 = schedule_reconnect env1 uri base (send_monitor_event m c)).
  { unfold c1. cbn [turn on_event process_system_event]. rewrite Z.eqb_refl. unfold guarded. cbn [fst snd].
    unfold handle_connect_failed_event. cbv zeta. fold m. rewrite Ho, Hb, He. cbn. rewrite (proj2 (Z.eqb_neq base 0)) by lia. cbn.
    unfold base_ivl. by rewrite Ho, Hb. }
  assert (H1 : spawns uri c1 = spawns uri c /\ reconnect_states (core_state c1) !! uri = Some (mkReconnect n (Some next))).
  { rewrite E1. split; [apply Hm|]. unfold schedule_reconnect. cbn -[ReconnectState.on_connection_failure].
    rewrite lookup_insert_eq, Ho, (proj1 Hm). fold max.
    assert (Hrs : exists t0, default ReconnectState.initial (reconnect_states (core_state c) !! uri) = mkReconnect k t0).
    { unfold k, attempts. destruct (reconnect_states (core_state c) !! uri) as [[a t0]|]; by eexists. }
    destruct Hrs as [t0 ->]. by rewrite failure_spec by lia. }
  destruct H1 as [H1 H2]. split_and!; [done|done|..].
  all: assert (Hp1 : phase c1 = Running) by (rewrite E1; etrans; [exact (settled_phase _ _ (settled_schedule _ _ env1 uri base (settled_monitor c c m ltac:(reflexivity))))|done]).
  all: assert (Ec2 : calm (retry_due env2 c1) c2)
    by (unfold c2; cbn [turn]; unfold on_tick; rewrite Hp1; apply calm_reap).
  all: destruct (retry_spec env2 uri _ c1 (ex_intro _ address Hu) H2) as [H3 H4].
  - rewrite (proj2 Ec2), H3, H1. done.
  - rewrite (proj1 Ec2), H4. unfold clear_due. cbn. by destruct (next <=? e_now env2).
Qed.

Section Runs.
#[local] Existing Instance flag_notify.
#[local] Existing Instance list_fibre.
#[local] Existing Instance map_order.
#[local] Existing Instance map_order_laws.
#[local] Existing Instance pipe_recorder.

Definition retrying_core : SocketCore (list Z) :=
  create_and_spawn 1 (Context.fresh_handle Context.new).1 Dealer (default_options <| reconnect_ivl := Some (from_millis 100) |>) [] 9.

Lemma reconnect_backs_off_witness :
  let refused := ArmEvent (Event (ConnectionAttemptFailed 1 "tcp://p:9" (ConnectionRefused "p"))) in
  let c1 := turn (env_at 0) refused retrying_core in
  spawns "tcp://p:9" (turn (env_at (from_millis 100)) ArmTick c1) = [1].
Proof.
  assert (H := reconnect_backs_off _ _ _ _ _ _ (env_at 0) (env_at (from_millis 100)) retrying_core "tcp://p:9" "p:9"
    (ConnectionRefused "p") (from_millis 100)).
  destruct H as (_ & _ & H3 & _); [by vm_compute..|]. exact H3.
Defined.

End Runs.
