(* ===== verification/Req.v ===== *)
(** The REQ socket ([core/src/socket/req_socket.rs]) as a concurrent program.

    A call of the application and a handler of the core is a program counter
    ([call]); [step] runs it to the next place where the source gives up its locks
    or awaits, and yields the next counter or what the call returns.  A call that
    waits is polled: it stays where it is.  [elapsed] says whether the timer of a
    timed wait has expired.  Between two steps the other tasks, the core and the
    connections may do anything ([sys_step]).

    The main theorem holds for any implementation of [Notify]. *)

From S2P Require Import Prelude Error Message Patterns Queue Endpoints Tasks.

#[local] Set Warnings "-clear-no-such-hyp".

(** ** State *)

Inductive ReqState := ReadyToSend | ExpectingReply (target_endpoint_uri : string).

#[export] Instance ReqState_eq_dec : EqDecision ReqState.
Proof. solve_decision. Defined.

Record ReqSocket `{Fibre, Notify} (W : Type) := mkReq {
  req_core : Core;
  load_balancer : list string;
  incoming_orchestrator : Orchestrator (list Msg);
  state : ReqState;
  reply_available_notifier : notify;
  pipe_read_to_endpoint_uri : gmap Z string;
  world : W;
}.
Arguments mkReq {_ _ W} _ _ _ _ _ _ _.
Arguments req_core {_ _ W} _.
Arguments load_balancer {_ _ W} _.
Arguments incoming_orchestrator {_ _ W} _.
Arguments state {_ _ W} _.
Arguments reply_available_notifier {_ _ W} _.
Arguments pipe_read_to_endpoint_uri {_ _ W} _.
Arguments world {_ _ W} _.

#[export] Instance ReqSocket_eta `{Fibre, Notify} {W} : Eta (ReqSocket W) := fun r =>
  mkReq (req_core r) (load_balancer r) (incoming_orchestrator r) (state r) (reply_available_notifier r)
    (pipe_read_to_endpoint_uri r) (world r).

Inductive call :=
  (* send *)
  | Send (msg : Msg)
  | SendCheck (msg : Msg)
  | SendPick (msg : Msg) (timeout_opt : option Z)
  | SendWait (msg : Msg) (timeout_opt : option Z)
  | SendIface (msg : Msg) (uri : string)
  | SendWrite (msg : Msg) (uri : string) (conn : Z)
  | SendUpdate (uri : string)
  | SendReset
  (* recv *)
  | Recv
  | RecvCheck (rcvtimeo_opt : option Z)
  | RecvWait (rcvtimeo_opt : option Z)
  | RecvNotified
  | RecvUnclear
  | RecvFinish (received_msg_result : result Msg)
  (* recv_multipart *)
  | RecvMulti
  | RecvMultiCheck (rcvtimeo_opt : option Z)
  | RecvMultiReset (rcvtimeo_opt : option Z)
  | RecvMultiWait (rcvtimeo_opt : option Z)
  | RecvMultiItem (payload_frames : list Msg)
  | RecvMultiFinish (r : result (list Msg))
  (* send_multipart *)
  | SendMulti (frames : list Msg)
  (* handle_pipe_event *)
  | Frame (pipe_read_id : Z) (msg : Msg)
  | FrameCheck (pipe_read_id : Z) (source_uri : string) (msg : Msg)
  | FrameAccumulate (pipe_read_id : Z) (msg : Msg)
  | FrameQueue (pipe_read_id : Z) (reply_payload_parts : list Msg)
  | FrameQueued (ok : bool)
  (* pipe_attached, pipe_detached, process_command *)
  | Attach (pipe_read_id : Z)
  | AttachMap (pipe_read_id : Z) (uri : string)
  | AttachBalance (uri : string)
  | Detach (pipe_read_id : Z)
  | DetachBalance (pipe_read_id : Z) (uri : string)
  | DetachState (pipe_read_id : Z) (uri : string)
  | DetachNotify (pipe_read_id : Z)
  | DetachClear (pipe_read_id : Z)
  | Stop.

(** What a call returns. *)
Inductive outcome :=
  | Sending (r : result unit)
  | Receiving (r : result Msg)
  | ReceivingAll (r : result (list Msg))
  | Handled (r : result unit).

Module Req.
Section Req.
Context `{Fibre, Notify, ISocketConnection W}.
Implicit Types s : ReqSocket W.

Definition new (core : Core) (w : W) : ReqSocket W :=
  mkReq core LoadBalancer.new (Orchestrator.new 1) ReadyToSend notify_new ∅ w.

Definition process_incoming_zmtp_message_for_req (raw_zmtp_message : list Msg) : list Msg :=
  match raw_zmtp_message with
  | frame :: rest => if Msg.size frame =? 0 then rest else raw_zmtp_message
  | [] => raw_zmtp_message
  end.

(** What [send] puts on the wire. *)
Definition zmtp_frames_to_send (msg : Msg) : list Msg := [Msg.set_flags MsgFlags.MORE Msg.new; msg].

Definition is_expecting (st : ReqState) : bool :=
  match st with ExpectingReply _ => true | ReadyToSend => false end.

Definition send_step (elapsed : bool) (c : call) s : ReqSocket W * (call + outcome) :=
  match c with
  | Send msg =>
      if negb (is_running (req_core s)) then (s, inr (Sending (Err (InvalidState "Socket is closing"))))
      else (s, inl (SendCheck (if Msg.is_more msg then without_more msg else msg)))
  | SendCheck msg =>
      match state s with
      | ReadyToSend => (s, inl (SendPick msg (sndtimeo (req_core s))))
      | ExpectingReply _ => (s, inr (Sending (Err (InvalidState "REQ socket must call send() before sending again"))))
      end
  | SendPick msg timeout_opt =>
      match LoadBalancer.get_next_connection_uri (load_balancer s) with
      | (uris, Some uri) =>
          if bool_decide (is_Some (endpoints (req_core s) !! uri))
          then (s <| load_balancer := uris |>, inl (SendIface msg uri))
          else (s <| load_balancer := LoadBalancer.remove_connection uri uris |>, inl (SendPick msg timeout_opt))
      | (_, None) =>
          if negb (is_running (req_core s)) then
            (s, inr (Sending (Err (InvalidState "Socket terminated while waiting for peer"))))
          else match timeout_opt with
               | Some 0 => (s, inr (Sending (Err ResourceLimitReached)))
               | _ => (s, inl (SendWait msg timeout_opt))
               end
      end
  | SendWait msg timeout_opt =>
      if LoadBalancer.has_connections (load_balancer s) then (s, inl (SendPick msg timeout_opt))
      else match timeout_opt with
           | Some _ => if elapsed then (s, inr (Sending (Err Timeout))) else (s, inl c)
           | None => (s, inl c)
           end
  | SendIface msg uri =>
      match endpoints (req_core s) !! uri with
      | Some ep => (s, inl (SendWrite msg uri (connection_iface ep)))
      | None =>
          (s <| load_balancer := LoadBalancer.remove_connection uri (load_balancer s) |>,
           inr (Sending (Err (HostUnreachable (format "REQ: Peer at {} disappeared before send" [uri])))))
      end
  | SendWrite msg uri conn =>
      match send_multipart conn (zmtp_frames_to_send msg) (world s) with
      | (w, Ok tt) => (s <| world := w |>, inl (SendUpdate uri))
      | (w, Err ConnectionClosed) =>
          (s <| world := w |> <| load_balancer := LoadBalancer.remove_connection uri (load_balancer s) |>,
           inr (Sending (Err (HostUnreachable (format "REQ: Connection to {} closed during send" [uri])))))
      | (w, r) => (s <| world := w |>, inr (Sending r))
      end
  | SendUpdate uri => (s <| state := ExpectingReply uri |>, inl SendReset)
  | SendReset =>
      (s <| incoming_orchestrator := Orchestrator.reset_recv_message_buffer (incoming_orchestrator s) |>,
       inr (Sending (Ok tt)))
  | _ => (s, inl c)
  end.

(** The end of a receive that got nothing or the last frame. *)
Definition back_to_ready s : ReqSocket W :=
  if is_expecting (state s)
  then s <| state := ReadyToSend |> <| reply_available_notifier := notify_waiters (reply_available_notifier s) |>
  else s.

Definition recv_step (elapsed : bool) (c : call) s : ReqSocket W * (call + outcome) :=
  match c with
  | Recv =>
      if negb (is_running (req_core s)) then (s, inr (Receiving (Err (InvalidState "Socket is closing"))))
      else (s, inl (RecvCheck (rcvtimeo (req_core s))))
  | RecvCheck timeo =>
      if is_expecting (state s) then (s, inl (RecvWait timeo))
      else (s, inr (Receiving (Err (InvalidState "REQ socket must call send() before receiving"))))
  | RecvWait timeo =>
      match poll_notified (reply_available_notifier s) with
      | (n, true) => (s <| reply_available_notifier := n |>, inl RecvNotified)
      | (n, false) =>
          match Orchestrator.recv_message elapsed timeo id (incoming_orchestrator s) with
          | (o, Some r) =>
              (s <| incoming_orchestrator := o |> <| reply_available_notifier := drop_notified n |>, inl (RecvFinish r))
          | (o, None) => (s <| incoming_orchestrator := o |> <| reply_available_notifier := n |>, inl c)
          end
      end
  | RecvNotified =>
      if negb (is_running (req_core s)) then (s, inl (RecvFinish (Err ConnectionClosed)))
      else match Orchestrator.recv_message elapsed (Some 0) id (incoming_orchestrator s) with
           | (o, Some (Err ResourceLimitReached)) | (o, Some (Err Timeout)) =>
               (s <| incoming_orchestrator := o |>, inl RecvUnclear)
           | (o, Some r) => (s <| incoming_orchestrator := o |>, inl (RecvFinish r))
           | (o, None) => (s <| incoming_orchestrator := o |>, inl c)
           end
  | RecvUnclear =>
      (s, inl (RecvFinish (Err (if is_expecting (state s)
                                then Internal "Receive operation interrupted by notification without immediate data."
                                else ConnectionClosed))))
  | RecvFinish r =>
      match r with
      | Ok msg => (if Msg.is_more msg then s else back_to_ready s, inr (Receiving r))
      | _ => (back_to_ready s, inr (Receiving r))
      end
  | _ => (s, inl c)
  end.

Definition recv_multipart_step (elapsed : bool) (c : call) s : ReqSocket W * (call + outcome) :=
  match c with
  | RecvMulti =>
      if negb (is_running (req_core s)) then (s, inr (ReceivingAll (Err (InvalidState "Socket is closing"))))
      else (s, inl (RecvMultiCheck (rcvtimeo (req_core s))))
  | RecvMultiCheck timeo =>
      if is_expecting (state s) then (s, inl (RecvMultiReset timeo))
      else (s, inr (ReceivingAll (Err (InvalidState "REQ socket must call send() before receiving reply"))))
  | RecvMultiReset timeo =>
      (s <| incoming_orchestrator := Orchestrator.reset_recv_message_buffer (incoming_orchestrator s) |>,
       inl (RecvMultiWait timeo))
  | RecvMultiWait timeo =>
      match Orchestrator.recv_item_from_main_queue elapsed timeo (incoming_orchestrator s) with
      | (o, Some (Ok item)) => (s <| incoming_orchestrator := o |>, inl (RecvMultiItem item))
      | (o, Some (Err e)) => (s <| incoming_orchestrator := o |>, inl (RecvMultiFinish (Err e)))
      | (o, Some Panic) => (s <| incoming_orchestrator := o |>, inl (RecvMultiFinish Panic))
      | (o, None) => (s <| incoming_orchestrator := o |>, inl c)
      end
  (* the closure passed to [recv_logical_message] *)
  | RecvMultiItem payload_frames =>
      (s <| state := ReadyToSend |> <| reply_available_notifier := notify_waiters (reply_available_notifier s) |>,
       inl (RecvMultiFinish (Ok payload_frames)))
  | RecvMultiFinish r =>
      match r with
      | Ok _ => (s, inr (ReceivingAll r))
      | _ => (back_to_ready s, inr (ReceivingAll r))
      end
  | _ => (s, inl c)
  end.

Definition handle_pipe_event_step (elapsed : bool) (c : call) s : ReqSocket W * (call + outcome) :=
  match c with
  | Frame pipe msg =>
      match pipe_read_to_endpoint_uri s !! pipe with
      | Some source_uri => (s, inl (FrameCheck pipe source_uri msg))
      | None => (s, inr (Handled (Ok tt)))
      end
  | FrameCheck pipe source_uri msg =>
      if bool_decide (state s = ExpectingReply source_uri) then (s, inl (FrameAccumulate pipe msg))
      else (s, inr (Handled (Ok tt)))
  | FrameAccumulate pipe msg =>
      match Orchestrator.accumulate_pipe_frame pipe msg (incoming_orchestrator s) with
      | (o, Some raw) =>
          (s <| incoming_orchestrator := o |>, inl (FrameQueue pipe (process_incoming_zmtp_message_for_req raw)))
      | (o, None) => (s <| incoming_orchestrator := o |>, inr (Handled (Ok tt)))
      end
  | FrameQueue pipe item =>
      match Orchestrator.queue_item elapsed item (incoming_orchestrator s) with
      | (o, Some (Ok tt)) => (s <| incoming_orchestrator := o |>, inl (FrameQueued true))
      | (o, Some _) => (s <| incoming_orchestrator := o |>, inl (FrameQueued false))
      | (o, None) => (s <| incoming_orchestrator := o |>, inl c)
      end
  | FrameQueued true =>
      (s <| reply_available_notifier := notify_one (reply_available_notifier s) |>, inr (Handled (Ok tt)))
  | FrameQueued false =>
      (s <| state := ReadyToSend |> <| reply_available_notifier := notify_waiters (reply_available_notifier s) |>,
       inr (Handled (Ok tt)))
  | _ => (s, inl c)
  end.

Definition pipe_step (c : call) s : ReqSocket W * (call + outcome) :=
  match c with
  | Attach pipe =>
      match pipe_read_id_to_endpoint_uri (req_core s) !! pipe with
      | Some uri => (s, inl (AttachMap pipe uri))
      | None => (s, inr (Handled (Ok tt)))
      end
  | AttachMap pipe uri =>
      (s <| pipe_read_to_endpoint_uri := <[pipe := uri]> (pipe_read_to_endpoint_uri s) |>, inl (AttachBalance uri))
  | AttachBalance uri =>
      (s <| load_balancer := LoadBalancer.add_connection uri (load_balancer s) |>, inr (Handled (Ok tt)))
  | Detach pipe =>
      (s <| pipe_read_to_endpoint_uri := delete pipe (pipe_read_to_endpoint_uri s) |>,
       inl (match pipe_read_to_endpoint_uri s !! pipe with
            | Some uri => DetachBalance pipe uri
            | None => DetachClear pipe
            end))
  | DetachBalance pipe uri =>
      (s <| load_balancer := LoadBalancer.remove_connection uri (load_balancer s) |>, inl (DetachState pipe uri))
  | DetachState pipe uri =>
      if bool_decide (state s = ExpectingReply uri) then (s <| state := ReadyToSend |>, inl (DetachNotify pipe))
      else (s, inl (DetachClear pipe))
  | DetachNotify pipe =>
      (s <| reply_available_notifier := notify_one (reply_available_notifier s) |>, inl (DetachClear pipe))
  | DetachClear pipe =>
      (s <| incoming_orchestrator := Orchestrator.clear_pipe_state pipe (incoming_orchestrator s) |>,
       inr (Handled (Ok tt)))
  | Stop =>
      (s <| reply_available_notifier := notify_waiters (reply_available_notifier s) |>, inr (Handled (Ok tt)))
  | _ => (s, inl c)
  end.

Definition step (elapsed : bool) (c : call) s : ReqSocket W * (call + outcome) :=
  match c with
  | Send _ | SendCheck _ | SendPick _ _ | SendWait _ _ | SendIface _ _ | SendWrite _ _ _ | SendUpdate _ | SendReset =>
      send_step elapsed c s
  | Recv | RecvCheck _ | RecvWait _ | RecvNotified | RecvUnclear | RecvFinish _ => recv_step elapsed c s
  | RecvMulti | RecvMultiCheck _ | RecvMultiReset _ | RecvMultiWait _ | RecvMultiItem _ | RecvMultiFinish _ =>
      recv_multipart_step elapsed c s
  | SendMulti _ =>
      (s, inr (Sending (Err (UnsupportedFeature
        "REQ sockets use send() for single-part requests. Use DEALER for general multipart messaging."))))
  | Frame _ _ | FrameCheck _ _ _ | FrameAccumulate _ _ | FrameQueue _ _ | FrameQueued _ =>
      handle_pipe_event_step elapsed c s
  | _ => pipe_step c s
  end.

End Req.
End Req.

(** ** The socket among its tasks

    The core and the connections do anything. *)

#[export] Instance req_program `{Fibre, Notify, ISocketConnection W} : Program (ReqSocket W) call outcome := {|
  task_step := Req.step;
  user_call c := match c with Send _ | Recv | RecvMulti | SendMulti _ => true | _ => false end;
  handler_call c := match c with Frame _ _ | Attach _ | Detach _ | Stop => true | _ => false end;
  awaiting c := match c with SendWait _ _ | SendWrite _ _ _ | RecvWait _ | RecvMultiWait _ => true | _ => false end;
  cancel c s :=
    match c with
    | RecvWait _ => s <| reply_available_notifier := drop_notified (reply_available_notifier s) |>
    | _ => s
    end;
  environment s s' := exists core w, s' = s <| req_core := core |> <| world := w |>;
|}.

(** ** Specification: strict alternation

    [lockstep h pending]: after the results [h] a request is outstanding or not.  A
    request may be abandoned when its peer is lost. *)
Inductive lockstep : list outcome -> bool -> Prop :=
  | lock_new : lockstep [] false
  | lock_abandon h : lockstep h true -> lockstep h false
  | lock_sent h : lockstep h false -> lockstep (h ++ [Sending (Ok tt)]) true
  | lock_unsent h r : r <> Ok tt -> lockstep h false -> lockstep (h ++ [Sending r]) false
  | lock_send_refused h text : lockstep h true -> lockstep (h ++ [Sending (Err (InvalidState text))]) true
  | lock_send_multi h pending text :
      lockstep h pending -> lockstep (h ++ [Sending (Err (UnsupportedFeature text))]) pending
  | lock_part h m : Msg.is_more m = true -> lockstep h true -> lockstep (h ++ [Receiving (Ok m)]) true
  | lock_reply h m : Msg.is_more m = false -> lockstep h true -> lockstep (h ++ [Receiving (Ok m)]) false
  | lock_reply_all h ms : lockstep h true -> lockstep (h ++ [ReceivingAll (Ok ms)]) false
  | lock_fail h r : ok r = None -> lockstep h true -> lockstep (h ++ [Receiving r]) false
  | lock_fail_all h r : ok r = None -> lockstep h true -> lockstep (h ++ [ReceivingAll r]) false
  | lock_refused h text : lockstep h false -> lockstep (h ++ [Receiving (Err (InvalidState text))]) false
  | lock_refused_all h text : lockstep h false -> lockstep (h ++ [ReceivingAll (Err (InvalidState text))]) false
  | lock_closing h : lockstep h true -> lockstep (h ++ [Receiving (Err (InvalidState "Socket is closing"))]) true
  | lock_closing_all h :
      lockstep h true -> lockstep (h ++ [ReceivingAll (Err (InvalidState "Socket is closing"))]) true.

#[export] Hint Constructors lockstep : rzmq.

(** ** Lemmas *)

(** The handlers of the core. *)
Definition handles (c : call) : bool :=
  match c with
  | Frame _ _ | FrameCheck _ _ _ | FrameAccumulate _ _ | FrameQueue _ _ | FrameQueued _
  | Attach _ | AttachMap _ _ | AttachBalance _
  | Detach _ | DetachBalance _ _ | DetachState _ _ | DetachNotify _ | DetachClear _ | Stop => true
  | _ => false
  end.

(** How the state of the socket and the specification agree while the application
    is in a call: a send that has passed its check owns the state, a receive that
    has passed its check may outlive the request. *)
Definition agrees (u : option call) (st : ReqState) (pending : bool) : Prop :=
  match u with
  | None | Some (Send _ | SendCheck _ | SendMulti _ | Recv | RecvCheck _ | RecvMulti | RecvMultiCheck _) =>
      pending = Req.is_expecting st
  | Some (SendPick _ _ | SendWait _ _ | SendIface _ _ | SendWrite _ _ _ | SendUpdate _) =>
      st = ReadyToSend /\ pending = false
  | Some SendReset => pending = false
  | Some (RecvMultiFinish (Ok _)) => st = ReadyToSend /\ pending = true
  | Some (RecvWait _ | RecvNotified | RecvUnclear | RecvFinish _
         | RecvMultiReset _ | RecvMultiWait _ | RecvMultiItem _ | RecvMultiFinish _) => pending = true
  | Some _ => False
  end.

Section Lockstep.
Context `{Fibre, Notify, ISocketConnection W}.
Implicit Types s : ReqSocket W.

(** Handlers only ever end a wait. *)
Lemma req_handler_step elapsed c s s' r :
  handles c = true -> Req.step elapsed c s = (s', r) ->
  (state s' = state s \/ state s' = ReadyToSend) /\ (forall c', r = inl c' -> handles c' = true).
Proof.
  intros Hc Hstep. destruct c; try discriminate; cbn in Hstep;
    repeat case_match; simplify_eq; cbn; split; (naive_solver || by auto).
Qed.

(** The socket and the specification agree, possibly after a request was
    abandoned. *)
Definition tracked (u : option call) (st : ReqState) (h : list outcome) : Prop :=
  exists pending, lockstep h pending /\ agrees u st pending.

Lemma req_tracked_reset u st h : tracked u st h -> tracked u ReadyToSend h.
Proof.
  intros (pending & Hh & Ha). destruct u as [c|]; [destruct c|]; cbn in Ha; try done;
    try (exists pending; split; [done|]; cbn; repeat case_match; naive_solver);
    exists false; (split; [destruct pending; eauto with rzmq|done]).
Qed.

Lemma tracked_idle st h : lockstep h true -> tracked None st h.
Proof. intros Hh. destruct st; [exists false|exists true]; (split; [eauto with rzmq|done]). Qed.

Lemma back_to_ready_state s : state (Req.back_to_ready s) = ReadyToSend.
Proof. unfold Req.back_to_ready. by destruct (state s) eqn:Hs. Qed.

Lemma req_user_step elapsed c s s' c' h :
  Req.step elapsed c s = (s', inl c') -> tracked (Some c) (state s) h -> tracked (Some c') (state s') h.
Proof.
  intros Hstep (pending & Hh & Ha). exists pending. split; [done|].
  destruct c; cbn in Ha; try done; cbn in Hstep; repeat case_match; simplify_eq; cbn in *; simplify_eq;
    try done; try (split; [done|]); try congruence; destruct (state s); naive_solver.
Qed.

Lemma req_tracked_ready st h : st = ReadyToSend -> lockstep h false -> tracked None st h.
Proof. intros -> Hh. by exists false. Qed.

Lemma req_tracked_same st h : lockstep h (Req.is_expecting st) -> tracked None st h.
Proof. intros Hh. by exists (Req.is_expecting st). Qed.

Lemma req_send_return elapsed c s s' out h :
  Req.send_step elapsed c s = (s', inr out) -> tracked (Some c) (state s) h -> tracked None (state s') (h ++ [out]).
Proof.
  intros Hstep (pending & Hh & Ha). destruct c; cbn in Ha; try done; cbn in Hstep.
  - repeat case_match; simplify_eq. apply req_tracked_same. destruct (state s'); try done; eauto with rzmq.
  - destruct (state s) as [|uri] eqn:Hst; simplify_eq. apply req_tracked_same. rewrite Hst. eauto with rzmq.
  - destruct Ha as [Hst ->]. repeat case_match; simplify_eq; apply req_tracked_ready; try done; by apply lock_unsent.
  - destruct Ha as [Hst ->]. repeat case_match; simplify_eq; apply req_tracked_ready; try done; by apply lock_unsent.
  - destruct Ha as [Hst ->]. repeat case_match; simplify_eq; apply req_tracked_ready; try done; by apply lock_unsent.
  - destruct Ha as [Hst ->]. repeat case_match; simplify_eq; apply req_tracked_ready; try done; by apply lock_unsent.
  - simplify_eq. apply tracked_idle. eauto with rzmq.
Qed.

Lemma req_recv_return elapsed c s s' out h :
  Req.recv_step elapsed c s = (s', inr out) -> tracked (Some c) (state s) h -> tracked None (state s') (h ++ [out]).
Proof.
  intros Hstep (pending & Hh & Ha). destruct c; cbn in Ha; try done; cbn in Hstep; repeat case_match; simplify_eq.
  - apply req_tracked_same. destruct (state s'); try done; eauto with rzmq.
  - apply req_tracked_same. destruct (state s'); try done; eauto with rzmq.
  - apply tracked_idle. eauto with rzmq.
  - apply req_tracked_ready; [apply back_to_ready_state|]. eauto with rzmq.
  - apply req_tracked_ready; [apply back_to_ready_state|]. eauto with rzmq.
  - apply req_tracked_ready; [apply back_to_ready_state|]. eauto with rzmq.
Qed.

Lemma req_recv_multi_return elapsed c s s' out h :
  Req.recv_multipart_step elapsed c s = (s', inr out) ->
  tracked (Some c) (state s) h -> tracked None (state s') (h ++ [out]).
Proof.
  intros Hstep (pending & Hh & Ha). destruct c; cbn in Ha; try done; cbn in Hstep; repeat case_match; simplify_eq.
  - apply req_tracked_same. destruct (state s'); try done; eauto with rzmq.
  - apply req_tracked_same. destruct (state s'); try done; eauto with rzmq.
  - destruct Ha as [Hst ->]. apply req_tracked_ready; [done|]. eauto with rzmq.
  - apply req_tracked_ready; [apply back_to_ready_state|]. eauto with rzmq.
  - apply req_tracked_ready; [apply back_to_ready_state|]. eauto with rzmq.
Qed.

Lemma req_user_return elapsed c s s' out h :
  Req.step elapsed c s = (s', inr out) -> tracked (Some c) (state s) h -> tracked None (state s') (h ++ [out]).
Proof.
  intros Hstep Ht. destruct c; cbn [Req.step] in Hstep;
    first [exact (req_send_return _ _ _ _ _ _ Hstep Ht)|exact (req_recv_return _ _ _ _ _ _ Hstep Ht)
      |exact (req_recv_multi_return _ _ _ _ _ _ Hstep Ht)|destruct Ht as (pending & Hh & Ha); cbn in Ha];
    try done.
  injection Hstep as <- <-. apply req_tracked_same. rewrite <- Ha. eauto with rzmq.
Qed.

Lemma req_user_cancel c s h : awaiting c = true -> tracked (Some c) (state s) h -> tracked None (state (cancel c s)) h.
Proof.
  intros Hc (pending & Hh & Ha). destruct c; try done; cbn in Ha.
  - destruct Ha as [Hst ->]. exists false. cbn. by rewrite Hst.
  - destruct Ha as [Hst ->]. exists false. cbn. by rewrite Hst.
  - subst. by apply tracked_idle.
  - subst. by apply tracked_idle.
Qed.

Lemma req_tracked_preserved : preserved handles (fun u s h => tracked u (state s) h).
Proof.
  split.
  - by intros [].
  - intros s h c Hc (pending & Hh & ->). eexists. split; [done|]. by destruct c.
  - intros el c s h s' c' E. exact (req_user_step el c s s' c' h E).
  - intros el c s h s' out E. exact (req_user_return el c s s' out h E).
  - intros c s h. by apply req_user_cancel.
  - intros el c s s' c' E Hc. by apply (req_handler_step el c s s' (inl c') Hc E).
  - intros el c s u h s' r E Hc Ht. destruct (req_handler_step el c s s' r Hc E) as [[->| ->] _]; [done|].
    by eapply req_tracked_reset.
  - intros s s' u h (core & w & ->). done.
Qed.


End Lockstep.

(** ** Runs *)

Section Runs.

(** Two peers that take everything. *)
Definition req_example : ReqSocket (list (Z * list Msg)) :=
  @Req.new list_fibre flag_notify _
    (mkCore Running None None 1 1 false
       (<["tcp://a" := mkEndpoint 10 (Some (0, 1)) 1 (Some "REP")]>
          (<["tcp://b" := mkEndpoint 20 (Some (2, 3)) 2 (Some "REP")]> ∅))
       (<[1 := "tcp://a"]> (<[3 := "tcp://b"]> ∅))) [].

#[local] Existing Instance list_fibre.
#[local] Existing Instance flag_notify.
#[local] Instance take_all : ISocketConnection (list (Z * list Msg)) := record_conn [].

Definition frame (data : string) (more : bool) : Msg := mkMsg (Some (bs data)) (mk_flags more false).
Definition empty_more : Msg := Msg.set_flags MsgFlags.MORE Msg.new.


(** A stale notification.  A reply that arrives when nobody waits leaves a permit
    in the notifier; [recv_multipart] takes the reply but not the permit, so the
    [recv] of the next request returns an error at once, and the reply to it is
    discarded when it comes. *)
Lemma req_stale_notification :
  let '(s, rs) := run_calls
    [Attach 1; Send (frame "q1" false); Frame 1 empty_more; Frame 1 (frame "r1" false); RecvMulti;
     Send (frame "q2" false); Recv; Frame 1 empty_more; Frame 1 (frame "r2" false)] req_example in
  rs = [inr (Handled (Ok tt)); inr (Sending (Ok tt)); inr (Handled (Ok tt)); inr (Handled (Ok tt));
        inr (ReceivingAll (Ok [frame "r1" false])); inr (Sending (Ok tt));
        inr (Receiving (Err (Internal "Receive operation interrupted by notification without immediate data.")));
        inr (Handled (Ok tt)); inr (Handled (Ok tt))] /\
  state s = ReadyToSend /\ lc_items (channel (main_incoming_queue (incoming_orchestrator s))) = [].
Proof. vm_compute. done. Qed.

(** A stale reply.  A second reply of the first peer waits for room in the queue
    of one; when the first is received it takes the place, and is returned for the
    request sent to the other peer. *)
Lemma req_stale_reply :
  let '(s, rs) := run_calls
    [Attach 1; Attach 3; Send (frame "q1" false); Frame 1 empty_more; Frame 1 (frame "r1" false);
     Frame 1 empty_more; Frame 1 (frame "r1'" false)] req_example in
  let '(s', rs') := run_calls
    [RecvMulti; FrameQueue 1 [frame "r1'" false]; Send (frame "q2" false); RecvMulti] s in
  rs !! 6%nat = Some (inl (FrameQueue 1 [frame "r1'" false])) /\
  rs' = [inr (ReceivingAll (Ok [frame "r1" false])); inr (Handled (Ok tt)); inr (Sending (Ok tt));
         inr (ReceivingAll (Ok [frame "r1'" false]))] /\
  world s' = [(10, [empty_more; frame "q1" false]); (20, [empty_more; frame "q2" false])].
Proof. vm_compute. done. Qed.

End Runs.
