(* ===== verification/Rep.v ===== *)
(** The REP socket ([core/src/socket/rep_socket.rs]) as a concurrent program, in the
    style of the REQ socket: [step] runs a call or a handler to the next place
    where it gives up its locks or awaits.

    The results carry two things the caller does not see, for the specification:
    the peer a request came from and what was written for a reply. *)

From S2P Require Import Prelude Error Message Patterns Queue Endpoints Tasks.

#[local] Set Warnings "-clear-no-such-hyp".

Module Rep.

Record PeerInfo := mkPeerInfo {
  source_pipe_read_id : Z;
  target_endpoint_uri : string;
  routing_prefix : list Msg;
}.

#[export] Instance PeerInfo_eq_dec : EqDecision PeerInfo.
Proof. solve_decision. Defined.

Inductive RepState := ReadyToReceive | ReceivedRequest (info : PeerInfo).

Record RepSocket `{Fibre} (W : Type) := mkRep {
  core : Core;
  incoming_orchestrator : Orchestrator (PeerInfo * list Msg);
  state : RepState;
  pipe_read_id_to_endpoint_uri : gmap Z string;
  world : W;
}.
Arguments mkRep {_ W} _ _ _ _ _.
Arguments core {_ W} _.
Arguments incoming_orchestrator {_ W} _.
Arguments state {_ W} _.
Arguments pipe_read_id_to_endpoint_uri {_ W} _.
Arguments world {_ W} _.

#[export] Instance RepSocket_eta `{Fibre} {W} : Eta (RepSocket W) := fun r =>
  mkRep (core r) (incoming_orchestrator r) (state r) (pipe_read_id_to_endpoint_uri r) (world r).

(** The loop of [handle_pipe_event] over the frames of a request: the frames up to
    and with the first empty one are the routing prefix. *)
Fixpoint split_request (delimiter_found : bool) (prefix payload frames : list Msg) : bool * list Msg * list Msg :=
  match frames with
  | [] => (delimiter_found, prefix, payload)
  | frame :: frames =>
      if negb delimiter_found
      then split_request (Msg.size frame =? 0) (prefix ++ [frame]) payload frames
      else split_request delimiter_found prefix (payload ++ [frame]) frames
  end.

Definition parse_request (raw_zmtp_message : list Msg) : list Msg * list Msg :=
  let '(delimiter_found, routing_prefix, payload_frames) := split_request false [] [] raw_zmtp_message in
  if negb delimiter_found then ([], routing_prefix) else (routing_prefix, payload_frames).

(** The frames of a reply. *)
Definition reply_frames (info : PeerInfo) (payload_frames : list Msg) : list Msg :=
  mark_more (routing_prefix info ++ payload_frames).

Inductive call :=
  (* send *)
  | Send (msg : Msg)
  | SendReset (msg : Msg)
  (* send_multipart *)
  | SendMulti (payload_frames : list Msg)
  | SendMultiReset (payload_frames : list Msg)
  | SendTake (payload_frames : list Msg)
  | SendIface (info : PeerInfo) (payload_frames : list Msg)
  | SendWrite (info : PeerInfo) (payload_frames : list Msg) (conn : Z)
  (* recv *)
  | Recv
  | RecvCheck
  | RecvBuffered
  | RecvItem (rcvtimeo_opt : option Z)
  | RecvUpdate (info : PeerInfo) (payload_frames : list Msg)
  | RecvStore (info : PeerInfo) (payload_frames : list Msg)
  (* recv_multipart *)
  | RecvMulti
  | RecvMultiCheck
  | RecvMultiReset
  | RecvMultiItem (rcvtimeo_opt : option Z)
  | RecvMultiUpdate (info : PeerInfo) (payload_frames : list Msg)
  (* handle_pipe_event *)
  | Frame (pipe_read_id : Z) (msg : Msg)
  | FrameUri (pipe_read_id : Z) (raw_zmtp_message : list Msg)
  | FrameQueue (info : PeerInfo) (payload_frames : list Msg)
  (* pipe_attached, pipe_detached, process_command *)
  | Attach (pipe_read_id : Z)
  | Detach (pipe_read_id : Z)
  | DetachState (pipe_read_id : Z)
  | DetachClear (pipe_read_id : Z)
  | Stop.

Inductive outcome :=
  (** [written]: the request answered, the connection and the frames. *)
  | Sending (r : result unit) (written : option (PeerInfo * Z * list Msg))
  (** [from]: the peer of a request that was taken. *)
  | Receiving (r : result Msg) (from : option PeerInfo)
  | ReceivingAll (r : result (list Msg)) (from : option PeerInfo)
  | Handled (r : result unit).

Section Rep.
Context `{Fibre, ISocketConnection W}.
Implicit Types s : RepSocket W.

Definition new (c : Core) (w : W) : RepSocket W :=
  mkRep c (Orchestrator.new (Z.max (rcvhwm c) 1)) ReadyToReceive ∅ w.

Definition send_step (c : call) s : RepSocket W * (call + outcome) :=
  match c with
  | Send msg =>
      if negb (is_running (core s)) then (s, inr (Sending (Err (InvalidState "Socket is closing")) None))
      else (s, inl (SendReset (if Msg.is_more msg then without_more msg else msg)))
  | SendReset msg =>
      (s <| incoming_orchestrator := Orchestrator.reset_recv_message_buffer (incoming_orchestrator s) |>,
       inl (SendMulti [msg]))
  | SendMulti payload =>
      if negb (is_running (core s)) then (s, inr (Sending (Err (InvalidState "Socket is closing")) None))
      else (s, inl (SendMultiReset payload))
  | SendMultiReset payload =>
      (s <| incoming_orchestrator := Orchestrator.reset_recv_message_buffer (incoming_orchestrator s) |>,
       inl (SendTake (if bool_decide (payload = []) then [Msg.new] else payload)))
  | SendTake payload =>
      match state s with
      | ReceivedRequest info => (s <| state := ReadyToReceive |>, inl (SendIface info payload))
      | ReadyToReceive =>
          (s, inr (Sending (Err (InvalidState "REP socket must recv() a request before sending a reply")) None))
      end
  | SendIface info payload =>
      match endpoints (core s) !! target_endpoint_uri info with
      | Some ep => (s, inl (SendWrite info payload (connection_iface ep)))
      | None => (s, inr (Sending (Err (HostUnreachable "Peer disconnected before reply could be sent")) None))
      end
  | SendWrite info payload conn =>
      if bool_decide (routing_prefix info ++ payload = []) then (s, inr (Sending (Ok tt) None))
      else
        let '(w, r) := send_multipart conn (reply_frames info payload) (world s) in
        (s <| world := w |>, inr (Sending r (Some (info, conn, reply_frames info payload))))
  | _ => (s, inl c)
  end.

Definition is_ready (st : RepState) : bool := match st with ReadyToReceive => true | ReceivedRequest _ => false end.

Definition recv_step (elapsed : bool) (c : call) s : RepSocket W * (call + outcome) :=
  match c with
  | Recv =>
      if negb (is_running (core s)) then (s, inr (Receiving (Err (InvalidState "Socket is closing")) None))
      else (s, inl RecvCheck)
  | RecvCheck =>
      if is_ready (state s) then (s, inl RecvBuffered)
      else (s, inr (Receiving (Err (InvalidState "REP socket must call send() before receiving again")) None))
  | RecvBuffered =>
      match Orchestrator.recv_buffered (incoming_orchestrator s) with
      | (o, Some frame) => (s <| incoming_orchestrator := o |>, inr (Receiving (Ok frame) None))
      | (o, None) => (s <| incoming_orchestrator := o |>, inl (RecvItem (rcvtimeo (core s))))
      end
  | RecvItem timeo =>
      match Orchestrator.recv_item_from_main_queue elapsed timeo (incoming_orchestrator s) with
      | (o, Some (Ok (info, payload))) => (s <| incoming_orchestrator := o |>, inl (RecvUpdate info payload))
      | (o, Some (Err e)) => (s <| incoming_orchestrator := o |>, inr (Receiving (Err e) None))
      | (o, Some Panic) => (s <| incoming_orchestrator := o |>, inr (Receiving Panic None))
      | (o, None) => (s <| incoming_orchestrator := o |>, inl c)
      end
  (* the closure passed to [recv_message] *)
  | RecvUpdate info payload => (s <| state := ReceivedRequest info |>, inl (RecvStore info payload))
  | RecvStore info payload =>
      let '(o, frame) := Orchestrator.recv_store payload (incoming_orchestrator s) in
      (s <| incoming_orchestrator := o |>, inr (Receiving (Ok frame) (Some info)))
  | _ => (s, inl c)
  end.

Definition recv_multipart_step (elapsed : bool) (c : call) s : RepSocket W * (call + outcome) :=
  match c with
  | RecvMulti =>
      if negb (is_running (core s)) then (s, inr (ReceivingAll (Err (InvalidState "Socket is closing")) None))
      else (s, inl RecvMultiCheck)
  | RecvMultiCheck =>
      if is_ready (state s) then (s, inl RecvMultiReset)
      else (s, inr (ReceivingAll (Err (InvalidState "REP socket must call send() before receiving again")) None))
  | RecvMultiReset =>
      (s <| incoming_orchestrator := Orchestrator.reset_recv_message_buffer (incoming_orchestrator s) |>,
       inl (RecvMultiItem (rcvtimeo (core s))))
  | RecvMultiItem timeo =>
      match Orchestrator.recv_item_from_main_queue elapsed timeo (incoming_orchestrator s) with
      | (o, Some (Ok (info, payload))) => (s <| incoming_orchestrator := o |>, inl (RecvMultiUpdate info payload))
      | (o, Some (Err e)) => (s <| incoming_orchestrator := o |>, inr (ReceivingAll (Err e) None))
      | (o, Some Panic) => (s <| incoming_orchestrator := o |>, inr (ReceivingAll Panic None))
      | (o, None) => (s <| incoming_orchestrator := o |>, inl c)
      end
  | RecvMultiUpdate info payload =>
      (s <| state := ReceivedRequest info |>, inr (ReceivingAll (Ok payload) (Some info)))
  | _ => (s, inl c)
  end.

Definition handle_pipe_event_step (elapsed : bool) (c : call) s : RepSocket W * (call + outcome) :=
  match c with
  | Frame pipe msg =>
      match Orchestrator.accumulate_pipe_frame pipe msg (incoming_orchestrator s) with
      | (o, Some raw) => (s <| incoming_orchestrator := o |>, inl (FrameUri pipe raw))
      | (o, None) => (s <| incoming_orchestrator := o |>, inr (Handled (Ok tt)))
      end
  | FrameUri pipe raw =>
      match Endpoints.pipe_read_id_to_endpoint_uri (core s) !! pipe with
      | Some uri =>
          let '(routing_prefix, payload) := parse_request raw in
          (s, inl (FrameQueue (mkPeerInfo pipe uri routing_prefix) payload))
      | None => (s, inr (Handled (Err (Internal "REP: Endpoint URI lookup failed for request"))))
      end
  | FrameQueue info payload =>
      match Orchestrator.queue_item elapsed (info, payload) (incoming_orchestrator s) with
      | (o, Some r) => (s <| incoming_orchestrator := o |>, inr (Handled r))
      | (o, None) => (s <| incoming_orchestrator := o |>, inl c)
      end
  | _ => (s, inl c)
  end.

Definition pipe_step (c : call) s : RepSocket W * (call + outcome) :=
  match c with
  | Attach pipe =>
      match Endpoints.pipe_read_id_to_endpoint_uri (core s) !! pipe with
      | Some uri =>
          (s <| pipe_read_id_to_endpoint_uri := <[pipe := uri]> (pipe_read_id_to_endpoint_uri s) |>,
           inr (Handled (Ok tt)))
      | None => (s, inr (Handled (Ok tt)))
      end
  | Detach pipe =>
      (s <| pipe_read_id_to_endpoint_uri := delete pipe (pipe_read_id_to_endpoint_uri s) |>, inl (DetachState pipe))
  | DetachState pipe =>
      match state s with
      | ReceivedRequest info =>
          if source_pipe_read_id info =? pipe then (s <| state := ReadyToReceive |>, inl (DetachClear pipe))
          else (s, inl (DetachClear pipe))
      | ReadyToReceive => (s, inl (DetachClear pipe))
      end
  | DetachClear pipe =>
      (s <| incoming_orchestrator := Orchestrator.clear_pipe_state pipe (incoming_orchestrator s) |>,
       inr (Handled (Ok tt)))
  | Stop =>
      (s <| incoming_orchestrator := Orchestrator.close (incoming_orchestrator s) |>, inr (Handled (Ok tt)))
  | _ => (s, inl c)
  end.

Definition step (elapsed : bool) (c : call) s : RepSocket W * (call + outcome) :=
  match c with
  | Send _ | SendReset _ | SendMulti _ | SendMultiReset _ | SendTake _ | SendIface _ _ | SendWrite _ _ _ => send_step c s
  | Recv | RecvCheck | RecvBuffered | RecvItem _ | RecvUpdate _ _ | RecvStore _ _ => recv_step elapsed c s
  | RecvMulti | RecvMultiCheck | RecvMultiReset | RecvMultiItem _ | RecvMultiUpdate _ _ =>
      recv_multipart_step elapsed c s
  | Frame _ _ | FrameUri _ _ | FrameQueue _ _ => handle_pipe_event_step elapsed c s
  | _ => pipe_step c s
  end.

End Rep.

(** ** The socket among its tasks *)

#[export] Instance rep_program `{Fibre, ISocketConnection W} : Program (RepSocket W) call outcome := {|
  task_step := step;
  user_call c := match c with Send _ | SendMulti _ | Recv | RecvMulti => true | _ => false end;
  handler_call c := match c with Frame _ _ | Attach _ | Detach _ | Stop => true | _ => false end;
  awaiting c := match c with SendWrite _ _ _ | RecvItem _ | RecvMultiItem _ => true | _ => false end;
  cancel c s := s;
  environment s s' := exists c w, s' = s <| core := c |> <| world := w |>;
|}.

(** ** Specification: every reply answers the request before it

    [answers h p]: after the results [h] the request of peer [p], if any, is to be
    answered.  It may be abandoned when its peer is lost. *)
Inductive answers : list outcome -> option PeerInfo -> Prop :=
  | ans_new : answers [] None
  | ans_abandon h i : answers h (Some i) -> answers h None
  | ans_request h m i : answers h None -> answers (h ++ [Receiving (Ok m) (Some i)]) (Some i)
  | ans_request_all h ms i : answers h None -> answers (h ++ [ReceivingAll (Ok ms) (Some i)]) (Some i)
  | ans_rest h m : answers h None -> answers (h ++ [Receiving (Ok m) None]) None
  | ans_none h r : ok r = None -> answers h None -> answers (h ++ [Receiving r None]) None
  | ans_none_all h r : ok r = None -> answers h None -> answers (h ++ [ReceivingAll r None]) None
  | ans_busy h i text : answers h (Some i) -> answers (h ++ [Receiving (Err (InvalidState text)) None]) (Some i)
  | ans_busy_all h i text : answers h (Some i) -> answers (h ++ [ReceivingAll (Err (InvalidState text)) None]) (Some i)
  | ans_reply h i conn r payload :
      payload <> [] -> answers h (Some i) ->
      answers (h ++ [Sending r (Some (i, conn, mark_more (routing_prefix i ++ payload)))]) None
  | ans_unreachable h i text : answers h (Some i) -> answers (h ++ [Sending (Err (HostUnreachable text)) None]) None
  | ans_refused h text : answers h None -> answers (h ++ [Sending (Err (InvalidState text)) None]) None
  | ans_closing h i :
      answers h (Some i) -> answers (h ++ [Sending (Err (InvalidState "Socket is closing")) None]) (Some i).

#[export] Hint Constructors answers : rzmq.

(** ** Lemmas *)

Definition handles (c : call) : bool :=
  match c with
  | Frame _ _ | FrameUri _ _ | FrameQueue _ _ | Attach _ | Detach _ | DetachState _ | DetachClear _ | Stop => true
  | _ => false
  end.

(** The request a state holds. *)
Definition held (st : RepState) : option PeerInfo :=
  match st with ReadyToReceive => None | ReceivedRequest i => Some i end.

Definition agrees (u : option call) (st : RepState) (p : option PeerInfo) : Prop :=
  match u with
  | None | Some (Send _ | SendReset _ | SendMulti _ | SendMultiReset _ | Recv | RecvCheck | RecvMulti | RecvMultiCheck) =>
      p = held st
  | Some (SendTake payload) => p = held st /\ payload <> []
  | Some (SendIface i payload | SendWrite i payload _) => st = ReadyToReceive /\ p = Some i /\ payload <> []
  | Some (RecvBuffered | RecvItem _ | RecvUpdate _ _ | RecvMultiReset | RecvMultiItem _ | RecvMultiUpdate _ _) =>
      st = ReadyToReceive /\ p = None
  | Some (RecvStore i _) => (st = ReadyToReceive \/ st = ReceivedRequest i) /\ p = None
  | Some _ => False
  end.

Section Answers.
Context `{Fibre, ISocketConnection W}.
Implicit Types s : RepSocket W.

Definition tracked (u : option call) (st : RepState) (h : list outcome) : Prop :=
  exists p, answers h p /\ agrees u st p.

Lemma rep_handler_step elapsed c s s' r :
  handles c = true -> step elapsed c s = (s', r) ->
  (state s' = state s \/ state s' = ReadyToReceive) /\ (forall c', r = inl c' -> handles c' = true).
Proof.
  intros Hc Hstep. destruct c; try discriminate; cbn in Hstep;
    repeat case_match; simplify_eq; cbn; split; (naive_solver || by auto).
Qed.

Lemma rep_tracked_reset u st h : tracked u st h -> tracked u ReadyToReceive h.
Proof.
  intros (p & Hh & Ha). destruct u as [c|]; [destruct c|]; cbn in Ha; try done;
    try (exists p; split; [done|]; cbn; naive_solver);
    exists None; (split; [destruct p; eauto with rzmq|cbn; naive_solver]).
Qed.

Lemma is_ready_spec st : is_ready st = true -> st = ReadyToReceive.
Proof. by destruct st. Qed.

Lemma rep_user_step elapsed c s s' c' h :
  step elapsed c s = (s', inl c') -> tracked (Some c) (state s) h -> tracked (Some c') (state s') h.
Proof.
  intros Hstep (p & Hh & Ha). exists p. split; [done|].
  destruct c; cbn in Ha; try done; cbn in Hstep; repeat case_match; simplify_eq; cbn in *; simplify_eq;
    try match goal with H : is_ready _ = true |- _ => apply is_ready_spec in H as Hr; rewrite Hr in * end;
    try case_bool_decide; naive_solver.
Qed.

Lemma rep_tracked_same st h : answers h (held st) -> tracked None st h.
Proof. intros Hh. by exists (held st). Qed.

Lemma rep_tracked_ready st h : st = ReadyToReceive -> answers h None -> tracked None st h.
Proof. intros -> Hh. by exists None. Qed.

Lemma rep_send_return c s s' out h :
  send_step c s = (s', inr out) -> tracked (Some c) (state s) h -> tracked None (state s') (h ++ [out]).
Proof.
  intros Hstep (p & Hh & Ha). destruct c; cbn in Ha; try done; cbn in Hstep.
  - case_match; simplify_eq. apply rep_tracked_same. destruct (state s'); eauto with rzmq.
  - case_match; simplify_eq. apply rep_tracked_same. destruct (state s'); eauto with rzmq.
  - destruct (state s) as [|i] eqn:Hst; simplify_eq. apply rep_tracked_ready; [done|]. destruct Ha as [-> _]. eauto with rzmq.
  - destruct Ha as (Hst & -> & _). case_match; simplify_eq. apply rep_tracked_ready; eauto with rzmq.
  - destruct Ha as (Hst & -> & Hp). case_bool_decide as Hnil; [by apply app_eq_nil in Hnil as [_ ?]|].
    case_match; simplify_eq. apply rep_tracked_ready; [done|]. by apply ans_reply.
Qed.

Lemma rep_recv_return elapsed c s s' out h :
  recv_step elapsed c s = (s', inr out) -> tracked (Some c) (state s) h -> tracked None (state s') (h ++ [out]).
Proof.
  intros Hstep (p & Hh & Ha). destruct c; cbn in Ha; try done; cbn in Hstep.
  - case_match; simplify_eq. apply rep_tracked_same. destruct (state s'); eauto with rzmq.
  - case_match; simplify_eq. apply rep_tracked_same. destruct (state s'); try done; eauto with rzmq.
  - destruct Ha as [Hst ->]. repeat case_match; simplify_eq; apply rep_tracked_ready; eauto with rzmq.
  - destruct Ha as [Hst ->]. repeat case_match; simplify_eq; apply rep_tracked_ready; eauto with rzmq.
  - destruct Ha as [Hst ->]. repeat case_match; simplify_eq. cbn.
    destruct Hst as [-> | ->]; [apply rep_tracked_ready|apply rep_tracked_same]; eauto with rzmq.
Qed.

Lemma rep_recv_multi_return elapsed c s s' out h :
  recv_multipart_step elapsed c s = (s', inr out) ->
  tracked (Some c) (state s) h -> tracked None (state s') (h ++ [out]).
Proof.
  intros Hstep (p & Hh & Ha). destruct c; cbn in Ha; try done; cbn in Hstep.
  - case_match; simplify_eq. apply rep_tracked_same. destruct (state s'); eauto with rzmq.
  - case_match; simplify_eq. apply rep_tracked_same. destruct (state s'); try done; eauto with rzmq.
  - destruct Ha as [Hst ->]. repeat case_match; simplify_eq; apply rep_tracked_ready; eauto with rzmq.
  - destruct Ha as [Hst ->]. simplify_eq. apply rep_tracked_same. cbn. eauto with rzmq.
Qed.

Lemma rep_user_return elapsed c s s' out h :
  step elapsed c s = (s', inr out) -> tracked (Some c) (state s) h -> tracked None (state s') (h ++ [out]).
Proof.
  intros Hstep Ht. destruct c; cbn [step] in Hstep;
    first [exact (rep_send_return _ _ _ _ _ Hstep Ht)|exact (rep_recv_return _ _ _ _ _ _ Hstep Ht)
      |exact (rep_recv_multi_return _ _ _ _ _ _ Hstep Ht)|destruct Ht as (p & Hh & Ha); cbn in Ha]; done.
Qed.

Lemma rep_user_cancel c st h : awaiting c = true -> tracked (Some c) st h -> tracked None st h.
Proof.
  intros Hc (p & Hh & Ha). destruct c; try done; cbn in Ha.
  - destruct Ha as (-> & -> & _). exists None. split; [by eapply ans_abandon|done].
  - destruct Ha as [-> ->]. by exists None.
  - destruct Ha as [-> ->]. by exists None.
Qed.

Lemma rep_tracked_preserved : preserved handles (fun u s h => tracked u (state s) h).
Proof.
  split.
  - by intros [].
  - intros s h c Hc (p & Hh & ->). eexists. split; [done|]. by destruct c.
  - intros el c s h s' c' E. exact (rep_user_step el c s s' c' h E).
  - intros el c s h s' out E. exact (rep_user_return el c s s' out h E).
  - intros c s h. apply rep_user_cancel.
  - intros el c s s' c' E Hc. by apply (rep_handler_step el c s s' (inl c') Hc E).
  - intros el c s u h s' r E Hc Ht. destruct (rep_handler_step el c s s' r Hc E) as [[->| ->] _]; [done|].
    by eapply rep_tracked_reset.
  - intros s s' u h (c & w & ->). done.
Qed.


End Answers.

(** ** Runs *)

Section Runs.
#[local] Existing Instance list_fibre.
#[local] Instance take_all : ISocketConnection (list (Z * list Msg)) := record_conn [].

(** One peer that takes everything. *)
Definition rep_example : RepSocket (list (Z * list Msg)) :=
  new (mkCore Running None (Some 0) 1 1 false (<["tcp://a" := mkEndpoint 10 (Some (0, 1)) 1 (Some "REQ")]> ∅)
         (<[1 := "tcp://a"]> ∅)) [].

Definition frame (data : string) (more : bool) : Msg := mkMsg (Some (bs data)) (mk_flags more false).
Definition empty_more : Msg := Msg.set_flags MsgFlags.MORE Msg.new.


(** A request of several frames cannot be received frame by frame: the first
    [recv] leaves the state in which [recv] is refused. *)
Lemma rep_multipart_recv :
  (run_calls [Attach 1; Frame 1 empty_more; Frame 1 (frame "a" true); Frame 1 (frame "b" false); Recv; Recv]
     rep_example).2 !! 5%nat =
  Some (inr (Receiving (Err (InvalidState "REP socket must call send() before receiving again")) None)).
Proof. reflexivity. Qed.

End Runs.

End Rep.
