(* ===== verification/Coordinator.v ===== *)
(** One sender per pipe ([core/src/socket/patterns/pipe_coordinator.rs]).

    The state of a pipe is shared ([Arc<PipeState>]): a task that waits for a permit
    keeps it when the pipe is removed, and a pipe that is added again gets a new
    one.  States live in a store and are named by their place in it.  The
    semaphore is tokio's, a class with its documented behaviour as laws; a permit
    is released when it is dropped. *)

From S2P Require Import Prelude Error.

#[local] Set Warnings "-clear-no-such-hyp".

(** ** [tokio::sync::Semaphore] *)

Inductive acquire_outcome := Acquired | NoPermits | AcquireClosed.

Class Semaphore := {
  semaphore : Type;
  sem_new : Z -> semaphore;
  try_acquire : semaphore -> semaphore * acquire_outcome;
  add_permit : semaphore -> semaphore;
  sem_close : semaphore -> semaphore;
}.

Class SemaphoreLaws `{Semaphore} := {
  permits : semaphore -> Z;
  sem_closed : semaphore -> bool;
  sem_new_spec n : permits (sem_new n) = n /\ sem_closed (sem_new n) = false;
  try_acquire_closed x : sem_closed x = true -> try_acquire x = (x, AcquireClosed);
  try_acquire_none x : sem_closed x = false -> permits x = 0 -> try_acquire x = (x, NoPermits);
  try_acquire_some x : sem_closed x = false -> 0 < permits x ->
    (try_acquire x).2 = Acquired /\ permits (try_acquire x).1 = permits x - 1 /\ sem_closed (try_acquire x).1 = false;
  add_permit_spec x : permits (add_permit x) = permits x + 1 /\ sem_closed (add_permit x) = sem_closed x;
  sem_close_spec x : permits (sem_close x) = permits x /\ sem_closed (sem_close x) = true;
}.

Record PipeState `{Semaphore} := mkPipeState { ps_semaphore : semaphore; ps_is_closing : bool }.
Arguments mkPipeState {_} _ _.

Record WritePipeCoordinator `{Semaphore} := mkCoordinator {
  pipe_states : gmap Z nat;
  arcs : list PipeState;
}.
Arguments mkCoordinator {_} _ _.

Module WritePipeCoordinator.
Section WritePipeCoordinator.
Context `{Semaphore}.
Implicit Types c : WritePipeCoordinator.

Definition new : WritePipeCoordinator := mkCoordinator ∅ [].

Definition add_pipe (pipe_id : Z) c : WritePipeCoordinator :=
  match pipe_states c !! pipe_id with
  | Some _ => c
  | None =>
      mkCoordinator (<[pipe_id := length (arcs c)]> (pipe_states c)) (arcs c ++ [mkPipeState (sem_new 1) false])
  end.

Definition remove_pipe (pipe_id : Z) c : WritePipeCoordinator :=
  match pipe_states c !! pipe_id with
  | Some arc =>
      mkCoordinator (delete pipe_id (pipe_states c))
        (alter (fun st => mkPipeState (sem_close (ps_semaphore st)) true) arc (arcs c))
  | None => c
  end.

(** Where a call of [acquire_send_permit] is. *)
Inductive acquire :=
  | AcquireStart (pipe_id : Z)
  | AcquireCheck (arc : nat)
  | AcquireWait (arc : nat).

(** The permit is named by the state it comes from. *)
Definition acquire_send_permit (elapsed : bool) (timeout_opt : option Z) (a : acquire) c :
    WritePipeCoordinator * (acquire + result nat) :=
  match a with
  | AcquireStart pipe_id =>
      match pipe_states c !! pipe_id with
      | Some arc => (c, inl (AcquireCheck arc))
      | None => (c, inr (Err (HostUnreachable "Target pipe for send not available or recently detached")))
      end
  | AcquireCheck arc =>
      match arcs c !! arc with
      | Some st =>
          if ps_is_closing st then (c, inr (Err (HostUnreachable "Target pipe is closing or has been detached")))
          else (c, inl (AcquireWait arc))
      | None => (c, inr Panic)
      end
  | AcquireWait arc =>
      match arcs c !! arc with
      | Some st =>
          let '(x, r) := try_acquire (ps_semaphore st) in
          let c := mkCoordinator (pipe_states c) (<[arc := mkPipeState x (ps_is_closing st)]> (arcs c)) in
          match timeout_opt with
          | Some 0 => (c, inr (match r with Acquired => Ok arc | _ => Err ResourceLimitReached end))
          | _ =>
              match r with
              | Acquired => (c, inr (Ok arc))
              | AcquireClosed => (c, inr (Err (HostUnreachable "Target pipe was detached during send operation")))
              | NoPermits =>
                  if bool_decide (is_Some timeout_opt) && elapsed then (c, inr (Err Timeout))
                  else (c, inl (AcquireWait arc))
              end
          end
      | None => (c, inr Panic)
      end
  end.

(** Dropping a permit. *)
Definition drop_permit (arc : nat) c : WritePipeCoordinator :=
  mkCoordinator (pipe_states c)
    (alter (fun st => mkPipeState (add_permit (ps_semaphore st)) (ps_is_closing st)) arc (arcs c)).

End WritePipeCoordinator.
End WritePipeCoordinator.

(** ** Tasks that acquire and drop permits *)

Section Exclusion.
Context `{SemaphoreLaws}.
Implicit Types c : WritePipeCoordinator.

(** A coordinator, the calls that are under way and the permits that are held. *)
Record coord_system := mkCoord {
  coord : WritePipeCoordinator;
  acquiring : list (WritePipeCoordinator.acquire * option Z);
  holding : list nat;
}.

Inductive coord_step : coord_system -> coord_system -> Prop :=
  | coord_add p c acq hold :
      coord_step (mkCoord c acq hold) (mkCoord (WritePipeCoordinator.add_pipe p c) acq hold)
  | coord_remove p c acq hold :
      coord_step (mkCoord c acq hold) (mkCoord (WritePipeCoordinator.remove_pipe p c) acq hold)
  | coord_call p t c acq hold :
      coord_step (mkCoord c acq hold) (mkCoord c ((WritePipeCoordinator.AcquireStart p, t) :: acq) hold)
  | coord_poll elapsed t c acq1 a acq2 hold c' a' :
      WritePipeCoordinator.acquire_send_permit elapsed t a c = (c', inl a') ->
      coord_step (mkCoord c (acq1 ++ (a, t) :: acq2) hold) (mkCoord c' (acq1 ++ (a', t) :: acq2) hold)
  | coord_granted elapsed t c acq1 a acq2 hold c' arc :
      WritePipeCoordinator.acquire_send_permit elapsed t a c = (c', inr (Ok arc)) ->
      coord_step (mkCoord c (acq1 ++ (a, t) :: acq2) hold) (mkCoord c' (acq1 ++ acq2) (arc :: hold))
  | coord_refused elapsed t c acq1 a acq2 hold c' r :
      WritePipeCoordinator.acquire_send_permit elapsed t a c = (c', inr r) -> ok r = None ->
      coord_step (mkCoord c (acq1 ++ (a, t) :: acq2) hold) (mkCoord c' (acq1 ++ acq2) hold)
  | coord_drop c acq hold1 arc hold2 :
      coord_step (mkCoord c acq (hold1 ++ arc :: hold2))
        (mkCoord (WritePipeCoordinator.drop_permit arc c) acq (hold1 ++ hold2)).

(** How often a permit of a state is held. *)
Definition held (arc : nat) (hold : list nat) : Z := zlen (filter (fun a => a = arc) hold).

Lemma held_cons arc a hold : held arc (a :: hold) = (if bool_decide (a = arc) then 1 else 0) + held arc hold.
Proof.
  unfold held, zlen. case_bool_decide; [rewrite filter_cons_True by done|rewrite filter_cons_False by done]; cbn; lia.
Qed.

Lemma held_middle arc h1 a h2 : held arc (h1 ++ a :: h2) = held arc (a :: h1 ++ h2).
Proof. unfold held, zlen. by rewrite <- Permutation_middle. Qed.

Lemma held_nonneg arc hold : 0 <= held arc hold.
Proof. unfold held, zlen. lia. Qed.

Lemma held_out arc hold n : Forall (fun a => a < n)%nat hold -> (n <= arc)%nat -> held arc hold = 0.
Proof.
  intros Hall Hn. induction Hall as [|a hold Ha _ IH]; [done|]. rewrite held_cons, bool_decide_false by lia. done.
Qed.

(** What a call under way refers to exists. *)
Definition acquire_wf (n : nat) (a : WritePipeCoordinator.acquire) : Prop :=
  match a with
  | WritePipeCoordinator.AcquireStart _ => True
  | WritePipeCoordinator.AcquireCheck arc | WritePipeCoordinator.AcquireWait arc => (arc < n)%nat
  end.

(** A state has one permit, free or held, and is closed when it is out of the
    table. *)
Definition state_inv (table : gmap Z nat) (hold : list nat) (arc : nat) (st : PipeState) : Prop :=
  permits (ps_semaphore st) + held arc hold = 1 /\ 0 <= permits (ps_semaphore st) /\
  ps_is_closing st = sem_closed (ps_semaphore st) /\
  (sem_closed (ps_semaphore st) = false <-> exists p, table !! p = Some arc).

Record coord_inv (sys : coord_system) : Prop := {
  inv_state arc st : arcs (coord sys) !! arc = Some st -> state_inv (pipe_states (coord sys)) (holding sys) arc st;
  inv_holding : Forall (fun arc => arc < length (arcs (coord sys)))%nat (holding sys);
  inv_acquiring : Forall (fun a => acquire_wf (length (arcs (coord sys))) a.1) (acquiring sys);
  inv_table p arc : pipe_states (coord sys) !! p = Some arc -> (arc < length (arcs (coord sys)))%nat;
  inv_inj p q arc : pipe_states (coord sys) !! p = Some arc -> pipe_states (coord sys) !! q = Some arc -> p = q;
}.

Lemma acquire_wf_mono n m a : (n <= m)%nat -> acquire_wf n a -> acquire_wf m a.
Proof. destruct a; cbn; lia. Qed.

Lemma coord_inv_add p c acq hold :
  coord_inv (mkCoord c acq hold) -> coord_inv (mkCoord (WritePipeCoordinator.add_pipe p c) acq hold).
Proof.
  intros [Hst Hh Ha Ht Hi]. unfold WritePipeCoordinator.add_pipe. cbn in *.
  destruct (pipe_states c !! p) as [arc|] eqn:Hp; [by split|]. split; cbn.
  - intros arc st [Hl|(Hge & Hl)]%lookup_app_Some.
    + destruct (Hst arc st Hl) as (H1 & H2 & H3 & H4). split_and!; [done..|]. rewrite H4.
      apply lookup_lt_Some in Hl. split; intros [q Hq]; exists q.
      * rewrite lookup_insert_ne; [done|]. intros ->. congruence.
      * apply lookup_insert_Some in Hq as [[-> <-]|[_ Hq]]; [lia|done].
    + apply list_lookup_singleton_Some in Hl as [Hz <-]. assert (arc = length (arcs c)) as -> by lia.
      destruct (sem_new_spec 1) as [Hn Hc]. unfold state_inv. cbn.
      rewrite Hn, Hc, (held_out _ _ (length (arcs c))) by done.
      split_and!; [lia..|done|]. split; [|done]. intros _. exists p. by rewrite lookup_insert_eq.
  - eapply Forall_impl; [done|]. cbn. rewrite length_app. lia.
  - eapply Forall_impl; [done|]. cbn. intros [a t]. rewrite length_app. apply acquire_wf_mono. lia.
  - intros q arc [[-> <-]|[_ Hq%Ht]]%lookup_insert_Some; rewrite length_app; cbn; lia.
  - intros q1 q2 arc [[-> <-]|[Hn1 Hq1]]%lookup_insert_Some [[-> ]|[Hn2 Hq2]]%lookup_insert_Some; try done.
    + apply Ht in Hq2. lia.
    + subst. apply Ht in Hq1. lia.
    + by eapply Hi.
Qed.

Lemma coord_inv_remove p c acq hold :
  coord_inv (mkCoord c acq hold) -> coord_inv (mkCoord (WritePipeCoordinator.remove_pipe p c) acq hold).
Proof.
  intros [Hst Hh Ha Ht Hi]. unfold WritePipeCoordinator.remove_pipe. cbn in *.
  destruct (pipe_states c !! p) as [a|] eqn:Hp; [|by split]. split; cbn; rewrite ?length_alter; try done.
  - intros arc st Hl. destruct (decide (a = arc)) as [->|Hne].
    + rewrite list_lookup_alter_eq in Hl. apply fmap_Some in Hl as (st0 & Hl & ->).
      destruct (Hst _ _ Hl) as (H1 & H2 & H3 & H4). destruct (sem_close_spec (ps_semaphore st0)) as [Hp0 Hc0].
      unfold state_inv; cbn. rewrite Hp0, Hc0. split_and!; [done..|]. split; [done|].
      intros [q [Hne Hq]%lookup_delete_Some]. exfalso. by eapply Hne, Hi.
    + rewrite list_lookup_alter_ne in Hl by done. destruct (Hst _ _ Hl) as (H1 & H2 & H3 & H4).
      split_and!; [done..|]. rewrite H4. split; intros [q Hq]; exists q.
      * rewrite lookup_delete_ne; [done|]. intros ->. congruence.
      * by apply lookup_delete_Some in Hq as [_ Hq].
  - intros q arc [_ Hq]%lookup_delete_Some. by eapply Ht.
  - intros q1 q2 arc [_ Hq1]%lookup_delete_Some [_ Hq2]%lookup_delete_Some. by eapply Hi.
Qed.

Lemma coord_inv_drop c acq h1 arc h2 :
  coord_inv (mkCoord c acq (h1 ++ arc :: h2)) ->
  coord_inv (mkCoord (WritePipeCoordinator.drop_permit arc c) acq (h1 ++ h2)).
Proof.
  intros [Hst Hh Ha Ht Hi]. cbn in *. split; cbn; rewrite ?length_alter; try done.
  - intros a st Hl. destruct (decide (arc = a)) as [->|Hne].
    + rewrite list_lookup_alter_eq in Hl. apply fmap_Some in Hl as (st0 & Hl & ->).
      destruct (Hst _ _ Hl) as (H1 & H2 & H3 & H4). destruct (add_permit_spec (ps_semaphore st0)) as [Hp0 Hc0].
      rewrite held_middle, held_cons, bool_decide_true in H1 by done.
      unfold state_inv; cbn. rewrite Hp0, Hc0. split_and!; [lia..|done|done].
    + rewrite list_lookup_alter_ne in Hl by done. destruct (Hst _ _ Hl) as (H1 & H2 & H3 & H4).
      rewrite held_middle, held_cons, bool_decide_false in H1 by done. split_and!; done.
  - by apply Forall_app in Hh as [Hh1 [_ Hh2]%Forall_cons]; apply Forall_app.
Qed.

(** A poll: nothing changes, or the one free permit is taken. *)
Lemma acquire_spec elapsed t a c acq hold c' r :
  coord_inv (mkCoord c acq hold) -> acquire_wf (length (arcs c)) a ->
  WritePipeCoordinator.acquire_send_permit elapsed t a c = (c', r) ->
  r <> inr Panic /\ pipe_states c' = pipe_states c /\ length (arcs c') = length (arcs c) /\
  match r with
  | inr (Ok arc) => coord_inv (mkCoord c' acq (arc :: hold))
  | inl a' => coord_inv (mkCoord c' acq hold) /\ acquire_wf (length (arcs c')) a'
  | _ => coord_inv (mkCoord c' acq hold)
  end.
Proof.
  intros Hinv Hwf Hstep. destruct a as [p|arc|arc]; cbn in Hstep, Hwf.
  - destruct (pipe_states c !! p) as [arc|] eqn:Hp; injection Hstep as <- <-; split_and!; try done.
    exact (inv_table _ Hinv p arc Hp).
  - destruct (lookup_lt_is_Some_2 (arcs c) arc Hwf) as [st Hst]. rewrite Hst in Hstep.
    destruct (ps_is_closing st); injection Hstep as <- <-; split_and!; done.
  - destruct (lookup_lt_is_Some_2 (arcs c) arc Hwf) as [st Hst]. rewrite Hst in Hstep.
    destruct (inv_state _ Hinv arc st Hst) as (H1 & H2 & H3 & H4). cbn in H1, H2, H4.
    destruct (sem_closed (ps_semaphore st)) eqn:Hc; [|destruct (decide (permits (ps_semaphore st) = 0)) as [Hz|Hz]].
    + rewrite try_acquire_closed in Hstep by done.
      rewrite (list_insert_id (arcs c) arc _) in Hstep by (by destruct st).
      replace (mkCoordinator (pipe_states c) (arcs c)) with c in Hstep by (by destruct c).
      destruct t as [[|z|z]|]; injection Hstep as <- <-; split_and!; done.
    + rewrite try_acquire_none in Hstep by done.
      rewrite (list_insert_id (arcs c) arc _) in Hstep by (by destruct st).
      replace (mkCoordinator (pipe_states c) (arcs c)) with c in Hstep by (by destruct c).
      destruct t as [[|z|z]|], elapsed; cbn in Hstep; injection Hstep as <- <-; cbn; split_and!; done.
    + destruct (try_acquire_some (ps_semaphore st) Hc) as (Hr & Hp' & Hc'); [lia|].
      destruct (try_acquire (ps_semaphore st)) as [x y]. cbn [fst snd] in *. subst y.
      assert (Hgoal : coord_inv (mkCoord (mkCoordinator (pipe_states c) (<[arc:=mkPipeState x (ps_is_closing st)]> (arcs c)))
        acq (arc :: hold))).
      { destruct Hinv as [Hs Hh Ha Ht Hi]. cbn in *. split; cbn; rewrite ?length_insert; try done.
        - intros b st' Hl. apply list_lookup_insert_Some in Hl as [(-> & <- & _)|[Hne Hl]].
          + unfold state_inv. cbn. rewrite held_cons, bool_decide_true, Hp', Hc' by done. split_and!; (lia || congruence).
          + destruct (Hs _ _ Hl) as (G1 & G2 & G3 & G4).
            unfold state_inv. rewrite held_cons, bool_decide_false by done. by split_and!.
        - by constructor. }
      destruct t as [[|z|z]|]; injection Hstep as <- <-; cbn; rewrite length_insert; split_and!; done.
Qed.

Lemma coord_inv_acquiring c acq acq' hold :
  coord_inv (mkCoord c acq hold) -> Forall (fun a => acquire_wf (length (arcs c)) a.1) acq' ->
  coord_inv (mkCoord c acq' hold).
Proof. intros [? ? ? ? ?] Ha. by split. Qed.

Lemma coord_step_inv sys sys' : coord_step sys sys' -> coord_inv sys -> coord_inv sys'.
Proof.
  intros Hstep Hinv. destruct Hstep as [p c acq hold|p c acq hold|p t c acq hold|el t c acq1 a acq2 hold c' a' E
    |el t c acq1 a acq2 hold c' arc E|el t c acq1 a acq2 hold c' r E Hr|c acq hold1 arc hold2].
  - by apply coord_inv_add.
  - by apply coord_inv_remove.
  - eapply coord_inv_acquiring; [done|]. by constructor; [|apply (inv_acquiring _ Hinv)].
  - pose proof (inv_acquiring _ Hinv) as Ha. apply Forall_app in Ha as [Ha1 [Haw Ha2]%Forall_cons]. cbn in *.
    destruct (acquire_spec _ _ _ _ _ _ _ _ Hinv Haw E) as (_ & _ & Hlen & Hinv' & Hwf').
    eapply coord_inv_acquiring; [done|]. rewrite Hlen in *. by apply Forall_app; split; [|constructor].
  - pose proof (inv_acquiring _ Hinv) as Ha. apply Forall_app in Ha as [Ha1 [Haw Ha2]%Forall_cons]. cbn in *.
    destruct (acquire_spec _ _ _ _ _ _ _ _ Hinv Haw E) as (_ & _ & Hlen & Hinv').
    eapply coord_inv_acquiring; [done|]. rewrite Hlen. by apply Forall_app.
  - pose proof (inv_acquiring _ Hinv) as Ha. apply Forall_app in Ha as [Ha1 [Haw Ha2]%Forall_cons]. cbn in *.
    destruct (acquire_spec _ _ _ _ _ _ _ _ Hinv Haw E) as (_ & _ & Hlen & Hinv').
    eapply coord_inv_acquiring; [by destruct r|]. rewrite Hlen. by apply Forall_app.
  - by apply coord_inv_drop.
Qed.

Lemma coord_reachable sys : rtc coord_step (mkCoord WritePipeCoordinator.new [] []) sys -> coord_inv sys.
Proof.
  apply (rtc_ind_r coord_inv); [|intros x y _ Hxy; by apply coord_step_inv].
  split; cbn; try done; intros *; rewrite ?lookup_nil, ?lookup_empty; done.
Qed.

Lemma held_nodup hold : (forall arc, held arc hold <= 1) -> NoDup hold.
Proof.
  induction hold as [|a hold IH]; intros Hle; [constructor|]. constructor.
  - intros Ha. specialize (Hle a). rewrite held_cons, bool_decide_true in Hle by done.
    apply list_elem_of_split in Ha as (h1 & h2 & ->). rewrite held_middle, held_cons, bool_decide_true in Hle by done.
    pose proof (held_nonneg a (h1 ++ h2)). lia.
  - apply IH. intros arc. specialize (Hle arc). rewrite held_cons in Hle. case_bool_decide; lia.
Qed.


End Exclusion.

(** ** A semaphore for the witness *)

Definition count_semaphore : Semaphore := {|
  semaphore := Z * bool;
  sem_new n := (n, false);
  try_acquire x :=
    if x.2 then (x, AcquireClosed) else if x.1 =? 0 then (x, NoPermits) else ((x.1 - 1, false), Acquired);
  add_permit x := (x.1 + 1, x.2);
  sem_close x := (x.1, true);
|}.

Lemma count_semaphore_laws : @SemaphoreLaws count_semaphore.
Proof.
  refine (@Build_SemaphoreLaws count_semaphore fst snd _ _ _ _ _ _); cbn; try done.
  - by intros [n c]; cbn; intros ->.
  - by intros [n c]; cbn; intros -> ->.
  - intros [n c]; cbn; intros -> Hn. by rewrite (proj2 (Z.eqb_neq n 0)) by lia.
Defined.

