(* ===== verification/Listener.v ===== *)
(** Listeners ([core/src/transport/{tcp,ipc}.rs]): the actor that obeys the core, the
    loop that accepts connections, and the limit on how many there are.

    A connection takes a permit of the limiter before it is accepted.  The loop, the
    tasks that set connections up and the sessions are steps on one state; a permit
    is where it is held.  The semaphore is tokio's; addresses, descriptors and what
    the system calls return are inputs. *)

From S2P Require Import Prelude Error Message Options Queue Tasks Runtime Session Transport Coordinator.

Inductive Transport := TcpTransport | IpcTransport.

(** ** The actor *)

Inductive ListenerInput `{Fibre} := FromBus (r : EventResult) | FromMailbox (r : option Command).

Section Actor.
Context `{HF : Fibre}.

(** One turn of [run_command_loop]: [Some] with the error to report when it ends. *)
Definition tcp_listener_turn (parent_socket_id : Z) (i : ListenerInput) : option (option ZmqError) :=
  match i with
  | FromBus (Event ContextTerminating) => Some None
  | FromBus (Event (SocketClosing socket_id)) => if socket_id =? parent_socket_id then Some None else None
  | FromBus (Event _) => None
  | FromBus EventsLagged => Some (Some (Internal "Listener event bus lagged"))
  | FromBus EventsClosed => Some (Some (Internal "Listener event bus closed"))
  | FromMailbox (Some Stop) => Some None
  | FromMailbox (Some _) => None
  | FromMailbox None => Some (Some (Internal "Listener command mailbox closed by peer"))
  end.

Definition ipc_listener_turn (parent_socket_id : Z) (i : ListenerInput) : option (option ZmqError) :=
  match i with
  | FromBus (Event ContextTerminating) => Some None
  | FromBus (Event (SocketClosing socket_id)) => if socket_id =? parent_socket_id then Some None else None
  | FromBus (Event _) => None
  | FromBus EventsLagged => Some (Some (Internal "Listener event bus lagged (IPC)"))
  | FromBus EventsClosed => Some (Some (Internal "Listener event bus closed (IPC)"))
  | FromMailbox (Some Stop) => Some None
  | FromMailbox (Some _) => None
  | FromMailbox None => Some (Some (Internal "Listener command mailbox closed by peer (IPC)"))
  end.

Definition listener_turn (tr : Transport) : Z -> ListenerInput -> option (option ZmqError) :=
  match tr with TcpTransport => tcp_listener_turn | IpcTransport => ipc_listener_turn end.

(** The accept loop is aborted and joined: [panicked] is what it panicked with. *)
Definition joined (tr : Transport) (panicked : option string) (final_error : option ZmqError) : option ZmqError :=
  match final_error, panicked with
  | None, Some text =>
      Some (Internal (format (match tr with
                              | TcpTransport => "Listener accept loop panicked: {}"
                              | IpcTransport => "Listener accept loop panicked (IPC): {}"
                              end) [text]))
  | e, _ => e
  end.

(** The loop on its inputs; the guard it drops in the end. *)
Fixpoint run_command_loop (tr : Transport) (parent_socket_id : Z) (panicked : option string) (guard : ActorDropGuard)
    (inputs : list ListenerInput) : option ActorDropGuard :=
  match inputs with
  | [] => None
  | i :: inputs =>
      match listener_turn tr parent_socket_id i with
      | None => run_command_loop tr parent_socket_id panicked guard inputs
      | Some final_error =>
          Some (match joined tr panicked final_error with
                | Some err => ActorDropGuard.set_error err guard
                | None => ActorDropGuard.waive guard
                end)
      end
  end.

End Actor.

(** ** Accepting *)

Definition is_fatal_accept_error (kind : ErrorKind) : bool :=
  match kind with
  | KBrokenPipe => true
  | KOther text => bool_decide (text = "invalid input parameter"%string)   (** [ErrorKind::InvalidInput] *)
  | _ => false
  end.

(** A connection that is set up: over the session actor, or as a descriptor of the
    io-uring worker. *)
Inductive Setup := SetupSession (options_applied : bool) | SetupUring (registered : bool).

Record Acceptor `{Semaphore} := mkAcceptor {
  limiter : semaphore;
  (** The loop holds a permit and waits for a connection. *)
  accepting : bool;
  ended : option ZmqError;
  (** Tasks that set a connection up, with its uri and their permit. *)
  setups : list string;
  (** Sessions, with their permit: handle and uri. *)
  sessions : list (Z * string);
  (** Connections of the worker. *)
  descriptors : list string;
  published_connections : list SystemEvent;
  (** There is a monitor, and what it was sent. *)
  watched : bool;
  monitor_events : list SocketEvent;
}.
Arguments mkAcceptor {_} _ _ _ _ _ _ _ _ _.

#[export] Instance Acceptor_eta `{Semaphore} : Eta Acceptor := fun a =>
  mkAcceptor (limiter a) (accepting a) (ended a) (setups a) (sessions a) (descriptors a) (published_connections a)
    (watched a) (monitor_events a).

Section Accept.
Context `{HS : Semaphore}.
Implicit Types a : Acceptor.

Definition new_acceptor (max_connections : option Z) (monitor : bool) : Acceptor :=
  mkAcceptor (sem_new (Z.max (default (2 ^ 64 - 1) max_connections) 1)) false None [] [] [] [] monitor [].

Definition tell_monitor (event : SocketEvent) a : Acceptor :=
  if watched a then a <| monitor_events := monitor_events a ++ [event] |> else a.

(** [acquire_owned], as long as it waits nothing happens. *)
Definition accept_acquire (tr : Transport) a : Acceptor :=
  let '(s, r) := try_acquire (limiter a) in
  match r with
  | Acquired => a <| limiter := s |> <| accepting := true |>
  | NoPermits => a <| limiter := s |>
  | AcquireClosed =>
      a <| limiter := s |> <| ended := Some (Internal match tr with
                                                      | TcpTransport => "Connection limiter closed"
                                                      | IpcTransport => "IPC Connection limiter closed"
                                                      end) |>
  end.

(** What the loop calls the peer: its address, or over IPC its descriptor. *)
Definition peer_addr_str (tr : Transport) (peer : string) : string :=
  match tr with TcpTransport => peer | IpcTransport => format "ipc-peer-fd-{}" [peer] end.

Definition connection_uri (tr : Transport) (peer : string) : string :=
  format (match tr with TcpTransport => "tcp://{}" | IpcTransport => "ipc://{}" end) [peer_addr_str tr peer].

(** [listener.accept()]: the task gets the permit, or it is dropped; after an error
    that is not fatal the loop pauses and goes on. *)
Definition accept_connection (tr : Transport) (endpoint_uri : string) (r : string + ErrorKind * string) a : Acceptor :=
  let a := a <| accepting := false |> in
  match r with
  | inl peer =>
      let a := tell_monitor (Accepted endpoint_uri (peer_addr_str tr peer)) a in
      a <| setups := setups a ++ [connection_uri tr peer] |>
  | inr (kind, message) =>
      let a := tell_monitor (AcceptFailed endpoint_uri message) (a <| limiter := add_permit (limiter a) |>) in
      if is_fatal_accept_error kind then a <| ended := Some (from_io_endpoint kind message endpoint_uri) |> else a
  end.

(** The guard the loop drops when it has ended. *)
Definition accept_loop_guard (accept_loop_handle parent : Z) (endpoint_uri : string) a : option ActorDropGuard :=
  (fun err => ActorDropGuard.set_error err (ActorDropGuard.new accept_loop_handle AAcceptLoop (Some endpoint_uri) (Some parent)))
    <$> ended a.

(** The task: the session takes the permit with it; the worker does not. *)
Definition set_up (parent : Z) (endpoint_uri uri : string) (mailbox sca_handle_id task : Z) (s : Setup) a : Acceptor :=
  match s with
  | SetupSession true =>
      a <| sessions := sessions a ++ [(sca_handle_id, uri)] |>
        <| published_connections := published_connections a ++
             [NewConnectionEstablished parent uri endpoint_uri None (ViaSca mailbox sca_handle_id) (Some task)] |>
  | SetupSession false => a <| limiter := add_permit (limiter a) |>
  | SetupUring registered =>
      let a := a <| limiter := add_permit (limiter a) |> in
      if registered then
        a <| descriptors := descriptors a ++ [uri] |>
          <| published_connections := published_connections a ++
               [NewConnectionEstablished parent uri endpoint_uri (Some sca_handle_id) (ViaUringFd sca_handle_id) None] |>
      else a
  end.

(** How a connection can be set up: over TCP by the worker when [io_uring] is on, or
    else by a session once the socket options are applied, over IPC by a session. *)
Definition setup_allowed (tr : Transport) (io_uring : bool) (s : Setup) : bool :=
  match s, tr with
  | SetupSession _, TcpTransport => negb io_uring
  | SetupSession options_applied, IpcTransport => options_applied
  | SetupUring _, TcpTransport => io_uring
  | SetupUring _, IpcTransport => false
  end.

Inductive accept_step (tr : Transport) (io_uring : bool) (parent : Z) (endpoint_uri : string) : Acceptor -> Acceptor -> Prop :=
  | step_acquire a : accepting a = false -> ended a = None -> accept_step tr io_uring parent endpoint_uri a (accept_acquire tr a)
  | step_accept r a :
      accepting a = true -> ended a = None -> accept_step tr io_uring parent endpoint_uri a (accept_connection tr endpoint_uri r a)
  | step_set_up us1 uri us2 mailbox id task s a :
      setups a = us1 ++ uri :: us2 -> setup_allowed tr io_uring s = true ->
      accept_step tr io_uring parent endpoint_uri a
        (set_up parent endpoint_uri uri mailbox id task s (a <| setups := us1 ++ us2 |>))
  | step_session_ends ss1 s ss2 a :
      sessions a = ss1 ++ s :: ss2 ->
      accept_step tr io_uring parent endpoint_uri a (a <| sessions := ss1 ++ ss2 |> <| limiter := add_permit (limiter a) |>).

End Accept.

(** ** Lemmas *)

Lemma zlen_mid {A} (l1 l2 : list A) x : zlen (l1 ++ x :: l2) = zlen (l1 ++ l2) + 1.
Proof. rewrite !zlen_app, zlen_cons. lia. Qed.

Section Limit.
Context `{HSL : SemaphoreLaws}.
Implicit Types a : Acceptor.

(** Every permit is in the limiter, with the loop, or with a connection. *)
Definition accounted (limit : Z) a : Prop :=
  sem_closed (limiter a) = false /\ 0 <= permits (limiter a) /\
  permits (limiter a) + (if accepting a then 1 else 0) + zlen (setups a) + zlen (sessions a) = limit.

(** The loop has ended, if at all, with a fatal error of [accept]. *)
Definition ended_fatally (endpoint_uri : string) a : Prop :=
  forall e, ended a = Some e -> exists kind message, is_fatal_accept_error kind = true /\ e = from_io_endpoint kind message endpoint_uri.

Lemma tell_monitor_same event a :
  limiter (tell_monitor event a) = limiter a /\ accepting (tell_monitor event a) = accepting a /\
  setups (tell_monitor event a) = setups a /\ sessions (tell_monitor event a) = sessions a /\ ended (tell_monitor event a) = ended a.
Proof. unfold tell_monitor. by destruct (watched a). Qed.

Lemma accounted_acquire tr limit a :
  accepting a = false -> accounted limit a ->
  accounted limit (accept_acquire tr a) /\ accepting (accept_acquire tr a) = (0 <? permits (limiter a)) /\
  ended (accept_acquire tr a) = ended a.
Proof.
  intros Ha (Hc & Hp & Hs). unfold accept_acquire, accounted. rewrite Ha in Hs. destruct (Z.ltb_spec 0 (permits (limiter a))) as [Hlt|Hle].
  - destruct (try_acquire_some _ Hc Hlt) as (Hr & Hn & Hc'). destruct (try_acquire (limiter a)) as [s r]. cbn in *. subst r. cbn.
    split_and!; [done|lia|lia|done|done].
  - rewrite (try_acquire_none _ Hc) by lia. cbn. rewrite Ha. by split_and!.
Qed.

Lemma accounted_step tr uring parent uri limit a a' :
  accept_step tr uring parent uri a a' -> accounted limit a -> accounted limit a'.
Proof.
  intros Hs Hacc. destruct Hs as [a Ha _|r a Ha _|us1 u us2 mb id task s a Hu _|ss1 s ss2 a Hss].
  - by apply accounted_acquire.
  - destruct Hacc as (Hc & Hp & Hs). rewrite Ha in Hs. destruct (add_permit_spec (limiter a)) as [Hadd Hcl].
    unfold accept_connection, accounted. destruct r as [peer|[kind message]]; cbv zeta.
    + destruct (tell_monitor_same (Accepted uri (peer_addr_str tr peer)) (a <| accepting := false |>)) as (El & Ea & Eu & Es & _).
      cbn in *. rewrite El, Ea, Es, Eu, zlen_app, zlen_cons. change (zlen []) with 0. split_and!; [done|lia|lia].
    + destruct (tell_monitor_same (AcceptFailed uri message) (a <| accepting := false |> <| limiter := add_permit (limiter a) |>))
        as (El & Ea & Eu & Es & _).
      cbn in *. destruct (is_fatal_accept_error kind); cbn; rewrite El, Ea, Es, Eu, Hadd, Hcl; split_and!; [done|lia|lia|done|lia|lia].
  - destruct Hacc as (Hc & Hp & Hs). rewrite Hu, zlen_mid in Hs. destruct (add_permit_spec (limiter a)) as [Hadd Hcl].
    unfold set_up, accounted. destruct s as [[]|[]]; cbn; rewrite ?zlen_app, ?zlen_cons, ?Hadd, ?Hcl in *; change (zlen (@nil (Z * string))) with 0;
      split_and!; try done; lia.
  - destruct Hacc as (Hc & Hp & Hs). rewrite Hss, zlen_mid in Hs. destruct (add_permit_spec (limiter a)) as [Hadd Hcl].
    unfold accounted. cbn. rewrite Hadd, Hcl. split_and!; [done|lia|lia].
Qed.

Lemma ended_step tr uring parent uri limit a a' :
  accept_step tr uring parent uri a a' -> accounted limit a -> ended_fatally uri a -> ended_fatally uri a'.
Proof.
  intros Hs Hacc He. destruct Hs as [a Ha Hn|r a _ Hn|us1 u us2 mb id task s a _ _|ss1 s ss2 a _]; unfold ended_fatally in *.
  - destruct (accounted_acquire tr limit a Ha Hacc) as (_ & _ & ->). by rewrite Hn.
  - unfold accept_connection, tell_monitor. destruct r as [peer|[kind message]]; cbn; destruct (watched a); try done;
      destruct (is_fatal_accept_error kind) eqn:Ef; try done; intros e [= <-]; by exists kind, message.
  - by destruct s as [[]|[]].
  - done.
Qed.

Lemma accounted_reachable tr uring parent uri max_connections monitor a :
  rtc (accept_step tr uring parent uri) (new_acceptor max_connections monitor) a ->
  accounted (Z.max (default (2 ^ 64 - 1) max_connections) 1) a /\ ended_fatally uri a.
Proof.
  intros Hr. refine (rtc_invariant _ (fun a => accounted _ a /\ ended_fatally uri a) _ _ Hr _ _).
  - split; [|done]. unfold accounted, new_acceptor. cbn. destruct (sem_new_spec (Z.max (default (2 ^ 64 - 1) max_connections) 1)) as [-> ->].
    change (zlen (@nil string)) with 0. change (zlen (@nil (Z * string))) with 0. split_and!; [done|lia|lia].
  - intros a1 a2 [H2 H3] H1. split; [by eapply accounted_step|by eapply ended_step].
Qed.

End Limit.

(** A listener that is told to stop ends, and its guard reports it to the core. *)
Lemma listener_reports `{Fibre} tr parent panicked guard inputs :
  guard_type guard = AListener -> guard_parent guard = Some parent -> FromMailbox (Some Stop) ∈ inputs ->
  exists g, run_command_loop tr parent panicked guard inputs = Some g /\
    guard_handle g = guard_handle guard /\ guard_type g = AListener /\ guard_parent g = Some parent /\ guard_uri g = guard_uri guard.
Proof.
  intros Ht Hp. induction inputs as [|i inputs IH]; intros Hin; [by apply elem_of_nil in Hin|]. cbn [run_command_loop].
  apply elem_of_cons in Hin as [<-|Hin].
  - assert (E : listener_turn tr parent (FromMailbox (Some Stop)) = Some None) by (by destruct tr). rewrite E.
    eexists. split; [done|]. by destruct (joined tr panicked None).
  - destruct (listener_turn tr parent i) as [e|]; [|by apply IH]. eexists. split; [done|]. by destruct (joined tr panicked e).
Qed.

(** ** Properties *)


Section Runs.
#[local] Existing Instance count_semaphore.
#[local] Existing Instance count_semaphore_laws.

(** One session with a limit of one. *)
Definition one_session : Acceptor :=
  set_up 1 "tcp://a:1" "tcp://p:9" 60 61 62 (SetupSession true)
    ((accept_connection TcpTransport "tcp://a:1" (inl "p:9"%string) (accept_acquire TcpTransport (new_acceptor (Some 1) true))) <| setups := [] |>).

Lemma one_session_reachable : rtc (accept_step TcpTransport false 1 "tcp://a:1") (new_acceptor (Some 1) true) one_session.
Proof.
  eapply rtc_l; [by apply step_acquire|]. eapply rtc_l; [by apply (step_accept _ _ _ _ (inl "p:9"%string))|].
  eapply rtc_l; [by apply (step_set_up _ _ _ _ [] "tcp://p:9" [] 60 61 62 (SetupSession true))|]. apply rtc_refl.
Qed.


(** Over the io-uring worker the permit is dropped with the task that set the
    connection up: with a limit of one there are two connections, and the loop goes
    on to accept a third. *)
Lemma uring_limit_exceeded :
  exists a, rtc (accept_step TcpTransport true 1 "tcp://a:1") (new_acceptor (Some 1) true) a /\
    zlen (descriptors a) = 2 /\ accepting (accept_acquire TcpTransport a) = true.
Proof.
  eexists. split.
  - eapply rtc_l; [by apply step_acquire|]. eapply rtc_l; [by apply (step_accept _ _ _ _ (inl "p:9"%string))|].
    eapply rtc_l; [by apply (step_set_up _ _ _ _ [] "tcp://p:9" [] 60 61 62 (SetupUring true))|].
    eapply rtc_l; [by apply step_acquire|]. eapply rtc_l; [by apply (step_accept _ _ _ _ (inl "q:9"%string))|].
    eapply rtc_l; [by apply (step_set_up _ _ _ _ [] "tcp://q:9" [] 60 61 62 (SetupUring true))|]. apply rtc_refl.
  - done.
Qed.

End Runs.
