(* ===== verification/Connecter.v ===== *)
(** Connecters ([core/src/transport/{tcp,ipc}.rs]): the actor that reaches a target,
    over TCP again and again, over IPC once, starts the session of the connection and
    reports to the core.

    What the bus, the resolver and the system calls yield is the input of an attempt.
    Sessions of the io-uring worker are left out: without that feature their branch is
    unreachable. *)

From S2P Require Import Prelude Error Options Queue Tasks Runtime Session Transport.
From S2P Require SocketCore.

(** [s.contains(p)]. *)
Definition contains (p s : string) : bool :=
  match String.index 0 p s with Some _ => true | None => false end.

Inductive ConnEffect :=
  | Published (event : SystemEvent)
  | Monitored (event : SocketEvent)
  | Slept (delay : Duration)
  | SessionStarted (sca_handle_id : Z) (target_uri connected_uri : string).

(** The fields of [TcpConnecter] and [IpcConnecter] that decide something. *)
Record Connecter := mkConnecter {
  connecter_handle : Z;
  target_endpoint : string;
  socket_options : SocketOptions;
  parent_core : Z;
  initial_attempts : Z;
  (** There is a monitor. *)
  monitored : bool;
}.

(** ** One attempt *)

(** An event that ends an attempt: the context or the parent is closing, or the bus
    has failed. *)
Definition aborts (parent_socket_id : Z) (r : EventResult) : bool :=
  match r with
  | Event ContextTerminating => true
  | Event (SocketClosing sid) => sid =? parent_socket_id
  | Event _ => false
  | EventsLagged | EventsClosed => true
  end.

(** What becomes of a connection to one address: [connect], [peer_addr] and the
    socket options fail with an error of the system, or the session gets its mailbox,
    handle and task. *)
Inductive TcpOutcome :=
  | ConnectError (kind : ErrorKind) (message : string)
  | PeerAddrError (kind : ErrorKind) (message : string)
  | SocketOptionsError (peer : string) (kind : ErrorKind) (message : string)
  | TcpConnected (peer : string) (sca_mailbox sca_handle_id task : Z).

(** The events received until then, and the outcome. *)
Record AddrTry := mkAddrTry { received : list EventResult; outcome : TcpOutcome }.

(** Interaction model, task and connected uri. *)
Abbreviation UnifiedConnectOutcome := (ConnectionInteractionModel * option Z * string)%type.

Definition monitor (c : Connecter) (e : SocketEvent) : list ConnEffect := if monitored c then [Monitored e] else [].

Definition connect_future (c : Connecter) (o : TcpOutcome) : list ConnEffect * (UnifiedConnectOutcome + ZmqError) :=
  let uri := target_endpoint c in
  match o with
  | ConnectError kind message => ([], inr (from_io_endpoint kind message uri))
  | PeerAddrError kind message => ([], inr (from_io kind message))
  | SocketOptionsError peer kind message => (monitor c (Connected uri (format "tcp://{}" [peer])), inr (from_io kind message))
  | TcpConnected peer sca_mailbox sca_handle_id task =>
      let actual := format "tcp://{}" [peer] in
      (monitor c (Connected uri actual) ++ [SessionStarted sca_handle_id uri actual],
       inl (ViaSca sca_mailbox sca_handle_id, Some task, actual))
  end.

(** The addresses in turn. *)
Fixpoint try_addresses (c : Connecter) (last_error : option ZmqError) (addrs : list AddrTry) :
    list ConnEffect * (UnifiedConnectOutcome + option ZmqError) :=
  match addrs with
  | [] => ([], inr last_error)
  | a :: addrs =>
      if existsb (aborts (parent_core c)) (received a) then ([], inr (Some (Internal "Connect aborted by system event.")))
      else
        let '(t, r) := connect_future c (outcome a) in
        match r with
        | inl unified_outcome => (t, inl unified_outcome)
        | inr e => let '(t', r) := try_addresses c (Some e) addrs in (t ++ t', r)
        end
  end.

Definition addr_str (c : Connecter) : string := default (target_endpoint c) (strip_prefix "tcp://" (target_endpoint c)).

Definition try_connect_once (c : Connecter) (lookup : list AddrTry + string) : list ConnEffect * (UnifiedConnectOutcome + ZmqError) :=
  match lookup with
  | inr e => ([], inr (DnsResolutionFailed (format "Failed to resolve '{}': {}" [addr_str c; e])))
  | inl addrs =>
      let '(t, r) := try_addresses c None addrs in
      (t, match r with
          | inl o => inl o
          | inr last_error =>
              inr (default (HostUnreachable (format "No IP addresses found or all attempts failed for {}" [addr_str c])) last_error)
          end)
  end.

(** ** Waiting *)

(** [None]: the delay has passed, or there was nothing to receive. *)
Definition wait_for_retry_delay_internal (c : Connecter) (delay : Duration) (event : option EventResult) :
    list ConnEffect * (bool + unit) :=
  if delay =? 0 then
    ([], inl (match event with
              | Some (Event ContextTerminating) | Some (Event (SocketClosing _)) => false
              | _ => true
              end))
  else
    (monitor c (ConnectRetried (target_endpoint c) delay) ++ [Slept delay],
     inl (match event with
          | Some (Event ContextTerminating) => false
          | Some (Event (SocketClosing s_id)) => negb (s_id =? parent_core c)
          | Some EventsLagged | Some EventsClosed => false
          | Some (Event _) => true
          | None => true
          end)).

(** ** The TCP connecter *)

(** The inputs of one turn of the life loop. *)
Record Attempt := mkAttempt {
  waited : option EventResult;
  polled : option EventResult;
  lookup : list AddrTry + string;
  (** The bus has a subscriber for the event that announces the connection. *)
  delivered : bool;
}.

Definition initial_reconnect_ivl (c : Connecter) : Duration :=
  default (from_millis DEFAULT_RECONNECT_IVL_MS) (reconnect_ivl (socket_options c)).

Definition no_retry_after_first_connect_fail (c : Connecter) : bool :=
  bool_decide (reconnect_ivl (socket_options c) = Some 0) &&
  (bool_decide (reconnect_ivl_max (socket_options c) = Some 0) || bool_decide (reconnect_ivl_max (socket_options c) = None)).

(** The delay a connecter starts with, when it inherits attempts. *)
Definition fast_forward (c : Connecter) : Duration :=
  let ivl := initial_reconnect_ivl c in
  if 0 <? ivl then
    match reconnect_ivl_max (socket_options c) with
    | Some max_d =>
        if 0 <? max_d then Nat.iter (Z.to_nat (Z.min (initial_attempts c) 31)) (fun d => Z.min (d * 2) max_d) ivl else ivl
    | None => ivl
    end
  else ivl.

Definition next_delay (c : Connecter) (current_retry_delay : Duration) : Duration :=
  let reconnect_ivl_max_opt := reconnect_ivl_max (socket_options c) in
  if (0 <? current_retry_delay) && map_or true (fun max_d => 0 <? max_d) reconnect_ivl_max_opt then
    match reconnect_ivl_max_opt with
    | Some max_d => Z.min (current_retry_delay * 2) max_d
    | None => initial_reconnect_ivl c
    end
  else if map_or false (fun max_d => 0 <? max_d) reconnect_ivl_max_opt then default current_retry_delay reconnect_ivl_max_opt
  else current_retry_delay.

(** An error the connecter keeps to itself. *)
Definition silent (e : ZmqError) : bool :=
  match e with Internal s => contains "shutdown by" s || contains "event bus error" s | _ => false end.

Record Life := mkLife {
  attempt_count : Z;
  current_retry_delay : Duration;
  last_connect_attempt_error : option ZmqError;
  trace : list ConnEffect;
}.

#[export] Instance Life_eta : Eta Life := fun l =>
  mkLife (attempt_count l) (current_retry_delay l) (last_connect_attempt_error l) (trace l).

(** The loop goes on, or it breaks. *)
Inductive Flow := Continue (l : Life) | Break (l : Life).

Definition emit (t : list ConnEffect) (l : Life) : Life := l <| trace := trace l ++ t |>.
Definition break_with (message : string) (l : Life) : Flow := Break (l <| last_connect_attempt_error := Some (Internal message) |>).

(** The wait before a retry. *)
Definition wait_turn (c : Connecter) (a : Attempt) (l : Life) : Flow :=
  if initial_attempts c <? attempt_count l then
    if no_retry_after_first_connect_fail c then Break l
    else
      let '(t, r) := wait_for_retry_delay_internal c (current_retry_delay l) (waited a) in
      let l := emit t l in
      match r with
      | inl true => Continue (l <| current_retry_delay := next_delay c (current_retry_delay l) |>)
      | inl false => break_with "Connecter shutdown by event retry delay." l
      | inr _ => break_with "Connecter shutdown error retry delay." l
      end
  else Continue l.

(** [system_event_rx.try_recv()] before the attempt. *)
Definition poll_turn (c : Connecter) (a : Attempt) (l : Life) : Flow :=
  match polled a with
  | Some (Event ContextTerminating) => break_with "Shutdown by ContextTerminating (pre-connect)." l
  | Some (Event (SocketClosing sid)) =>
      if sid =? parent_core c then break_with "Shutdown by parent SocketClosing (pre-connect)." l else Continue l
  | Some EventsClosed => break_with "Event bus closed (pre-connect)." l
  | Some EventsLagged => break_with "Event bus lagged (pre-connect)." l
  | _ => Continue l
  end.

Definition connect_turn (c : Connecter) (a : Attempt) (l : Life) : Flow :=
  let '(t, r) := try_connect_once c (lookup a) in
  let l := emit t l in
  match r with
  | inl (interaction_model, task, actual_peer_uri) =>
      let l := emit [Published (NewConnectionEstablished (parent_core c) actual_peer_uri (target_endpoint c) None interaction_model task)] l in
      Break (l <| last_connect_attempt_error :=
               if delivered a then None else Some (Internal "Failed to publish NewConnectionEstablished") |>)
  | inr e =>
      let l := l <| last_connect_attempt_error := Some e |> in
      if is_fatal_connect_error e || silent e then Break l
      else if no_retry_after_first_connect_fail c && (attempt_count l =? 1) then Break l
      else Continue (if attempt_count l =? wrapU 32 (initial_attempts c + 1)
                     then emit (monitor c (ConnectDelayed (target_endpoint c) (display e))) l else l)
  end.

(** One turn of the life loop. *)
Definition life_turn (c : Connecter) (a : Attempt) (l : Life) : Flow :=
  match wait_turn c a l with
  | Break l => Break l
  | Continue l =>
      let l := l <| attempt_count := wrapU 32 (attempt_count l + 1) |> in
      match poll_turn c a l with
      | Break l => Break l
      | Continue l => connect_turn c a l
      end
  end.

Fixpoint life_loop (c : Connecter) (attempts : list Attempt) (l : Life) : Flow :=
  match attempts with
  | [] => Continue l
  | a :: attempts => match life_turn c a l with Continue l => life_loop c attempts l | Break l => Break l end
  end.

Definition life (c : Connecter) : Life := mkLife (initial_attempts c) (fast_forward c) None [].

(** After the loop: the report. *)
Definition finish (c : Connecter) (l : Life) : list ConnEffect :=
  match last_connect_attempt_error l with
  | Some final_err =>
      if silent final_err then trace l
      else trace l ++ [Published (ConnectionAttemptFailed (parent_core c) (target_endpoint c) final_err)] ++
           monitor c (ConnectFailed (target_endpoint c) (display final_err))
  | None => trace l
  end.

Definition connecter_guard (c : Connecter) : ActorDropGuard :=
  ActorDropGuard.new (connecter_handle c) AConnecter (Some (target_endpoint c)) (Some (parent_core c)).

Definition close_guard (error : option ZmqError) (g : ActorDropGuard) : ActorDropGuard :=
  match error with Some err => ActorDropGuard.set_error err g | None => ActorDropGuard.waive g end.

(** The actor: [None] while it is still at work. *)
Definition run_connect_loop (c : Connecter) (attempts : list Attempt) : option (list ConnEffect * ActorDropGuard) :=
  match strip_prefix "tcp://" (target_endpoint c) with
  | None =>
      let err := InvalidEndpoint (target_endpoint c) in
      Some ([Published (ConnectionAttemptFailed (parent_core c) (target_endpoint c) err)],
            ActorDropGuard.set_error err (connecter_guard c))
  | Some _ =>
      match life_loop c attempts (life c) with
      | Continue _ => None
      | Break l => Some (finish c l, close_guard (last_connect_attempt_error l) (connecter_guard c))
      end
  end.

(** ** The IPC connecter *)

Inductive IpcOutcome :=
  | IpcConnectError (kind : ErrorKind) (message : string)
  | IpcTimeout
  | IpcConnected (fd : string) (sca_mailbox sca_handle_id task : Z).

Definition run_connect_attempt (c : Connecter) (events : list EventResult) (o : IpcOutcome) (delivered : bool) :
    list ConnEffect * ActorDropGuard :=
  let uri := target_endpoint c in
  let '(t, connection_outcome) :=
    if existsb (aborts (parent_core c)) events then ([], inr (Internal "IPC Connect aborted by system event."))
    else match o with
         | IpcConnectError kind message => ([], inr (from_io_endpoint kind message uri))
         | IpcTimeout => ([], inr Timeout)
         | IpcConnected fd sca_mailbox sca_handle_id task =>
             let actual := format "ipc://{}" [format "ipc-fd-{}" [fd]] in
             (monitor c (Connected uri actual) ++ [SessionStarted sca_handle_id uri actual],
              inl (ViaSca sca_mailbox sca_handle_id, Some task, actual))
         end in
  match connection_outcome with
  | inl (interaction_model, task, actual_uri) =>
      (t ++ [Published (NewConnectionEstablished (parent_core c) actual_uri uri None interaction_model task)],
       if delivered then ActorDropGuard.waive (connecter_guard c)
       else ActorDropGuard.set_error (Internal "IPC Failed to publish NewConnection") (connecter_guard c))
  | inr err =>
      (t ++ monitor c (ConnectFailed uri (display err)) ++
         (if match err with Internal s => contains "aborted by system event" s | _ => false end then []
          else [Published (ConnectionAttemptFailed (parent_core c) uri err)]),
       ActorDropGuard.set_error err (connecter_guard c))
  end.

(** ** Lemmas: what is reported *)

(** The sessions started and the events published, in order. *)
Definition report_of (e : ConnEffect) : option (SystemEvent + Z * string) :=
  match e with
  | Published event => Some (inl event)
  | SessionStarted id _ uri => Some (inr (id, uri))
  | _ => None
  end.
Definition reports (t : list ConnEffect) : list (SystemEvent + Z * string) := omap report_of t.

Definition sleep_of (e : ConnEffect) : option Duration := match e with Slept delay => Some delay | _ => None end.
Definition sleeps (t : list ConnEffect) : list Duration := omap sleep_of t.

(** A session is announced with its mailbox, handle and task. *)
Definition announced (c : Connecter) (t : list ConnEffect) : Prop :=
  exists mailbox id task peer,
    reports t = [inr (id, peer);
                 inl (NewConnectionEstablished (parent_core c) peer (target_endpoint c) None (ViaSca mailbox id) (Some task))].

(** The three ways a connecter ends, with what it keeps to itself. *)
Definition reported (c : Connecter) (kept : ZmqError -> bool) (t : list ConnEffect) (g : ActorDropGuard) : Prop :=
  guard_handle g = connecter_handle c /\ guard_type g = AConnecter /\
  guard_parent g = Some (parent_core c) /\ guard_uri g = Some (target_endpoint c) /\
  match ActorDropGuard.drop_error g with
  | None => announced c t
  | Some e => reports t = if kept e then [] else [inl (ConnectionAttemptFailed (parent_core c) (target_endpoint c) e)]
  end.

Lemma reports_app t1 t2 : reports (t1 ++ t2) = reports t1 ++ reports t2.
Proof. apply omap_app. Qed.
Lemma sleeps_app t1 t2 : sleeps (t1 ++ t2) = sleeps t1 ++ sleeps t2.
Proof. apply omap_app. Qed.
Lemma reports_monitor c e : reports (monitor c e) = [].
Proof. unfold monitor. by destruct (monitored c). Qed.
Lemma sleeps_monitor c e : sleeps (monitor c e) = [].
Proof. unfold monitor. by destruct (monitored c). Qed.

Create Rewrite HintDb conn.
#[local] Hint Rewrite reports_app sleeps_app reports_monitor sleeps_monitor app_nil_r : conn.

(** An attempt sleeps never, and starts a session when it succeeds only. *)
Definition attempted (t : list ConnEffect) {E} (r : UnifiedConnectOutcome + E) : Prop :=
  sleeps t = [] /\
  match r with
  | inl (model, task, peer) => exists mailbox id k, model = ViaSca mailbox id /\ task = Some k /\ reports t = [inr (id, peer)]
  | inr _ => reports t = []
  end.

Lemma connect_attempted c o t r : connect_future c o = (t, r) -> attempted t r.
Proof.
  unfold connect_future, attempted. destruct o; intros [= <- <-]; autorewrite with conn; split; try done.
  do 3 eexists. split_and!; reflexivity.
Qed.

Lemma addresses_attempted c addrs : forall e t r, try_addresses c e addrs = (t, r) -> attempted t r.
Proof.
  induction addrs as [|a addrs IH]; cbn [try_addresses]; intros e t r; [by intros [= <- <-]|].
  destruct (existsb _ _); [by intros [= <- <-]|]. destruct (connect_future c (outcome a)) as [t1 r1] eqn:E1.
  apply connect_attempted in E1 as [Hs1 Hr1]. destruct r1 as [o|e1]; [by intros [= <- <-]|].
  destruct (try_addresses c (Some e1) addrs) as [t2 r2] eqn:E2. intros [= <- <-]. apply IH in E2 as [Hs2 Hr2].
  split; [by rewrite sleeps_app, Hs1, Hs2|]. by rewrite reports_app, Hr1.
Qed.

Lemma once_attempted c l t r : try_connect_once c l = (t, r) -> attempted t r.
Proof.
  unfold try_connect_once. destruct l as [addrs|e]; [|by intros [= <- <-]].
  destruct (try_addresses c None addrs) as [t1 r1] eqn:E. intros [= <- <-]. apply addresses_attempted in E as [Hs Hr].
  split; [done|]. by destruct r1.
Qed.

(** What is true of the loop's state: nothing is reported before it breaks, and an
    attempt that has failed has left its error. *)
Definition at_work (c : Connecter) (l : Life) : Prop :=
  reports (trace l) = [] /\ (initial_attempts c < attempt_count l -> last_connect_attempt_error l <> None).

Definition broken (c : Connecter) (l : Life) : Prop :=
  match last_connect_attempt_error l with None => announced c (trace l) | Some _ => reports (trace l) = [] end.

Definition flows (c : Connecter) (f : Flow) : Prop := match f with Continue l => at_work c l | Break l => broken c l end.

Lemma wait_reports c delay event t r : wait_for_retry_delay_internal c delay event = (t, r) -> reports t = [].
Proof. unfold wait_for_retry_delay_internal. case_match; intros [= <- _]; by autorewrite with conn. Qed.

Lemma wait_flows c a l : at_work c l -> match wait_turn c a l with
    | Continue l' => reports (trace l') = [] /\ last_connect_attempt_error l' = last_connect_attempt_error l
    | Break l' => broken c l' end.
Proof.
  intros [Hr He]. unfold wait_turn. destruct (Z.ltb_spec (initial_attempts c) (attempt_count l)); [|done].
  destruct (no_retry_after_first_connect_fail c).
  - unfold broken. destruct (last_connect_attempt_error l); [done|]. by destruct He.
  - destruct (wait_for_retry_delay_internal c (current_retry_delay l) (waited a)) as [t [b|[]]] eqn:E;
      apply wait_reports in E; [destruct b|]; unfold broken; cbn; by rewrite reports_app, Hr, E.
Qed.

Lemma poll_flows c a l : reports (trace l) = [] -> match poll_turn c a l with Continue l' => l' = l | Break l' => broken c l' end.
Proof. intros Hr. unfold poll_turn. destruct (polled a) as [[[]| |]|]; try done. by destruct (_ =? _). Qed.

Lemma connect_flows c a l : delivered a = true -> reports (trace l) = [] -> flows c (connect_turn c a l).
Proof.
  intros Hd Hr. unfold connect_turn. destruct (try_connect_once c (lookup a)) as [t r] eqn:E. apply once_attempted in E as [_ E].
  destruct r as [[[model task] peer]|e].
  - destruct E as (mb & id & k & -> & -> & Ht). cbn. unfold broken. cbn. rewrite Hd. exists mb, id, k, peer.
    rewrite !reports_app, Hr, Ht. done.
  - destruct (is_fatal_connect_error e || silent e); cbn; [by unfold broken; cbn; rewrite reports_app, Hr, E|].
    destruct (_ && _); cbn; [by unfold broken; cbn; rewrite reports_app, Hr, E|].
    split; [|by case_match]. case_match; cbn; by rewrite ?reports_app, Hr, E, ?reports_monitor.
Qed.

Lemma life_flows c attempts : forall l, Forall (fun a => delivered a = true) attempts -> at_work c l -> flows c (life_loop c attempts l).
Proof.
  induction attempts as [|a attempts IH]; intros l Hd Hl; [done|]. inversion_clear Hd as [|? ? Ha Hd']. cbn [life_loop].
  enough (Hf : flows c (life_turn c a l)) by (destruct (life_turn c a l); [by apply IH|done]).
  unfold life_turn. pose proof (wait_flows c a l Hl) as Hw. destruct (wait_turn c a l) as [l1|l1]; [|done]. destruct Hw as [Hr _].
  set (l2 := l1 <| attempt_count := _ |>). assert (Hr2 : reports (trace l2) = []) by done.
  pose proof (poll_flows c a l2 Hr2) as Hp. destruct (poll_turn c a l2) as [l3|l3]; [subst l3|done]. by apply connect_flows.
Qed.

(** ** Lemmas: how long it waits *)

(** The delay before retry [i]: the base interval, or with a maximum the doubled one,
    cut off at the maximum. *)
Definition retry_interval (c : Connecter) (i : Z) : Duration :=
  let base := initial_reconnect_ivl c in
  match reconnect_ivl_max (socket_options c) with
  | Some max =>
      let k := Z.min (initial_attempts c) 31 + i in
      if 0 <? max then if k =? 0 then base else Z.min (base * 2 ^ k) max else base
  | None => base
  end.

Lemma capped_double base m k : 0 < m -> 0 < base -> 0 <= k ->
  Z.min ((if k =? 0 then base else Z.min (base * 2 ^ k) m) * 2) m = Z.min (base * 2 ^ (k + 1)) m.
Proof.
  intros Hm Hb Hk. rewrite Z.pow_add_r, Z.pow_1_r by lia. destruct (Z.eqb_spec k 0) as [->|Hne]; [by rewrite Z.mul_assoc, Z.pow_0_r, Z.mul_1_r|].
  rewrite Z.mul_assoc. generalize (base * 2 ^ k). intros x. lia.
Qed.

Lemma interval_first c : 0 < initial_reconnect_ivl c -> 0 <= initial_attempts c -> fast_forward c = retry_interval c 0.
Proof.
  intros Hb Hi. unfold fast_forward, retry_interval. cbv zeta. rewrite (proj2 (Z.ltb_lt _ _) Hb). destruct (reconnect_ivl_max _) as [m|]; [|done].
  destruct (Z.ltb_spec 0 m); [|done]. rewrite Z.add_0_r. assert (Hk := Z2Nat.id (Z.min (initial_attempts c) 31) ltac:(lia)). revert Hk.
  generalize (Z.to_nat (Z.min (initial_attempts c) 31)) as n. intros n <-. induction n as [|n IH]; [done|].
  cbn [Nat.iter nat_rect]. unfold Nat.iter in IH. rewrite IH, capped_double by lia. rewrite Nat2Z.inj_succ. unfold Z.succ.
  by rewrite (proj2 (Z.eqb_neq (Z.of_nat n + 1) 0)) by lia.
Qed.

Lemma interval_next c i : 0 < initial_reconnect_ivl c -> 0 <= initial_attempts c -> 0 <= i ->
  next_delay c (retry_interval c i) = retry_interval c (i + 1).
Proof.
  intros Hb Hi Hk. unfold next_delay, retry_interval. destruct (reconnect_ivl_max _) as [m|]; cbn.
  - destruct (Z.ltb_spec 0 m) as [Hm|Hm]; cbn; [|by rewrite andb_false_r].
    rewrite andb_true_r, capped_double by lia. rewrite (proj2 (Z.eqb_neq (Z.min (initial_attempts c) 31 + (i + 1)) 0)) by lia.
    rewrite Z.add_assoc. rewrite (proj2 (Z.ltb_lt _ _)); [done|]. destruct (Z.eqb_spec (Z.min (initial_attempts c) 31 + i) 0); [done|].
    assert (0 < 2 ^ (Z.min (initial_attempts c) 31 + i)) by (apply Z.pow_pos_nonneg; lia). nia.
  - rewrite (proj2 (Z.ltb_lt _ _)) by done. done.
Qed.

Lemma interval_pos c i : 0 < initial_reconnect_ivl c -> 0 <= initial_attempts c -> 0 <= i -> 0 < retry_interval c i.
Proof.
  intros Hb Hi Hk. unfold retry_interval. destruct (reconnect_ivl_max _) as [m|]; [|done].
  destruct (Z.ltb_spec 0 m); [|done]. destruct (_ =? 0); [done|].
  assert (0 < 2 ^ (Z.min (initial_attempts c) 31 + i)) by (apply Z.pow_pos_nonneg; lia). nia.
Qed.

Lemma retries_enabled c : 0 < initial_reconnect_ivl c -> no_retry_after_first_connect_fail c = false.
Proof.
  unfold no_retry_after_first_connect_fail, initial_reconnect_ivl. destruct (reconnect_ivl _) as [b|]; [|done]. cbn. intros H.
  rewrite bool_decide_false; [done|]. intros [= ->]. done.
Qed.

(** An attempt that nothing interrupts. *)
Definition uninterrupted (a : Attempt) : Prop := waited a = None /\ polled a = None.

Definition attempt_fails (c : Connecter) (a : Attempt) : Prop :=
  uninterrupted a /\ exists t e, try_connect_once c (lookup a) = (t, inr e) /\ is_fatal_connect_error e = false /\ silent e = false.

Definition attempt_succeeds (c : Connecter) (a : Attempt) : Prop :=
  uninterrupted a /\ delivered a = true /\ exists t o, try_connect_once c (lookup a) = (t, inl o).

(** The state after [n] failed attempts, about to make the next one. *)
Definition failed (c : Connecter) (n : Z) (l : Life) : Prop :=
  attempt_count l = initial_attempts c + n /\ current_retry_delay l = retry_interval c (Z.max 0 (n - 1)) /\ reports (trace l) = [] /\
  sleeps (trace l) = (fun i => retry_interval c (Z.of_nat i)) <$> seq 0 (Z.to_nat (n - 1)).

Section Retry.
Context (c : Connecter) (Hb : 0 < initial_reconnect_ivl c) (Hi : 0 <= initial_attempts c).

Lemma failed_wait n a l : 0 <= n -> uninterrupted a -> failed c n l ->
  exists l', wait_turn c a l = Continue l' /\ attempt_count l' = initial_attempts c + n /\ reports (trace l') = [] /\
    current_retry_delay l' = retry_interval c n /\
    sleeps (trace l') = (fun i => retry_interval c (Z.of_nat i)) <$> seq 0 (Z.to_nat n).
Proof.
  intros Hn [Hw _] (Hc & Hd & Hr & Hs). unfold wait_turn. rewrite Hc. destruct (Z.ltb_spec (initial_attempts c) (initial_attempts c + n)) as [Hlt|Hge].
  - rewrite (retries_enabled c Hb). unfold wait_for_retry_delay_internal. rewrite Hw, Hd.
    replace (Z.max 0 (n - 1)) with (n - 1) by lia. pose proof (interval_pos c (n - 1) Hb Hi ltac:(lia)).
    rewrite (proj2 (Z.eqb_neq _ _)) by lia. eexists. split; [reflexivity|]. cbn. rewrite Hd, reports_app, Hr, reports_app, reports_monitor.
    replace (Z.max 0 (n - 1)) with (n - 1) by lia. rewrite interval_next by lia. replace (n - 1 + 1) with n by lia.
    split_and!; [done..|]. rewrite !sleeps_app, sleeps_monitor, Hs. replace (Z.to_nat n) with (S (Z.to_nat (n - 1))) by lia.
    rewrite seq_S, fmap_app. cbn. by rewrite Z2Nat.id by lia.
  - assert (n = 0) as -> by lia. eexists. split; [reflexivity|]. done.
Qed.

Lemma failed_again n a l : 0 <= n -> initial_attempts c + n + 1 < 2 ^ 32 -> attempt_fails c a -> failed c n l ->
  exists l', life_turn c a l = Continue l' /\ failed c (n + 1) l'.
Proof.
  intros Hn Hlt (Hq & t & e & Ht & Hf & Hsl) Hl. destruct (failed_wait n a l Hn Hq Hl) as (l1 & Hw & Hc & Hr & Hd & Hs).
  unfold life_turn. rewrite Hw. unfold poll_turn. rewrite (proj2 Hq). unfold connect_turn. rewrite Ht, Hf, Hsl, (retries_enabled c Hb).
  cbn [orb andb]. eexists. split; [reflexivity|]. pose proof (once_attempted _ _ _ _ Ht) as [Hst Hrt]. cbn in Hrt.
  assert (Hw1 : wrapU 32 (attempt_count l1 + 1) = initial_attempts c + (n + 1)) by (rewrite Hc, Z.add_assoc; apply Z.mod_small; lia).
  assert (Hrest : reports (trace l1 ++ t) = [] /\ sleeps (trace l1 ++ t) = (fun i => retry_interval c (Z.of_nat i)) <$> seq 0 (Z.to_nat n))
    by (split; [by rewrite reports_app, Hr, Hrt|by rewrite sleeps_app, Hs, Hst, app_nil_r]).
  destruct Hrest as [Hr' Hs']. unfold failed. replace (Z.max 0 (n + 1 - 1)) with n by lia. replace (n + 1 - 1) with n by lia.
  case_match; cbn; split_and!; try done; [rewrite reports_app|rewrite sleeps_app]; autorewrite with conn in *; congruence.
Qed.

Lemma failed_all attempts : forall n l, 0 <= n -> initial_attempts c + n + zlen attempts < 2 ^ 32 ->
  Forall (attempt_fails c) attempts -> failed c n l ->
  exists l', (forall rest, life_loop c (attempts ++ rest) l = life_loop c rest l') /\ failed c (n + zlen attempts) l'.
Proof.
  induction attempts as [|a attempts IH]; intros n l Hn Hlt Hf Hl; [exists l; split; [done|by rewrite Z.add_0_r]|].
  rewrite zlen_cons in *. inversion_clear Hf as [|? ? Ha Hf']. pose proof (zlen_nonneg attempts).
  destruct (failed_again n a l Hn ltac:(lia) Ha Hl) as (l1 & Ht & Hl1).
  destruct (IH (n + 1) l1 ltac:(lia) ltac:(lia) Hf' Hl1) as (l2 & Hrest & Hl2).
  exists l2. split; [intros rest; cbn; by rewrite Ht|]. by rewrite Z.add_assoc.
Qed.

End Retry.

(** With a maximum, the core, which starts connecters, and the connecter, which
    retries, follow one schedule. *)
Lemma schedules_agree c now next base max :
  reconnect_ivl (socket_options c) = Some base -> reconnect_ivl_max (socket_options c) = Some max ->
  0 < base <= max -> max <= SocketCore.ReconnectState.MAX_DURATION -> 0 <= initial_attempts c ->
  snd (SocketCore.ReconnectState.on_connection_failure now base max (SocketCore.mkReconnect (initial_attempts c) next)) = retry_interval c 0.
Proof.
  intros Hb Hm Hr Hd Hi. unfold SocketCore.ReconnectState.on_connection_failure, retry_interval, initial_reconnect_ivl.
  rewrite Hb, Hm. cbn -[Z.pow SocketCore.ReconnectState.MAX_DURATION]. rewrite (proj2 (Z.ltb_lt 0 max)), Z.add_0_r by lia.
  assert (2 ^ Z.min (initial_attempts c) 31 <= 2 ^ 31) by (apply Z.pow_le_mono_r; lia).
  rewrite (Z.min_l (2 ^ Z.min (initial_attempts c) 31)) by lia.
  destruct (Z.eqb_spec (Z.min (initial_attempts c) 31) 0) as [->|Hne]; [rewrite Z.pow_0_r|]; lia.
Qed.

(** ** Properties *)



(** ** Runs *)

Definition connecter_with (base max : option Duration) (k : Z) : Connecter :=
  mkConnecter 40 "tcp://h:1" (default_options <| reconnect_ivl := base |> <| reconnect_ivl_max := max |>) 1 k true.

Definition refused : Attempt := mkAttempt None None (inl [mkAddrTry [] (ConnectError KConnectionRefused "refused")]) true.
Definition reached : Attempt := mkAttempt None None (inl [mkAddrTry [] (TcpConnected "h:1" 60 61 62)]) true.
Definition aborted_by (e : SystemEvent) : Attempt := mkAttempt None None (inl [mkAddrTry [Event e] (TcpConnected "h:1" 60 61 62)]) true.



(** An attempt that is aborted because the context terminates counts as one that has
    failed: the connecter has taken the event off the bus, tries again, and announces
    a session to a core that is gone. *)
Lemma connects_after_termination :
  exists t, run_connect_loop (connecter_with (Some 10) None 0) [aborted_by ContextTerminating; reached] =
      Some (t, ActorDropGuard.waive (connecter_guard (connecter_with (Some 10) None 0))) /\
    announced (connecter_with (Some 10) None 0) t.
Proof. eexists. split; [reflexivity|]. exists 60, 61, 62. eexists. reflexivity. Qed.

(** Between attempts without a delay the connecter stops, and says nothing, when any
    socket of the context closes. *)
Lemma foreign_close_ends_retries :
  exists t g, run_connect_loop (connecter_with (Some 0) (Some 50) 0)
      [refused; mkAttempt (Some (Event (SocketClosing 2))) None (inl []) true] = Some (t, g) /\ reports t = [] /\ guard_parent g = Some 1.
Proof. eexists _, _. split; [reflexivity|]. done. Qed.

(** An address that cannot be used is not fatal, for [from_io_endpoint] has turned
    the error of the system into one that is none. *)
Lemma unavailable_address_retried kind message uri :
  kind = KAddrInUse \/ kind = KAddrNotAvailable \/ kind = KPermissionDenied ->
  is_fatal_connect_error (from_io kind message) = true /\ is_fatal_connect_error (from_io_endpoint kind message uri) = false.
Proof. by intros [-> | [-> | ->]]. Qed.

(** Without a maximum interval, the default, a connecter waits for the interval and
    the core doubles it without end: after ten failures a second, and 1024. *)
Lemma schedules_differ :
  retry_interval (connecter_with (Some (from_millis 1000)) (Some 0) 10) 0 = from_secs 1 /\
  snd (SocketCore.ReconnectState.on_connection_failure 0 (from_millis 1000) 0 (SocketCore.mkReconnect 10 None)) = from_secs 1024.
Proof. done. Qed.
