(* ===== verification/Router.v ===== *)
(** The ROUTER socket ([core/src/socket/router_socket.rs]) as a concurrent program:
    [step] runs a call or a handler to the next place where it gives up its locks
    or awaits; reads of several tables one after the other are one step.

    The texts of HostUnreachable for an unknown peer leave out the identity, which
    the source prints there.  [current_send_target] is a tokio mutex that a send of an identity holds over
    its writes; [target_lock] says whether it is held, and whoever wants it waits. *)

From S2P Require Import Prelude Error Message Options Patterns Queue Endpoints Tasks Coordinator.

#[local] Set Warnings "-clear-no-such-hyp".

Module Router.

Record RouterSocket `{Fibre, Semaphore} (W : Type) := mkRouter {
  core : Core;
  router_map_for_send : RouterMap;
  incoming_orchestrator : Orchestrator (bytes * list Msg);
  pipe_to_identity_shared_map : gmap Z bytes;
  (** The endpoint and the permit of a message sent frame by frame. *)
  current_send_target : option (string * nat);
  target_lock : bool;
  pipe_send_coordinator : WritePipeCoordinator;
  framing : FramingLatch;
  world : W;
}.
Arguments mkRouter {_ _ W} _ _ _ _ _ _ _ _ _.
Arguments core {_ _ W} _.
Arguments router_map_for_send {_ _ W} _.
Arguments incoming_orchestrator {_ _ W} _.
Arguments pipe_to_identity_shared_map {_ _ W} _.
Arguments current_send_target {_ _ W} _.
Arguments target_lock {_ _ W} _.
Arguments pipe_send_coordinator {_ _ W} _.
Arguments framing {_ _ W} _.
Arguments world {_ _ W} _.

#[export] Instance RouterSocket_eta `{Fibre, Semaphore} {W} : Eta (RouterSocket W) := fun r =>
  mkRouter (core r) (router_map_for_send r) (incoming_orchestrator r) (pipe_to_identity_shared_map r)
    (current_send_target r) (target_lock r) (pipe_send_coordinator r) (framing r) (world r).

Definition pipe_id_to_placeholder_identity (pipe_read_id : Z) : bytes := bs (format "pipe:{}" [pretty pipe_read_id]).

(** The payload of an incoming message, given the type of the peer. *)
Definition strip_delimiter (raw_zmtp_message : list Msg) : list Msg :=
  match raw_zmtp_message with
  | frame :: rest => if Msg.size frame =? 0 then rest else raw_zmtp_message
  | [] => raw_zmtp_message
  end.

Definition incoming_payload (manual : bool) (peer_type : option string) (raw_zmtp_message : list Msg) : list Msg :=
  if manual then raw_zmtp_message
  else match peer_type with
       | Some "ROUTER" => raw_zmtp_message
       | _ => strip_delimiter raw_zmtp_message
       end%string.

(** [last_mut] and its MORE flag cleared. *)
Fixpoint clear_last (frames : list Msg) : list Msg :=
  match frames with
  | [] => []
  | [frame] => [without_more frame]
  | frame :: frames => frame :: clear_last frames
  end.

Definition transform_qitem_to_app_frames (item : bytes * list Msg) : list Msg :=
  let '(identity_blob, payload_frames) := item in
  let id_msg := Msg.from_bytes identity_blob in
  let id_msg :=
    if negb (bool_decide (payload_frames = [])) then Msg.set_flags MsgFlags.MORE id_msg else without_more id_msg in
  clear_last (id_msg :: payload_frames).

Inductive call :=
  (* send *)
  | Send (msg : Msg)
  | SendTarget (timeout_opt : option Z) (mandatory : bool) (msg : Msg)
  | PartIface (mandatory : bool) (msg : Msg) (uri : string)
  | PartWrite (mandatory : bool) (msg : Msg) (conn : Z)
  | PartDone (mandatory : bool) (is_last : bool) (r : result unit)
  | PartLost (mandatory : bool)
  | IdLookup (timeout_opt : option Z) (mandatory : bool) (msg : Msg)
  | IdEndpoint (timeout_opt : option Z) (mandatory : bool) (msg : Msg) (uri : string)
  | IdForget (mandatory : bool) (msg : Msg) (text : string)
  | IdPermit (timeout_opt : option Z) (mandatory : bool) (msg : Msg) (uri : string) (conn : Z)
      (a : WritePipeCoordinator.acquire)
  | IdLock (mandatory : bool) (msg : Msg) (uri : string) (conn : Z) (permit : nat)
  | IdWrite (mandatory : bool) (msg : Msg) (uri : string) (conn : Z) (permit : nat)
  | DelimiterWrite (mandatory : bool) (uri : string) (conn : Z) (permit : nat)
  | IdSet (uri : string) (permit : nat)
  | IdFailed (mandatory : bool) (permit : nat) (text : string) (r : result unit)
  (* send_multipart *)
  | SendMulti (frames : list Msg)
  | MultiLookup (timeout_opt : option Z) (mandatory : bool) (identity : Msg) (payload : list Msg)
  | MultiEndpoint (timeout_opt : option Z) (mandatory : bool) (identity : Msg) (payload : list Msg) (info : PeerInfo)
  | MultiPermit (timeout_opt : option Z) (mandatory : bool) (identity : Msg) (payload : list Msg)
      (strategy : RouterSendStrategy) (conn : Z) (a : WritePipeCoordinator.acquire)
  | MultiWrite (mandatory : bool) (identity : Msg) (payload : list Msg) (strategy : RouterSendStrategy) (conn : Z)
      (permit : nat)
  | MultiDone (mandatory : bool) (permit : nat) (r : result unit)
  (* recv, recv_multipart *)
  | Recv
  | RecvBuffered (rcvtimeo_opt : option Z)
  | RecvItem (rcvtimeo_opt : option Z)
  | RecvStore (item : bytes * list Msg)
  | RecvMulti
  | RecvMultiReset (rcvtimeo_opt : option Z)
  | RecvMultiItem (rcvtimeo_opt : option Z)
  (* set_pattern_option, get_pattern_option *)
  | SetOption (option_id : Z) (value : bytes)
  | GetOption (option_id : Z)
  (* handle_pipe_event *)
  | Frame (pipe_read_id : Z) (msg : Msg)
  | FrameProcess (pipe_read_id : Z) (raw_zmtp_message : list Msg)
  | FrameQueue (item : bytes * list Msg)
  (* pipe_attached, update_peer_identity, pipe_detached, process_command *)
  | Attach (pipe_read_id : Z) (peer_identity_opt : option bytes)
  | AttachAdd (pipe_read_id : Z) (identity : bytes) (uri : string)
  | AttachMap (pipe_read_id : Z) (identity : bytes)
  | AttachPipe (pipe_read_id : Z)
  | UpdateIdentity (pipe_read_id : Z) (new_identity_opt : option bytes)
  | UpdateRoute (pipe_read_id : Z) (identity : bytes) (uri : string) (peer_type : option string)
  | UpdateMap (pipe_read_id : Z) (identity : bytes)
  | Detach (pipe_read_id : Z)
  | DetachBegin (pipe_read_id : Z) (target : option string)
  | DetachRoute (pipe_read_id : Z) (target : option string) (removed : option bytes)
  | DetachMap (pipe_read_id : Z) (target : option string)
  | DetachPipe (pipe_read_id : Z) (target : option string)
  | DetachTarget (pipe_read_id : Z) (target : option string)
  | DetachClear (pipe_read_id : Z)
  | Stop.

Inductive outcome :=
  | Sending (r : result unit)
  | Receiving (r : result Msg)
  | ReceivingAll (r : result (list Msg))
  | GotOption (r : result bytes)
  | Handled (r : result unit).

Section Router.
Context `{Fibre, Semaphore, ISocketConnection W}.
(** How the routing table is iterated. *)
Variable iter : gmap Z bytes -> list (Z * bytes).
Implicit Types s : RouterSocket W.

Definition new (c : Core) (w : W) : RouterSocket W :=
  mkRouter c RouterMap.new (Orchestrator.new (rcvhwm c)) ∅ None false WritePipeCoordinator.new
    (FramingLatch.new router_auto_encode router_auto_decode) w.

(** An error, or a silent drop. *)
Definition refuse (mandatory : bool) (e : ZmqError) : result unit := if mandatory then Err e else Ok tt.

(** The result of a write. *)
Definition written (mandatory : bool) (text : string) (r : result unit) : result unit :=
  match r with
  | Ok tt => Ok tt
  | Err e =>
      refuse mandatory (match e with ConnectionClosed => HostUnreachable text | _ => e end)
  | Panic => Panic
  end.

(** [*guard = None]: the permit of the target is dropped with it. *)
Definition clear_target s : RouterSocket W :=
  match current_send_target s with
  | Some (_, permit) =>
      s <| current_send_target := None |>
        <| pipe_send_coordinator := WritePipeCoordinator.drop_permit permit (pipe_send_coordinator s) |>
  | None => s
  end.

Definition drop_permit (permit : nat) s : RouterSocket W :=
  s <| pipe_send_coordinator := WritePipeCoordinator.drop_permit permit (pipe_send_coordinator s) |>.

(** The connection of an endpoint and the pipe it reads from. *)
Definition connection_of (uri : string) s : option (Z * Z) :=
  ep ← endpoints (core s) !! uri;
  ids ← pipe_ids ep;
  Some (connection_iface ep, ids.2).

Definition send_step (elapsed : bool) (c : call) s : RouterSocket W * (call + outcome) :=
  match c with
  | Send msg =>
      if negb (is_running (core s)) then (s, inr (Sending (Err (InvalidState "Socket is closing"))))
      else (s, inl (SendTarget (sndtimeo (core s)) (router_mandatory (core s)) msg))
  | SendTarget timeout_opt mandatory msg =>
      if target_lock s then (s, inl c)
      else match current_send_target s with
           | Some (uri, _) => (s, inl (PartIface mandatory msg uri))
           | None =>
               if negb (Msg.is_more msg) then
                 (s, inr (Sending (Err (InvalidMessage
                   "ROUTER send: First frame (identity) must have MORE flag set by application"))))
               else if Blob.is_empty (Msg.payload msg) then
                 (s, inr (Sending (Err (InvalidMessage "ROUTER send: Identity frame cannot be empty"))))
               else (s, inl (IdLookup timeout_opt mandatory msg))
           end
  | PartIface mandatory msg uri =>
      match endpoints (core s) !! uri with
      | Some ep => (s, inl (PartWrite mandatory msg (connection_iface ep)))
      | None => (s, inl (PartLost mandatory))
      end
  | PartLost mandatory =>
      if target_lock s then (s, inl c)
      else (clear_target s, inr (Sending (refuse mandatory (HostUnreachable "Peer for fragmented send disappeared"))))
  | PartWrite mandatory msg conn =>
      let '(w, r) := send_message conn msg (world s) in
      (s <| world := w |>, inl (PartDone mandatory (negb (Msg.is_more msg)) r))
  | PartDone mandatory is_last r =>
      if is_last || negb (bool_decide (r = Ok tt)) then
        if target_lock s then (s, inl c)
        else (clear_target s, inr (Sending (written mandatory "Peer disconnected during payload send" r)))
      else (s, inr (Sending (written mandatory "Peer disconnected during payload send" r)))
  | IdLookup timeout_opt mandatory msg =>
      match RouterMap.get_peer_info_for_identity (Msg.payload msg) (router_map_for_send s) with
      | Some info => (s, inl (IdEndpoint timeout_opt mandatory msg (peer_uri info)))
      | None => (s, inr (Sending (refuse mandatory (HostUnreachable "Peer not found (ROUTER_MANDATORY)"))))
      end
  | IdEndpoint timeout_opt mandatory msg uri =>
      match connection_of uri s with
      | Some (conn, pipe_read_id) =>
          (s, inl (IdPermit timeout_opt mandatory msg uri conn (WritePipeCoordinator.AcquireStart pipe_read_id)))
      | None => (s, inl (IdForget mandatory msg "Peer connection for identity disappeared"))
      end
  | IdForget mandatory msg text =>
      (s <| router_map_for_send := RouterMap.remove_peer_by_identity iter (Msg.payload msg) (router_map_for_send s) |>,
       inr (Sending (refuse mandatory (HostUnreachable text))))
  | IdPermit timeout_opt mandatory msg uri conn a =>
      match WritePipeCoordinator.acquire_send_permit elapsed timeout_opt a (pipe_send_coordinator s) with
      | (k, inl a) => (s <| pipe_send_coordinator := k |>, inl (IdPermit timeout_opt mandatory msg uri conn a))
      | (k, inr (Ok permit)) => (s <| pipe_send_coordinator := k |>, inl (IdLock mandatory msg uri conn permit))
      | (k, inr (Err e)) => (s <| pipe_send_coordinator := k |>, inr (Sending (Err e)))
      | (k, inr Panic) => (s <| pipe_send_coordinator := k |>, inr (Sending Panic))
      end
  | IdLock mandatory msg uri conn permit =>
      if target_lock s then (s, inl c)
      else (s <| target_lock := true |>, inl (IdWrite mandatory msg uri conn permit))
  | IdWrite mandatory msg uri conn permit =>
      match send_message conn msg (world s) with
      | (w, Ok tt) =>
          (s <| world := w |>,
           inl (if FramingLatch.is_manual (framing s) then IdSet uri permit else DelimiterWrite mandatory uri conn permit))
      | (w, r) => (s <| world := w |>, inl (IdFailed mandatory permit "Peer disconnected during identity send" r))
      end
  | DelimiterWrite mandatory uri conn permit =>
      match send_message conn (delimiter true) (world s) with
      | (w, Ok tt) => (s <| world := w |>, inl (IdSet uri permit))
      | (w, r) => (s <| world := w |>, inl (IdFailed mandatory permit "Peer disconnected during delimiter send" r))
      end
  | IdSet uri permit =>
      ((clear_target s) <| current_send_target := Some (uri, permit) |> <| target_lock := false |>, inr (Sending (Ok tt)))
  | IdFailed mandatory permit text r =>
      ((drop_permit permit s) <| target_lock := false |>, inr (Sending (written mandatory text r)))
  | _ => (s, inl c)
  end.

Definition send_multipart_step (elapsed : bool) (c : call) s : RouterSocket W * (call + outcome) :=
  match c with
  | SendMulti frames =>
      if negb (is_running (core s)) then (s, inr (Sending (Err (InvalidState "Socket is closing"))))
      else match frames with
           | [] =>
               (s, inr (Sending (Err (InvalidMessage "ROUTER send_multipart requires at least an identity frame."))))
           | id_msg :: payload =>
               if Blob.is_empty (Msg.payload id_msg) then
                 (s, inr (Sending (Err (InvalidMessage "ROUTER send_multipart: Identity frame cannot be empty"))))
               else (s, inl (MultiLookup (sndtimeo (core s)) (router_mandatory (core s)) id_msg payload))
           end
  | MultiLookup timeout_opt mandatory identity payload =>
      match RouterMap.get_peer_info_for_identity (Msg.payload identity) (router_map_for_send s) with
      | Some info => (s, inl (MultiEndpoint timeout_opt mandatory identity payload info))
      | None => (s, inr (Sending (refuse mandatory (HostUnreachable "Peer with identity not found (ROUTER_MANDATORY)"))))
      end
  | MultiEndpoint timeout_opt mandatory identity payload info =>
      match connection_of (peer_uri info) s with
      | Some (conn, pipe_read_id) =>
          (s, inl (MultiPermit timeout_opt mandatory identity payload (peer_strategy info) conn
                     (WritePipeCoordinator.AcquireStart pipe_read_id)))
      | None => (s, inl (IdForget mandatory identity "Peer connection for identity disappeared before send"))
      end
  | MultiPermit timeout_opt mandatory identity payload strategy conn a =>
      match WritePipeCoordinator.acquire_send_permit elapsed timeout_opt a (pipe_send_coordinator s) with
      | (k, inl a) =>
          (s <| pipe_send_coordinator := k |>, inl (MultiPermit timeout_opt mandatory identity payload strategy conn a))
      | (k, inr (Ok permit)) =>
          (s <| pipe_send_coordinator := k |>, inl (MultiWrite mandatory identity payload strategy conn permit))
      | (k, inr (Err e)) =>
          (s <| pipe_send_coordinator := k |>,
           inr (Sending (Err (if mandatory then e else Internal "Send dropped due to permit error (non-mandatory)"))))
      | (k, inr Panic) => (s <| pipe_send_coordinator := k |>, inr (Sending Panic))
      end
  | MultiWrite mandatory identity payload strategy conn permit =>
      let frames := clear_last (prepare_wire_frames strategy identity payload (framing s)) in
      let '(w, r) := send_multipart conn frames (world s) in
      (s <| world := w |>, inl (MultiDone mandatory permit r))
  | MultiDone mandatory permit r =>
      (drop_permit permit s, inr (Sending (written mandatory "Peer disconnected during multipart send" r)))
  | _ => (s, inl c)
  end.

Definition recv_step (elapsed : bool) (c : call) s : RouterSocket W * (call + outcome) :=
  match c with
  | Recv =>
      if negb (is_running (core s)) then (s, inr (Receiving (Err (InvalidState "Socket is closing"))))
      else (s, inl (RecvBuffered (rcvtimeo (core s))))
  | RecvBuffered timeo =>
      match Orchestrator.recv_buffered (incoming_orchestrator s) with
      | (o, Some frame) => (s <| incoming_orchestrator := o |>, inr (Receiving (Ok frame)))
      | (o, None) => (s <| incoming_orchestrator := o |>, inl (RecvItem timeo))
      end
  | RecvItem timeo =>
      match Orchestrator.recv_item_from_main_queue elapsed timeo (incoming_orchestrator s) with
      | (o, Some (Ok item)) => (s <| incoming_orchestrator := o |>, inl (RecvStore item))
      | (o, Some (Err e)) => (s <| incoming_orchestrator := o |>, inr (Receiving (Err e)))
      | (o, Some Panic) => (s <| incoming_orchestrator := o |>, inr (Receiving Panic))
      | (o, None) => (s <| incoming_orchestrator := o |>, inl c)
      end
  | RecvStore item =>
      let '(o, frame) := Orchestrator.recv_store (transform_qitem_to_app_frames item) (incoming_orchestrator s) in
      (s <| incoming_orchestrator := o |>, inr (Receiving (Ok frame)))
  | RecvMulti =>
      if negb (is_running (core s)) then (s, inr (ReceivingAll (Err (InvalidState "Socket is closing"))))
      else (s, inl (RecvMultiReset (rcvtimeo (core s))))
  | RecvMultiReset timeo =>
      (s <| incoming_orchestrator := Orchestrator.reset_recv_message_buffer (incoming_orchestrator s) |>,
       inl (RecvMultiItem timeo))
  | RecvMultiItem timeo =>
      match Orchestrator.recv_item_from_main_queue elapsed timeo (incoming_orchestrator s) with
      | (o, Some r) =>
          (s <| incoming_orchestrator := o |>, inr (ReceivingAll (fmap (M:=result) transform_qitem_to_app_frames r)))
      | (o, None) => (s <| incoming_orchestrator := o |>, inl c)
      end
  | _ => (s, inl c)
  end.

Definition option_step (c : call) s : RouterSocket W * (call + outcome) :=
  match c with
  | SetOption option_id value =>
      if option_id =? ROUTER_MANDATORY then
        match parse_bool_option value with
        | Ok v => (s <| core := (core s) <| router_mandatory := v |> |>, inr (Sending (Ok tt)))
        | Err e => (s, inr (Sending (Err e)))
        | Panic => (s, inr (Sending Panic))
        end
      else if option_id =? AUTO_DELIMITER then
        match parse_bool_option value with
        | Ok v => ((if v then s else s <| framing := (FramingLatch.set_manual (framing s)).1 |>), inr (Sending (Ok tt)))
        | Err e => (s, inr (Sending (Err e)))
        | Panic => (s, inr (Sending Panic))
        end
      else (s, inr (Sending (Err (UnsupportedOption option_id))))
  | GetOption option_id =>
      (s, inr (GotOption
        (if option_id =? ROUTER_MANDATORY then Ok (i32_bytes (if router_mandatory (core s) then 1 else 0))
         else if option_id =? AUTO_DELIMITER then Ok (i32_bytes (if FramingLatch.is_manual (framing s) then 0 else 1))
         else Err (UnsupportedOption option_id))))
  | _ => (s, inl c)
  end.

(** The identity and the payload of a message. *)
Definition process_incoming_zmtp_message (pipe_read_id : Z) (raw_zmtp_message : list Msg) s : bytes * list Msg :=
  let identity_blob :=
    default (pipe_id_to_placeholder_identity pipe_read_id) (pipe_to_identity_shared_map s !! pipe_read_id) in
  let peer_type :=
    uri ← pipe_read_id_to_endpoint_uri (core s) !! pipe_read_id;
    ep ← endpoints (core s) !! uri;
    peer_socket_type ep in
  (identity_blob, incoming_payload (FramingLatch.is_manual (framing s)) peer_type raw_zmtp_message).

Definition handle_pipe_event_step (elapsed : bool) (c : call) s : RouterSocket W * (call + outcome) :=
  match c with
  | Frame pipe msg =>
      match Orchestrator.accumulate_pipe_frame pipe msg (incoming_orchestrator s) with
      | (o, Some raw) => (s <| incoming_orchestrator := o |>, inl (FrameProcess pipe raw))
      | (o, None) => (s <| incoming_orchestrator := o |>, inr (Handled (Ok tt)))
      end
  | FrameProcess pipe raw => (s, inl (FrameQueue (process_incoming_zmtp_message pipe raw s)))
  | FrameQueue item =>
      match Orchestrator.queue_item elapsed item (incoming_orchestrator s) with
      | (o, Some r) => (s <| incoming_orchestrator := o |>, inr (Handled r))
      | (o, None) => (s <| incoming_orchestrator := o |>, inl c)
      end
  | _ => (s, inl c)
  end.

Definition identity_or_placeholder (pipe_read_id : Z) (identity : option bytes) : bytes :=
  match identity with
  | Some id => if Blob.is_empty id then pipe_id_to_placeholder_identity pipe_read_id else id
  | None => pipe_id_to_placeholder_identity pipe_read_id
  end.

Definition pipe_step (c : call) s : RouterSocket W * (call + outcome) :=
  match c with
  | Attach pipe identity =>
      match uri ← pipe_read_id_to_endpoint_uri (core s) !! pipe; ep ← endpoints (core s) !! uri; Some uri with
      | Some uri => (s, inl (AttachAdd pipe (identity_or_placeholder pipe identity) uri))
      | None => (s, inr (Handled (Ok tt)))
      end
  | AttachAdd pipe identity uri =>
      (s <| router_map_for_send := RouterMap.add_peer identity pipe uri (router_map_for_send s) |>,
       inl (AttachMap pipe identity))
  | AttachMap pipe identity =>
      (s <| pipe_to_identity_shared_map := <[pipe := identity]> (pipe_to_identity_shared_map s) |>, inl (AttachPipe pipe))
  | AttachPipe pipe =>
      (s <| pipe_send_coordinator := WritePipeCoordinator.add_pipe pipe (pipe_send_coordinator s) |>,
       inr (Handled (Ok tt)))
  | UpdateIdentity pipe identity =>
      match pipe_read_id_to_endpoint_uri (core s) !! pipe with
      | Some uri =>
          (s, inl (UpdateRoute pipe (identity_or_placeholder pipe identity) uri
                     (ep ← endpoints (core s) !! uri; peer_socket_type ep)))
      | None => (s, inr (Handled (Ok tt)))
      end
  | UpdateRoute pipe identity uri peer_type =>
      (s <| router_map_for_send := RouterMap.update_peer_identity pipe identity uri peer_type (router_map_for_send s) |>,
       inl (UpdateMap pipe identity))
  | UpdateMap pipe identity =>
      (s <| pipe_to_identity_shared_map := <[pipe := identity]> (pipe_to_identity_shared_map s) |>, inr (Handled (Ok tt)))
  | Detach pipe =>
      let uri := pipe_read_id_to_endpoint_uri (core s) !! pipe in
      (s, inl (DetachBegin pipe (uri ← uri; ep ← endpoints (core s) !! uri; Some uri)))
  | DetachBegin pipe target =>
      let '(m, removed) := RouterMap.remove_begin pipe (router_map_for_send s) in
      (s <| router_map_for_send := m |>, inl (DetachRoute pipe target removed))
  | DetachRoute pipe target removed =>
      (s <| router_map_for_send := RouterMap.remove_end removed (router_map_for_send s) |>, inl (DetachMap pipe target))
  | DetachMap pipe target =>
      (s <| pipe_to_identity_shared_map := delete pipe (pipe_to_identity_shared_map s) |>, inl (DetachPipe pipe target))
  | DetachPipe pipe target =>
      (s <| pipe_send_coordinator := WritePipeCoordinator.remove_pipe pipe (pipe_send_coordinator s) |>,
       inl (if bool_decide (is_Some target) then DetachTarget pipe target else DetachClear pipe))
  | DetachTarget pipe target =>
      if target_lock s then (s, inl c)
      else ((match current_send_target s with
             | Some (uri, _) => if bool_decide (target = Some uri) then clear_target s else s
             | None => s
             end), inl (DetachClear pipe))
  | DetachClear pipe =>
      (s <| incoming_orchestrator := Orchestrator.clear_pipe_state pipe (incoming_orchestrator s) |>,
       inr (Handled (Ok tt)))
  | Stop => (s <| incoming_orchestrator := Orchestrator.close (incoming_orchestrator s) |>, inr (Handled (Ok tt)))
  | _ => (s, inl c)
  end.

Definition step (elapsed : bool) (c : call) s : RouterSocket W * (call + outcome) :=
  match c with
  | Send _ | SendTarget _ _ _ | PartIface _ _ _ | PartWrite _ _ _ | PartDone _ _ _ | PartLost _ | IdLookup _ _ _
  | IdEndpoint _ _ _ _ | IdForget _ _ _ | IdPermit _ _ _ _ _ _ | IdLock _ _ _ _ _ | IdWrite _ _ _ _ _
  | DelimiterWrite _ _ _ _ | IdSet _ _ | IdFailed _ _ _ _ => send_step elapsed c s
  | SendMulti _ | MultiLookup _ _ _ _ | MultiEndpoint _ _ _ _ _ | MultiPermit _ _ _ _ _ _ _ | MultiWrite _ _ _ _ _ _
  | MultiDone _ _ _ => send_multipart_step elapsed c s
  | Recv | RecvBuffered _ | RecvItem _ | RecvStore _ | RecvMulti | RecvMultiReset _ | RecvMultiItem _ =>
      recv_step elapsed c s
  | SetOption _ _ | GetOption _ => option_step c s
  | Frame _ _ | FrameProcess _ _ | FrameQueue _ => handle_pipe_event_step elapsed c s
  | _ => pipe_step c s
  end.

(** ** The socket among its tasks *)

#[local] Instance router_program : Program (RouterSocket W) call outcome := {|
  task_step := step;
  user_call c :=
    match c with Send _ | SendMulti _ | Recv | RecvMulti | SetOption _ _ | GetOption _ => true | _ => false end;
  handler_call c :=
    match c with Frame _ _ | Attach _ _ | UpdateIdentity _ _ | Detach _ | Stop => true | _ => false end;
  awaiting c :=
    match c with
    | SendTarget _ _ _ | PartWrite _ _ _ | PartDone _ _ _ | PartLost _ | IdPermit _ _ _ _ _ _ | IdLock _ _ _ _ _
    | IdWrite _ _ _ _ _ | DelimiterWrite _ _ _ _ | MultiPermit _ _ _ _ _ _ _ | MultiWrite _ _ _ _ _ _
    | RecvItem _ | RecvMultiItem _ => true
    | _ => false
    end;
  cancel c s :=
    match c with
    | IdLock _ _ _ _ permit | MultiWrite _ _ _ _ _ permit => drop_permit permit s
    | IdWrite _ _ _ _ permit | DelimiterWrite _ _ _ permit => (drop_permit permit s) <| target_lock := false |>
    | _ => s
    end;
  environment s s' := exists c w, s' = s <| core := c |> <| world := w |>;
|}.

(** ** Sending *)

Context `{!SemaphoreLaws}.

(** The pipe is there and nobody is sending to it. *)
Definition idle_pipe (pipe : Z) s : Prop :=
  exists arc st, pipe_states (pipe_send_coordinator s) !! pipe = Some arc /\
    arcs (pipe_send_coordinator s) !! arc = Some st /\ ps_is_closing st = false /\
    sem_closed (ps_semaphore st) = false /\ 0 < permits (ps_semaphore st).

(** The permit of an idle pipe is granted in three steps. *)
Lemma acquire_idle elapsed t pipe s :
  idle_pipe pipe s ->
  exists arc k,
    WritePipeCoordinator.acquire_send_permit elapsed t (WritePipeCoordinator.AcquireStart pipe) (pipe_send_coordinator s) =
      (pipe_send_coordinator s, inl (WritePipeCoordinator.AcquireCheck arc)) /\
    WritePipeCoordinator.acquire_send_permit elapsed t (WritePipeCoordinator.AcquireCheck arc) (pipe_send_coordinator s) =
      (pipe_send_coordinator s, inl (WritePipeCoordinator.AcquireWait arc)) /\
    WritePipeCoordinator.acquire_send_permit elapsed t (WritePipeCoordinator.AcquireWait arc) (pipe_send_coordinator s) =
      (k, inr (Ok arc)).
Proof.
  intros (arc & st & Hp & Ha & Hc & Hs & Hf). exists arc.
  destruct (try_acquire_some (ps_semaphore st) Hs Hf) as (Hr & _).
  cbn [WritePipeCoordinator.acquire_send_permit]. rewrite Hp, Ha, Hc.
  destruct (try_acquire (ps_semaphore st)) as [x r]. cbn in Hr. subst r.
  eexists. split_and!; [done..|]. by destruct t as [[|z|z]|].
Qed.


End Router.

(** ** Runs *)

Section Runs.
#[local] Existing Instance list_fibre.
#[local] Existing Instance count_semaphore.
#[local] Instance take_all : ISocketConnection (list (Z * list Msg)) := record_conn [].
#[local] Instance example_program : Program (RouterSocket (list (Z * list Msg))) call outcome :=
  router_program map_to_list.

Definition frame (data : string) (more : bool) : Msg := mkMsg (Some (bs data)) (mk_flags more false).

(** A router with one peer of the given type, whose identity is "I". *)
Definition router_example (peer_type : string) : RouterSocket (list (Z * list Msg)) :=
  (run_calls [Attach 1 None; UpdateIdentity 1 (Some (bs "I"))]
     (new (mkCore Running None (Some 0) 1 1 true
             (<["tcp://a" := mkEndpoint 10 (Some (0, 1)) 1 (Some peer_type)]> ∅) (<[1 := "tcp://a"]> ∅)) [])).1.


(** Frame by frame the identity and a delimiter go on the wire whatever the type
    of the peer: a REQ peer, which expects the delimiter first, gets something
    else than from [send_multipart]. *)
Lemma router_send_ignores_strategy :
  world (run_calls [Send (frame "I" true); Send (frame "x" false)] (router_example "REQ")).1 =
    [(10, [frame "I" true]); (10, [delimiter true]); (10, [frame "x" false])] /\
  world (run_calls [SendMulti [frame "I" true; frame "x" false]] (router_example "REQ")).1 =
    [(10, [delimiter true; frame "x" false])].
Proof. split; vm_compute; reflexivity. Qed.

(** With AUTO_DELIMITER off, [send_multipart] still inserts a delimiter for a REQ
    peer, and [send] still writes the identity. *)
Lemma router_manual_delimiter :
  let manual := (run_calls [SetOption AUTO_DELIMITER (i32_bytes 0)] (router_example "REQ")).1 in
  FramingLatch.is_manual (framing manual) = true /\
  world (run_calls [SendMulti [frame "I" true; delimiter true; frame "x" false]] manual).1 =
    [(10, [delimiter true; delimiter true; frame "x" false])] /\
  world (run_calls [Send (frame "I" true); Send (frame "x" false)] manual).1 =
    [(10, [frame "I" true]); (10, [frame "x" false])].
Proof. split_and!; vm_compute; reflexivity. Qed.

End Runs.

End Router.
