(* ===== verification/Dealer.v ===== *)
(** The DEALER socket and its outgoing processor ([core/src/socket/dealer_socket.rs])
    as a concurrent program: [step] runs a call, a handler or the processor to the
    next place where it gives up its locks or awaits; reads of several tables one
    after the other are one step.

    A task that waits for room in the queue or for the end of a transaction may be
    woken at any time and looks again, which covers every way its notifiers are
    used; the notifiers the processor waits for are modelled.  [taken] is not part
    of the socket: it records the messages a connection has accepted. *)

From S2P Require Import Prelude Error Message Options Patterns Queue Endpoints Tasks Coordinator.

#[local] Set Warnings "-clear-no-such-hyp".

Module Dealer.

Abbreviation MAX_DEALER_SEND_BUFFER_PARTS := (10240)%Z.

Inductive DealerSendTransaction := Idle | Buffering (parts : list Msg).

Record DealerSocket `{Fibre, Semaphore, Notify} (W : Type) := mkDealer {
  core : Core;
  load_balancer : list string;
  incoming_orchestrator : Orchestrator (list Msg);
  pipe_read_to_endpoint_uri : gmap Z string;
  pending_outgoing_queue : list (list Msg);
  outgoing_queue_activity_notifier : notify;
  peer_availability_notifier : notify;
  processor_stop_signal : notify;
  current_send_transaction : DealerSendTransaction;
  pipe_send_coordinator : WritePipeCoordinator;
  framing : FramingLatch;
  world : W;
  taken : list (list Msg);
}.
Arguments mkDealer {_ _ _ W} _ _ _ _ _ _ _ _ _ _ _ _ _.
Arguments core {_ _ _ W} _.
Arguments load_balancer {_ _ _ W} _.
Arguments incoming_orchestrator {_ _ _ W} _.
Arguments pipe_read_to_endpoint_uri {_ _ _ W} _.
Arguments pending_outgoing_queue {_ _ _ W} _.
Arguments outgoing_queue_activity_notifier {_ _ _ W} _.
Arguments peer_availability_notifier {_ _ _ W} _.
Arguments processor_stop_signal {_ _ _ W} _.
Arguments current_send_transaction {_ _ _ W} _.
Arguments pipe_send_coordinator {_ _ _ W} _.
Arguments framing {_ _ _ W} _.
Arguments world {_ _ _ W} _.
Arguments taken {_ _ _ W} _.

#[export] Instance DealerSocket_eta `{Fibre, Semaphore, Notify} {W} : Eta (DealerSocket W) := fun r =>
  mkDealer (core r) (load_balancer r) (incoming_orchestrator r) (pipe_read_to_endpoint_uri r) (pending_outgoing_queue r)
    (outgoing_queue_activity_notifier r) (peer_availability_notifier r) (processor_stop_signal r)
    (current_send_transaction r) (pipe_send_coordinator r) (framing r) (world r) (taken r).

Definition process_incoming_zmtp_message_for_dealer (manual : bool) (frames : list Msg) : list Msg :=
  match frames with
  | [] => []
  | first :: rest =>
      if manual then frames
      else if negb (Msg.size first =? 0) then
        match rest with
        | [] => rest
        | second :: payload => if negb (Msg.size second =? 0) then rest else payload
        end
      else rest
  end.

Definition prepare_full_multipart_send_sequence (framing : FramingLatch) (frames : list Msg) : list Msg :=
  if FramingLatch.is_manual framing then mark_more frames
  else if bool_decide (frames = []) then [delimiter true; without_more Msg.new]
  else mark_more (FramingLatch.encode framing frames).

(** The message of a send, its options and where its attempts are. *)
Record attempt := mkAttempt {
  frames : list Msg;
  snd_timeout : option Z;
  hwm_ : Z;
  attempts : Z;
  max_attempts : Z;
}.

Definition next_attempt (a : attempt) : attempt :=
  mkAttempt (frames a) (snd_timeout a) (hwm_ a) (attempts a + 1) (max_attempts a).

Inductive call :=
  (* send *)
  | Send (msg : Msg)
  | SendTransaction (msg : Msg)
  (* send_multipart *)
  | SendMulti (user_frames : list Msg)
  | MultiTransaction (sndtimeo_opt : option Z) (user_frames : list Msg)
  | MultiWait (sndtimeo_opt : option Z) (user_frames : list Msg)
  (* send_logical_message *)
  | Logical (zmtp_wire_frames : list Msg)
  | Attempt (a : attempt)
  | AttemptPick (a : attempt)
  | AttemptIface (a : attempt) (uri : string)
  | AttemptPermit (a : attempt) (uri : string) (conn pipe : Z) (p : WritePipeCoordinator.acquire)
  | AttemptWrite (a : attempt) (uri : string) (conn pipe : Z) (permit : nat)
  (* queue_message_or_error *)
  | QueueCheck (a : attempt)
  | QueueLength (a : attempt)
  | QueuePush (a : attempt)
  | QueueWait (a : attempt)
  (* recv, recv_multipart *)
  | Recv
  | RecvBuffered (rcvtimeo_opt : option Z)
  | RecvItem (rcvtimeo_opt : option Z)
  | RecvStore (item : list Msg)
  | RecvMulti
  | RecvMultiReset (rcvtimeo_opt : option Z)
  | RecvMultiItem (rcvtimeo_opt : option Z)
  (* set_pattern_option, get_pattern_option *)
  | SetOption (option_id : Z) (value : bytes)
  | GetOption (option_id : Z)
  (* the outgoing processor *)
  | Processor
  | ProcPop
  | ProcStart (message : list Msg)
  | ProcTry (a : attempt)
  | ProcPick (a : attempt)
  | ProcIface (a : attempt) (uri : string)
  | ProcPermit (a : attempt) (uri : string) (conn pipe : Z) (p : WritePipeCoordinator.acquire)
  | ProcWrite (a : attempt) (uri : string) (conn pipe : Z) (permit : nat)
  | ProcClosing (a : attempt)
  | ProcRequeue (message : list Msg)
  (* handle_pipe_event *)
  | Frame (pipe_read_id : Z) (msg : Msg)
  | FrameQueue (item : list Msg)
  (* connect, pipe_attached, pipe_detached, process_command *)
  | Connected
  | Attach (pipe_read_id : Z)
  | AttachMap (pipe_read_id : Z) (uri : string)
  | AttachBalance (pipe_read_id : Z) (uri : string)
  | AttachPipe (pipe_read_id : Z)
  | AttachNotify
  | Detach (pipe_read_id : Z)
  | DetachBalance (pipe_read_id : Z) (uri : string)
  | DetachPipe (pipe_read_id : Z)
  | DetachClear (pipe_read_id : Z)
  | Stop
  | StopSignal
  | StopNotify.

Inductive outcome :=
  (** [message]: the wire frames of a message that was to be sent. *)
  | Sending (r : result unit) (message : option (list Msg))
  | Receiving (r : result Msg)
  | ReceivingAll (r : result (list Msg))
  | GotOption (r : result bytes)
  | Handled (r : result unit).

Section Dealer.
Context `{Fibre, Semaphore, Notify, ISocketConnection W}.
Implicit Types s : DealerSocket W.

Definition new (c : Core) (w : W) : DealerSocket W :=
  mkDealer c LoadBalancer.new (Orchestrator.new (rcvhwm c)) ∅ [] notify_new notify_new notify_new Idle
    WritePipeCoordinator.new (FramingLatch.new dealer_auto_encode dealer_auto_decode) w [].

Definition connection_of (uri : string) s : option (Z * Z) :=
  ep ← endpoints (core s) !! uri;
  ids ← pipe_ids ep;
  Some (connection_iface ep, ids.2).

(** A connection is given up: the processor is told that peers have changed. *)
Definition drop_peer (uri : string) s : DealerSocket W :=
  s <| load_balancer := LoadBalancer.remove_connection uri (load_balancer s) |>
    <| peer_availability_notifier := notify_waiters (peer_availability_notifier s) |>.

Definition drop_pipe (pipe : Z) s : DealerSocket W :=
  s <| pipe_send_coordinator := WritePipeCoordinator.remove_pipe pipe (pipe_send_coordinator s) |>.

Definition drop_permit (permit : nat) s : DealerSocket W :=
  s <| pipe_send_coordinator := WritePipeCoordinator.drop_permit permit (pipe_send_coordinator s) |>.

Definition send_step (c : call) s : DealerSocket W * (call + outcome) :=
  match c with
  | Send msg =>
      if negb (is_running (core s)) then (s, inr (Sending (Err (InvalidState "Socket is closing")) None))
      else (s, inl (SendTransaction msg))
  | SendTransaction msg =>
      if Msg.is_more msg then
        match current_send_transaction s with
        | Idle => (s <| current_send_transaction := Buffering [msg] |>, inr (Sending (Ok tt) None))
        | Buffering parts =>
            if MAX_DEALER_SEND_BUFFER_PARTS <=? zlen parts
            then (s <| current_send_transaction := Idle |>, inr (Sending (Err ResourceLimitReached) None))
            else (s <| current_send_transaction := Buffering (parts ++ [msg]) |>, inr (Sending (Ok tt) None))
        end
      else
        (s <| current_send_transaction := Idle |>,
         inl (Logical (prepare_full_multipart_send_sequence (framing s)
           (match current_send_transaction s with Idle => [msg] | Buffering parts => parts ++ [msg] end))))
  | SendMulti user_frames =>
      if negb (is_running (core s)) then (s, inr (Sending (Err (InvalidState "Socket is closing")) None))
      else (s, inl (MultiTransaction (sndtimeo (core s)) user_frames))
  | MultiTransaction timeo user_frames =>
      match current_send_transaction s with
      | Idle => (s, inl (Logical (prepare_full_multipart_send_sequence (framing s) user_frames)))
      | Buffering _ =>
          match timeo with
          | Some 0 => (s, inr (Sending (Err ResourceLimitReached) None))
          | _ => (s, inl (MultiWait timeo user_frames))
          end
      end
  | _ => (s, inl c)
  end.

Definition multi_wait_step (elapsed : bool) (timeo : option Z) (user_frames : list Msg) s :
    DealerSocket W * (call + outcome) :=
  if negb (is_running (core s)) then
    (s, inr (Sending (Err (InvalidState "Socket is closing while waiting for prior send tx")) None))
  else if bool_decide (is_Some timeo) && elapsed then (s, inr (Sending (Err Timeout) None))
  else (s, inl (MultiTransaction timeo user_frames)).

Definition logical_step (elapsed : bool) (c : call) s : DealerSocket W * (call + outcome) :=
  match c with
  | Logical frames =>
      if negb (is_running (core s)) then
        (s, inr (Sending (Err (InvalidState "Socket is closing or terminated")) (Some frames)))
      else
        (s, inl (Attempt (mkAttempt frames (sndtimeo (core s)) (Z.max (sndhwm (core s)) 1) 0
                            (Z.max (LoadBalancer.connection_count (load_balancer s)) 1))))
  | Attempt a =>
      if max_attempts a <=? attempts a then (s, inl (QueueCheck a))
      else if negb (is_running (core s)) then
        (s, inr (Sending (Err (InvalidState "Socket closing mid-send_logical_message")) (Some (frames a))))
      else (s, inl (AttemptPick (next_attempt a)))
  | AttemptPick a =>
      match LoadBalancer.get_next_connection_uri (load_balancer s) with
      | (uris, Some uri) =>
          if bool_decide (is_Some (endpoints (core s) !! uri))
          then (s <| load_balancer := uris |>, inl (AttemptIface a uri))
          else (drop_peer uri (s <| load_balancer := uris |>), inl (Attempt a))
      | (_, None) => (s, inl (QueueCheck a))
      end
  | AttemptIface a uri =>
      match connection_of uri s with
      | Some (conn, pipe) => (s, inl (AttemptPermit a uri conn pipe (WritePipeCoordinator.AcquireStart pipe)))
      | None => (drop_peer uri s, inl (Attempt a))
      end
  | AttemptPermit a uri conn pipe p =>
      match WritePipeCoordinator.acquire_send_permit elapsed (snd_timeout a) p (pipe_send_coordinator s) with
      | (k, inl p) => (s <| pipe_send_coordinator := k |>, inl (AttemptPermit a uri conn pipe p))
      | (k, inr (Ok permit)) => (s <| pipe_send_coordinator := k |>, inl (AttemptWrite a uri conn pipe permit))
      | (k, inr (Err ResourceLimitReached)) | (k, inr (Err Timeout)) =>
          (s <| pipe_send_coordinator := k |>, inl (QueueCheck a))
      | (k, inr (Err (HostUnreachable _))) => (drop_peer uri (s <| pipe_send_coordinator := k |>), inl (Attempt a))
      | (k, inr (Err e)) => (s <| pipe_send_coordinator := k |>, inr (Sending (Err e) (Some (frames a))))
      | (k, inr Panic) => (s <| pipe_send_coordinator := k |>, inr (Sending Panic (Some (frames a))))
      end
  | AttemptWrite a uri conn pipe permit =>
      match send_multipart conn (frames a) (world s) with
      | (w, Ok tt) =>
          (drop_permit permit (s <| world := w |> <| taken := taken s ++ [frames a] |>),
           inr (Sending (Ok tt) (Some (frames a))))
      | (w, Err ResourceLimitReached) | (w, Err Timeout) =>
          (drop_permit permit (s <| world := w |>), inl (Attempt a))
      | (w, Err ConnectionClosed) | (w, Err (HostUnreachable _)) =>
          (drop_permit permit (drop_pipe pipe (drop_peer uri (s <| world := w |>))), inl (Attempt a))
      | (w, r) => (drop_permit permit (s <| world := w |>), inr (Sending r (Some (frames a))))
      end
  | QueueCheck a =>
      if negb (is_running (core s)) then
        (s, inr (Sending (Err (InvalidState "Socket is closing while trying to queue")) (Some (frames a))))
      else (s, inl (QueueLength a))
  | QueueLength a =>
      if zlen (pending_outgoing_queue s) <? hwm_ a then (s, inl (QueuePush a))
      else match snd_timeout a with
           | Some 0 => (s, inr (Sending (Err ResourceLimitReached) (Some (frames a))))
           | _ => (s, inl (QueueWait a))
           end
  | QueuePush a =>
      (s <| pending_outgoing_queue := pending_outgoing_queue s ++ [frames a] |>
         <| outgoing_queue_activity_notifier := notify_one (outgoing_queue_activity_notifier s) |>,
       inr (Sending (Ok tt) (Some (frames a))))
  | QueueWait a =>
      if bool_decide (is_Some (snd_timeout a)) && elapsed then (s, inr (Sending (Err Timeout) (Some (frames a))))
      else (s, inl (QueueCheck a))
  | _ => (s, inl c)
  end.

(** [push_front] and the notification that follows. *)
Definition push_front (message : list Msg) s : DealerSocket W :=
  s <| pending_outgoing_queue := message :: pending_outgoing_queue s |>
    <| outgoing_queue_activity_notifier := notify_one (outgoing_queue_activity_notifier s) |>.

Definition processor_step (elapsed : bool) (c : call) s : DealerSocket W * (call + outcome) :=
  match c with
  | Processor =>
      match poll_notified (processor_stop_signal s) with
      | (stop, true) => (s <| processor_stop_signal := stop |>, inr (Handled (Ok tt)))
      | (stop, false) =>
          (* [select!] polls the two in either order *)
          let '(queue, woken1) := poll_notified (outgoing_queue_activity_notifier s) in
          let '(peers, woken2) := poll_notified (peer_availability_notifier s) in
          if woken1 && negb (woken2 && elapsed) then
            (s <| processor_stop_signal := drop_notified stop |> <| outgoing_queue_activity_notifier := queue |>, inl ProcPop)
          else if woken2 then
            (s <| processor_stop_signal := drop_notified stop |> <| peer_availability_notifier := peers |>, inl ProcPop)
          else
            (s <| processor_stop_signal := stop |> <| outgoing_queue_activity_notifier := queue |>
               <| peer_availability_notifier := peers |>, inl Processor)
      end
  | ProcPop =>
      match pending_outgoing_queue s with
      | message :: rest =>
          if LoadBalancer.has_connections (load_balancer s)
          then (s <| pending_outgoing_queue := rest |>, inl (ProcStart message))
          else (s, inl Processor)
      | [] => (s, inl Processor)
      end
  | ProcStart message =>
      (s, inl (ProcTry (mkAttempt message (sndtimeo (core s)) 0 0
                          (Z.max (LoadBalancer.connection_count (load_balancer s)) 1))))
  | ProcTry a =>
      if max_attempts a <=? attempts a then (s, inl (ProcRequeue (frames a)))
      else if negb (is_running (core s)) then (s, inl (ProcClosing a))
      else (s, inl (ProcPick (next_attempt a)))
  | ProcClosing a => (push_front (frames a) s, inl (ProcRequeue (frames a)))
  | ProcPick a =>
      match LoadBalancer.get_next_connection_uri (load_balancer s) with
      | (uris, Some uri) => (s <| load_balancer := uris |>, inl (ProcIface a uri))
      | (_, None) => (s, inl (ProcRequeue (frames a)))
      end
  | ProcIface a uri =>
      match connection_of uri s with
      | Some (conn, pipe) => (s, inl (ProcPermit a uri conn pipe (WritePipeCoordinator.AcquireStart pipe)))
      | None => (drop_peer uri s, inl (ProcTry a))
      end
  | ProcPermit a uri conn pipe p =>
      match WritePipeCoordinator.acquire_send_permit elapsed (snd_timeout a) p (pipe_send_coordinator s) with
      | (k, inl p) => (s <| pipe_send_coordinator := k |>, inl (ProcPermit a uri conn pipe p))
      | (k, inr (Ok permit)) => (s <| pipe_send_coordinator := k |>, inl (ProcWrite a uri conn pipe permit))
      | (k, inr (Err (HostUnreachable _))) => (drop_peer uri (s <| pipe_send_coordinator := k |>), inl (ProcTry a))
      | (k, inr _) => (s <| pipe_send_coordinator := k |>, inl (ProcTry a))
      end
  | ProcWrite a uri conn pipe permit =>
      match send_multipart conn (frames a) (world s) with
      | (w, Ok tt) => (drop_permit permit (s <| world := w |> <| taken := taken s ++ [frames a] |>), inl Processor)
      | (w, Err ResourceLimitReached) | (w, Err Timeout) =>
          (drop_permit permit (s <| world := w |>), inl (ProcTry a))
      | (w, Err ConnectionClosed) | (w, Err (HostUnreachable _)) =>
          (drop_permit permit (drop_pipe pipe (drop_peer uri (s <| world := w |>))), inl (ProcTry a))
      | (w, _) => (drop_permit permit (s <| world := w |>), inl (ProcRequeue (frames a)))
      end
  | ProcRequeue message => (push_front message s, inl Processor)
  | _ => (s, inl c)
  end.

Definition recv_step (elapsed : bool) (c : call) s : DealerSocket W * (call + outcome) :=
  match c with
  | Recv =>
      if negb (is_running (core s)) then (s, inr (Receiving (Err (InvalidState "Socket is closing"))))
      else (s, inl (RecvBuffered (rcvtimeo (core s))))
  | RecvBuffered timeo =>
      match Orchestrator.recv_buffered (incoming_orchestrator s) with
      | (o, Some frame) => (s <| incoming_orchestrator := o |>, inr (Receiving (Ok frame)))
      | (o, None) => (s <| incoming_orchestrator := o |>, inl (RecvItem timeo))
      end
  | RecvItem timeo =>
      match Orchestrator.recv_item_from_main_queue elapsed timeo (incoming_orchestrator s) with
      | (o, Some (Ok item)) => (s <| incoming_orchestrator := o |>, inl (RecvStore item))
      | (o, Some (Err e)) => (s <| incoming_orchestrator := o |>, inr (Receiving (Err e)))
      | (o, Some Panic) => (s <| incoming_orchestrator := o |>, inr (Receiving Panic))
      | (o, None) => (s <| incoming_orchestrator := o |>, inl c)
      end
  | RecvStore item =>
      let '(o, frame) := Orchestrator.recv_store item (incoming_orchestrator s) in
      (s <| incoming_orchestrator := o |>, inr (Receiving (Ok frame)))
  | RecvMulti =>
      if negb (is_running (core s)) then (s, inr (ReceivingAll (Err (InvalidState "Socket is closing"))))
      else (s, inl (RecvMultiReset (rcvtimeo (core s))))
  | RecvMultiReset timeo =>
      (s <| incoming_orchestrator := Orchestrator.reset_recv_message_buffer (incoming_orchestrator s) |>,
       inl (RecvMultiItem timeo))
  | RecvMultiItem timeo =>
      match Orchestrator.recv_item_from_main_queue elapsed timeo (incoming_orchestrator s) with
      | (o, Some r) => (s <| incoming_orchestrator := o |>, inr (ReceivingAll r))
      | (o, None) => (s <| incoming_orchestrator := o |>, inl c)
      end
  | _ => (s, inl c)
  end.

Definition option_step (c : call) s : DealerSocket W * (call + outcome) :=
  match c with
  | SetOption option_id value =>
      if option_id =? AUTO_DELIMITER then
        match parse_bool_option value with
        | Ok v =>
            ((if v then s else s <| framing := (FramingLatch.set_manual (framing s)).1 |>), inr (Sending (Ok tt) None))
        | Err e => (s, inr (Sending (Err e) None))
        | Panic => (s, inr (Sending Panic None))
        end
      else (s, inr (Sending (Err (UnsupportedOption option_id)) None))
  | GetOption option_id =>
      (s, inr (GotOption
        (if option_id =? AUTO_DELIMITER then Ok (i32_bytes (if FramingLatch.is_manual (framing s) then 0 else 1))
         else Err (UnsupportedOption option_id))))
  | _ => (s, inl c)
  end.

Definition handle_pipe_event_step (elapsed : bool) (c : call) s : DealerSocket W * (call + outcome) :=
  match c with
  | Frame pipe msg =>
      match Orchestrator.accumulate_pipe_frame pipe msg (incoming_orchestrator s) with
      | (o, Some raw) =>
          (s <| incoming_orchestrator := o |>,
           inl (FrameQueue (process_incoming_zmtp_message_for_dealer (FramingLatch.is_manual (framing s)) raw)))
      | (o, None) => (s <| incoming_orchestrator := o |>, inr (Handled (Ok tt)))
      end
  | FrameQueue item =>
      match Orchestrator.queue_item elapsed item (incoming_orchestrator s) with
      | (o, Some r) => (s <| incoming_orchestrator := o |>, inr (Handled r))
      | (o, None) => (s <| incoming_orchestrator := o |>, inl c)
      end
  | _ => (s, inl c)
  end.

Definition pipe_step (c : call) s : DealerSocket W * (call + outcome) :=
  match c with
  | Connected =>
      (s <| peer_availability_notifier := notify_one (peer_availability_notifier s) |>, inr (Handled (Ok tt)))
  | Attach pipe =>
      match pipe_read_id_to_endpoint_uri (core s) !! pipe with
      | Some uri => (s, inl (AttachMap pipe uri))
      | None => (s, inr (Handled (Ok tt)))
      end
  | AttachMap pipe uri =>
      (s <| pipe_read_to_endpoint_uri := <[pipe := uri]> (pipe_read_to_endpoint_uri s) |>, inl (AttachBalance pipe uri))
  | AttachBalance pipe uri =>
      (s <| load_balancer := LoadBalancer.add_connection uri (load_balancer s) |>, inl (AttachPipe pipe))
  | AttachPipe pipe =>
      (s <| pipe_send_coordinator := WritePipeCoordinator.add_pipe pipe (pipe_send_coordinator s) |>, inl AttachNotify)
  | AttachNotify =>
      (s <| peer_availability_notifier := notify_one (peer_availability_notifier s) |>
         <| outgoing_queue_activity_notifier := notify_one (outgoing_queue_activity_notifier s) |>,
       inr (Handled (Ok tt)))
  | Detach pipe =>
      (s <| pipe_read_to_endpoint_uri := delete pipe (pipe_read_to_endpoint_uri s) |>,
       inl (match pipe_read_to_endpoint_uri s !! pipe with
            | Some uri => DetachBalance pipe uri
            | None => DetachPipe pipe
            end))
  | DetachBalance pipe uri =>
      (s <| load_balancer := LoadBalancer.remove_connection uri (load_balancer s) |>, inl (DetachPipe pipe))
  | DetachPipe pipe => (drop_pipe pipe s, inl (DetachClear pipe))
  | DetachClear pipe =>
      (s <| incoming_orchestrator := Orchestrator.clear_pipe_state pipe (incoming_orchestrator s) |>
         <| peer_availability_notifier := notify_waiters (peer_availability_notifier s) |>,
       inr (Handled (Ok tt)))
  | Stop => (s <| incoming_orchestrator := Orchestrator.close (incoming_orchestrator s) |>, inl StopSignal)
  | StopSignal => (s <| processor_stop_signal := notify_one (processor_stop_signal s) |>, inl StopNotify)
  (* after at most 100 ms for the processor to end *)
  | StopNotify =>
      (s <| outgoing_queue_activity_notifier := notify_waiters (outgoing_queue_activity_notifier s) |>
         <| peer_availability_notifier := notify_waiters (peer_availability_notifier s) |>,
       inr (Handled (Ok tt)))
  | _ => (s, inl c)
  end.

Definition step (elapsed : bool) (c : call) s : DealerSocket W * (call + outcome) :=
  match c with
  | Send _ | SendTransaction _ | SendMulti _ | MultiTransaction _ _ => send_step c s
  | MultiWait timeo user_frames => multi_wait_step elapsed timeo user_frames s
  | Logical _ | Attempt _ | AttemptPick _ | AttemptIface _ _ | AttemptPermit _ _ _ _ _ | AttemptWrite _ _ _ _ _
  | QueueCheck _ | QueueLength _ | QueuePush _ | QueueWait _ => logical_step elapsed c s
  | Recv | RecvBuffered _ | RecvItem _ | RecvStore _ | RecvMulti | RecvMultiReset _ | RecvMultiItem _ =>
      recv_step elapsed c s
  | SetOption _ _ | GetOption _ => option_step c s
  | Processor | ProcPop | ProcStart _ | ProcTry _ | ProcPick _ | ProcIface _ _ | ProcPermit _ _ _ _ _
  | ProcWrite _ _ _ _ _ | ProcClosing _ | ProcRequeue _ => processor_step elapsed c s
  | Frame _ _ | FrameQueue _ => handle_pipe_event_step elapsed c s
  | _ => pipe_step c s
  end.

End Dealer.

(** ** The socket among its tasks

    [running]: the environment does not shut the socket down. *)

Definition dealer_program `{Fibre, Semaphore, Notify, ISocketConnection W} (running : bool) :
    Program (DealerSocket W) call outcome := {|
  task_step := step;
  user_call c :=
    match c with Send _ | SendMulti _ | Recv | RecvMulti | SetOption _ _ | GetOption _ => true | _ => false end;
  handler_call c :=
    match c with Frame _ _ | Connected | Attach _ | Detach _ | Stop | Processor => true | _ => false end;
  awaiting c :=
    match c with
    | SendTransaction _ | MultiTransaction _ _ | MultiWait _ _ | AttemptPermit _ _ _ _ _ | AttemptWrite _ _ _ _ _
    | QueueLength _ | QueuePush _ | QueueWait _ | RecvItem _ | RecvMultiItem _ => true
    | _ => false
    end;
  cancel c s := match c with AttemptWrite _ _ _ _ permit => drop_permit permit s | _ => s end;
  environment s s' :=
    exists c w, (running = true -> phase c = Running) /\ s' = s <| core := c |> <| world := w |>;
|}.

(** ** Conservation *)

(** The messages whose send succeeded. *)
Definition accepted (out : outcome) : list (list Msg) :=
  match out with Sending (Ok tt) (Some message) => [message] | _ => [] end.

(** The message the processor works on. *)
Definition in_hand (c : call) : list (list Msg) :=
  match c with
  | ProcStart message | ProcRequeue message => [message]
  | ProcTry a | ProcPick a | ProcIface a _ | ProcPermit a _ _ _ _ | ProcWrite a _ _ _ _ | ProcClosing a => [frames a]
  | _ => []
  end.

Section Conservation.
Context `{Fibre, Semaphore, Notify, ISocketConnection W}.
Implicit Types s : DealerSocket W.
#[local] Instance running_program : Program (DealerSocket W) call outcome := dealer_program true.

(** The messages the socket answers for. *)
Definition owned s : list (list Msg) := taken s ++ pending_outgoing_queue s.

Lemma step_core elapsed c s s' r : step elapsed c s = (s', r) -> core s' = core s.
Proof.
  intros Hstep. destruct c; cbn in Hstep; unfold multi_wait_step in Hstep; repeat case_match; simplify_eq; done.
Qed.

Definition closing (c : call) : bool := match c with ProcClosing _ => true | _ => false end.

(** A step moves a message, and loses or duplicates none. *)
Lemma step_balance elapsed c s s' c' :
  is_running (core s) = true -> closing c = false -> step elapsed c s = (s', inl c') ->
  owned s' ++ in_hand c' ≡ₚ owned s ++ in_hand c /\ closing c' = false.
Proof.
  intros Hrun Hc Hstep. split.
  - destruct c; try discriminate; cbn in Hstep; unfold multi_wait_step in Hstep; try rewrite Hrun in Hstep;
      repeat case_match; simplify_eq; try done; unfold owned; cbn; rewrite ?app_nil_r.
    + rewrite H3, <- app_assoc. f_equiv. by rewrite Permutation_app_comm.
    + rewrite <- !app_assoc. f_equiv. by rewrite Permutation_app_comm.
    + rewrite <- !app_assoc. f_equiv. by rewrite Permutation_app_comm.
  - destruct c; try discriminate; cbn in Hstep; unfold multi_wait_step in Hstep; try rewrite Hrun in Hstep;
      repeat case_match; simplify_eq; try done.
Qed.

Lemma return_balance elapsed c s s' out :
  step elapsed c s = (s', inr out) -> owned s' ≡ₚ owned s ++ in_hand c ++ accepted out.
Proof.
  intros Hstep. destruct c; cbn in Hstep; unfold multi_wait_step in Hstep;
    repeat case_match; simplify_eq; unfold owned; cbn; rewrite ?app_nil_r; try done;
    rewrite <- ?app_assoc; try done.
  f_equiv. by rewrite Permutation_app_comm.
Qed.

(** The calls that send. *)
Definition sends (c : call) : bool :=
  match c with
  | Send _ | SendTransaction _ | SendMulti _ | MultiTransaction _ _ | MultiWait _ _ | Logical _ | Attempt _
  | AttemptPick _ | AttemptIface _ _ | AttemptPermit _ _ _ _ _ | AttemptWrite _ _ _ _ _
  | QueueCheck _ | QueueLength _ | QueuePush _ | QueueWait _ => true
  | _ => false
  end.

Lemma handler_no_send elapsed c s s' r :
  sends c = false -> step elapsed c s = (s', r) ->
  match r with inl c' => sends c' = false | inr out => accepted out = [] end.
Proof.
  intros Hc Hstep. destruct c; try discriminate; cbn in Hstep; repeat case_match; simplify_eq; done.
Qed.

(** The processor. *)
Definition processes (c : call) : bool :=
  match c with
  | Processor | ProcPop | ProcStart _ | ProcTry _ | ProcPick _ | ProcIface _ _ | ProcPermit _ _ _ _ _
  | ProcWrite _ _ _ _ _ | ProcClosing _ | ProcRequeue _ => true
  | _ => false
  end.

Lemma processes_hand c : processes c = false -> in_hand c = [] /\ closing c = false.
Proof. by destruct c. Qed.

Lemma user_no_process elapsed c s s' c' :
  step elapsed c s = (s', inl c') -> processes c = false -> processes c' = false.
Proof.
  intros Hstep Hc. destruct c; try done; cbn in Hstep; unfold multi_wait_step in Hstep;
    repeat case_match; simplify_eq; done.
Qed.

Definition hands (cs : list call) : list (list Msg) := concat (in_hand <$> cs).

Lemma hands_middle cs1 c cs2 : hands (cs1 ++ c :: cs2) ≡ₚ in_hand c ++ hands (cs1 ++ cs2).
Proof.
  unfold hands. rewrite !fmap_app, fmap_cons, !concat_app. cbn. rewrite !(app_assoc), (Permutation_app_comm _ (in_hand c)).
  done.
Qed.

(** What was accepted is where it should be. *)
Record conserved (sys : system (DealerSocket W) call outcome) : Prop := {
  cons_running : is_running (core (shared sys)) = true;
  cons_handlers : Forall (fun c => sends c = false /\ closing c = false) (handlers sys);
  cons_user : forall c, user sys = Some c -> processes c = false;
  cons_balance :
    concat (accepted <$> history sys) ≡ₚ owned (shared sys) ++ hands (handlers sys);
}.

Lemma conserved_step sys sys' : sys_step sys sys' -> conserved sys -> conserved sys'.
Proof.
  intros Hstep [Hrun Hhs Hu Hb].
  destruct Hstep as [s hs h c Hc|el s c hs h s' c' E|el s c hs h s' out E|s c hs h Hc|s u hs h c Hc
    |el s u hs1 c hs2 h s' c' E|el s u hs1 c hs2 h s' out E|s u hs h s' E]; cbn [shared user handlers history] in *.
  - split; cbn [shared user handlers history]; try done. intros c' [= <-]. by destruct c.
  - destruct (processes_hand c (Hu _ eq_refl)) as [Hin Hcl].
    pose proof (user_no_process _ _ _ _ _ E (Hu _ eq_refl)) as Hp.
    destruct (step_balance _ _ _ _ _ Hrun Hcl E) as [Hbal _]. destruct (processes_hand c' Hp) as [Hin' _].
    rewrite Hin, Hin', !app_nil_r in Hbal. split; cbn [shared user handlers history]; [by rewrite (step_core _ _ _ _ _ E)|done|by intros ? [= <-]|].
    by rewrite Hbal.
  - destruct (processes_hand c (Hu _ eq_refl)) as [Hin Hcl]. pose proof (return_balance _ _ _ _ _ E) as Hbal.
    rewrite Hin in Hbal. split; cbn [shared user handlers history]; [by rewrite (step_core _ _ _ _ _ E)|done|done|].
    rewrite fmap_app, concat_app, Hb, Hbal. cbn. rewrite app_nil_r, <- !app_assoc. f_equiv. apply Permutation_app_comm.
  - split; cbn [shared user handlers history]; try done; by destruct c.
  - split; cbn [shared user handlers history]; try done; [|by destruct c]. constructor; [by destruct c|done].
  - apply Forall_app in Hhs as [Hhs1 [[Hs Hcl] Hhs2]%Forall_cons].
    destruct (step_balance _ _ _ _ _ Hrun Hcl E) as [Hbal Hcl']. pose proof (handler_no_send _ _ _ _ _ Hs E) as Hs'.
    split; cbn [shared user handlers history]; [by rewrite (step_core _ _ _ _ _ E)| |done|].
    + apply Forall_app. split; [done|]. by constructor.
    + rewrite Hb, !hands_middle, !app_assoc, Hbal. done.
  - apply Forall_app in Hhs as [Hhs1 [[Hs Hcl] Hhs2]%Forall_cons].
    pose proof (return_balance _ _ _ _ _ E) as Hbal. pose proof (handler_no_send _ _ _ _ _ Hs E) as Hs'. cbn in Hs'.
    split; cbn [shared user handlers history]; [by rewrite (step_core _ _ _ _ _ E)|by apply Forall_app|done|].
    rewrite Hb, hands_middle, Hbal, Hs', app_nil_r, app_assoc. done.
  - destruct E as (c & w & Hphase & ->). split; cbn [shared user handlers history]; try done. unfold is_running. cbn. by rewrite Hphase.
Qed.

(** C16: A DEALER loses and duplicates nothing while it runs.  Under every
    interleaving of the sends of the application, the outgoing processor, the
    handlers of the pipes, a changing set of endpoints and connections that accept
    or refuse, each message whose send returned Ok is in exactly one place: it was
    accepted by one connection, once, or it waits in the outgoing queue, or the
    processor is sending it; and a message whose send failed is in none of them. *)
Theorem dealer_conserves (c : Core) (w : W) (sys : system (DealerSocket W) call outcome) :
  phase c = Running -> rtc sys_step (start (new c w)) sys ->
  concat (accepted <$> history sys) ≡ₚ
    taken (shared sys) ++ pending_outgoing_queue (shared sys) ++ hands (handlers sys).
Proof.
  intros Hc Hreach. rewrite app_assoc. apply (cons_balance sys). revert sys Hreach.
  apply rtc_ind_r; [|intros x y _ Hxy; by apply conserved_step].
  split; cbn; try done. unfold is_running. by rewrite Hc.
Qed.

End Conservation.

(** ** Runs *)

Section Runs.
#[local] Existing Instance list_fibre.
#[local] Existing Instance count_semaphore.
#[local] Existing Instance flag_notify.
#[local] Instance take_all : ISocketConnection (list (Z * list Msg)) := record_conn [].
#[local] Instance example_program : Program (DealerSocket (list (Z * list Msg))) call outcome := dealer_program true.

Definition frame (data : string) (more : bool) : Msg := mkMsg (Some (bs data)) (mk_flags more false).

(** One endpoint that takes everything. *)
Definition dealer_core : Core :=
  mkCore Running None (Some 0) 10 1 true (<["tcp://a" := mkEndpoint 10 (Some (0, 1)) 1 (Some "ROUTER")]> ∅)
    (<[1 := "tcp://a"]> ∅).
Definition dealer_example : DealerSocket (list (Z * list Msg)) := new dealer_core [].

Definition message (data : string) : list Msg := [delimiter true; frame data false].

Lemma dealer_conserves_witness :
  let calls := [SendMulti [frame "a" false]; Attach 1; SendMulti [frame "b" false]] in
  let '(s, rs) := run_calls calls dealer_example in
  returned calls rs = Some [Sending (Ok tt) (Some (message "a")); Sending (Ok tt) (Some (message "b"))] /\
  [message "a"; message "b"] ≡ₚ taken s ++ pending_outgoing_queue s.
Proof.
  intros calls. destruct (run_calls calls dealer_example) as [s rs] eqn:E.
  assert (Hr : returned calls rs = Some [Sending (Ok tt) (Some (message "a")); Sending (Ok tt) (Some (message "b"))])
    by (vm_compute in E; injection E as <- <-; vm_compute; done).
  split; [done|].
  pose proof (dealer_conserves dealer_core []
    (mkSystem s None [] ([] ++ [Sending (Ok tt) (Some (message "a")); Sending (Ok tt) (Some (message "b"))]))
    eq_refl ltac:(by eapply run_calls_reach)) as Hc.
  cbn in Hc. by rewrite app_nil_r in Hc.
Defined.

(** The processor takes one message for each time it is woken and then waits again,
    though the queue is not empty.  Three messages sent before the peer is there:
    the attachment wakes the processor twice, and the third message stays. *)
Lemma dealer_queue_stalls :
  let '(s, _) := run_calls
    [SendMulti [frame "a" false]; Processor; SendMulti [frame "b" false]; Processor; SendMulti [frame "c" false]; Processor;
     Attach 1] dealer_example in
  let '(s, c) := run_call 40 Processor s in
  c = inl Processor /\ taken s = [message "a"; message "b"] /\ pending_outgoing_queue s = [message "c"] /\
  load_balancer s = ["tcp://a"] /\
  permit (NotifyLaws := flag_notify_laws) (outgoing_queue_activity_notifier s) = false /\
  permit (NotifyLaws := flag_notify_laws) (peer_availability_notifier s) = false /\
  (* and nothing but new activity wakes it *)
  run_call 16 Processor s = (s, inl Processor).
Proof. vm_compute. done. Qed.

(** A message sent while others are queued overtakes them. *)
Lemma dealer_overtakes :
  taken (run_calls [SendMulti [frame "a" false]; Attach 1; SendMulti [frame "b" false]; Processor] dealer_example).1 =
    [message "b"; message "a"].
Proof. reflexivity. Qed.

(** When the socket is closing the processor puts a message back twice. *)
Lemma dealer_closing_duplicates :
  let s := (run_calls [SendMulti [frame "a" false]; Attach 1] dealer_example).1 in
  let '(s, c) := run_call 3 Processor s in
  let s := s <| core := dealer_core <| phase := Lingering |> |> in
  pending_outgoing_queue s = [] /\ c = inl (ProcTry (mkAttempt (message "a") None 0 0 1)) /\
  pending_outgoing_queue (run_call 3 (ProcTry (mkAttempt (message "a") None 0 0 1)) s).1 = [message "a"; message "a"].
Proof. vm_compute. done. Qed.

End Runs.

End Dealer.
