(* ===== verification/Envelope.v ===== *)
(** Envelopes: what REQ, REP, ROUTER and DEALER put on the wire and take off it, and
    that each pair of them understands the other.

    The definitions are those of the sockets and of the framing patterns; a
    message travels as the frames one socket writes and the other reassembles. *)

From S2P Require Import Prelude Error Message Patterns Queue Endpoints Tasks Coordinator Req Rep Router Dealer.

(** ** MORE flags *)

Lemma is_more_with m : Msg.is_more (with_more m) = true.
Proof.
  unfold Msg.is_more, with_more, MsgFlags.contains, Msg.flags. cbn. apply Z.eqb_eq.
  rewrite Z.land_lor_distr_l. apply Z.bits_inj'. intros n Hn. rewrite Z.lor_spec, !Z.land_spec.
  by destruct (Z.testbit (m_flags m) n), (Z.testbit 1 n).
Qed.

Lemma is_more_without m : Msg.is_more (without_more m) = false.
Proof.
  unfold Msg.is_more, without_more, MsgFlags.contains, Msg.flags. cbn. by rewrite Z.land_ldiff.
Qed.

Lemma with_more_twice m : with_more (with_more m) = with_more m.
Proof.
  unfold with_more, Msg.set_flags, Msg.flags. cbn. f_equal. by rewrite <- Z.lor_assoc, Z.lor_diag.
Qed.

Lemma without_more_twice m : without_more (without_more m) = without_more m.
Proof.
  unfold without_more, Msg.set_flags, Msg.flags. cbn. f_equal. by rewrite Z.ldiff_ldiff_l, Z.lor_diag.
Qed.

Lemma delimiter_more : with_more (delimiter true) = delimiter true.
Proof. reflexivity. Qed.

Lemma mark_more_cons2 f g l : mark_more (f :: g :: l) = with_more f :: mark_more (g :: l).
Proof. reflexivity. Qed.

Lemma mark_more_nonempty l : l <> [] -> mark_more l <> [].
Proof. by destruct l as [|f [|g l]]. Qed.

Lemma mark_more_twice l : mark_more (mark_more l) = mark_more l.
Proof.
  induction l as [|f l IH]; [done|]. destruct l as [|g l]; [cbn; by rewrite without_more_twice|].
  rewrite mark_more_cons2. destruct (mark_more (g :: l)) as [|g' l'] eqn:E; [by destruct l|].
  rewrite mark_more_cons2, with_more_twice, IH. done.
Qed.

(** A frame in front that announces more. *)
Lemma mark_more_front f l : l <> [] -> mark_more (f :: l) = with_more f :: mark_more l.
Proof. by destruct l. Qed.

Lemma clear_last_mark l : mark_more l = l -> Router.clear_last l = l.
Proof.
  induction l as [|f l IH]; [done|]. destruct l as [|g l]; [done|]. rewrite mark_more_cons2. intros [= H1 H2].
  cbn [Router.clear_last]. f_equal. by apply IH.
Qed.

Lemma clear_last_front f l : l <> [] -> mark_more l = l -> Router.clear_last (f :: l) = f :: l.
Proof.
  intros Hne Hl. destruct l as [|g l]; [done|].
  change (f :: Router.clear_last (g :: l) = f :: g :: l). by rewrite clear_last_mark.
Qed.

(** ** One message on the wire *)

Definition arrivals (pipe : Z) (wire : list Msg) : list orch_event := (fun f => Arrive pipe f false) <$> wire.

(** The frames are the frames of one message: the peer's orchestrator assembles
    them to it, whole. *)
Definition one_message (wire : list Msg) : Prop := forall pipe, assembled pipe [] (arrivals pipe wire) = [wire].

Lemma assembled_marked pipe part l :
  l <> [] -> mark_more l = l -> assembled pipe part (arrivals pipe l) = [part ++ l].
Proof.
  revert part. induction l as [|f l IH]; intros part Hne Hl; [done|]. destruct l as [|g l].
  - injection Hl as Hf. cbn. rewrite bool_decide_true by done. rewrite <- Hf, is_more_without. done.
  - rewrite mark_more_cons2 in Hl. injection Hl as Hf Hl.
    change (arrivals pipe (f :: g :: l)) with (Arrive pipe f false :: arrivals pipe (g :: l)). cbn [assembled].
    rewrite bool_decide_true by done. rewrite <- Hf, is_more_with, IH by done. by rewrite <- app_assoc.
Qed.

Lemma one_message_marked l : l <> [] -> mark_more l = l -> one_message l.
Proof. intros Hne Hl pipe. by apply assembled_marked. Qed.

(** ** Lemmas on the sockets *)

(** The latches in automatic mode. *)
Definition dealer_latch : FramingLatch := FramingLatch.new dealer_auto_encode dealer_auto_decode.
Definition router_latch : FramingLatch := FramingLatch.new router_auto_encode router_auto_decode.

(** What the application of a DEALER means by no frames is an empty one. *)
Definition dealer_payload (user : list Msg) : list Msg := match user with [] => [Msg.new] | _ => user end.

Lemma dealer_wire user :
  Dealer.prepare_full_multipart_send_sequence dealer_latch user = delimiter true :: mark_more (dealer_payload user).
Proof.
  unfold Dealer.prepare_full_multipart_send_sequence. change (FramingLatch.is_manual dealer_latch) with false.
  destruct user as [|f l]; [done|]. rewrite bool_decide_false by done.
  change (FramingLatch.encode dealer_latch) with dealer_auto_encode. unfold dealer_auto_encode.
  rewrite bool_decide_false by done. cbn [negb]. by rewrite mark_more_front.
Qed.

Lemma parse_request_delimited l : Rep.parse_request (delimiter true :: l) = ([delimiter true], l).
Proof.
  unfold Rep.parse_request. cbn [Rep.split_request negb]. change (Msg.size (delimiter true) =? 0) with true. cbn [app].
  assert (H : forall payload, Rep.split_request true [delimiter true] payload l = (true, [delimiter true], payload ++ l)).
  { induction l as [|f l IH]; intros payload; cbn; [by rewrite app_nil_r|]. by rewrite IH, <- app_assoc. }
  by rewrite H.
Qed.

(** A message behind a delimiter. *)
Lemma delimited_message l : l <> [] -> mark_more l = l -> one_message (delimiter true :: l).
Proof. intros Hne Hl. apply one_message_marked; [done|]. by rewrite mark_more_front, delimiter_more, Hl. Qed.

(** ROUTER hands over the sender and the payload. *)
Lemma transform_marked identity l :
  l <> [] -> mark_more l = l ->
  Router.transform_qitem_to_app_frames (identity, l) = Msg.set_flags MsgFlags.MORE (Msg.from_bytes identity) :: l.
Proof.
  intros Hne Hl. unfold Router.transform_qitem_to_app_frames. rewrite bool_decide_false by done. cbn [negb].
  by rewrite clear_last_front.
Qed.

(** What ROUTER writes for each type of peer. *)
Lemma router_wire_req id_msg payload :
  payload <> [] -> mark_more payload = payload ->
  Router.clear_last (prepare_wire_frames ReqPeerStrategy id_msg payload router_latch) = delimiter true :: payload.
Proof.
  intros Hne Hl. cbn [prepare_wire_frames]. rewrite bool_decide_false by done. cbn [negb]. by apply clear_last_front.
Qed.

Lemma router_wire_dealer id_msg payload :
  payload <> [] -> mark_more payload = payload ->
  Router.clear_last (prepare_wire_frames DealerPeerStrategy id_msg payload router_latch) =
    with_more id_msg :: delimiter true :: payload.
Proof.
  intros Hne Hl. cbn [prepare_wire_frames]. change (FramingLatch.is_manual router_latch) with false. cbn iota.
  unfold identity_delimiter_payload. rewrite bool_decide_false by done.
  change (FramingLatch.encode router_latch) with router_auto_encode. cbn [router_auto_encode].
  rewrite bool_decide_false by done. cbn [negb]. rewrite with_more_twice.
  rewrite clear_last_front; [done..|]. by rewrite mark_more_front, delimiter_more, Hl.
Qed.

Lemma dealer_payload_nonempty user : dealer_payload user <> [].
Proof. by destruct user. Qed.

Lemma nonempty_size m : Blob.is_empty (Msg.payload m) = false -> (Msg.size m =? 0) = false.
Proof.
  unfold Msg.payload, Msg.size. destruct (m_data m) as [[|b d]|]; cbn; try done.
Qed.

(** C23: Request-reply sockets understand each other.  In automatic framing, for
    every pair of peers, what one writes for an application message is the frames
    of exactly one message, and the other hands its application the same payload,
    in order and with MORE on every frame but the last: DEALER and REQ to ROUTER
    (which adds the identity of the sender), ROUTER to DEALER, REQ and ROUTER, REQ
    and DEALER to REP, the replies of REP back to REQ and DEALER with the prefix of
    the request, and DEALER to DEALER. *)
Theorem envelope_roundtrip (user payload : list Msg) (id_msg : Msg) (identity : bytes) (info : Rep.PeerInfo) :
  payload <> [] -> mark_more payload = payload -> Blob.is_empty (Msg.payload id_msg) = false ->
  let dealer_wire := Dealer.prepare_full_multipart_send_sequence dealer_latch user in
  let req_wire m := Req.zmtp_frames_to_send (without_more m) in
  let router_wire strategy := Router.clear_last (prepare_wire_frames strategy id_msg payload router_latch) in
  let rep_wire := Rep.reply_frames info payload in
  let sender := Msg.set_flags MsgFlags.MORE (Msg.from_bytes identity) in
  (* DEALER to ROUTER, REP and DEALER *)
  one_message dealer_wire /\
  Router.transform_qitem_to_app_frames (identity, Router.incoming_payload false (Some "DEALER") dealer_wire) =
    sender :: mark_more (dealer_payload user) /\
  Rep.parse_request dealer_wire = ([delimiter true], mark_more (dealer_payload user)) /\
  Dealer.process_incoming_zmtp_message_for_dealer false dealer_wire = mark_more (dealer_payload user) /\
  (* REQ to ROUTER and REP *)
  (forall m, one_message (req_wire m) /\
     Router.transform_qitem_to_app_frames (identity, Router.incoming_payload false (Some "REQ") (req_wire m)) =
       [sender; without_more m] /\
     Rep.parse_request (req_wire m) = ([delimiter true], [without_more m])) /\
  (* ROUTER to DEALER, REQ and ROUTER *)
  one_message (router_wire DealerPeerStrategy) /\
  Dealer.process_incoming_zmtp_message_for_dealer false (router_wire DealerPeerStrategy) = payload /\
  one_message (router_wire ReqPeerStrategy) /\
  Req.process_incoming_zmtp_message_for_req (router_wire ReqPeerStrategy) = payload /\
  one_message (router_wire RouterPeerStrategy) /\
  Router.transform_qitem_to_app_frames
    (identity, Router.incoming_payload false (Some "ROUTER") (router_wire RouterPeerStrategy)) = sender :: payload /\
  (* REP to REQ and DEALER *)
  (Rep.routing_prefix info = [delimiter true] ->
   one_message rep_wire /\ Req.process_incoming_zmtp_message_for_req rep_wire = payload /\
   Dealer.process_incoming_zmtp_message_for_dealer false rep_wire = payload).
Proof.
  intros Hne Hl Hid. cbn zeta. rewrite dealer_wire, router_wire_dealer, router_wire_req by done.
  pose proof (mark_more_nonempty _ (dealer_payload_nonempty user)) as Hdne.
  pose proof (mark_more_twice (dealer_payload user)) as Hdl.
  split_and!.
  - by apply delimited_message.
  - by apply transform_marked.
  - apply parse_request_delimited.
  - done.
  - intros m. assert (Hm : mark_more [without_more m] = [without_more m]) by (cbn; by rewrite without_more_twice).
    split_and!; [by apply delimited_message|by apply transform_marked|apply parse_request_delimited].
  - apply one_message_marked; [done|].
    by rewrite mark_more_front, with_more_twice, mark_more_front, delimiter_more, Hl by done.
  - cbn [Dealer.process_incoming_zmtp_message_for_dealer]. change (Msg.size (with_more id_msg)) with (Msg.size id_msg).
    by rewrite nonempty_size.
  - by apply delimited_message.
  - done.
  - rewrite clear_last_mark by done. by apply one_message_marked.
  - rewrite clear_last_mark by done. by apply transform_marked.
  - intros Hp. unfold Rep.reply_frames. rewrite Hp. cbn [app]. rewrite mark_more_front, delimiter_more, Hl by done.
    split_and!; [by apply delimited_message|done..].
Qed.

Lemma envelope_roundtrip_witness :
  let payload := [mkMsg (Some (bs "a")) 1; mkMsg (Some (bs "b")) 0] in
  Dealer.process_incoming_zmtp_message_for_dealer false
    (Router.clear_last (prepare_wire_frames DealerPeerStrategy (Msg.from_bytes (bs "I")) payload router_latch)) = payload.
Proof.
  intros payload.
  destruct (envelope_roundtrip [] payload (Msg.from_bytes (bs "I")) (bs "I") (Rep.mkPeerInfo 1 "tcp://a" [delimiter true]))
    as (_ & _ & _ & _ & _ & _ & Hpayload & _); [done|reflexivity|reflexivity|exact Hpayload].
Defined.
