(* ===== verification/PushPull.v ===== *)
(** The PUSH and PULL sockets ([core/src/socket/{push,pull}_socket.rs]).

    A call is one step from a state in which it can complete; a send that waits
    for a peer returns [None] as long as it has to. *)

From S2P Require Import Prelude Error Message Patterns Queue Endpoints.

#[local] Set Warnings "-clear-no-such-hyp".

Module Push.

Record PushSocket (W : Type) := mkPush {
  core : Core;
  (** [command_sender().is_closed()]. *)
  mailbox_closed : bool;
  load_balancer : list string;
  pipe_read_to_endpoint_uri : gmap Z string;
  world : W;
}.
Arguments mkPush {W} _ _ _ _ _.
Arguments core {W} _.
Arguments mailbox_closed {W} _.
Arguments load_balancer {W} _.
Arguments pipe_read_to_endpoint_uri {W} _.
Arguments world {W} _.

#[export] Instance PushSocket_eta {W} : Eta (PushSocket W) := fun r =>
  mkPush (core r) (mailbox_closed r) (load_balancer r) (pipe_read_to_endpoint_uri r) (world r).

Section Push.
Context `{ISocketConnection W}.
Implicit Types s : PushSocket W.

Definition new (c : Core) (w : W) : PushSocket W := mkPush c false LoadBalancer.new ∅ w.

(** The loop that selects a peer: stale connections are dropped on the way.  Each
    round shortens the queue or ends the loop, so [fuel] above its length is
    enough.  [ended]: what is found when there is no peer. *)
Fixpoint select_peer (fuel : nat) (elapsed : bool) (sndtimeo_opt : option Z) (ended : option (result string))
    (eps : gmap string EndpointInfo) (uris : list string) : list string * option (result string) :=
  match fuel with
  | O => (uris, None)
  | S fuel =>
      match LoadBalancer.get_next_connection_uri uris with
      | (uris, Some uri) =>
          if bool_decide (is_Some (eps !! uri)) then (uris, Some (Ok uri))
          else select_peer fuel elapsed sndtimeo_opt ended eps (LoadBalancer.remove_connection uri uris)
      | (uris, None) =>
          match ended with
          | Some r => (uris, Some r)
          | None =>
              match sndtimeo_opt with
              | Some 0 => (uris, Some (Err ResourceLimitReached))
              | Some _ => (uris, if elapsed then Some (Err Timeout) else None)
              | None => (uris, None)
              end
          end
      end
  end.

Definition forget (uri : string) s : PushSocket W :=
  s <| load_balancer := LoadBalancer.remove_connection uri (load_balancer s) |>.

Definition send (elapsed : bool) (msg : Msg) s : PushSocket W * option (result unit) :=
  if negb (is_running (core s)) then (s, Some (Err ResourceLimitReached))
  else
    let ended := if mailbox_closed s then Some (Err (InvalidState "Socket terminated")) else None in
    match select_peer (S (length (load_balancer s))) elapsed (sndtimeo (core s)) ended (endpoints (core s))
            (load_balancer s) with
    | (uris, Some (Ok uri)) =>
        let s := s <| load_balancer := uris |> in
        match endpoints (core s) !! uri with
        | None => (forget uri s, Some (Err (HostUnreachable "Peer connection disappeared just before send")))
        | Some ep =>
            match send_message (connection_iface ep) msg (world s) with
            | (w, Ok tt) => (s <| world := w |>, Some (Ok tt))
            | (w, Err ConnectionClosed) =>
                (forget uri (s <| world := w |>), Some (Err (HostUnreachable "Peer connection closed during send")))
            | (w, Err ResourceLimitReached) => (s <| world := w |>, Some (Err ResourceLimitReached))
            | (w, Err Timeout) => (s <| world := w |>, Some (Err Timeout))
            | (w, r) => (forget uri (s <| world := w |>), Some r)
            end
        end
    | (uris, Some (Err e)) => (s <| load_balancer := uris |>, Some (Err e))
    | (uris, Some Panic) => (s <| load_balancer := uris |>, Some Panic)
    | (uris, None) => (s <| load_balancer := uris |>, None)
    end.

Definition send_multipart (elapsed : bool) (frames : list Msg) s : PushSocket W * option (result unit) :=
  if negb (is_running (core s)) then (s, Some (Err ResourceLimitReached))
  else if bool_decide (frames = []) then (s, Some (Ok tt))
  else
    match select_peer (S (length (load_balancer s))) elapsed (sndtimeo (core s)) None (endpoints (core s))
            (load_balancer s) with
    | (uris, Some (Ok uri)) =>
        let s := s <| load_balancer := uris |> in
        match endpoints (core s) !! uri with
        | None => (forget uri s, Some (Err (HostUnreachable "PUSH: Peer for multipart send disappeared after selection")))
        | Some ep =>
            match Endpoints.send_multipart (connection_iface ep) (mark_more frames) (world s) with
            | (w, Err ConnectionClosed) =>
                (forget uri (s <| world := w |>),
                 Some (Err (HostUnreachable "PUSH: Peer connection closed during multipart send")))
            | (w, r) => (s <| world := w |>, Some r)
            end
        end
    | (uris, Some (Err e)) => (s <| load_balancer := uris |>, Some (Err e))
    | (uris, Some Panic) => (s <| load_balancer := uris |>, Some Panic)
    | (uris, None) => (s <| load_balancer := uris |>, None)
    end.

Definition pipe_attached (pipe_read_id : Z) s : PushSocket W :=
  match pipe_read_id_to_endpoint_uri (core s) !! pipe_read_id with
  | Some uri =>
      s <| pipe_read_to_endpoint_uri := <[pipe_read_id := uri]> (pipe_read_to_endpoint_uri s) |>
        <| load_balancer := LoadBalancer.add_connection uri (load_balancer s) |>
  | None => s
  end.

Definition pipe_detached (pipe_read_id : Z) s : PushSocket W :=
  let s' := s <| pipe_read_to_endpoint_uri := delete pipe_read_id (pipe_read_to_endpoint_uri s) |> in
  match pipe_read_to_endpoint_uri s !! pipe_read_id with
  | Some uri => forget uri s'
  | None => s'
  end.

(** ** Lemmas *)

Lemma remove_length uri uris : (length (LoadBalancer.remove_connection uri uris) <= length uris)%nat.
Proof. induction uris as [|u uris IH]; cbn; [done|]. case_bool_decide; cbn; lia. Qed.

Lemma remove_length_in uri uris :
  uri ∈ uris -> (length (LoadBalancer.remove_connection uri uris) < length uris)%nat.
Proof.
  induction uris as [|u uris IH]; cbn; [by intros ?%elem_of_nil|].
  case_bool_decide as Hu; [intros _; cbn; lia|]. intros [->|Hin]%elem_of_cons; [done|]. cbn. apply IH in Hin. lia.
Qed.

Lemma remove_other uri u uris : uri <> u -> uri ∈ uris -> uri ∈ LoadBalancer.remove_connection u uris.
Proof.
  intros Hne. induction uris as [|v uris IH]; cbn; [done|]. intros [->|Hin]%elem_of_cons.
  - rewrite bool_decide_false by done. by left.
  - case_bool_decide; [done|]. right. by apply IH.
Qed.

(** The loop ends: with its fuel it finds a peer that
    is there, or that there is none. *)
Lemma select_peer_ends fuel elapsed t ended eps uris :
  (length uris < fuel)%nat -> (elapsed = true \/ t = Some 0) -> is_Some t -> (forall r, ended <> Some (Ok r)) ->
  match select_peer fuel elapsed t ended eps uris with
  | (uris', Some (Ok uri)) => is_Some (eps !! uri) /\ uri ∈ uris
  | (uris', Some _) => forall uri, uri ∈ uris -> eps !! uri = None
  | (_, None) => False
  end.
Proof.
  intros Hlen Ht Hsome Hend. revert uris Hlen. induction fuel as [|fuel IH]; intros uris Hlen; [lia|].
  cbn [select_peer]. destruct uris as [|u uris]; cbn [LoadBalancer.get_next_connection_uri].
  - destruct ended as [[r|e|]|]; [by destruct (Hend r)|by intros ? ?%elem_of_nil..|].
    destruct Hsome as [z ->]. destruct z; [by intros ? ?%elem_of_nil|..];
      (destruct Ht as [-> | ?]; [by intros ? ?%elem_of_nil|done]).
  - case_bool_decide as Hu; [split; [done|by left]|].
    assert (Hin : u ∈ uris ++ [u]) by (apply elem_of_app; right; by left).
    apply remove_length_in in Hin as Hlt. rewrite length_app in Hlt. cbn in Hlt, Hlen.
    specialize (IH (LoadBalancer.remove_connection u (uris ++ [u])) ltac:(lia)).
    destruct (select_peer fuel _ _ _ _ _) as [uris' [[uri|e|]|]]; [..|done].
    + destruct IH as [H1 H2]. split; [done|]. apply remove_sub in H2. set_solver.
    + intros uri Huri. destruct (decide (uri = u)) as [->|Hne]; [by apply eq_None_not_Some|].
      apply IH, remove_other; [done|]. set_solver.
    + intros uri Huri. destruct (decide (uri = u)) as [->|Hne]; [by apply eq_None_not_Some|].
      apply IH, remove_other; [done|]. set_solver.
Qed.

End Push.

(** A message sent frame by frame is spread over the peers: each frame goes to the
    next one, whatever its MORE flag. *)
Lemma push_splits_message :
  let eps := <["tcp://a" := mkEndpoint 10 (Some (0, 1)) 1 None]> (<["tcp://b" := mkEndpoint 20 (Some (2, 3)) 2 None]> ∅) in
  let c := mkCore Running None None 1 1 false eps (<[1 := "tcp://a"]> (<[3 := "tcp://b"]> ∅)) in
  let frame data more := mkMsg (Some (bs data)) (mk_flags more false) in
  let s := pipe_attached 3 (pipe_attached 1 (new c [])) in
  let s := (send (H := record_conn []) false (frame "x" true) s).1 in
  let s := (send (H := record_conn []) false (frame "y" false) s).1 in
  world s = [(10, [frame "x" true]); (20, [frame "y" false])].
Proof. reflexivity. Qed.

End Push.

Module Pull.

Record PullSocket `{Fibre} := mkPull {
  core : Core;
  incoming_orchestrator : Orchestrator (list Msg);
}.
Arguments mkPull {_} _ _.

Section Pull.
Context `{Fibre}.
Implicit Types s : PullSocket.

Definition new (c : Core) : PullSocket := mkPull c (Orchestrator.new (Z.max (rcvhwm c) 1)).

Definition recv (elapsed : bool) s : PullSocket * option (result Msg) :=
  if negb (is_running (core s)) then (s, Some (Err (InvalidState "Socket is closing")))
  else
    let '(o, r) := Orchestrator.recv_message elapsed (rcvtimeo (core s)) id (incoming_orchestrator s) in
    (mkPull (core s) o, r).

Definition recv_multipart (elapsed : bool) s : PullSocket * option (result (list Msg)) :=
  if negb (is_running (core s)) then (s, Some (Err (InvalidState "Socket is closing")))
  else
    let '(o, r) := Orchestrator.recv_logical_message elapsed (rcvtimeo (core s)) id (incoming_orchestrator s) in
    (mkPull (core s) o, r).

Definition handle_pipe_event (elapsed : bool) (pipe_id : Z) (msg : Msg) s : PullSocket * option (result unit) :=
  let '(o, raw) := Orchestrator.accumulate_pipe_frame pipe_id msg (incoming_orchestrator s) in
  match raw with
  | Some message => let '(o, r) := Orchestrator.queue_item elapsed message o in (mkPull (core s) o, r)
  | None => (mkPull (core s) o, Some (Ok tt))
  end.

Definition pipe_detached (pipe_read_id : Z) s : PullSocket :=
  mkPull (core s) (Orchestrator.clear_pipe_state pipe_read_id (incoming_orchestrator s)).

End Pull.
End Pull.
