(* ===== verification/PubSub.v ===== *)
(** The PUB and SUB sockets and the distributor
    ([core/src/socket/{pub,sub}_socket.rs], [core/src/socket/patterns/distributor.rs]).

    A call is one step from a state in which it can complete.  Messages to several
    peers are handed over one after the other, in the order the set of peers is
    iterated in ([iter]); [join_all] in SUB, which starts them in that order, is
    treated alike. *)

From S2P Require Import Prelude Error Message Options Trie Patterns Queue Endpoints.

#[local] Set Warnings "-clear-no-such-hyp".

(** ** Distributor *)

Module Distributor.

Definition new : gset string := ∅.
Definition add_peer_uri (endpoint_uri : string) (peers : gset string) : gset string := {[endpoint_uri]} ∪ peers.
Definition remove_peer_uri (endpoint_uri : string) (peers : gset string) : gset string := peers ∖ {[endpoint_uri]}.

Section Distributor.
Context `{ISocketConnection W}.

(** The loop over the peers: what is done for each ([send]) and the error for one
    that is stale. *)
Fixpoint send_each (send : Z -> W -> W * result unit) (stale : string) (eps : gmap string EndpointInfo)
    (uris : list string) (w : W) : W * list (string * ZmqError) :=
  match uris with
  | [] => (w, [])
  | uri :: uris =>
      match eps !! uri with
      | Some ep =>
          let '(w, r) := send (connection_iface ep) w in
          let '(w, failed) := send_each send stale eps uris w in
          (w, match r with
              | Err ResourceLimitReached | Err Timeout => failed
              | Err e => (uri, e) :: failed
              | _ => failed
              end)
      | None =>
          let '(w, failed) := send_each send stale eps uris w in
          (w, (uri, Internal stale) :: failed)
      end
  end.

(** The failed peers; none is [Ok]. *)
Definition send_to_all (iter : gset string -> list string) (msg : Msg) (eps : gmap string EndpointInfo)
    (peers : gset string) (w : W) : W * list (string * ZmqError) :=
  send_each (fun conn => send_message conn msg) "Distributor found stale URI" eps (iter peers) w.

Definition send_to_all_multipart (iter : gset string -> list string) (zmtp_frames : list Msg)
    (eps : gmap string EndpointInfo) (peers : gset string) (w : W) : W * list (string * ZmqError) :=
  if bool_decide (zmtp_frames = []) then (w, [])
  else send_each (fun conn => send_multipart conn zmtp_frames) "Distributor found stale URI for multipart send" eps
         (iter peers) w.

End Distributor.
End Distributor.

(** ** PUB *)

Module Pub.

Record PubSocket (W : Type) := mkPub {
  core : Core;
  distributor : gset string;
  pipe_read_to_endpoint_uri : gmap Z string;
  world : W;
}.
Arguments mkPub {W} _ _ _ _.
Arguments core {W} _.
Arguments distributor {W} _.
Arguments pipe_read_to_endpoint_uri {W} _.
Arguments world {W} _.

#[export] Instance PubSocket_eta {W} : Eta (PubSocket W) := fun r =>
  mkPub (core r) (distributor r) (pipe_read_to_endpoint_uri r) (world r).

Section Pub.
Context `{ISocketConnection W}.
Variable iter : gset string -> list string.
Implicit Types s : PubSocket W.

Definition new (c : Core) (w : W) : PubSocket W := mkPub c Distributor.new ∅ w.

(** The peers that failed are removed. *)
Definition remove_failed (failed : list (string * ZmqError)) (peers : gset string) : gset string :=
  foldl (fun peers f => Distributor.remove_peer_uri f.1 peers) peers failed.

Definition send (msg : Msg) s : PubSocket W * result unit :=
  if negb (is_running (core s)) then (s, Err (InvalidState "Socket is closing"))
  else
    let '(w, failed) := Distributor.send_to_all iter msg (endpoints (core s)) (distributor s) (world s) in
    (s <| world := w |> <| distributor := remove_failed failed (distributor s) |>, Ok tt).

Definition send_multipart (frames : list Msg) s : PubSocket W * result unit :=
  if negb (is_running (core s)) then (s, Err (InvalidState "Socket is closing"))
  else if bool_decide (frames = []) then (s, Ok tt)
  else
    let '(w, failed) :=
      Distributor.send_to_all_multipart iter (mark_more frames) (endpoints (core s)) (distributor s) (world s) in
    (s <| world := w |> <| distributor := remove_failed failed (distributor s) |>, Ok tt).

Definition recv : result Msg := Err (InvalidState "PUB sockets cannot receive messages").

Definition pipe_attached (pipe_read_id : Z) s : PubSocket W :=
  match pipe_read_id_to_endpoint_uri (core s) !! pipe_read_id with
  | Some uri =>
      s <| pipe_read_to_endpoint_uri := <[pipe_read_id := uri]> (pipe_read_to_endpoint_uri s) |>
        <| distributor := Distributor.add_peer_uri uri (distributor s) |>
  | None => s
  end.

Definition pipe_detached (pipe_read_id : Z) s : PubSocket W :=
  let s' := s <| pipe_read_to_endpoint_uri := delete pipe_read_id (pipe_read_to_endpoint_uri s) |> in
  match pipe_read_to_endpoint_uri s !! pipe_read_id with
  | Some uri => s' <| distributor := Distributor.remove_peer_uri uri (distributor s) |>
  | None => s'
  end.

End Pub.
End Pub.

(** ** SUB *)

Module Sub.

Record SubSocket `{Fibre} (W : Type) := mkSub {
  core : Core;
  subscriptions : TrieNode;
  incoming_orchestrator : Orchestrator (list Msg);
  pipe_read_to_endpoint_uri : gmap Z string;
  world : W;
}.
Arguments mkSub {_ W} _ _ _ _ _.
Arguments core {_ W} _.
Arguments subscriptions {_ W} _.
Arguments incoming_orchestrator {_ W} _.
Arguments pipe_read_to_endpoint_uri {_ W} _.
Arguments world {_ W} _.

#[export] Instance SubSocket_eta `{Fibre} {W} : Eta (SubSocket W) := fun r =>
  mkSub (core r) (subscriptions r) (incoming_orchestrator r) (pipe_read_to_endpoint_uri r) (world r).

Section Sub.
Context `{Fibre, ISocketConnection W}.
Variable iter : gmap Z string -> list (Z * string).
Implicit Types s : SubSocket W.

Definition new (c : Core) (w : W) : SubSocket W := mkSub c SubscriptionTrie.new (Orchestrator.new (rcvhwm c)) ∅ w.

Definition construct_subscription_message (is_subscribe : bool) (topic : bytes) : Msg :=
  Msg.from_vec (u8 (if is_subscribe then 1 else 0) :: topic).

(** A peer without a connection is skipped, and errors are ignored. *)
Definition send_subscription_command_to_uri (msg : Msg) (eps : gmap string EndpointInfo) (w : W) (uri : string) : W :=
  match eps !! uri with
  | Some ep => (send_message (connection_iface ep) msg w).1
  | None => w
  end.

Definition send_subscription_command_to_all (is_subscribe : bool) (topic : bytes) s : SubSocket W :=
  s <| world :=
    foldl (send_subscription_command_to_uri (construct_subscription_message is_subscribe topic) (endpoints (core s)))
      (world s) (iter (pipe_read_to_endpoint_uri s)).*2 |>.

Definition set_pattern_option (option_id : Z) (value : bytes) s : SubSocket W * result unit :=
  if option_id =? SUBSCRIBE then
    let s := s <| subscriptions := SubscriptionTrie.subscribe value (subscriptions s) |> in
    (send_subscription_command_to_all true value s, Ok tt)
  else if option_id =? UNSUBSCRIBE then
    let '(subs, last) := SubscriptionTrie.unsubscribe value (subscriptions s) in
    let s := s <| subscriptions := subs |> in
    (if last then send_subscription_command_to_all false value s else s, Ok tt)
  else (s, Err (UnsupportedOption option_id)).

Definition recv (elapsed : bool) s : SubSocket W * option (result Msg) :=
  if negb (is_running (core s)) then (s, Some (Err (InvalidState "Socket is closing")))
  else
    let '(o, r) := Orchestrator.recv_message elapsed (rcvtimeo (core s)) id (incoming_orchestrator s) in
    (s <| incoming_orchestrator := o |>, r).

Definition recv_multipart (elapsed : bool) s : SubSocket W * option (result (list Msg)) :=
  if negb (is_running (core s)) then (s, Some (Err (InvalidState "Socket is closing")))
  else
    let '(o, r) := Orchestrator.recv_logical_message elapsed (rcvtimeo (core s)) id (incoming_orchestrator s) in
    (s <| incoming_orchestrator := o |>, r).

(** [get(0).and_then(data).unwrap_or_default()]. *)
Definition topic_of (message : list Msg) : bytes :=
  match message with frame :: _ => Msg.payload frame | [] => [] end.

Definition handle_pipe_event (elapsed : bool) (pipe_read_id : Z) (msg : Msg) s : SubSocket W * option (result unit) :=
  let '(o, raw) := Orchestrator.accumulate_pipe_frame pipe_read_id msg (incoming_orchestrator s) in
  match raw with
  | Some message =>
      if SubscriptionTrie.matches (subscriptions s) (topic_of message) then
        let '(o, r) := Orchestrator.queue_item elapsed message o in (s <| incoming_orchestrator := o |>, r)
      else (s <| incoming_orchestrator := o |>, Some (Ok tt))
  | None => (s <| incoming_orchestrator := o |>, Some (Ok tt))
  end.

(** The subscriptions are sent to a new peer, until one cannot be. *)
Fixpoint send_topics (conn : Z) (topics : list bytes) (w : W) : W :=
  match topics with
  | [] => w
  | topic :: topics =>
      match send_message conn (construct_subscription_message true topic) w with
      | (w, Ok tt) => send_topics conn topics w
      | (w, _) => w
      end
  end.

Definition pipe_attached (pipe_read_id : Z) s : SubSocket W :=
  match pipe_read_id_to_endpoint_uri (core s) !! pipe_read_id with
  | Some uri =>
      let s := s <| pipe_read_to_endpoint_uri := <[pipe_read_id := uri]> (pipe_read_to_endpoint_uri s) |> in
      match endpoints (core s) !! uri with
      | Some ep =>
          s <| world := send_topics (connection_iface ep) (SubscriptionTrie.get_all_topics (subscriptions s)) (world s) |>
      | None => s
      end
  | None => s
  end.

Definition pipe_detached (pipe_read_id : Z) s : SubSocket W :=
  s <| pipe_read_to_endpoint_uri := delete pipe_read_id (pipe_read_to_endpoint_uri s) |>
    <| incoming_orchestrator := Orchestrator.clear_pipe_state pipe_read_id (incoming_orchestrator s) |>.

(** ** A SUB socket at work *)

(** Subscriptions, then frames and receives. *)
Definition subscribe_all (ops : list trie_op) s : SubSocket W :=
  foldl (fun s op => (match op with
                      | Trie.Sub topic => set_pattern_option SUBSCRIBE topic s
                      | Unsub topic => set_pattern_option UNSUBSCRIBE topic s
                      end).1) s ops.

Fixpoint sub_run s (evs : list orch_event) : option (SubSocket W * list (list Msg)) :=
  match evs with
  | [] => Some (s, [])
  | Arrive pipe frame elapsed :: evs =>
      let '(s, r) := handle_pipe_event elapsed pipe frame s in
      match r with Some _ => sub_run s evs | None => None end
  | Detach pipe :: evs => sub_run (pipe_detached pipe s) evs
  | Receive timeout elapsed :: evs =>
      let '(s, r) := recv_multipart elapsed (s <| core := (core s) <| rcvtimeo := timeout |> |>) in
      match r with
      | Some (Ok message) => '(s, outs) ← sub_run s evs; Some (s, message :: outs)
      | Some _ => sub_run s evs
      | None => None
      end
  end.

(** The messages of interest. *)
Definition interesting (subs : TrieNode) (pipe : Z) (message : list Msg) : option (list Msg) :=
  if SubscriptionTrie.matches subs (topic_of message) then Some message else None.

Lemma to_all_unchanged b topic s :
  subscriptions (send_subscription_command_to_all b topic s) = subscriptions s /\
  incoming_orchestrator (send_subscription_command_to_all b topic s) = incoming_orchestrator s /\
  core (send_subscription_command_to_all b topic s) = core s.
Proof. done. Qed.

Lemma subscribe_all_spec ops s :
  subscriptions (subscribe_all ops s) = foldl trie_apply (subscriptions s) ops /\
  incoming_orchestrator (subscribe_all ops s) = incoming_orchestrator s /\ core (subscribe_all ops s) = core s.
Proof.
  revert s. induction ops as [|op ops IH]; intros s; [done|]. unfold subscribe_all in *. cbn [foldl].
  edestruct IH as (-> & -> & ->). destruct op as [topic|topic]; cbn.
  - done.
  - unfold set_pattern_option. cbn. destruct (SubscriptionTrie.unsubscribe topic (subscriptions s)) as [subs []]; done.
Qed.

Lemma sub_run_orch evs s :
  is_running (core s) = true ->
  orch_run (interesting (subscriptions s)) id (incoming_orchestrator s) evs =
  fmap (M:=option) (fun x => (incoming_orchestrator x.1, x.2)) (sub_run s evs).
Proof.
  revert s. induction evs as [|ev evs IH]; intros s Hrun; [done|].
  destruct ev as [pipe frame elapsed|pipe|timeout elapsed]; cbn [orch_run sub_run].
  - unfold pipe_frame, handle_pipe_event, interesting.
    destruct (Orchestrator.accumulate_pipe_frame pipe frame (incoming_orchestrator s)) as [o [message|]]; [|by rewrite <- IH].
    destruct (SubscriptionTrie.matches (subscriptions s) (topic_of message)); [|by rewrite <- IH].
    destruct (Orchestrator.queue_item elapsed message o) as [o' [r|]]; [by rewrite <- IH|done].
  - by rewrite <- IH.
  - unfold recv_multipart. set (s1 := s <| core := _ |>). assert (is_running (core s1) = true) as -> by done.
    change (rcvtimeo (core s1)) with timeout. change (incoming_orchestrator s1) with (incoming_orchestrator s).
    cbn [negb].
    destruct (Orchestrator.recv_logical_message elapsed timeout id (incoming_orchestrator s)) as [o [[message|e|]|]];
      [|by rewrite <- IH..|done].
    change (subscriptions s) with (subscriptions (s1 <| incoming_orchestrator := o |>)).
    change o with (incoming_orchestrator (s1 <| incoming_orchestrator := o |>)) at 2. rewrite IH by done.
    by destruct (sub_run (s1 <| incoming_orchestrator := o |>) evs) as [[s2 outs]|].
Qed.

Context `{!FibreLaws}.

(** Some topic of the bag is a prefix of the first frame. *)
Definition wanted (topics : list bytes) (message : list Msg) : Prop :=
  Exists (fun topic => topic `prefix_of` topic_of message) topics.

Lemma items_of_interesting ops complete :
  zlen ops < 2 ^ 64 ->
  items_of (interesting (foldl trie_apply SubscriptionTrie.new ops)) complete =
  filter (wanted (foldl bag_apply [] ops)) complete.*2.
Proof.
  intros Hlen. induction complete as [|[pipe message] complete IH]; [done|].
  unfold items_of in *. cbn [omap list_omap fmap list_fmap snd fst]. unfold interesting at 1.
  destruct (SubscriptionTrie.matches _ (topic_of message)) eqn:Hm.
  - rewrite filter_cons_True; [by f_equal|]. apply Exists_exists. by apply trie_matches in Hm.
  - rewrite filter_cons_False; [done|]. intros Hw%Exists_exists. apply trie_matches in Hw; [|done]. congruence.
Qed.


End Sub.
End Sub.

(** ** Witness *)

Section Witness.
#[local] Existing Instance list_fibre.
#[local] Instance take_all : ISocketConnection (list (Z * list Msg)) := record_conn [].


(** PUB hands each frame of a message to each peer on its own: with a peer at its
    high-water mark for the first frame only, that peer gets the end of a message
    without its beginning.  [send_multipart] does not. *)
Definition full_once : ISocketConnection (list (Z * list Msg) * bool) :=
  Build_ISocketConnection (list (Z * list Msg) * bool) (fun conn msgs w =>
    if w.2 then ((w.1, false), Err ResourceLimitReached) else ((w.1 ++ [(conn, msgs)], false), Ok tt)).

Lemma pub_splits_message :
  let frame data more := mkMsg (Some (bs data)) (mk_flags more false) in
  let c := mkCore Running None None 1 10 false (<["tcp://a" := mkEndpoint 10 (Some (0, 1)) 1 None]> ∅)
             (<[1 := "tcp://a"]> ∅) in
  let s := Pub.pipe_attached 1 (Pub.new c ([], true)) in
  let s := (Pub.send (H := full_once) elements (frame "topic" true) s).1 in
  let s := (Pub.send (H := full_once) elements (frame "data" false) s).1 in
  (Pub.world s).1 = [(10, [frame "data" false])].
Proof. reflexivity. Qed.

End Witness.
